(** * vtkDICOMCharacterSet: a shallow embedding of Source/vtkDICOMCharacterSet.cxx

    The converters of [vtkDICOMCharacterSet] are embedded as functions over
    byte lists.  A [const char *] cursor with its end pointer is the list of
    the bytes that remain; an offset [cp - text] is a [nat]; a [std::string]
    that is only appended to is the list of the bytes that were appended.
    C integers are [Z]: [unsigned char] and [unsigned short] assignments are
    written with their wrap-around ([to_char], [u16]). *)

From Stdlib Require Import Strings.String.
From Stdlib Require Import ZArith List Lia Bool Strings.Byte.
Import ListNotations.
Open Scope Z_scope.

(** ** Bytes and machine integers *)

(** [static_cast<unsigned char>(c)]: the value of a byte, 0..255. *)
Definition uchar (c : byte) : Z := Z.of_N (Byte.to_N c).

(** [static_cast<char>(z)]: the low eight bits of an integer. *)
Definition to_char (z : Z) : byte :=
  match Byte.of_N (Z.to_N (z mod 256)) with
  | Some c => c
  | None => x00
  end.

(** An [unsigned short] holds its value modulo 2^16. *)
Definition u16 (z : Z) : Z := z mod 65536.

(** An [unsigned char] holds its value modulo 2^8. *)
Definition u8 (z : Z) : Z := z mod 256.

(** A C truth value. *)
Definition b2z (b : bool) : Z := if b then 1 else 0.

(** Reading a static array of [unsigned short]; the C code indexes its
    local tables within bounds, a read outside is modelled as 0. *)
Definition at16 (t : list Z) (i : Z) : Z := u16 (nth (Z.to_nat i) t 0).

(** ** The UTF-8 codec *)

(** [UnicodeToUTF8(code, s)]: the bytes appended to [s]. *)
Definition UnicodeToUTF8 (code : Z) : list byte :=
  if code <=? 0x007F then
    [to_char code]
  else if code <=? 0x07FF then
    [to_char (Z.lor 0xC0 (Z.shiftr code 6));
     to_char (Z.lor 0x80 (Z.land code 0x3F))]
  else if code <=? 0xFFFF then
    [to_char (Z.lor 0xE0 (Z.shiftr code 12));
     to_char (Z.lor 0x80 (Z.land (Z.shiftr code 6) 0x3F));
     to_char (Z.lor 0x80 (Z.land code 0x3F))]
  else if code <=? 0x10FFFF then
    [to_char (Z.lor 0xF0 (Z.shiftr code 18));
     to_char (Z.lor 0x80 (Z.land (Z.shiftr code 12) 0x3F));
     to_char (Z.lor 0x80 (Z.land (Z.shiftr code 6) 0x3F));
     to_char (Z.lor 0x80 (Z.land code 0x3F))]
  else
    [to_char 0xEF; to_char 0xBF; to_char 0xBD].

(** The two-byte branch of [UTF8ToUnicode]: [code] is the lead byte, [cp]
    the cursor after it.  The result is [(good, code, cp)]. *)
Definition UTF8ToUnicode_2 (code : Z) (cp : list byte) : Z * Z * list byte :=
  let code := Z.shiftl (Z.land code 0x1F) 6 in
  if Z.land code 0x0780 =? 0 then (0, code, cp)
  else
    match cp with
    | [] => (-1, code, cp)
    | c1 :: cp1 =>
      let s := uchar c1 in
      let good := Z.land s 0xC0 =? 0x80 in
      (b2z good, Z.lor code (Z.land s 0x3F), if good then cp1 else cp)
    end.

(** The test for a low surrogate after a high surrogate, with the cursor
    [cp] after the three bytes of the high surrogate. *)
Definition UTF8ToUnicode_low (code : Z) (cp : list byte) : Z * Z * list byte :=
  match cp with
  | [] => (-1, code, cp)
  | d0 :: cp1 =>
    if uchar d0 =? 0xED then
      match cp1 with
      | [] => (-1, code, cp)
      | d1 :: cp2 =>
        if Z.land (uchar d1) 0xF0 =? 0xB0 then
          match cp2 with
          | [] => (-1, code, cp)
          | d2 :: cp3 =>
            if Z.land (uchar d2) 0xC0 =? 0x80 then
              let code := Z.land code 0x03FF in
              let code := Z.shiftl code 4 in
              let code := Z.lor code (Z.land (uchar d1) 0x0F) in
              let code := Z.shiftl code 6 in
              let code := Z.lor code (Z.land (uchar d2) 0x3F) in
              (1, code + 0x010000, cp3)
            else (0, code, cp)
          end
        else (0, code, cp)
      end
    else (0, code, cp)
  end.

(** The three-byte branch of [UTF8ToUnicode]. *)
Definition UTF8ToUnicode_3 (code : Z) (cp : list byte) : Z * Z * list byte :=
  match cp with
  | [] => (-1, code, cp)
  | c1 :: cp1 =>
    let code := Z.shiftl (Z.land code 0x0F) 6 in
    let s := uchar c1 in
    let good := negb (Z.lor code (Z.land s 0x20) =? 0)
                && (Z.land s 0xC0 =? 0x80) in
    if good then
      let code := Z.shiftl (Z.lor code (Z.land s 0x3F)) 6 in
      match cp1 with
      | [] => (-1, code, cp1)
      | c2 :: cp2 =>
        let s := uchar c2 in
        let good := Z.land s 0xC0 =? 0x80 in
        let cp' := if good then cp2 else cp1 in
        let code := Z.lor code (Z.land s 0x3F) in
        if (Z.land code 0xFC00 =? 0xD800) && good then
          UTF8ToUnicode_low code cp'
        else (b2z good, code, cp')
      end
    else (0, code, cp)
  end.

(** The four-byte branch of [UTF8ToUnicode]. *)
Definition UTF8ToUnicode_4 (code : Z) (cp : list byte) : Z * Z * list byte :=
  match cp with
  | [] => (-1, code, cp)
  | c1 :: cp1 =>
    let code := Z.shiftl (Z.land code 0x07) 6 in
    let s := uchar c1 in
    let good := negb (Z.lor code (Z.land s 0x30) =? 0)
                && (Z.land s 0xC0 =? 0x80) in
    if good then
      match cp1 with
      | [] => (-1, code, cp1)
      | c2 :: cp2 =>
        let code := Z.shiftl (Z.lor code (Z.land s 0x3F)) 6 in
        let s := uchar c2 in
        if Z.land s 0xC0 =? 0x80 then
          match cp2 with
          | [] => (-1, code, cp2)
          | c3 :: cp3 =>
            let code := Z.shiftl (Z.lor code (Z.land s 0x3F)) 6 in
            let s := uchar c3 in
            let good := Z.land s 0xC0 =? 0x80 in
            let cp' := if good then cp3 else cp2 in
            let code := Z.lor code (Z.land s 0x3F) in
            (b2z (good && (code <=? 0x10FFFF)), code, cp')
          end
        else (0, code, cp1)
      end
    else (0, code, cp)
  end.

(** [UTF8ToUnicode(&cp, cpEnd)]: the code and the cursor after the call.
    0xFFFF marks a malformed sequence, 0xFFFE one cut off by the end. *)
Definition UTF8ToUnicode (cp : list byte) : Z * list byte :=
  match cp with
  | [] => (0, cp)
  | c0 :: cp1 =>
    let code := uchar c0 in
    if negb (Z.land code 0x80 =? 0) then
      let '(good, code, cp') :=
        if Z.land code 0xE0 =? 0xC0 then UTF8ToUnicode_2 code cp1
        else if Z.land code 0xF0 =? 0xE0 then UTF8ToUnicode_3 code cp1
        else if Z.land code 0xF8 =? 0xF0 then UTF8ToUnicode_4 code cp1
        else (0, code, cp1) in
      if good =? 0 then (0xFFFF, cp')
      else if good <? 0 then (0xFFFE, cp')
      else (code, cp')
    else (code, cp1)
  end.

(** [enum { UTF8_IGNORE, UTF8_REPLACE, UTF8_ESCAPE }] *)
Inductive Mode : Set := UTF8_IGNORE | UTF8_REPLACE | UTF8_ESCAPE.

(** [BadCharsToUTF8(cp, ep, s, mode)] for the bad bytes [cp..ep). *)
Definition BadCharsToUTF8 (bad : list byte) (mode : Mode) : list byte :=
  match mode with
  | UTF8_REPLACE => UnicodeToUTF8 0xFFFD
  | UTF8_ESCAPE => flat_map (fun c => UnicodeToUTF8 (0xDC00 + uchar c)) bad
  | UTF8_IGNORE => []
  end.

(** ** Case folding *)

(** The static tables of [CaseFoldUnicode], in the order they appear. *)
Definition fold_0180 : list Z :=
  [0x0180; 0x0253; 0x0183; 0x0183; 0x0185; 0x0185; 0x0254; 0x0188;
   0x0188; 0x0256; 0x0257; 0x018C; 0x018C; 0x018D; 0x01DD; 0x0259;
   0x025B; 0x0192; 0x0192; 0x0260; 0x0263; 0x0195; 0x0269; 0x0268;
   0x0199; 0x0199; 0x019A; 0x019B; 0x026F; 0x0272; 0x019E; 0x0275;
   0x01A1; 0x01A1; 0x01A3; 0x01A3; 0x01A5; 0x01A5; 0x0280; 0x01A8;
   0x01A8; 0x0283; 0x01AA; 0x01AB; 0x01AD; 0x01AD; 0x0288; 0x01B0;
   0x01B0; 0x028A; 0x028B; 0x01B4; 0x01B4; 0x01B6; 0x01B6; 0x0292;
   0x01B9; 0x01B9; 0x01BA; 0x01BB; 0x01BD; 0x01BD; 0x01BE; 0x01BF;
   0x01C0; 0x01C1; 0x01C2; 0x01C3; 0x01C6; 0x01C6; 0x01C6; 0x01C9;
   0x01C9; 0x01C9; 0x01CC].

Definition fold_01F0 : list Z :=
  [0x01F0; 0x01F3; 0x01F3; 0x01F3; 0x01F5; 0x01F5; 0x0195; 0x01BF;
   0x01F9; 0x01F9; 0x01FB; 0x01FB; 0x01FD; 0x01FD; 0x01FF; 0x01FF;
   0x0201; 0x0201; 0x0203; 0x0203; 0x0205; 0x0205; 0x0207; 0x0207;
   0x0209; 0x0209; 0x020B; 0x020B; 0x020D; 0x020D; 0x020F; 0x020F;
   0x0211; 0x0211; 0x0213; 0x0213; 0x0215; 0x0215; 0x0217; 0x0217;
   0x0219; 0x0219; 0x021B; 0x021B; 0x021D; 0x021D; 0x021F; 0x021F;
   0x019E; 0x0221; 0x0223; 0x0223; 0x0225; 0x0225; 0x0227; 0x0227;
   0x0229; 0x0229; 0x022B; 0x022B; 0x022D; 0x022D; 0x022F; 0x022F;
   0x0231; 0x0231; 0x0233; 0x0233; 0x0234; 0x0235; 0x0236; 0x0237;
   0x0238; 0x0239; 0x2C65; 0x023C; 0x023C; 0x019A; 0x2C66; 0x023F;
   0x0240; 0x0242; 0x0242; 0x0180; 0x0289; 0x028C; 0x0247; 0x0247;
   0x0249; 0x0249; 0x024B; 0x024B; 0x024D; 0x024D; 0x024F; 0x024F].

Definition fold_0370 : list Z :=
  [0x0371; 0x0371; 0x0373; 0x0373; 0x0374; 0x0375; 0x0377; 0x0377;
   0x0378; 0x0379; 0x037A; 0x037B; 0x037C; 0x037D; 0x037E; 0x03F3;
   0x0380; 0x0381; 0x0382; 0x0383; 0x0384; 0x0385; 0x03AC; 0x0387;
   0x03AD; 0x03AE; 0x03AF; 0x038B; 0x03CC; 0x038D; 0x03CD; 0x03CE].

Definition fold_03CF : list Z :=
  [0x03D7; 0x03B2; 0x03B8; 0x03D2; 0x03D3; 0x03D4; 0x03C6; 0x03C0].

Definition fold_03F0 : list Z :=
  [0x03BA; 0x03C1; 0x03F2; 0x03F3; 0x03B8; 0x03B5; 0x03F6; 0x03F8;
   0x03F8; 0x03F2; 0x03FB; 0x03FB; 0x03FC; 0x037B; 0x037C; 0x037D].

Definition fold_1E96 : list Z :=
  [0x68; 0x74; 0x77; 0x79; 0x61; 0x1E61].

Definition fold_1E96_2 : list Z :=
  [0x0331; 0x0308; 0x030A; 0x030A; 0x02BE; 0].

Definition fold_1F50_3 : list Z :=
  [0; 0; 0x0300; 0; 0x0301; 0; 0x0342].

Definition fold_1FB2 : list Z :=
  [0x1F70; 0x03B1; 0x03AC; 0x1FB5; 0x03B1; 0x03B1; 0x1FB0; 0x1FB1;
   0x1F70; 0x1F71; 0x03B1; 0x1FBD; 0x03B9; 0x1FBF; 0x1FC0; 0x1FC1;
   0x1F74; 0x03B7; 0x03AE; 0x1FC5; 0x03B7; 0x03B7; 0x1F72; 0x1F73;
   0x1F74; 0x1F75; 0x03B7; 0x1FCD; 0x1FCE; 0x1FCF; 0x1FD0; 0x1FD1;
   0x03B9; 0x03B9; 0x1FD4; 0x1FD5; 0x03B9; 0x03B9; 0x1FD0; 0x1FD1;
   0x1F76; 0x1F77; 0x1FDC; 0x1FDD; 0x1FDE; 0x1FDF; 0x1FE0; 0x1FE1;
   0x03C5; 0x03C5; 0x03C1; 0x1FE5; 0x03C5; 0x03C5; 0x1FE0; 0x1FE1;
   0x1F7A; 0x1F7B; 0x1FE5; 0x1FED; 0x1FEE; 0x1FEF; 0x1FF0; 0x1FF1;
   0x1F7C; 0x03C9; 0x03CE; 0x1FF5; 0x03C9; 0x03C9; 0x1F78; 0x1F79;
   0x1F7C; 0x1F7D; 0x03C9].

Definition fold_2C60 : list Z :=
  [0x2C61; 0x2C61; 0x026B; 0x1D7D; 0x027D; 0x2C65; 0x2C66; 0x2C68;
   0x2C68; 0x2C6A; 0x2C6A; 0x2C6C; 0x2C6C; 0x0251; 0x0271; 0x0250;
   0x0252; 0x2C71; 0x2C73; 0x2C73; 0x2C74; 0x2C76; 0x2C76; 0x2C77;
   0x2C78; 0x2C79; 0x2C7A; 0x2C7B; 0x2C7C; 0x2C7D; 0x023F; 0x0240].

Definition fold_A7AA : list Z :=
  [0x0266; 0x025C; 0x0261; 0x026C; 0xA7AE; 0xA7AF; 0x029E; 0x0287;
   0x029D; 0xAB53; 0xA7B5; 0xA7B5; 0xA7B7].

Definition fold_FB13 : list Z :=
  [0x0574; 0x0574; 0x0574; 0x057E; 0x0574].

Definition fold_FB13_2 : list Z :=
  [0x0576; 0x0565; 0x056B; 0x0576; 0x056D].

(** [a <= code && code <= b] *)
Definition within (a b code : Z) : bool := (a <=? code) && (code <=? b).

(** The branch of [CaseFoldUnicode] for 0x1FB2..0x1FFC: [(code2, code3)]. *)
Definition fold_1FB2_marks (code : Z) : Z * Z :=
  if (code <=? 0x1FB4) || (code =? 0x1FBC) || within 0x1FC2 0x1FC4 code
     || (code =? 0x1FCC) || within 0x1FF2 0x1FF4 code || (code =? 0x1FFC)
  then (0x03B9, 0)
  else if (code =? 0x1FB6) || (code =? 0x1FC6) || (code =? 0x1FD6)
          || (code =? 0x1FE6) || (code =? 0x1FF6)
  then (0x0342, 0)
  else if (code =? 0x1FB6) || (code =? 0x1FB7) || (code =? 0x1FC7)
          || (code =? 0x1FF7)
  then (0x0342, 0x03B9)
  else if within 0x1FD2 0x1FD3 code
  then (0x0308, code - (0x1FD2 - 0x0300))
  else if (code =? 0x1FD7) || (code =? 0x1FE7)
  then (0x0308, 0x0342)
  else if within 0x1FE2 0x1FE3 code
  then (0x0308, code - (0x1FE2 - 0x0300))
  else if code =? 0x1FE4
  then (0x0313, 0)
  else (0, 0).

(** The code points [(code, code2, code3)] that [CaseFoldUnicode] computes
    before it writes them; [code2] and [code3] are 0 when absent. *)
Definition CaseFoldCodes (code : Z) : Z * Z * Z :=
  if code <=? 0x7f then
    if within 0x41 0x5A code then (code + 0x20, 0, 0) else (code, 0, 0)
  else if code <=? 0xff then
    if within 0xC0 0xDE code && negb (code =? 0xD7) then (code + 0x20, 0, 0)
    else if code =? 0xDF then (0x73, 0x73, 0)
    else if code =? 0xB5 then (0x03BC, 0, 0)
    else (code, 0, 0)
  else if code <=? 0x017f then
    if within 0x0100 0x012F code then (Z.lor code 0x0001, 0, 0)
    else if code =? 0x0130 then (0x69, 0x0307, 0)
    else if within 0x0132 0x0137 code then (Z.lor code 0x0001, 0, 0)
    else if within 0x139 0x148 code then (code + Z.land code 0x0001, 0, 0)
    else if code =? 0x0149 then (0x02BC, 0x6E, 0)
    else if within 0x014A 0x0177 code then (Z.lor code 0x0001, 0, 0)
    else if code =? 0x0178 then (0xFF, 0, 0)
    else if within 0x0179 0x017E code then (code + Z.land code 0x0001, 0, 0)
    else if code =? 0x017F then (0x73, 0, 0)
    else (code, 0, 0)
  else if code <=? 0x036f then
    if within 0x0180 0x01CA code then (at16 fold_0180 (code - 0x0180), 0, 0)
    else if within 0x01CB 0x01DC code then (code + Z.land code 0x0001, 0, 0)
    else if within 0x01DE 0x01EF code then (Z.lor code 0x0001, 0, 0)
    else if code =? 0x01F0 then (0x006A, 0x030C, 0)
    else if within 0x01F0 0x024F code then (at16 fold_01F0 (code - 0x01F0), 0, 0)
    else if code =? 0x0345 then (0x03B9, 0, 0)
    else (code, 0, 0)
  else if code <=? 0x03ff then
    if within 0x0370 0x038F code then (at16 fold_0370 (code - 0x0370), 0, 0)
    else if within 0x0391 0x03A1 code || within 0x03A3 0x03AB code
    then (code + 0x20, 0, 0)
    else if code =? 0x0390 then (0x03B9, 0x0308, 0x0301)
    else if code =? 0x03B0 then (0x03C5, 0x0308, 0x0301)
    else if code =? 0x03C2 then (code + 0x01, 0, 0)
    else if within 0x03CF 0x03D6 code then (at16 fold_03CF (code - 0x03CF), 0, 0)
    else if within 0x03D8 0x03EF code then (Z.lor code 0x0001, 0, 0)
    else if within 0x03F0 0x03FF code then (at16 fold_03F0 (code - 0x03F0), 0, 0)
    else (code, 0, 0)
  else if code <=? 0x052f then
    if within 0x0400 0x040F code then (code + 0x50, 0, 0)
    else if within 0x0410 0x042F code then (code + 0x20, 0, 0)
    else if within 0x0460 0x0481 code || within 0x048A 0x04BF code
    then (Z.lor code 0x0001, 0, 0)
    else if code =? 0x04C0 then (0x04CF, 0, 0)
    else if within 0x04C1 0x04CE code then (code + Z.land code 0x0001, 0, 0)
    else if within 0x04D0 0x052F code then (Z.lor code 0x0001, 0, 0)
    else (code, 0, 0)
  else if code <=? 0x1000 then
    if within 0x0531 0x0556 code then (code + 0x30, 0, 0)
    else if code =? 0x0587 then (0x0565, 0x0582, 0)
    else (code, 0, 0)
  else if code <=? 0x13ff then
    if within 0x10A0 0x10C5 code || (code =? 0x10C7) || (code =? 0x10CD)
    then (code + 0x1C60, 0, 0)
    else if within 0x13F8 0x13FD code then (code - 0x08, 0, 0)
    else (code, 0, 0)
  else if code <=? 0x1eff then
    if within 0x1E00 0x1E95 code then (Z.lor code 0x0001, 0, 0)
    else if within 0x1E96 0x1E9B code
    then (at16 fold_1E96 (code - 0x1E96), at16 fold_1E96_2 (code - 0x1E96), 0)
    else if code =? 0x1E9E then (0x73, 0x73, 0)
    else if within 0x1EA0 0x1EFE code then (Z.lor code 0x0001, 0, 0)
    else (code, 0, 0)
  else if code <=? 0x1fff then
    if within 0x1F08 0x1F0F code || within 0x1F18 0x1F1D code
       || within 0x1F28 0x1F2F code || within 0x1F38 0x1F3F code
       || within 0x1F48 0x1F4D code
    then (code - 0x08, 0, 0)
    else if within 0x1F50 0x1F56 code && (Z.land code 0x1 =? 0)
    then (0x03C5, 0x0313, at16 fold_1F50_3 (code - 0x1F50))
    else if (within 0x1F59 0x1F5F code && negb (Z.land code 0x1 =? 0))
            || within 0x1F68 0x1F6F code
    then (code - 0x08, 0, 0)
    else if within 0x1F80 0x1FAF code then
      (if code <=? 0x1F87 then code - 0x80
       else if code <=? 0x1F8F then code - 0x88
       else if code <=? 0x1F97 then code - 0x70
       else if code <=? 0x1F9F then code - 0x78
       else if code <=? 0x1FA7 then code - 0x40
       else code - 0x48, 0x03B9, 0)
    else if within 0x1FB2 0x1FFC code then
      let '(code2, code3) := fold_1FB2_marks code in
      (at16 fold_1FB2 (code - 0x1FB2), code2, code3)
    else (code, 0, 0)
  else if code <=? 0x24ff then
    if code =? 0x2126 then (0x03C9, 0, 0)
    else if code =? 0x212A then (0x6B, 0, 0)
    else if code =? 0x212B then (0xE5, 0, 0)
    else if code =? 0x2132 then (0x214E, 0, 0)
    else if within 0x2160 0x216F code then (code + 0x10, 0, 0)
    else if code =? 0x2183 then (code + 0x01, 0, 0)
    else if within 0x24B6 0x24CF code then (code + 0x1a, 0, 0)
    else (code, 0, 0)
  else if code <=? 0x2cff then
    if within 0x2C00 0x2C2E code then (code + 0x30, 0, 0)
    else if within 0x2C60 0x2C7F code then (at16 fold_2C60 (code - 0x2C60), 0, 0)
    else if within 0x2C80 0x2CF3 code then
      if code <=? 0x2CE3 then (Z.lor code 0x0001, 0, 0)
      else if (code =? 0x2CEB) || (code =? 0x2CED) || (code =? 0x2CF2)
      then (code + 0x0001, 0, 0)
      else (code, 0, 0)
    else (code, 0, 0)
  else if code <=? 0x9fff then (code, 0, 0)
  else if code <=? 0xabff then
    if within 0xA640 0xA66D code || within 0xA680 0xA69B code
    then (Z.lor code 0x0001, 0, 0)
    else if within 0xA722 0xA76F code && negb (code =? 0xA730)
    then (Z.lor code 0x0001, 0, 0)
    else if within 0xA779 0xA77C code then (code + Z.land code 0x0001, 0, 0)
    else if code =? 0xA77D then (0x1D79, 0, 0)
    else if within 0xA77E 0xA787 code then (Z.lor code 0x0001, 0, 0)
    else if code =? 0xA78B then (code + 0x0001, 0, 0)
    else if code =? 0xA78D then (0x0265, 0, 0)
    else if within 0xA790 0xA7A9 code && negb (code =? 0xA794)
    then (Z.lor code 0x0001, 0, 0)
    else if within 0xA7AA 0xA7B6 code then (at16 fold_A7AA (code - 0xA7AA), 0, 0)
    else if within 0xAB70 0xABBF code then (code - 0x97D0, 0, 0)
    else (code, 0, 0)
  else if code <=? 0xfaff then (code, 0, 0)
  else if code <=? 0xfbff then
    if within 0xFB00 0xFB06 code then
      if code <=? 0xFB04 then
        if code =? 0xFB01 then (0x66, 0x69, 0)
        else if code =? 0xFB02 then (0x66, 0x6C, 0)
        else (0x66, 0x66,
              if code =? 0xFB03 then 0x69
              else if code =? 0xFB04 then 0x6C else 0)
      else (0x73, 0x74, 0)
    else if within 0xFB13 0xFB17 code
    then (at16 fold_FB13 (code - 0xFB13), at16 fold_FB13_2 (code - 0xFB13), 0)
    else (code, 0, 0)
  else if code <=? 0xffff then
    if within 0xFF21 0xFF3A code then (code + 0x20, 0, 0) else (code, 0, 0)
  else
    if within 0x10400 0x10427 code then (code + 0x28, 0, 0)
    else if within 0x10C80 0x10CB2 code then (code + 0x40, 0, 0)
    else if within 0x118A0 0x118BF code then (code + 0x20, 0, 0)
    else (code, 0, 0).

(** [CaseFoldUnicode(code, s)]: one to three code points, written as UTF-8. *)
Definition CaseFoldUnicode (code : Z) : list byte :=
  let '(code, code2, code3) := CaseFoldCodes code in
  UnicodeToUTF8 code ++
  (if negb (code2 =? 0) then
     UnicodeToUTF8 code2 ++
     (if negb (code3 =? 0) then UnicodeToUTF8 code3 else [])
   else []).

(** ** What the header declares

    [vtkDICOMCharacterSet.h] and [vtkDICOMCharacterSetTables.h] are not part
    of the sources at hand.  The enumerators, the bit masks of the ISO 2022
    state, the two inline predicates and the conversion tables that the
    header declares are the fields of [Header]: every definition below is
    parametric in them, and a theorem states the facts about them that it
    uses.  [Table] and [Reverse] give the packed [unsigned short] array of
    a key, or [None] for a null pointer. *)
Class Header : Type := {
  ISO_IR_6 : Z; ISO_IR_13 : Z; ISO_IR_100 : Z; ISO_IR_101 : Z;
  ISO_IR_109 : Z; ISO_IR_110 : Z; ISO_IR_144 : Z; ISO_IR_127 : Z;
  ISO_IR_126 : Z; ISO_IR_138 : Z; ISO_IR_148 : Z; ISO_IR_166 : Z;
  X_LATIN6 : Z; X_LATIN7 : Z; X_LATIN8 : Z; X_LATIN9 : Z; X_LATIN10 : Z;
  X_EUCKR : Z; X_GB2312 : Z;
  ISO_2022_IR_6 : Z; ISO_2022_IR_13 : Z; ISO_2022_IR_87 : Z;
  ISO_2022_IR_159 : Z; ISO_2022_IR_149 : Z; ISO_2022_IR_58 : Z;
  ISO_IR_192 : Z; GB18030 : Z; GBK : Z; X_BIG5 : Z; X_EUCJP : Z; X_SJIS : Z;
  X_CP874 : Z; X_CP1250 : Z; X_CP1251 : Z; X_CP1252 : Z; X_CP1253 : Z;
  X_CP1254 : Z; X_CP1255 : Z; X_CP1256 : Z; X_CP1257 : Z; X_CP1258 : Z;
  X_KOI8 : Z; Unknown : Z;
  ISO_2022 : Z; ISO_2022_BASE : Z; ISO_2022_JP_BASE : Z; ISO_2022_MAX : Z;
  ALTERNATE_CS : Z;
  MULTIBYTE_G0 : Z; MULTIBYTE_G1 : Z; MULTIBYTE_G2 : Z; MULTIBYTE_G3 : Z;
  CHARSET96_GX : Z; CHARSET96_G1 : Z; CHARSET96_G2 : Z; CHARSET96_G3 : Z;
  IsISO2022 : Z -> bool;
  IsISO8859 : Z -> bool;
  Table : Z -> option (list Z);
  Reverse : Z -> option (list Z)
}.

(** Modelled from the spec: the sentinel of the compressed tables, declared
    with the tables; a lookup answers "the sentinel (0xFFFD) when absent". *)
Definition RCHAR : Z := 0xFFFD.

(** [enum EscapeType], by the enumerators that the code names. *)
Inductive EscapeType : Set :=
| CODE_ACS | CODE_CZD | CODE_C1D | CODE_GZD | CODE_G1D | CODE_G2D | CODE_G3D
| CODE_DOCS | CODE_CMD | CODE_IRR | CODE_SS2 | CODE_SS3
| CODE_LS2 | CODE_LS3 | CODE_LS1R | CODE_LS2R | CODE_LS3R
| CODE_OTHER | CODE_ERROR.

(** ** Compressed tables *)

(** [class CompressedTable]: the packed array with [M] and [N];
    [HTable = table + 1] and [LTable = HTable + M + 1]. *)
Record CompressedTable : Type := {
  ct_table : list Z;
  ct_M : Z;
  ct_N : Z
}.

Definition mkCompressedTable (table : list Z) : CompressedTable :=
  let M := at16 table 0 in
  {| ct_table := table; ct_M := M; ct_N := at16 table (M + 1) |}.

(** A null table pointer is modelled as an array that reads as zeros. *)
Definition table_of (p : option (list Z)) : CompressedTable :=
  mkCompressedTable (match p with Some t => t | None => [] end).

Definition HTable (t : CompressedTable) (k : Z) : Z :=
  at16 (ct_table t) (1 + k).

Definition LTable (t : CompressedTable) (i : Z) : Z :=
  at16 (ct_table t) (ct_M t + 2 + i).

(** The loop over the hot ranges of [operator[]]: [uptr - LTable] at the
    [goto found], if a hot range holds [x]. *)
Fixpoint hot_lookup (t : CompressedTable) (x : Z) (ks : list nat) : option Z :=
  match ks with
  | [] => None
  | k :: ks' =>
    let u := HTable t (Z.of_nat k) in
    if (LTable t u <=? x)
       && ((u + 1 =? ct_N t) || (x <? LTable t (u + 1)))
    then Some (u + 1)
    else hot_lookup t x ks'
  end.

(** [std::upper_bound(LTable, LTable+N, x)] as the usual halving search
    over [first, first+len). *)
Fixpoint upper_bound (t : CompressedTable) (x : Z) (fuel : nat)
    (first len : Z) : Z :=
  match fuel with
  | O => first
  | S fuel' =>
    if 0 <? len then
      let half := Z.shiftr len 1 in
      let middle := first + half in
      if x <? LTable t middle
      then upper_bound t x fuel' first half
      else upper_bound t x fuel' (middle + 1) (len - half - 1)
    else first
  end.

(** [CompressedTable::operator[](unsigned short x)] *)
Definition lookup (t : CompressedTable) (x : Z) : Z :=
  let x := u16 x in
  let N := ct_N t in
  let uptr :=
    match hot_lookup t x (seq 0 (Z.to_nat (ct_M t))) with
    | Some u => u
    | None => upper_bound t x (Z.to_nat N) 0 N
    end in
  let uptr := uptr - 1 in
  let y := LTable t (uptr + N) in
  if negb (y =? RCHAR) then
    u16 (y + (x - LTable t uptr))
  else
    let y := LTable t (uptr + 2 * N) in
    if negb (y =? RCHAR) then
      let y := u16 (y + (x - LTable t uptr)) in
      LTable t (3 * N + y)
    else y.

(** [CompressedTable::GetBlock(x)]: the offset in [LTable] where the block
    starts.  With no hot range ([M = 0]) the C code reads through a null
    pointer; the model starts from range 0. *)
Definition GetBlock (t : CompressedTable) (x : Z) : Z :=
  let fix go (ks : list nat) (uptr : Z) : Z :=
    match ks with
    | [] => uptr
    | k :: ks' =>
      let u := HTable t (Z.of_nat k) in
      if LTable t u =? x then u else go ks' u
    end in
  let uptr := go (seq 0 (Z.to_nat (ct_M t))) 0 in
  let y := u16 (LTable t (uptr + 2 * ct_N t) + (x - LTable t uptr)) in
  3 * ct_N t + y.

(** [CompressedTableR::operator[](unsigned int x)] *)
Definition lookupR (t : CompressedTable) (x : Z) : Z :=
  if x <=? 0xFFFD then lookup t x else 0xFFFD.

(** [CompressedTableJISXR::operator[](unsigned int x)] *)
Definition lookupJISXR (t : CompressedTable) (x : Z) : Z :=
  if x <=? 0xFFFD then lookup t x
  else if x =? 0x20B9F then 2561
  else 0xFFFD.

(** [std::binary_search(block, block+len, code)] over the block of [LTable]
    that starts at offset [block]: [std::lower_bound], then the test. *)
Fixpoint lower_bound (t : CompressedTable) (block : Z) (x : Z) (fuel : nat)
    (first len : Z) : Z :=
  match fuel with
  | O => first
  | S fuel' =>
    if 0 <? len then
      let half := Z.shiftr len 1 in
      let middle := first + half in
      if LTable t (block + middle) <? x
      then lower_bound t block x fuel' (middle + 1) (len - half - 1)
      else lower_bound t block x fuel' first half
    else first
  end.

Definition binary_search (t : CompressedTable) (block len : Z) (x : Z) : bool :=
  let i := lower_bound t block x (Z.to_nat len) 0 len in
  negb (i =? len) && negb (x <? LTable t (block + i)).

(** ** The conversion loop

    Every converter has the same loop: [while (cp != ep)] with [lastpos],
    an [errpos] that keeps the first error, and
    [return (errpos ? errpos-text : cp-text)].  The body of a loop is a
    function from the cursor to a [Step]. *)
Record Step : Type := {
  st_out : list byte;      (* what the iteration appends to [s] *)
  st_rest : list byte;     (* the cursor after the iteration *)
  st_err : bool;           (* [errpos = (errpos ? errpos : lastpos)] *)
  st_break : bool          (* the iteration leaves the loop by [break] *)
}.

Definition step (out rest : list byte) (err : bool) : Step :=
  {| st_out := out; st_rest := rest; st_err := err; st_break := false |}.

(** The bytes between [lastpos] and [cp]. *)
Definition consumed (lastpos cp : list byte) : list byte :=
  firstn (length lastpos - length cp) lastpos.

Definition first_error (errpos : option nat) (lastpos : nat) : option nat :=
  match errpos with Some e => Some e | None => Some lastpos end.

Definition loop_result (errpos : option nat) (cp : nat) : nat :=
  match errpos with Some e => e | None => cp end.

(** [off] is [cp - text].  Every body consumes a byte of a cursor that is
    not at the end, so [fuel = l] iterations reach the end. *)
Fixpoint convert_loop (body : list byte -> Step) (fuel : nat)
    (cp : list byte) (off : nat) (errpos : option nat) : list byte * nat :=
  match fuel, cp with
  | S fuel', _ :: _ =>
    let st := body cp in
    let errpos := if st_err st then first_error errpos off else errpos in
    let off' := (off + (length cp - length (st_rest st)))%nat in
    if st_break st then (st_out st, loop_result errpos off')
    else
      let (out, n) := convert_loop body fuel' (st_rest st) off' errpos in
      (st_out st ++ out, n)
  | _, _ => ([], loop_result errpos off)
  end.

Definition convert (body : list byte -> Step) (text : list byte)
    : list byte * nat :=
  convert_loop body (length text) text 0%nat None.

(** How a decoder's iteration ends once [code] is known. *)
Definition emit (lastpos cp : list byte) (code : Z) (mode : Mode)
    (pre : list byte) : Step :=
  if code =? 0xFFFD
  then step (pre ++ BadCharsToUTF8 (consumed lastpos cp) mode) cp true
  else step (pre ++ UnicodeToUTF8 code) cp false.

(** ** Decoders: legacy encodings to UTF-8 *)

Section Decoders.
Context {hdr : Header}.

(** The loop body of [UTF8ToUTF8]. *)
Definition UTF8ToUTF8_body (mode : Mode) (lastpos : list byte) : Step :=
  let (code, cp) := UTF8ToUnicode lastpos in
  let n := (length lastpos - length cp)%nat in
  if within 0xFFFE 0xFFFF code
     && negb ((n =? 3)%nat
              && (uchar (nth 0 lastpos x00) =? 0xef)
              && (uchar (nth 1 lastpos x00) =? 0xbf)
              && (uchar (nth 2 lastpos x00) =? Z.lxor code 0xFF40))
  then
    step (if code =? 0xFFFF
          then BadCharsToUTF8 (consumed lastpos cp) mode else [])
         cp true
  else
    step (UnicodeToUTF8 code) cp
         ((n =? 6)%nat || (Z.land code 0xF800 =? 0xD800)).

Definition UTF8ToUTF8 (text : list byte) (mode : Mode) : list byte * nat :=
  convert (UTF8ToUTF8_body mode) text.

(** [ASCIIToUTF8]: the second loop, taken when some byte is above 0x7f. *)
Definition ASCIIToUTF8_body (mode : Mode) (lastpos : list byte) : Step :=
  match lastpos with
  | [] => step [] [] false
  | c :: cp =>
    if uchar c <=? 0x7f then step [c] cp false
    else step (BadCharsToUTF8 [c] mode) cp true
  end.

Definition ASCIIToUTF8 (text : list byte) (mode : Mode) : list byte * nat :=
  let m := fold_left (fun m c => m + Z.shiftr (uchar c) 7) text 0 in
  if m =? 0 then (text, length text)
  else convert (ASCIIToUTF8_body mode) text.

(** [UnknownToUTF8]: the bad byte handed to [BadCharsToUTF8] is [text[i]]
    after [i++], the byte that follows; [after] holds the bytes behind the
    segment, and a read behind the buffer is modelled as 0.  The function
    returns 0 whatever it read. *)
Fixpoint UnknownToUTF8_loop (text after : list byte) (mode : Mode)
    : list byte :=
  match text with
  | [] => []
  | c :: text' =>
    let code := uchar c in
    (if within 0x21 0x7E code || (0x7F <? code)
     then BadCharsToUTF8 [hd x00 (text' ++ after)] mode
     else UnicodeToUTF8 code)
    ++ UnknownToUTF8_loop text' after mode
  end.

Definition UnknownToUTF8 (text after : list byte) (mode : Mode)
    : list byte * nat :=
  (UnknownToUTF8_loop text after mode, 0%nat).

(** [SJISToUTF8] *)
Definition SJIS_cp932 (y code : Z) : Z :=
  if y =? 0x5C then 0x2015
  else if y =? 0x5F then 0xFF3C
  else if y =? 0x60 then 0xFF5E
  else if y =? 0x61 then 0x2225
  else if y =? 0x7C then 0xFF0D
  else if y =? 0x91 then 0xFFE0
  else if y =? 0x92 then 0xFFE1
  else if y =? 0xCA then 0xFFE2
  else code.

Definition SJISToUTF8_body (mode : Mode) (lastpos : list byte) : Step :=
  let table := table_of (Table X_SJIS) in
  match lastpos with
  | [] => step [] [] false
  | c :: cp =>
    if Z.land (uchar c) 0x80 =? 0 then step [c] cp false
    else
      let x := uchar c in
      let '(code, cp) :=
        if within 0xA1 0xDF x then (x + 0xFEC0, cp)
        else if negb (x =? 0x80) && negb (x =? 0xA0) && (x <=? 0xFC) then
          match cp with
          | [] => (0xFFFD, cp)
          | c2 :: cp2 =>
            let y := uchar c2 in
            if within 0x40 0xFC y && negb (y =? 0x7F) then
              let '(a, b) :=
                if y <? 0x9F
                then (0, y - (if y <? 0x7F then 0x40 else 0x41))
                else (1, y - 0x9F) in
              let a := if x <=? 0x9F then a + (x - 0x81) * 2
                       else a + (x - 0xC1) * 2 in
              let code := lookup table (a * 94 + b) in
              (if x =? 0x81 then SJIS_cp932 y code else code, cp2)
            else (0xFFFD, cp)
          end
        else (0xFFFD, cp) in
      emit lastpos cp code mode []
  end.

Definition SJISToUTF8 (text : list byte) (mode : Mode) : list byte * nat :=
  convert (SJISToUTF8_body mode) text.

(** [EUCJPToUTF8]: a 0x8F prefix with one byte left leaves the loop by
    [break], and [errpos] is not set. *)
Definition EUCJPToUTF8_body (mode : Mode) (lastpos : list byte) : Step :=
  let jisx0208 := table_of (Table ISO_2022_IR_87) in
  let jisx0212 := table_of (Table ISO_2022_IR_159) in
  match lastpos with
  | [] => step [] [] false
  | c :: cp =>
    if Z.land (uchar c) 0x80 =? 0 then step [c] cp false
    else
      let x := uchar c in
      match cp with
      | c2 :: cp2 =>
        let y := uchar c2 in
        if (0x80 <=? x) && (x <? 0xFF) && (0xA1 <=? y) && (y <? 0xFF) then
          if (0xA1 <=? x) && (x <? 0xFF) then
            emit lastpos cp2
                 (lookup jisx0208 ((x - 0xA1) * 94 + (y - 0xA1))) mode []
          else if x =? 0x8F then
            match cp2 with
            | [] =>
              {| st_out := []; st_rest := cp; st_err := false;
                 st_break := true |}
            | c3 :: cp3 =>
              let x := y in
              let y := uchar c3 in
              if (0xA1 <=? y) && (y <? 0xFF)
              then emit lastpos cp3
                        (lookup jisx0212 ((x - 0xA1) * 94 + (y - 0xA1)))
                        mode []
              else emit lastpos cp 0xFFFD mode []
            end
          else if (x =? 0x8E) && (y <=? 0xDF) then
            emit lastpos cp2 (y + 0xFEC0) mode []
          else emit lastpos cp 0xFFFD mode []
        else emit lastpos cp 0xFFFD mode []
      | [] => emit lastpos cp 0xFFFD mode []
      end
  end.

Definition EUCJPToUTF8 (text : list byte) (mode : Mode) : list byte * nat :=
  convert (EUCJPToUTF8_body mode) text.

(** [Big5ToUTF8] *)
Definition Big5ToUTF8_body (mode : Mode) (lastpos : list byte) : Step :=
  let table := table_of (Table X_BIG5) in
  match lastpos with
  | [] => step [] [] false
  | c :: cp =>
    if Z.land (uchar c) 0x80 =? 0 then step [c] cp false
    else
      let x := uchar c in
      let '(code, cp) :=
        if within 0x81 0xFE x then
          match cp with
          | [] => (0xFFFD, cp)
          | c2 :: cp2 =>
            let y := uchar c2 in
            if within 0x40 0x7E y || within 0xA1 0xFE y then
              let offset := if y <? 0x7F then 0x40 else 0x62 in
              let t := u16 ((x - 0x81) * 157 + (y - offset)) in
              (if t =? 11205 then 0x200CC
               else if t =? 11207 then 0x2008A
               else if t =? 11213 then 0x27607
               else lookup table t, cp2)
            else (0xFFFD, cp)
          end
        else (0xFFFD, cp) in
      emit lastpos cp code mode []
  end.

Definition Big5ToUTF8 (text : list byte) (mode : Mode) : list byte * nat :=
  convert (Big5ToUTF8_body mode) text.

(** The table index of a two-byte GBK code with lead [a] and trail [b]. *)
Definition GBK_index (a b : Z) : Z :=
  if a <? 0xA1 then
    let b := if 0x7F <? b then b - 1 else b in
    u16 ((a - 0x81) * 190 + (b - 0x40) + 8836)
  else if b <? 0xA1 then
    let b := if 0x7F <? b then b - 1 else b in
    u16 ((a - 0xA1) * 96 + (b - 0x40) + (8836 + 6080))
  else
    u16 ((a - 0xA1) * 94 + (b - 0xA1)).

(** [GBKToUTF8] *)
Definition GBKToUTF8_body (mode : Mode) (lastpos : list byte) : Step :=
  let table := table_of (Table GBK) in
  match lastpos with
  | [] => step [] [] false
  | c :: cp =>
    if Z.land (uchar c) 0x80 =? 0 then step [c] cp false
    else
      let a := uchar c in
      let '(code, cp) :=
        if (0x80 <? a) && (a <? 0xFF) then
          match cp with
          | [] => (0xFFFD, cp)
          | c2 :: cp2 =>
            let b := uchar c2 in
            if (0x40 <=? b) && (b <? 0xFF) && negb (b =? 0x7F)
            then (lookup table (GBK_index a b), cp2)
            else (0xFFFD, cp)
          end
        else (0xFFFD, cp) in
      emit lastpos cp code mode []
  end.

Definition GBKToUTF8 (text : list byte) (mode : Mode) : list byte * nat :=
  convert (GBKToUTF8_body mode) text.

(** The four-byte part of [GB18030ToUTF8]: [a] and [b] are the first two
    bytes, [cp] the cursor after them. *)
Definition GB18030_four (table : CompressedTable) (a b : Z)
    (cp : list byte) : Z * list byte :=
  match cp with
  | c3 :: c4 :: cp4 =>
    if (0x80 <? uchar c3) && (uchar c3 <? 0xFF)
       && within 0x30 0x39 (uchar c4) then
      let x := uchar c3 in
      let y := uchar c4 in
      let a := u16 ((a - 0x81) * 10 + (b - 0x30)) in
      let b := u16 ((x - 0x81) * 10 + (y - 0x30)) in
      if a <? 32 then
        let a := u16 (a * 1260 + b + 23940) in
        (lookup table a, cp4)
      else if 150 <=? a then
        let a := u16 (a - 150) in
        let g := a * 1260 + b in
        (if g <=? 0xFFFFF then g + 0x10000 else 0xFFFD, cp4)
      else (0xFFFD, cp4)
    else (0xFFFD, cp)
  | _ => (0xFFFD, cp)
  end.

(** [GB18030ToUTF8] *)
Definition GB18030ToUTF8_body (mode : Mode) (lastpos : list byte) : Step :=
  let table := table_of (Table GB18030) in
  match lastpos with
  | [] => step [] [] false
  | c :: cp =>
    if Z.land (uchar c) 0x80 =? 0 then step [c] cp false
    else
      match cp with
      | [] =>
        {| st_out := []; st_rest := cp; st_err := true; st_break := true |}
      | c2 :: cp2 =>
        let a := uchar c in
        let b := uchar c2 in
        let '(code, cp) :=
          if (0x80 <? a) && (a <? 0xFF)
             && (0x30 <=? b) && (b <? 0xFF) && negb (b =? 0x7F) then
            if 0x40 <=? b then (lookup table (GBK_index a b), cp2)
            else GB18030_four table a b cp2
          else (0xFFFD, cp) in
        if (code =? 0xFFFD)
           && negb ((4 <=? length lastpos - length cp)%nat
                    && Byte.eqb (nth 0 lastpos x00) x84
                    && Byte.eqb (nth 1 lastpos x00) x31
                    && Byte.eqb (nth 2 lastpos x00) xa4
                    && Byte.eqb (nth 3 lastpos x00) x37)
        then step (BadCharsToUTF8 (consumed lastpos cp) mode) cp true
        else step (UnicodeToUTF8 code) cp false
      end
  end.

Definition GB18030ToUTF8 (text : list byte) (mode : Mode)
    : list byte * nat :=
  convert (GB18030ToUTF8_body mode) text.

(** [GB2312ToUTF8] *)
Definition GB2312ToUTF8_body (mode : Mode) (lastpos : list byte) : Step :=
  let table := table_of (Table X_GB2312) in
  match lastpos with
  | [] => step [] [] false
  | c :: cp =>
    if Z.land (uchar c) 0x80 =? 0 then step [c] cp false
    else
      let a := uchar c in
      let '(code, cp) :=
        if (0xA1 <=? a) && (a <? 0xFF) then
          match cp with
          | [] => (0xFFFD, cp)
          | c2 :: cp2 =>
            let b := uchar c2 in
            if (0xA1 <=? b) && (b <? 0xFF)
            then (lookup table (u16 ((a - 0xA1) * 94 + (b - 0xA1))), cp2)
            else (0xFFFD, cp)
          end
        else (0xFFFD, cp) in
      emit lastpos cp code mode []
  end.

Definition GB2312ToUTF8 (text : list byte) (mode : Mode)
    : list byte * nat :=
  convert (GB2312ToUTF8_body mode) text.

(** [JISXToUTF8(csGL, csGR, ...)] *)
Definition JISXToUTF8_body (csGL csGR : Z) (mode : Mode)
    (lastpos : list byte) : Step :=
  let table := table_of (Table csGL) in
  let multibyte := (csGL =? ISO_2022_IR_87) || (csGL =? ISO_2022_IR_159)
                   || (csGL =? ISO_2022_IR_149) || (csGL =? ISO_2022_IR_58) in
  match lastpos with
  | [] => step [] [] false
  | c :: cp =>
    let a := uchar c in
    let '(code, cp) :=
      if (0x21 <=? a) && (a <? 0x7F) then
        if multibyte then
          match cp with
          | c2 :: cp2 =>
            if (0x21 <=? uchar c2) && (uchar c2 <? 0x7F)
            then (lookup table (u16 ((a - 0x21) * 94 + (uchar c2 - 0x21))),
                  cp2)
            else (0xFFFD, cp)
          | [] => (0xFFFD, cp)
          end
        else if csGL =? ISO_2022_IR_13 then (lookup table (a + 0x80), cp)
        else (lookup table a, cp)
      else if a <=? 0x7F then (a, cp)
      else if (csGR =? ISO_IR_13) && within 0xA1 0xDF a then (a + 0xFEC0, cp)
      else (0xFFFD, cp) in
    emit lastpos cp code mode []
  end.

Definition JISXToUTF8 (csGL csGR : Z) (text : list byte) (mode : Mode)
    : list byte * nat :=
  convert (JISXToUTF8_body csGL csGR mode) text.

(** The tables of [EUCKRToUTF8] for the leading and the trailing consonant
    of a jamo sequence. *)
Definition EUCKR_tableL : list Z :=
  [   1; 2; 0; 3; 0; 0; 4; 5; 6; 0; 0; 0; 0; 0; 0;
   0; 7; 8; 9; 0;10;11;12;13;14;15;16;17;18;19; 0;
   0; 0; 0; 0; 0; 0; 0; 0; 0; 0; 0; 0; 0; 0; 0; 0;
   0; 0; 0; 0; 20].

Definition EUCKR_tableT : list Z :=
  [   2; 3; 4; 5; 6; 7; 8; 0; 9;10;11;12;13;14;15;
  16;17;18; 0;19;20;21;22;23; 0;24;25;26;27;28; 0;
   0; 0; 0; 0; 0; 0; 0; 0; 0; 0; 0; 0; 0; 0; 0; 0;
   0; 0; 0; 0; 1].

(** The jamo sequence of [EUCKRToUTF8]: [cp] is the cursor after the first
    two bytes A4 D4 and [code] what the table gave for them.  The result is
    what is written before the last code, the last code, and the cursor. *)
Definition EUCKR_jamo (table : CompressedTable) (hangul : Z) (code : Z)
    (cp : list byte) : list byte * Z * list byte :=
  match cp with
  | j0 :: j1 :: j2 :: j3 :: j4 :: j5 :: cp6 =>
    if (uchar j0 =? 0xA4) && (0xA1 <=? uchar j1)
       && (uchar j2 =? 0xA4) && (0xA1 <=? uchar j3)
       && (uchar j4 =? 0xA4) && (0xA1 <=? uchar j5) then
      let y1 := uchar j1 in
      let y2 := uchar j3 in
      let y3 := uchar j5 in
      if within 0xA1 0xD4 y1 && negb (at16 EUCKR_tableL (y1 - 0xA1) =? 0)
         && within 0xBF 0xD4 y2
         && within 0xA1 0xD4 y3 && negb (at16 EUCKR_tableT (y3 - 0xA1) =? 0)
      then
        let L := u16 (at16 EUCKR_tableL (y1 - 0xA1) - 1) in
        let V := u16 (y2 - 0xBF) in
        let T := u16 (at16 EUCKR_tableT (y3 - 0xA1) - 1) in
        if (L <? 19) && (V <? 21) then
          let code := 0xAC00 + (L * 21 + V) * 28 + T in
          if binary_search table hangul 2350 code then
            (UnicodeToUTF8 0x3164 ++ UnicodeToUTF8 (0x3090 + y1)
             ++ UnicodeToUTF8 (0x3090 + y2), 0x3090 + y3, cp6)
          else ([], code, cp6)
        else if (L <? 19) || (V <? 21) || (0 <? T) then
          let code := if L <? 19 then 0x1100 + L else 0x115F in
          let out := UnicodeToUTF8 code in
          let code := if V <? 21 then 0x1161 + V else 0x1160 in
          if 0 <? T then (out ++ UnicodeToUTF8 code, 0x11A7 + T, cp6)
          else (out, code, cp6)
        else
          (UnicodeToUTF8 0x3164 ++ UnicodeToUTF8 0x3164
           ++ UnicodeToUTF8 0x3164, 0x3164, cp6)
      else ([], code, cp)
    else ([], code, cp)
  | _ => ([], code, cp)
  end.

(** [EUCKRToUTF8] *)
Definition EUCKRToUTF8_body (mode : Mode) (lastpos : list byte) : Step :=
  let table := table_of (Table X_EUCKR) in
  let hangul := GetBlock table 1410 in
  match lastpos with
  | [] => step [] [] false
  | c :: cp =>
    let x := uchar c in
    if x <=? 0x7F then emit lastpos cp x mode []
    else
      match cp with
      | c2 :: cp2 =>
        let y := uchar c2 in
        if (0x81 <=? x) && (x <? 0xFF) then
          if (0xA1 <=? x) && (0xA1 <=? y) && (y <? 0xFF) then
            let a := u16 (u16 (x - 0xA1) * 94 + u16 (y - 0xA1)) in
            let code := lookup table a in
            if (x =? 0xA4) && (y =? 0xD4) then
              let '(pre, code, cp) := EUCKR_jamo table hangul code cp2 in
              emit lastpos cp code mode pre
            else emit lastpos cp2 code mode []
          else if within 0x41 0x5A y || within 0x61 0x7A y
                  || ((0x81 <=? y) && (y <? 0xFF)) then
            let a := u16 (x - 0x81) in
            let b := u16 (y - 0x41) in
            let b := if 26 <=? b
                     then (let b := b - 6 in if 52 <=? b then b - 6 else b)
                     else b in
            let a := u16 (if a <? 32 then a * 178 + b
                          else a * 84 + b + 3008) in
            if a <? 8822
            then emit lastpos cp2 (lookup table (a + 8836)) mode []
            else emit lastpos cp 0xFFFD mode []
          else emit lastpos cp 0xFFFD mode []
        else emit lastpos cp 0xFFFD mode []
      | [] => emit lastpos cp 0xFFFD mode []
      end
  end.

Definition EUCKRToUTF8 (text : list byte) (mode : Mode) : list byte * nat :=
  convert (EUCKRToUTF8_body mode) text.

(** [SingleByteToUTF8], for the key [key] of the object. *)
Definition SingleByteToUTF8_body (key : Z) (mode : Mode)
    (lastpos : list byte) : Step :=
  let table := table_of (match Table key with
                         | Some t => Some t
                         | None => Table ISO_IR_6
                         end) in
  match lastpos with
  | [] => step [] [] false
  | c :: cp => emit lastpos cp (lookup table (uchar c)) mode []
  end.

Definition SingleByteToUTF8 (key : Z) (text : list byte) (mode : Mode)
    : list byte * nat :=
  convert (SingleByteToUTF8_body key mode) text.

(** [ISO8859ToUTF8]: the Windows code page extensions of 0x80..0x9F. *)
Definition wincodes : list Z :=
  [0x20AC; 0xFFFD; 0x201A; 0x0192; 0x201E; 0x2026; 0x2020; 0x2021;
   0x02C6; 0x2030; 0x0160; 0x2039; 0x0152; 0xFFFD; 0x017D; 0xFFFD;
   0xFFFD; 0x2018; 0x2019; 0x201C; 0x201D; 0x2022; 0x2013; 0x2014;
   0x02DC; 0x2122; 0x0161; 0x203A; 0x0153; 0xFFFD; 0x017E; 0x0178].

Definition wincodesUsed (key : Z) : Z :=
  if key =? ISO_IR_100 then 0xDFFE5FFD
  else if key =? ISO_IR_148 then 0x9FFE1FFD
  else if key =? ISO_IR_166 then 0x00FE0021
  else 0.

Definition ISO8859ToUTF8_body (key : Z) (mode : Mode)
    (lastpos : list byte) : Step :=
  let table := table_of (Table key) in
  match lastpos with
  | [] => step [] [] false
  | c :: cp =>
    if Z.land (uchar c) 0x80 =? 0 then step [c] cp false
    else
      let x := uchar c in
      let code := lookup table x in
      let code :=
        if x <? 0xA0 then
          let x := x - 0x80 in
          if negb (Z.land (Z.shiftl 1 x) (wincodesUsed key) =? 0)
          then at16 wincodes x else code
        else code in
      emit lastpos cp code mode []
  end.

Definition ISO8859ToUTF8 (key : Z) (text : list byte) (mode : Mode)
    : list byte * nat :=
  convert (ISO8859ToUTF8_body key mode) text.

End Decoders.

(** ** ISO 2022 *)

(** A string literal of the C code, without its terminator. *)
Definition cstr (s : string) : list byte := list_byte_of_string s.

(** [strncmp(a, b, n) == 0]; the end of a list is the terminator. *)
Fixpoint strncmp_eq (a b : list byte) (n : nat) : bool :=
  match n with
  | O => true
  | S n' =>
    let ca := hd x00 a in
    let cb := hd x00 b in
    if Byte.eqb ca cb then
      if Byte.eqb ca x00 then true else strncmp_eq (tl a) (tl b) n'
    else false
  end.

(** The length of the longest prefix whose bytes lie in [lo, hi]. *)
Fixpoint run_length (lo hi : Z) (cp : list byte) : nat :=
  match cp with
  | c :: cp' => if within lo hi (uchar c) then S (run_length lo hi cp') else O
  | [] => O
  end.

(** [EscapeCodeLength(cp, n)], with [n] the number of bytes behind [cp]. *)
Definition EscapeCodeLength (cp : list byte) : nat :=
  let l := match cp with
           | c :: cp' =>
             if uchar c =? 0x5B then S (run_length 0x30 0x3F cp') else O
           | [] => O
           end in
  let l := (l + run_length 0x20 0x2F (skipn l cp))%nat in
  match nth_error cp l with
  | Some c => if within 0x40 0x7E (uchar c) then S l else O
  | None => O
  end.

(** [SetErrorPosition(n, i)] *)
Definition SetErrorPosition (n i : nat) : nat :=
  if (i <? n)%nat then i else n.

(** [IsEndLine(c)] *)
Definition IsEndLine (c : byte) : bool := within 0x0A 0x0D (uchar c).

Section ISO2022.
Context {hdr : Header}.

(** [struct CharsetInfo], without the list of alias names. *)
Record CharsetInfo : Type := {
  Key : Z;
  Flags : Z;
  DefinedTerm : string;
  DefinedTermExt : string;
  EscapeCode_of : list byte
}.

Definition charset (key flags : Z) (term ext esc : string) : CharsetInfo :=
  {| Key := key; Flags := flags; DefinedTerm := term;
     DefinedTermExt := ext; EscapeCode_of := cstr esc |}.

(** [static CharsetInfo Charsets[48]] *)
Definition Charsets : list CharsetInfo :=
  [ charset ISO_IR_6 0 "ISO_IR 6" "ISO 2022 IR 6" "";
    charset ISO_IR_100 0 "ISO_IR 100" "ISO 2022 IR 100" "-A";
    charset ISO_IR_101 0 "ISO_IR 101" "ISO 2022 IR 101" "-B";
    charset ISO_IR_109 0 "ISO_IR 109" "ISO 2022 IR 109" "-C";
    charset ISO_IR_110 0 "ISO_IR 110" "ISO 2022 IR 110" "-D";
    charset ISO_IR_144 0 "ISO_IR 144" "ISO 2022 IR 144" "-L";
    charset ISO_IR_127 0 "ISO_IR 127" "ISO 2022 IR 127" "-G";
    charset ISO_IR_126 0 "ISO_IR 126" "ISO 2022 IR 126" "-F";
    charset ISO_IR_138 0 "ISO_IR 138" "ISO 2022 IR 138" "-H";
    charset ISO_IR_148 0 "ISO_IR 148" "ISO 2022 IR 148" "-M";
    charset ISO_IR_166 0 "ISO_IR 166" "ISO 2022 IR 166" "-T";
    charset ISO_IR_13 0 "ISO_IR 13" "ISO 2022 IR 13" ")I";
    charset ISO_IR_13 0 "ISO_IR 14" "ISO 2022 IR 14" "(J";
    charset ISO_IR_13 0 "ISO_IR 14" "ISO 2022 IR 14" "(H";
    charset ISO_2022_IR_6 0 "ISO_IR 6" "ISO 2022 IR 6" "(B";
    charset ISO_2022_IR_13 0 "ISO_IR 13" "ISO 2022 IR 13" "(I";
    charset ISO_2022_IR_87 2 "ISO_IR 87" "ISO 2022 IR 87" "$B";
    charset ISO_2022_IR_87 2 "ISO_IR 87" "ISO 2022 IR 87" "$@";
    charset ISO_2022_IR_159 2 "ISO_IR 159" "ISO 2022 IR 159" "$(D";
    charset ISO_2022_IR_58 1 "ISO_IR 58" "ISO 2022 IR 58" "$A";
    charset ISO_2022_IR_58 1 "ISO_IR 58" "ISO 2022 IR 58" "$(A";
    charset X_GB2312 1 "ISO_IR 58" "ISO 2022 IR 58" "$)A";
    charset ISO_2022_IR_149 1 "ISO_IR 149" "ISO 2022 IR 149" "$(C";
    charset X_EUCKR 1 "ISO_IR 149" "ISO 2022 IR 149" "$)C";
    charset ISO_IR_100 0 "ISO_IR 100" "ISO 2022 IR 100" ".A";
    charset ISO_IR_126 0 "ISO_IR 126" "ISO 2022 IR 126" ".F";
    charset ISO_IR_192 0 "ISO_IR 192" "" "%/I";
    charset GB18030 0 "GB18030" "" "";
    charset GBK 0 "GBK" "" "";
    charset X_LATIN6 0 "latin6" "" "-V";
    charset X_LATIN7 0 "latin7" "" "-Y";
    charset X_LATIN8 0 "latin8" "" "-_";
    charset X_LATIN9 0 "latin9" "" "-b";
    charset X_LATIN10 0 "latin10" "" "-f";
    charset X_CP874 0 "cp874" "" "";
    charset X_CP1250 0 "cp1250" "" "";
    charset X_CP1251 0 "cp1251" "" "";
    charset X_CP1252 0 "cp1252" "" "";
    charset X_CP1253 0 "cp1253" "" "";
    charset X_CP1254 0 "cp1254" "" "";
    charset X_CP1255 0 "cp1255" "" "";
    charset X_CP1256 0 "cp1256" "" "";
    charset X_CP1257 0 "cp1257" "" "";
    charset X_CP1258 0 "cp1258" "" "";
    charset X_BIG5 0 "big5" "" "";
    charset X_SJIS 0 "sjis" "" "";
    charset X_EUCJP 0 "euc-jp" "" "";
    charset X_KOI8 0 "koi8" "" "" ].

(** [CharacterSetFromEscapeCode(code, l)] *)
Definition CharacterSetFromEscapeCode (code : list byte) (l : nat) : Z :=
  let fix go (cs : list CharsetInfo) : Z :=
    match cs with
    | [] => 255
    | c :: cs' =>
      if strncmp_eq code (EscapeCode_of c) l then Key c else go cs'
    end in
  go Charsets.

(** [state &= ~mask] *)
Definition clear_bits (state mask : Z) : Z := Z.land state (Z.lnot mask).

(** [EscapeCode(cp, l, &state)]: the type of the escape code and the state
    word after the call. *)
Definition EscapeCode (cp : list byte) (l : nat) (state : Z)
    : EscapeType * Z :=
  let c0 := uchar (nth 0 cp x00) in
  let c1 := uchar (nth 1 cp x00) in
  if (l =? 1)%nat then
    (if c0 =? 0x4E then CODE_SS2            (* N *)
     else if c0 =? 0x4F then CODE_SS3       (* O *)
     else if c0 =? 0x6E then CODE_LS2       (* n *)
     else if c0 =? 0x6F then CODE_LS3       (* o *)
     else if c0 =? 0x7E then CODE_LS1R      (* tilde *)
     else if c0 =? 0x7D then CODE_LS2R      (* right brace *)
     else if c0 =? 0x7C then CODE_LS3R      (* bar *)
     else CODE_OTHER, state)
  else if (l =? 2)%nat then
    if c0 =? 0x20 then (CODE_ACS, state)               (* space *)
    else if c0 =? 0x21 then (CODE_CZD, state)          (* exclamation mark *)
    else if c0 =? 0x22 then (CODE_C1D, state)          (* double quote *)
    else if c0 =? 0x25 then (CODE_DOCS, state)         (* percent *)
    else if c0 =? 0x26 then (CODE_IRR, state)          (* ampersand *)
    else if c0 =? 0x27 then (CODE_ERROR, state)        (* apostrophe *)
    else if c0 =? 0x24 then                            (* dollar *)
      (CODE_GZD, Z.lor state MULTIBYTE_G0)
    else if c0 =? 0x28 then                            (* left parenthesis *)
      (CODE_GZD, clear_bits state MULTIBYTE_G0)
    else if c0 =? 0x29 then                            (* right parenthesis *)
      (CODE_G1D, clear_bits state (Z.lor MULTIBYTE_G1 CHARSET96_G1))
    else if c0 =? 0x2A then                            (* asterisk *)
      (CODE_G2D, clear_bits state (Z.lor MULTIBYTE_G2 CHARSET96_G2))
    else if c0 =? 0x2B then                            (* plus *)
      (CODE_G3D, clear_bits state (Z.lor MULTIBYTE_G2 CHARSET96_G2))
    else if c0 =? 0x2C then (CODE_ERROR, state)        (* comma *)
    else if c0 =? 0x2D then                            (* minus *)
      (CODE_G1D, Z.lor (clear_bits state MULTIBYTE_G1) CHARSET96_G1)
    else if c0 =? 0x2E then                            (* full stop *)
      (CODE_G2D, Z.lor (clear_bits state MULTIBYTE_G2) CHARSET96_G2)
    else if c0 =? 0x2F then                            (* slash *)
      (CODE_G3D, Z.lor (clear_bits state MULTIBYTE_G3) CHARSET96_G3)
    else (CODE_OTHER, state)
  else if (l =? 3)%nat && (c0 =? 0x24) then
    if c1 =? 0x28 then (CODE_GZD, Z.lor state MULTIBYTE_G0)
    else if c1 =? 0x29 then
      (CODE_G1D, clear_bits (Z.lor state MULTIBYTE_G1) CHARSET96_G1)
    else if c1 =? 0x2A then
      (CODE_G2D, clear_bits (Z.lor state MULTIBYTE_G2) CHARSET96_G1)
    else if c1 =? 0x2B then
      (CODE_G3D, clear_bits (Z.lor state MULTIBYTE_G3) CHARSET96_G1)
    else if c1 =? 0x2D then
      (CODE_G1D, Z.lor state (Z.lor MULTIBYTE_G1 CHARSET96_G1))
    else if c1 =? 0x2E then
      (CODE_G2D, Z.lor state (Z.lor MULTIBYTE_G2 CHARSET96_G2))
    else if c1 =? 0x2F then
      (CODE_G3D, Z.lor state (Z.lor MULTIBYTE_G3 CHARSET96_G3))
    else (CODE_ERROR, state)
  else if (l =? 3)%nat && (c0 =? 0x25) && (c1 =? 0x2F) then
    (CODE_DOCS, state)
  else if (0 <? l)%nat then
    (if within 0x20 0x2F c0 && negb (c0 =? 0x23)
     then CODE_ERROR else CODE_OTHER, state)
  else (CODE_ERROR, state).

(** The ISO 2022 state of a decoder: the state word and [charsetG[4]]. *)
Record Iso : Type := {
  iso_state : Z;
  G0 : Z; G1 : Z; G2 : Z; G3 : Z
}.

(** [InitISO2022(key, charsetG)]: the returned state and [charsetG]. *)
Definition InitISO2022 (key : Z) : Iso :=
  if key <=? ISO_2022_MAX then
    let g1 := Z.land key ISO_2022_BASE in
    let state :=
      if Z.land ISO_2022_IR_149 ISO_2022_BASE <=? g1 then MULTIBYTE_G1
      else if ISO_IR_100 <=? g1 then CHARSET96_G1
      else 0 in
    if g1 <=? ISO_2022_JP_BASE then
      let g1 := Z.land g1 ISO_IR_13 in
      {| iso_state := state;
         G0 := if g1 =? ISO_IR_13 then ISO_IR_13 else ISO_2022_IR_6;
         G1 := g1; G2 := Unknown; G3 := Unknown |}
    else
      {| iso_state := state; G0 := ISO_2022_IR_6;
         G1 := g1; G2 := Unknown; G3 := Unknown |}
  else
    {| iso_state := key; G0 := ISO_2022_IR_6;
       G1 := Unknown; G2 := Unknown; G3 := Unknown |}.

End ISO2022.

Section ISO2022Decoder.
Context {hdr : Header}.

(** [charsetG[shift]] for [shift] 2 or 3. *)
Definition charsetG (iso : Iso) (shift : Z) : Z :=
  if shift =? 2 then G2 iso else G3 iso.

(** The delimiters of the scan: ESC and the controls LF VT FF CR SO SI. *)
Definition is_control (c : byte) : bool := within 0x0A 0x0F (uchar c).
Definition is_escape (c : byte) : bool := uchar c =? 0x1B.
Definition is_delimiter (c : byte) : bool := is_escape c || is_control c.

(** The segment [text[i..j)] up to the next delimiter, and what follows. *)
Fixpoint split_segment (cp : list byte) : list byte * list byte :=
  match cp with
  | [] => ([], [])
  | c :: cp' =>
    if is_delimiter c then ([], cp)
    else let (seg, rest) := split_segment cp' in (c :: seg, rest)
  end.

(** What one run of the decoder leaves behind: the bytes appended to [s],
    the error position [n], and the ISO 2022 state at the end. *)
Record IsoRun : Type := {
  run_out : list byte;
  run_n : nat;
  run_iso : Iso
}.

(** The nested decoder [cs.AnyToUTF8] of a converter built from a key. *)
Definition Nested : Type := Z -> list byte -> Mode -> list byte * nat.

(** The conversion of the segment between [i] and [j]. *)
Definition decode_segment (nested : Nested) (iso : Iso)
    (seg after : list byte) (mode : Mode) : list byte * nat :=
  let state := iso_state iso in
  if negb (Z.land state ALTERNATE_CS =? 0) then
    nested (Z.land state ALTERNATE_CS) seg mode
  else if (G0 iso =? ISO_2022_IR_6) && negb (G1 iso =? ISO_IR_13) then
    nested (Z.land (G1 iso) ISO_2022_BASE) seg mode
  else if (G0 iso =? ISO_IR_13) || (G0 iso =? ISO_2022_IR_6)
          || (G0 iso =? ISO_2022_IR_13) || (G0 iso =? ISO_2022_IR_87)
          || (G0 iso =? ISO_2022_IR_159) || (G0 iso =? ISO_2022_IR_149)
          || (G0 iso =? ISO_2022_IR_58) then
    JISXToUTF8 (G0 iso) (G1 iso) seg mode
  else if negb (Z.land state MULTIBYTE_G0 =? 0) then
    UnknownToUTF8 seg after mode
  else
    ASCIIToUTF8 seg mode.

(** The loop over the control codes that follow a segment.  [prevchar] is
    the previous byte of the run (0 at its start); the run itself is
    appended to [s] by the caller.  The result is the cursor behind the
    run, [n] and the state. *)
Fixpoint control_codes (key : Z) (cp : list byte) (prevchar : byte)
    (i n : nat) (iso : Iso) : list byte * nat * Iso :=
  match cp with
  | c :: cp' =>
    if is_control c then
      let n := if (uchar c =? 0x0E) || (uchar c =? 0x0F)
               then SetErrorPosition n i else n in
      let iso := if negb ((uchar c =? 0x0E) || (uchar c =? 0x0F))
                    && (uchar prevchar =? 0x0D) && (uchar c =? 0x0A)
                 then InitISO2022 key else iso in
      control_codes key cp' c (S i) n iso
    else (cp, n, iso)
  | [] => (cp, n, iso)
  end.

(** The bytes of a single shift: at most [bytecount] bytes in the range
    of the shifted set, with the high bit set. *)
Fixpoint shift_chars (charset96 : bool) (bytecount : nat) (cp : list byte)
    : list byte :=
  match bytecount, cp with
  | S k, c :: cp' =>
    let cGR := u8 (Z.lor (uchar c) 0x80) in
    if within 0xA1 0xAE cGR || (charset96 && (0xA0 <=? cGR))
    then to_char cGR :: shift_chars charset96 k cp'
    else []
  | _, _ => []
  end.

(** What one escape sequence does: [lastpos] is the cursor at ESC and
    [savePos] its offset. *)
Record EscapeStep : Type := {
  esc_out : list byte;
  esc_rest : list byte;
  esc_n : nat;
  esc_iso : Iso;
  esc_break : bool
}.

Definition with_G (iso : Iso) (state : Z) (slot : Z) (g : Z) : Iso :=
  {| iso_state := state;
     G0 := if slot =? 0 then g else G0 iso;
     G1 := if slot =? 1 then g else G1 iso;
     G2 := if slot =? 2 then g else G2 iso;
     G3 := if slot =? 3 then g else G3 iso |}.

Definition with_state (iso : Iso) (state : Z) : Iso :=
  {| iso_state := state; G0 := G0 iso; G1 := G1 iso;
     G2 := G2 iso; G3 := G3 iso |}.

Definition escape_sequence (nested : Nested) (mode : Mode)
    (lastpos : list byte) (savePos n : nat) (iso : Iso) : EscapeStep :=
  let escapeCode := tl lastpos in
  let escapeLen := EscapeCodeLength escapeCode in
  let code := firstn escapeLen escapeCode in
  let cp := skipn escapeLen escapeCode in
  let i := (savePos + 1 + escapeLen)%nat in
  let echo := to_char 0x1B :: code in
  if negb (Z.land (iso_state iso) ALTERNATE_CS =? 0) then
    {| esc_out := echo; esc_rest := cp; esc_n := n; esc_iso := iso;
       esc_break := true |}
  else
    let (type, state) := EscapeCode escapeCode escapeLen (iso_state iso) in
    let designate slot :=
      let g := CharacterSetFromEscapeCode escapeCode escapeLen in
      (with_G iso state slot g, g =? Unknown, 0, []) in
    let '(iso, escapeFail, shift, out) :=
      match type with
      | CODE_ACS | CODE_CZD | CODE_C1D => (with_state iso state, true, 0, [])
      | CODE_GZD => designate 0
      | CODE_G1D => designate 1
      | CODE_G2D => designate 2
      | CODE_G3D => designate 3
      | CODE_DOCS | CODE_CMD => (with_state iso state, true, 0, [])
      | CODE_IRR =>
        (with_state iso state,
         negb (uchar (nth 1 escapeCode x00) =? 0x40)
         || match cp with [] => true | c :: _ => negb (is_escape c) end,
         0, [])
      | CODE_SS2 => (with_state iso state, G2 iso =? Unknown, 2, [])
      | CODE_SS3 => (with_state iso state, G3 iso =? Unknown, 3, [])
      | CODE_LS2 | CODE_LS3 | CODE_LS1R | CODE_LS2R | CODE_LS3R =>
        (with_state iso state, true, 0, [])
      | CODE_OTHER => (with_state iso state, false, 0, echo)
      | CODE_ERROR => (with_state iso state, true, 0, [])
      end in
    let '(out, cp, n, escapeFail) :=
      if negb escapeFail && negb (shift =? 0) then
        match cp with
        | _ :: _ =>
          if Z.land (iso_state iso) ALTERNATE_CS =? 0 then
            let multibyte :=
              negb (Z.land (iso_state iso) (Z.shiftl MULTIBYTE_G0 shift)
                    =? 0) in
            let charset96 :=
              negb (Z.land (iso_state iso) (Z.shiftl CHARSET96_GX shift)
                    =? 0) in
            let bytecount := if multibyte then 2%nat else 1%nat in
            let shiftchars := shift_chars charset96 bytecount cp in
            let k := length shiftchars in
            if (0 <? k)%nat then
              let (o, m) := nested (charsetG iso shift) shiftchars mode in
              (out ++ o, skipn k cp,
               if negb (m =? bytecount)%nat
               then SetErrorPosition n (i + k - k + m) else n,
               false)
            else (out, cp, n, true)
          else (out, cp, n, true)
        | [] => (out, cp, n, true)
        end
      else (out, cp, n, escapeFail) in
    if escapeFail then
      {| esc_out := out ++ echo; esc_rest := cp;
         esc_n := SetErrorPosition n savePos; esc_iso := iso;
         esc_break := false |}
    else
      {| esc_out := out; esc_rest := cp; esc_n := n; esc_iso := iso;
         esc_break := false |}.

(** The loop over the escape codes: [while (i < l && text[i] == '\033')].
    An escape sequence consumes its ESC, so [length cp] iterations do. *)
Fixpoint escape_codes (nested : Nested) (mode : Mode) (fuel : nat)
    (cp : list byte) (l n : nat) (iso : Iso)
    : list byte * list byte * nat * Iso :=
  match fuel, cp with
  | S fuel', c :: _ =>
    if is_escape c then
      let e := escape_sequence nested mode cp (l - length cp) n iso in
      if esc_break e then (esc_out e, esc_rest e, esc_n e, esc_iso e)
      else
        let '(out, rest, n, iso) :=
          escape_codes nested mode fuel' (esc_rest e) l (esc_n e)
                       (esc_iso e) in
        (esc_out e ++ out, rest, n, iso)
    else ([], cp, n, iso)
  | _, _ => ([], cp, n, iso)
  end.

(** The loop of [ISO2022ToUTF8]: [l] is the length of the text, [cp] the
    cursor at [i = l - length cp].  Every iteration consumes a byte. *)
Fixpoint ISO2022_loop (nested : Nested) (key : Z) (mode : Mode)
    (fuel : nat) (cp : list byte) (l n : nat) (iso : Iso) : IsoRun :=
  match fuel, cp with
  | S fuel', _ :: _ =>
    let i := (l - length cp)%nat in
    let (seg, rest) := split_segment cp in
    let (out1, n) :=
      match seg with
      | [] => ([], n)
      | _ :: _ =>
        let (o, m) := decode_segment nested iso seg rest mode in
        (o, if negb (m =? length seg)%nat
            then SetErrorPosition n (i + m) else n)
      end in
    let j := (l - length rest)%nat in
    let '(rest2, n, iso) := control_codes key rest x00 j n iso in
    let out2 := firstn (length rest - length rest2) rest in
    let '(out3, rest3, n, iso) :=
      escape_codes nested mode (length rest2) rest2 l n iso in
    let r := ISO2022_loop nested key mode fuel' rest3 l n iso in
    {| run_out := out1 ++ out2 ++ out3 ++ run_out r;
       run_n := run_n r; run_iso := run_iso r |}
  | _, _ => {| run_out := []; run_n := n; run_iso := iso |}
  end.

(** [ISO2022ToUTF8] together with the state its decoder ends in. *)
Definition ISO2022_run (nested : Nested) (key : Z) (text : list byte)
    (mode : Mode) : IsoRun :=
  ISO2022_loop nested key mode (length text) text (length text)
               (length text) (InitISO2022 key).

Definition ISO2022ToUTF8 (nested : Nested) (key : Z) (text : list byte)
    (mode : Mode) : list byte * nat :=
  let r := ISO2022_run nested key text mode in (run_out r, run_n r).

(** [AnyToUTF8] for the converter of key [key].  [ISO2022ToUTF8] calls
    [AnyToUTF8] of the converters it builds for the designated sets;
    [depth] bounds this nesting, and a call beyond it converts nothing. *)
Fixpoint AnyToUTF8 (depth : nat) (key : Z) (text : list byte) (mode : Mode)
    : list byte * nat :=
  if key =? ISO_IR_6 then ASCIIToUTF8 text mode
  else if IsISO2022 key then
    match depth with
    | O => ([], 0%nat)
    | S depth' => ISO2022ToUTF8 (AnyToUTF8 depth') key text mode
    end
  else if IsISO8859 key then ISO8859ToUTF8 key text mode
  else if key =? X_EUCKR then EUCKRToUTF8 text mode
  else if key =? X_GB2312 then GB2312ToUTF8 text mode
  else if key =? ISO_IR_192 then UTF8ToUTF8 text mode
  else if key =? GB18030 then GB18030ToUTF8 text mode
  else if key =? GBK then GBKToUTF8 text mode
  else if key =? X_BIG5 then Big5ToUTF8 text mode
  else if key =? X_EUCJP then EUCJPToUTF8 text mode
  else if key =? X_SJIS then SJISToUTF8 text mode
  else SingleByteToUTF8 key text mode.

(** The sets that ISO 2022 designates are not ISO 2022 converters
    themselves ("Mask with ISO_2022_BASE, which removes the ISO_2022 flag
    bit"), so one nested call below the top is all the code makes. *)
Definition nesting : nat := 2.

(** [ToUTF8(text, l, lp)]: the string and [*lp]. *)
Definition ToUTF8 (key : Z) (text : list byte) : list byte * nat :=
  AnyToUTF8 nesting key text UTF8_REPLACE.

End ISO2022Decoder.

(** ** Encoders: UTF-8 to the legacy encodings *)

(** [LastChanceConversion(s, cp, ep)]: the replacement appended to [s] and
    the returned flag. *)
Definition LastChanceConversion (cp : list byte) : list byte * bool :=
  let code := fst (UTF8ToUnicode cp) in
  if (code =? 0xA0) || within 0x2000 0x200A code || (code =? 0x202F)
  then (cstr " ", true)
  else if (code =? 0xAD) || within 0x200B 0x200D code || (code =? 0x2060)
  then ([], true)
  else if within 0x2010 0x2014 code then (cstr "-", true)
  else if code =? 0x2015 then (cstr "--", true)
  else if within 0x2018 0x201B code then ([x27], true)
  else if within 0x201C 0x201F code then ([x22], true)
  else if code =? 0x2026 then (cstr "...", true)
  else if code =? 0x2044 then (cstr "/", true)
  else if code =? 0x2053 then (cstr "~", true)
  else if code =? 0xFFFE then ([], false)
  else (cstr "?", false).

(** The end of an encoder's iteration that found no code: the last chance. *)
Definition last_chance (lastpos cp : list byte) : Step :=
  let (replacement, success) := LastChanceConversion lastpos in
  step replacement cp (negb success).

Section Encoders.
Context {hdr : Header}.

(** [UTF8ToSJIS] *)
Definition UTF8ToSJIS_body (lastpos : list byte) : Step :=
  let table := table_of (Reverse X_EUCJP) in
  let table2 := table_of (Reverse X_SJIS) in
  let (code, cp) := UTF8ToUnicode lastpos in
  if code <? 0x80 then step [to_char code] cp false
  else if within 0xFF61 0xFF9F code then
    step [to_char (code - 0xFEC0)] cp false
  else
    let t := lookupJISXR table code in
    let t := if 8836 <=? t then lookupR table2 code else t in
    if t <? 11280 then
      let x := u8 (t / 94) in
      let y := u8 (t mod 94) in
      let y := if Z.land x 1 =? 0
               then (let y := u8 (y + 0x40) in
                     if 0x7f <=? y then u8 (y + 1) else y)
               else u8 (y + 0x9f) in
      let x := u8 (0x81 + x / 2) in
      let x := if 0xa0 <=? x then u8 (x + 64) else x in
      step [to_char x; to_char y] cp false
    else last_chance lastpos cp.

Definition UTF8ToSJIS (text : list byte) : list byte * nat :=
  convert UTF8ToSJIS_body text.

(** [UTF8ToEUCJP] *)
Definition UTF8ToEUCJP_body (lastpos : list byte) : Step :=
  let table := table_of (Reverse X_EUCJP) in
  let (code, cp) := UTF8ToUnicode lastpos in
  if code <? 0x80 then step [to_char code] cp false
  else if within 0xFF61 0xFF9F code then
    step [to_char 0x8e; to_char (code - 0xFEC0)] cp false
  else
    let t := lookupJISXR table code in
    if t <? 2 * 8836 then
      let (pre, t) := if 8836 <=? t then ([to_char 0x8f], u16 (t - 8836))
                      else ([], t) in
      step (pre ++ [to_char (0xA1 + t / 94); to_char (0xA1 + t mod 94)])
           cp false
    else last_chance lastpos cp.

Definition UTF8ToEUCJP (text : list byte) : list byte * nat :=
  convert UTF8ToEUCJP_body text.

(** [UTF8ToBig5] *)
Definition UTF8ToBig5_body (lastpos : list byte) : Step :=
  let table := table_of (Reverse X_BIG5) in
  let (code, cp) := UTF8ToUnicode lastpos in
  if code <? 0x80 then step [to_char code] cp false
  else
    let t := lookupR table code in
    let t := if 0xFFFD <=? t then
               if code =? 0x200CC then 11205
               else if code =? 0x2008A then 11207
               else if code =? 0x27607 then 11213
               else t
             else t in
    if t <? 19782 then
      let x := u8 (0x81 + t / 157) in
      let y := u8 (0x40 + t mod 157) in
      let y := if 0x7f <=? y then u8 (y + 0x22) else y in
      step [to_char x; to_char y] cp false
    else last_chance lastpos cp.

Definition UTF8ToBig5 (text : list byte) : list byte * nat :=
  convert UTF8ToBig5_body text.

(** The two bytes of the GBK code with table index [t < 23940]. *)
Definition GBK_bytes (t : Z) : list byte :=
  if t <? 8836 then
    [to_char (0xA1 + t / 94); to_char (0xA1 + t mod 94)]
  else if t <? 8836 + 6080 then
    let t := t - 8836 in
    let y := u8 (0x40 + t mod 190) in
    [to_char (0x81 + t / 190); to_char (if 0x7f <=? y then y + 1 else y)]
  else
    let t := t - (8836 + 6080) in
    let y := u8 (0x40 + t mod 96) in
    [to_char (0xA1 + t / 96); to_char (if 0x7f <=? y then y + 1 else y)].

(** [UTF8ToGBK] *)
Definition UTF8ToGBK_body (lastpos : list byte) : Step :=
  let table := table_of (Reverse GB18030) in
  let table2 := table_of (Reverse GBK) in
  let (code, cp) := UTF8ToUnicode lastpos in
  if code <? 0x80 then step [to_char code] cp false
  else
    let t := lookupR table code in
    let t := if 0xFFFD <=? t then
               if code =? 0x20087 then 23767
               else if code =? 0x20089 then 23768
               else if code =? 0x200CC then 23769
               else if code =? 0x215D7 then 23794
               else if code =? 0x2298F then 23804
               else if code =? 0x241FE then 23830
               else 23940
             else t in
    let t := if 23940 <? t then lookupR table2 code else t in
    if t <? 23940 then step (GBK_bytes t) cp false
    else last_chance lastpos cp.

Definition UTF8ToGBK (text : list byte) : list byte * nat :=
  convert UTF8ToGBK_body text.

(** [UTF8ToGB18030] *)
Definition UTF8ToGB18030_body (lastpos : list byte) : Step :=
  let table := table_of (Reverse GB18030) in
  let (code, cp) := UTF8ToUnicode lastpos in
  let four t :=
    let a := t / 1260 in
    let b := t mod 1260 in
    step [to_char (0x81 + a / 10); to_char (0x30 + a mod 10);
          to_char (0x81 + b / 10); to_char (0x30 + b mod 10)] cp false in
  if code <? 0x80 then step [to_char code] cp false
  else if code <=? 0xFFFD then
    let t := lookupR table code in
    if t <? 23940 then step (GBK_bytes t) cp false
    else four (t - 23940)
  else if 0x10000 <=? code then four (code - 0x10000 + 150 * 1260)
  else last_chance lastpos cp.

Definition UTF8ToGB18030 (text : list byte) : list byte * nat :=
  convert UTF8ToGB18030_body text.

(** [UTF8ToGB2312] *)
Definition UTF8ToGB2312_body (lastpos : list byte) : Step :=
  let table := table_of (Reverse GB18030) in
  let table2 := table_of (Reverse X_GB2312) in
  let (code, cp) := UTF8ToUnicode lastpos in
  if code <? 0x80 then step [to_char code] cp false
  else
    let t := lookupR table code in
    let t := if 8836 <=? t then lookupR table2 code else t in
    if t <? 8836 then
      step [to_char (0xA1 + t / 94); to_char (0xA1 + t mod 94)] cp false
    else last_chance lastpos cp.

Definition UTF8ToGB2312 (text : list byte) : list byte * nat :=
  convert UTF8ToGB2312_body text.

(** The tables of [UTF8ToEUCKR] for the jamo of a hangul syllable. *)
Definition UTF8ToEUCKR_tableL : list Z :=
  [0; 1; 3; 6; 7; 8; 16; 17; 18; 20; 21; 22; 23; 24; 25; 26; 27; 28; 29].

Definition UTF8ToEUCKR_tableT : list Z :=
  [51; 0; 1; 2; 3; 4; 5; 6; 8; 9; 10; 11; 12; 13; 14; 15;
   16; 17; 19; 20; 21; 22; 23; 25; 26; 27; 28; 29].

(** [UTF8ToEUCKR] *)
Definition UTF8ToEUCKR_body (lastpos : list byte) : Step :=
  let table := table_of (Reverse X_EUCKR) in
  let (code, cp) := UTF8ToUnicode lastpos in
  if code <? 0x80 then step [to_char code] cp false
  else
    let t := lookupR table code in
    if t <? 8836 then
      step [to_char (0xA1 + t / 94); to_char (0xA1 + t mod 94)] cp false
    else if within 0xAC00 0xD7A3 code then
      let z := code - 0xAC00 in
      let T := z mod 28 in
      let z := z / 28 in
      let V := z mod 21 in
      let L := z / 21 in
      step [to_char 0xA4; to_char 0xD4;
            to_char 0xA4; to_char (0xA1 + at16 UTF8ToEUCKR_tableL L);
            to_char 0xA4; to_char (0xBF + V);
            to_char 0xA4; to_char (0xA1 + at16 UTF8ToEUCKR_tableT T)]
           cp false
    else last_chance lastpos cp.

Definition UTF8ToEUCKR (text : list byte) : list byte * nat :=
  convert UTF8ToEUCKR_body text.

(** [UTF8ToSingleByte], for the key [key] of the object. *)
Definition UTF8ToSingleByte_body (key : Z) (lastpos : list byte) : Step :=
  let table := table_of (match Reverse key with
                         | Some t => Some t
                         | None => Reverse ISO_IR_6
                         end) in
  let (code, cp) := UTF8ToUnicode lastpos in
  let t := lookupR table code in
  if t <? 0xFFFD then step [to_char t] cp false
  else last_chance lastpos cp.

Definition UTF8ToSingleByte (key : Z) (text : list byte)
    : list byte * nat :=
  convert (UTF8ToSingleByte_body key) text.

(** One iteration of [UTF8ToJISX]: the step and the new [state]. *)
Definition UTF8ToJISX_body (charset : Z) (state : Z) (lastpos : list byte)
    : Step * Z :=
  let table := table_of (Reverse X_EUCJP) in
  let table2 := table_of (Reverse X_SJIS) in
  let hasJISX0201 := Z.land charset ISO_IR_13 =? ISO_IR_13 in
  let hasJISX0208 := Z.land charset ISO_2022_IR_87 =? ISO_2022_IR_87 in
  let hasJISX0212 := Z.land charset ISO_2022_IR_159 =? ISO_2022_IR_159 in
  let escBase := to_char 0x1B :: cstr (if hasJISX0201 then "(J" else "(B") in
  let esc0208 := to_char 0x1B :: cstr "$B" in
  let esc0212 := to_char 0x1B :: cstr "$(D" in
  let (code, cp) := UTF8ToUnicode lastpos in
  let failed :=
    let (replacement, success) := LastChanceConversion lastpos in
    match replacement with
    | [] => (step [] cp (negb success), state)
    | _ :: _ => (step (escBase ++ replacement) cp (negb success), 0)
    end in
  let rest code :=
    if code <? 0x80 then
      (step ((if negb (state =? 0) then escBase else []) ++ [to_char code])
            cp false, 0)
    else if hasJISX0208 || hasJISX0212 then
      let t := lookupJISXR table code in
      let '(t, esc, state') :=
        if (8836 <=? t) && (t <? 2 * 8836) && hasJISX0212 then
          (u16 (t - 8836), if negb (state =? 2) then esc0212 else [],
           2)
        else if hasJISX0208 then
          let t := if (8836 <=? t)
                      && (within 0xFF61 0xFF9F code || (code =? 0xFF5E)
                          || (code =? 0x5861) || (code =? 0x9830))
                   then lookupR table2 code else t in
          if (t <? 8836) && negb (state =? 1)
          then (t, esc0208, 1) else (t, [], state)
        else (t, [], state) in
      if t <? 8836 then
        (step (esc ++ [to_char (0x21 + t / 94); to_char (0x21 + t mod 94)])
              cp false, state')
      else
        let (replacement, success) := LastChanceConversion lastpos in
        match replacement with
        | [] => (step esc cp (negb success), state')
        | _ :: _ => (step (esc ++ escBase ++ replacement) cp (negb success), 0)
        end
    else failed in
  if hasJISX0201 then
    if within 0xFF61 0xFF9F code then
      (step [to_char (code - 0xFEC0)] cp false, state)
    else
      rest (if (code =? 0x5C) && hasJISX0208 then 0xFF3C
            else if (code =? 0x7E) && hasJISX0212 then 0xFF5E
            else if (code =? 0xA5) && negb hasJISX0208 then 0x5C
            else if (code =? 0x203E) && negb hasJISX0212 then 0x7E
            else code)
  else rest code.

Fixpoint UTF8ToJISX_loop (charset : Z) (fuel : nat) (cp : list byte)
    (off : nat) (errpos : option nat) (state : Z) : list byte * nat :=
  match fuel, cp with
  | S fuel', _ :: _ =>
    let (st, state) := UTF8ToJISX_body charset state cp in
    let errpos := if st_err st then first_error errpos off else errpos in
    let off' := (off + (length cp - length (st_rest st)))%nat in
    let (out, n) :=
      UTF8ToJISX_loop charset fuel' (st_rest st) off' errpos state in
    (st_out st ++ out, n)
  | _, _ =>
    let hasJISX0201 := Z.land charset ISO_IR_13 =? ISO_IR_13 in
    (if negb (state =? 0)
     then to_char 0x1B :: cstr (if hasJISX0201 then "(J" else "(B")
     else [],
     loop_result errpos off)
  end.

(** [UTF8ToJISX(charset, text, l, s)] *)
Definition UTF8ToJISX (charset : Z) (text : list byte) : list byte * nat :=
  UTF8ToJISX_loop charset (length text) text 0%nat None 0.

(** The line at the cursor of [UTF8ToISO2022]: the bytes up to [dp], what
    follows, and [checkAscii]. *)
Fixpoint line_body (cp : list byte) : list byte * list byte * Z :=
  match cp with
  | c :: cp' =>
    if negb (IsEndLine c) then
      let '(line, rest, check) := line_body cp' in
      (c :: line, rest, Z.lor check (uchar c))
    else ([], cp, 0)
  | [] => ([], [], 0)
  end.

Fixpoint line_end (cp : list byte) : list byte * list byte :=
  match cp with
  | c :: cp' =>
    if IsEndLine c then
      let (ends, rest) := line_end cp' in (c :: ends, rest)
    else ([], cp)
  | [] => ([], [])
  end.

(** The loop over the lines of [UTF8ToISO2022] for the keys
    [ISO_2022_IR_149] and [ISO_2022_IR_58]; [l] is the error position. *)
Fixpoint UTF8ToISO2022_lines (key : Z) (fuel : nat) (cp : list byte)
    (off : nat) (l : nat) : list byte * nat :=
  match fuel, cp with
  | S fuel', _ :: _ =>
    let '(body, rest, checkAscii) := line_body cp in
    let (ends, dp) := line_end rest in
    let line := body ++ ends in
    let m := length line in
    let (out, l) :=
      if Z.land checkAscii 0x80 =? 0 then (line, l)
      else
        let escCode := to_char 0x1B
                       :: cstr (if key =? ISO_2022_IR_58
                                then "$)A" else "$)C") in
        let (o, n) := if key =? ISO_2022_IR_58
                      then UTF8ToGB2312 line else UTF8ToEUCKR line in
        (escCode ++ o,
         if (n <? m)%nat then SetErrorPosition l (n + off) else l) in
    let (out', l) := UTF8ToISO2022_lines key fuel' dp (off + m) l in
    (out ++ out', l)
  | _, _ => ([], l)
  end.

(** [UTF8ToISO2022] *)
Definition UTF8ToISO2022 (key : Z) (text : list byte) : list byte * nat :=
  if Z.land key (Z.lor ISO_2022_JP_BASE ISO_2022) =? key then
    UTF8ToJISX key text
  else if (key =? ISO_2022_IR_149) || (key =? ISO_2022_IR_58) then
    UTF8ToISO2022_lines key (length text) text 0%nat (length text)
  else
    UTF8ToSingleByte (Z.lxor key ISO_2022) text.

(** [FromUTF8(text, l, lp)]: the string and [*lp]. *)
Definition FromUTF8 (key : Z) (text : list byte) : list byte * nat :=
  if IsISO2022 key then UTF8ToISO2022 key text
  else if key =? X_EUCKR then UTF8ToEUCKR text
  else if key =? X_GB2312 then UTF8ToGB2312 text
  else if key =? ISO_IR_192 then UTF8ToUTF8 text UTF8_REPLACE
  else if key =? GB18030 then UTF8ToGB18030 text
  else if key =? GBK then UTF8ToGBK text
  else if key =? X_BIG5 then UTF8ToBig5 text
  else if key =? X_EUCJP then UTF8ToEUCJP text
  else if key =? X_SJIS then UTF8ToSJIS text
  else UTF8ToSingleByte key text.

(** ** Case folding of a string *)

(** The loop of [CaseFoldedUTF8]. *)
Fixpoint CaseFoldedUTF8_loop (fuel : nat) (cp : list byte) : list byte :=
  match fuel, cp with
  | S fuel', _ :: _ =>
    let (code, cp') := UTF8ToUnicode cp in
    let code := if code =? 0xFFFF then 0xFFFD else code in
    (if negb (code =? 0xFFFE) then CaseFoldUnicode code else [])
    ++ CaseFoldedUTF8_loop fuel' cp'
  | _, _ => []
  end.

(** [CaseFoldedUTF8(text, l)] *)
Definition CaseFoldedUTF8 (key : Z) (text : list byte) : list byte :=
  let t := if negb (key =? ISO_IR_192) then fst (ToUTF8 key text)
           else text in
  CaseFoldedUTF8_loop (length t) t.

End Encoders.

(** ** The backslash scan *)

(** A loop [while (cp != ep && *cp != '\0')] whose iteration either leaves
    by [break] ([None]) or moves the cursor. *)
Fixpoint scan_loop (body : list byte -> option (list byte)) (fuel : nat)
    (cp : list byte) (off : nat) : nat :=
  match fuel, cp with
  | S fuel', c :: _ =>
    if uchar c =? 0 then off
    else
      match body cp with
      | None => off
      | Some cp' =>
        scan_loop body fuel' cp' (off + (length cp - length cp'))%nat
      end
  | _, _ => off
  end.

(** The iteration for [GB18030] and [GBK]. *)
Definition NextBackslash_GBK (cp : list byte) : option (list byte) :=
  match cp with
  | c :: cp1 =>
    if 0x81 <=? uchar c then
      match cp1 with
      | c2 :: cp2 => if 0x21 <=? uchar c2 then Some cp2 else Some cp1
      | [] => Some cp1
      end
    else if negb (uchar c =? 0x5C) then Some cp1
    else None
  | [] => None
  end.

(** The iteration for [X_SJIS]. *)
Definition NextBackslash_SJIS (cp : list byte) : option (list byte) :=
  match cp with
  | c :: cp1 =>
    let x := uchar c in
    if within 0x81 0x9F x || within 0xE0 0xFC x then
      match cp1 with
      | c2 :: cp2 =>
        if (0x40 <=? uchar c2) && (uchar c2 <=? 0xFC)
           && negb (uchar c2 =? 0x7F)
        then Some cp2 else Some cp1
      | [] => Some cp1
      end
    else if negb (uchar c =? 0x5C) then Some cp1
    else None
  | [] => None
  end.

(** The iteration for [X_BIG5]. *)
Definition NextBackslash_BIG5 (cp : list byte) : option (list byte) :=
  match cp with
  | c :: cp1 =>
    let x := uchar c in
    if within 0x81 0xFE x then
      match cp1 with
      | c2 :: cp2 =>
        if within 0x40 0x7E (uchar c2) || within 0xA1 0xFE (uchar c2)
        then Some cp2 else Some cp1
      | [] => Some cp1
      end
    else if negb (uchar c =? 0x5C) then Some cp1
    else None
  | [] => None
  end.

(** The iteration when no special encoding is in use. *)
Definition NextBackslash_plain (cp : list byte) : option (list byte) :=
  match cp with
  | c :: cp1 => if uchar c =? 0x5C then None else Some cp1
  | [] => None
  end.

Section Backslash.
Context {hdr : Header}.

(** The variables of the ISO 2022 branch of [NextBackslash]. *)
Record ScanState : Type := {
  scan_G2 : Z;
  scan_G3 : Z;
  scan_state : Z;
  shiftcount : Z;
  scan_charset96 : bool
}.

(** Moving over the [l] bytes of an escape code, up to a backslash. *)
Fixpoint skip_escape (l : nat) (cp : list byte) : list byte :=
  match l, cp with
  | S l', c :: cp' => if uchar c =? 0x5C then cp else skip_escape l' cp'
  | _, _ => cp
  end.

(** Moving over the end-of-line bytes behind the first. *)
Fixpoint skip_endlines (prevchar : byte) (cp : list byte) (s : ScanState)
    : list byte * ScanState :=
  match cp with
  | c :: cp' =>
    if IsEndLine c then
      skip_endlines c cp'
        (if (uchar prevchar =? 0x0D) && (uchar c =? 0x0A)
         then {| scan_G2 := Unknown; scan_G3 := Unknown; scan_state := 0;
                 shiftcount := 0; scan_charset96 := scan_charset96 s |}
         else s)
    else (cp, s)
  | [] => (cp, s)
  end.

(** One iteration of the ISO 2022 branch; [None] is the [break]. *)
Definition NextBackslash_ISO2022 (cp : list byte) (s : ScanState)
    : option (list byte * ScanState) :=
  match cp with
  | [] => None
  | c :: cp1 =>
    if uchar c =? 0x1B then
      let l := EscapeCodeLength cp1 in
      let (type, state) := EscapeCode cp1 l (scan_state s) in
      let s0 := {| scan_G2 := scan_G2 s; scan_G3 := scan_G3 s;
                   scan_state := state; shiftcount := 0;
                   scan_charset96 := scan_charset96 s |} in
      let s1 :=
        match type with
        | CODE_G2D =>
          {| scan_G2 := CharacterSetFromEscapeCode cp1 l;
             scan_G3 := scan_G3 s0; scan_state := state; shiftcount := 0;
             scan_charset96 := scan_charset96 s0 |}
        | CODE_G3D =>
          {| scan_G2 := scan_G2 s0;
             scan_G3 := CharacterSetFromEscapeCode cp1 l;
             scan_state := state; shiftcount := 0;
             scan_charset96 := scan_charset96 s0 |}
        | CODE_SS2 =>
          if negb (scan_G2 s0 =? Unknown) then
            {| scan_G2 := scan_G2 s0; scan_G3 := scan_G3 s0;
               scan_state := state;
               shiftcount :=
                 if negb (Z.land state MULTIBYTE_G2 =? 0) then 2 else 1;
               scan_charset96 := negb (Z.land state CHARSET96_G2 =? 0) |}
          else s0
        | CODE_SS3 =>
          if negb (scan_G3 s0 =? Unknown) then
            {| scan_G2 := scan_G2 s0; scan_G3 := scan_G3 s0;
               scan_state := state;
               shiftcount :=
                 if negb (Z.land state MULTIBYTE_G3 =? 0) then 2 else 1;
               scan_charset96 := negb (Z.land state CHARSET96_G3 =? 0) |}
          else s0
        | _ => s0
        end in
      Some (skip_escape l cp1, s1)
    else if IsEndLine c then
      Some (skip_endlines c cp1 s)
    else if negb (shiftcount s =? 0) then
      let cGL := Z.land (uchar c) 0x7F in
      if within 0x21 0x7E cGL || (scan_charset96 s && (0x20 <=? cGL)) then
        Some (cp1, {| scan_G2 := scan_G2 s; scan_G3 := scan_G3 s;
                      scan_state := scan_state s;
                      shiftcount := shiftcount s - 1;
                      scan_charset96 := scan_charset96 s |})
      else
        Some (cp, {| scan_G2 := scan_G2 s; scan_G3 := scan_G3 s;
                     scan_state := scan_state s; shiftcount := 0;
                     scan_charset96 := scan_charset96 s |})
    else if negb (Z.land (scan_state s) MULTIBYTE_G0 =? 0) then
      Some (cp1, s)
    else if negb (uchar c =? 0x5C) then Some (cp1, s)
    else None
  end.

(** The loop of the ISO 2022 branch.  An iteration that moves no byte
    clears [shiftcount], and the next one moves: [2 * l] iterations do. *)
Fixpoint scan_ISO2022 (fuel : nat) (cp : list byte) (s : ScanState)
    (off : nat) : nat :=
  match fuel, cp with
  | S fuel', c :: _ =>
    if uchar c =? 0 then off
    else
      match NextBackslash_ISO2022 cp s with
      | None => off
      | Some (cp', s') =>
        scan_ISO2022 fuel' cp' s' (off + (length cp - length cp'))%nat
      end
  | _, _ => off
  end.

(** [NextBackslash(text, ep)] *)
Definition NextBackslash (key : Z) (text : list byte) : nat :=
  if (key =? GB18030) || (key =? GBK) then
    scan_loop NextBackslash_GBK (length text) text 0%nat
  else if key =? X_SJIS then
    scan_loop NextBackslash_SJIS (length text) text 0%nat
  else if key =? X_BIG5 then
    scan_loop NextBackslash_BIG5 (length text) text 0%nat
  else if IsISO2022 key then
    scan_ISO2022 (2 * length text) text
      {| scan_G2 := Unknown; scan_G3 := Unknown; scan_state := 0;
         shiftcount := 0; scan_charset96 := false |} 0%nat
  else
    scan_loop NextBackslash_plain (length text) text 0%nat.

(** [CountBackslashes(text, l)] *)
Fixpoint CountBackslashes_loop (key : Z) (fuel : nat) (cp : list byte)
    : Z :=
  match fuel, cp with
  | S fuel', c :: _ =>
    if uchar c =? 0 then 0
    else
      let cp := skipn (NextBackslash key cp) cp in
      match cp with
      | c' :: cp' =>
        if uchar c' =? 0x5C then 1 + CountBackslashes_loop key fuel' cp'
        else CountBackslashes_loop key fuel' cp
      | [] => 0
      end
  | _, _ => 0
  end.

Definition CountBackslashes (key : Z) (text : list byte) : Z :=
  CountBackslashes_loop key (S (length text)) text.

End Backslash.

(** ** A header to compute with

    The values below are one consistent choice for the enumerators that
    the header declares: the ISO 2022 keys are the keys 32..63, the flag
    bit [ISO_2022] is 32, and the state word keeps the alternate character
    set in its low byte and one bit per graphic set above it.  The tables
    are small packed arrays in the layout that [CompressedTable] reads. *)

(** A packed table with no hot range and two ranges: codes from 0 are
    unmapped; codes from 63334 map linearly from 0xFFE6, as the last run
    of four-byte GB18030 codes of the basic plane does. *)
Definition sample_gb18030_table : list Z :=
  [0; 2; 0; 63334; 0xFFFD; 0xFFE6; 0xFFFD; 0xFFFD].

(** A packed table that maps nothing. *)
Definition sample_empty_table : list Z :=
  [0; 1; 0; 0xFFFD; 0xFFFD].

Definition sample_header : Header := {|
  ISO_IR_6 := 0; ISO_IR_13 := 1; ISO_IR_100 := 8; ISO_IR_101 := 9;
  ISO_IR_109 := 10; ISO_IR_110 := 11; ISO_IR_144 := 12; ISO_IR_127 := 13;
  ISO_IR_126 := 14; ISO_IR_138 := 15; ISO_IR_148 := 16; ISO_IR_166 := 18;
  X_LATIN6 := 17; X_LATIN7 := 19; X_LATIN8 := 20; X_LATIN9 := 21;
  X_LATIN10 := 22;
  X_EUCKR := 24; X_GB2312 := 25;
  ISO_2022_IR_6 := 32; ISO_2022_IR_13 := 33; ISO_2022_IR_87 := 34;
  ISO_2022_IR_159 := 36; ISO_2022_IR_149 := 56; ISO_2022_IR_58 := 57;
  ISO_IR_192 := 64; GB18030 := 65; GBK := 66; X_BIG5 := 67; X_EUCJP := 69;
  X_SJIS := 70;
  X_CP874 := 76; X_CP1250 := 80; X_CP1251 := 81; X_CP1252 := 82;
  X_CP1253 := 83; X_CP1254 := 84; X_CP1255 := 85; X_CP1256 := 86;
  X_CP1257 := 87; X_CP1258 := 88;
  X_KOI8 := 90; Unknown := 255;
  ISO_2022 := 32; ISO_2022_BASE := 31; ISO_2022_JP_BASE := 7;
  ISO_2022_MAX := 63;
  ALTERNATE_CS := 0x00FF;
  MULTIBYTE_G0 := 0x0100; MULTIBYTE_G1 := 0x0200; MULTIBYTE_G2 := 0x0400;
  MULTIBYTE_G3 := 0x0800;
  CHARSET96_GX := 0x1000; CHARSET96_G1 := 0x2000; CHARSET96_G2 := 0x4000;
  CHARSET96_G3 := 0x8000;
  IsISO2022 := fun key => within 32 63 key;
  IsISO8859 := fun key => within 8 22 key;
  Table := fun key => if key =? 65 then Some sample_gb18030_table
                      else Some sample_empty_table;
  Reverse := fun _ => Some sample_empty_table
|}.

(** ** Notions that the properties are stated with *)

(** A continuation byte, 80..BF. *)
Definition is_cont (c : byte) : bool := within 0x80 0xBF (uchar c).

(** The byte sequences of the Unicode standard's table of well-formed
    UTF-8: one to four bytes in shortest form, no value above 0x10FFFF.
    With [surrogates] the three-byte forms ED A0..BF xx of the code points
    D800..DFFF are let through as well. *)
Fixpoint utf8_ok (surrogates : bool) (s : list byte) : bool :=
  match s with
  | [] => true
  | c0 :: s1 =>
    let b0 := uchar c0 in
    if b0 <=? 0x7F then utf8_ok surrogates s1
    else if within 0xC2 0xDF b0 then
      match s1 with
      | c1 :: s2 => is_cont c1 && utf8_ok surrogates s2
      | _ => false
      end
    else if within 0xE0 0xEF b0 then
      match s1 with
      | c1 :: c2 :: s3 =>
        within (if b0 =? 0xE0 then 0xA0 else 0x80)
               (if (b0 =? 0xED) && negb surrogates then 0x9F else 0xBF)
               (uchar c1)
        && is_cont c2 && utf8_ok surrogates s3
      | _ => false
      end
    else if within 0xF0 0xF4 b0 then
      match s1 with
      | c1 :: c2 :: c3 :: s4 =>
        within (if b0 =? 0xF0 then 0x90 else 0x80)
               (if b0 =? 0xF4 then 0x8F else 0xBF)
               (uchar c1)
        && is_cont c2 && is_cont c3 && utf8_ok surrogates s4
      | _ => false
      end
    else false
  end.

(** Well-formed UTF-8. *)
Definition wf_utf8 (s : list byte) : bool := utf8_ok false s.

(** Well-formed UTF-8 but for surrogate code points in three bytes. *)
Definition wf_utf8_or_surrogates (s : list byte) : bool := utf8_ok true s.

(** [s] starts with the bytes [p]. *)
Fixpoint starts_with (p s : list byte) : bool :=
  match p, s with
  | [] , _ => true
  | a :: p', b :: s' => Byte.eqb a b && starts_with p' s'
  | _ :: _, [] => false
  end.

(** What stands at a cursor, as [UTF8ToUnicode] reads it. *)
Inductive Shape : Set := Whole | Truncated | Malformed.

(** The bytes behind a complete high surrogate: a low surrogate ED B0..BF
    xx, a part of one that the end of the input cuts off, or other bytes. *)
Definition low_surrogate_shape (cp : list byte) : Shape :=
  match cp with
  | [] => Truncated
  | d0 :: cp1 =>
    if uchar d0 =? 0xED then
      match cp1 with
      | [] => Truncated
      | d1 :: cp2 =>
        if within 0xB0 0xBF (uchar d1) then
          match cp2 with
          | [] => Truncated
          | d2 :: _ => if is_cont d2 then Whole else Malformed
          end
        else Malformed
      end
    else Malformed
  end.

(** The sequence at the cursor, by byte ranges.  [Malformed]: a lead byte
    80..BF, C0, C1 or F8..FF; a byte that is no continuation byte where one
    is due; an overlong three- or four-byte form; four bytes whose value is
    above 0x10FFFF; a high surrogate with no low surrogate behind it.
    [Truncated]: the input ends where a further byte of the sequence (or of
    the low surrogate) is due and all bytes so far are in range; the value
    of a four-byte sequence is only examined once its four bytes are
    there. *)
Definition utf8_shape (cp : list byte) : Shape :=
  match cp with
  | [] => Whole
  | c0 :: cp1 =>
    let b0 := uchar c0 in
    if b0 <=? 0x7F then Whole
    else if within 0xC2 0xDF b0 then
      match cp1 with
      | [] => Truncated
      | c1 :: _ => if is_cont c1 then Whole else Malformed
      end
    else if within 0xE0 0xEF b0 then
      match cp1 with
      | [] => Truncated
      | c1 :: cp2 =>
        if within (if b0 =? 0xE0 then 0xA0 else 0x80) 0xBF (uchar c1) then
          match cp2 with
          | [] => Truncated
          | c2 :: cp3 =>
            if is_cont c2 then
              if (b0 =? 0xED) && within 0xA0 0xAF (uchar c1)
              then low_surrogate_shape cp3
              else Whole
            else Malformed
          end
        else Malformed
      end
    else if within 0xF0 0xF7 b0 then
      match cp1 with
      | [] => Truncated
      | c1 :: cp2 =>
        if within (if b0 =? 0xF0 then 0x90 else 0x80) 0xBF (uchar c1) then
          match cp2 with
          | [] => Truncated
          | c2 :: cp3 =>
            if is_cont c2 then
              match cp3 with
              | [] => Truncated
              | c3 :: _ =>
                if is_cont c3 then
                  if (b0 <? 0xF4) || ((b0 =? 0xF4) && (uchar c1 <=? 0x8F))
                  then Whole else Malformed
                else Malformed
              end
            else Malformed
          end
        else Malformed
      end
    else Malformed
  end.

(** The 256 bytes. *)
Definition all_bytes : list byte :=
  map (fun n => to_char (Z.of_nat n)) (seq 0 256).

(** [UTF8ToUnicode] over again with byte ranges for its masks and sums for
    its shifts: what the properties below are proved from. *)
Definition utf8_read (cp : list byte) : Z * list byte :=
  match cp with
  | [] => (0, cp)
  | c0 :: cp1 =>
    let b0 := uchar c0 in
    if b0 <=? 0x7F then (b0, cp1)
    else if within 0xC2 0xDF b0 then
      match cp1 with
      | [] => (0xFFFE, cp1)
      | c1 :: cp2 =>
        if is_cont c1 then ((b0 - 0xC0) * 64 + (uchar c1 - 0x80), cp2)
        else (0xFFFF, cp1)
      end
    else if within 0xE0 0xEF b0 then
      match cp1 with
      | [] => (0xFFFE, cp1)
      | c1 :: cp2 =>
        if within (if b0 =? 0xE0 then 0xA0 else 0x80) 0xBF (uchar c1) then
          match cp2 with
          | [] => (0xFFFE, cp2)
          | c2 :: cp3 =>
            if is_cont c2 then
              let v := (b0 - 0xE0) * 4096 + (uchar c1 - 0x80) * 64
                       + (uchar c2 - 0x80) in
              if (b0 =? 0xED) && within 0xA0 0xAF (uchar c1) then
                match low_surrogate_shape cp3, cp3 with
                | Whole, _ :: d1 :: d2 :: cp6 =>
                  (0x10000 + (v - 0xD800) * 1024
                   + (uchar d1 - 0xB0) * 64 + (uchar d2 - 0x80), cp6)
                | Truncated, _ => (0xFFFE, cp3)
                | _, _ => (0xFFFF, cp3)
                end
              else (v, cp3)
            else (0xFFFF, cp2)
          end
        else (0xFFFF, cp1)
      end
    else if within 0xF0 0xF7 b0 then
      match cp1 with
      | [] => (0xFFFE, cp1)
      | c1 :: cp2 =>
        if within (if b0 =? 0xF0 then 0x90 else 0x80) 0xBF (uchar c1) then
          match cp2 with
          | [] => (0xFFFE, cp2)
          | c2 :: cp3 =>
            if is_cont c2 then
              match cp3 with
              | [] => (0xFFFE, cp3)
              | c3 :: cp4 =>
                if is_cont c3 then
                  if (b0 <? 0xF4) || ((b0 =? 0xF4) && (uchar c1 <=? 0x8F))
                  then ((b0 - 0xF0) * 262144 + (uchar c1 - 0x80) * 4096
                        + (uchar c2 - 0x80) * 64 + (uchar c3 - 0x80), cp4)
                  else (0xFFFF, cp4)
                else (0xFFFF, cp3)
              end
            else (0xFFFF, cp2)
          end
        else (0xFFFF, cp1)
      end
    else (0xFFFF, cp1)
  end.

(** The [n] numbers from [z] on. *)
Fixpoint count_from (z : Z) (n : nat) : list Z :=
  match n with
  | O => []
  | S k => z :: count_from (z + 1) k
  end.

(** The numbers below [n]. *)
Definition below (n : nat) : list Z := count_from 0 n.

(** A code point that [UTF8ToUnicode] gives back when it reads the bytes
    that [UnicodeToUTF8] wrote for it, and that is no sentinel. *)
Definition readable (x : Z) : bool :=
  within 0 0x10FFFF x && negb (within 0xD800 0xDBFF x)
  && negb (within 0xFFFE 0xFFFF x).

(** A readable code point that [CaseFoldUnicode] writes as it is. *)
Definition fold_settled (x : Z) : bool :=
  readable x
  && (let '(a, b, _) := CaseFoldCodes x in (a =? x) && (b =? 0)).

(** The code points that [CaseFoldUnicode] writes for [code] are settled. *)
Definition fold_stable (code : Z) : bool :=
  let '(a, b, c) := CaseFoldCodes code in
  fold_settled a
  && ((b =? 0) || (fold_settled b && ((c =? 0) || fold_settled c))).

(** A byte of the ASCII range. *)
Definition is_ascii (c : byte) : Prop := uchar c <= 0x7F.

(** The ISO 2022 state that the control byte [d] leaves when it comes
    behind [prev] in a run of control bytes: CR LF resets it. *)
Definition after_control {hdr : Header} (key : Z) (d prev : byte)
    (iso : Iso) : Iso :=
  if (uchar prev =? 0x0D) && (uchar d =? 0x0A) then InitISO2022 key else iso.

(** The cursors of a decoder: [reaches body text cp] when the loop with
    the iteration [body], started at [text], comes to stand at the cursor
    [cp] (or would, if it went on after a [break]).  The cursors are the
    character starts of the text as the decoder reads it, and its end. *)
Inductive reaches (body : list byte -> Step) : list byte -> list byte -> Prop :=
| reaches_here : forall cp, reaches body cp cp
| reaches_step : forall c cp cp',
    reaches body (st_rest (body (c :: cp))) cp' ->
    reaches body (c :: cp) cp'.

(** A move of the backslash scan [sb] from [cp] to [cp'], seen from the
    decoder [db]: the scan moves by [k] bytes to a cursor of the decoder, or
    it does so in two moves, the first of which ends at a byte where the
    scan does not stop. *)
Definition aligned_step (sb : list byte -> option (list byte))
    (db : list byte -> Step) (cp cp' : list byte) : Prop :=
  (exists k, (0 < k <= length cp)%nat /\ cp' = skipn k cp)
  /\ (reaches db cp cp'
      \/ exists c3 cp3 cp'' k',
           cp' = c3 :: cp3 /\ uchar c3 <> 0 /\ sb cp' = Some cp''
           /\ (0 < k' <= length cp')%nat /\ cp'' = skipn k' cp'
           /\ reaches db cp cp'').


(** ** Text that is safe to print *)

(** [OctalCharCode(s, c)]: a backslash and the three octal digits of the
    [unsigned char c]. *)
Definition OctalCharCode (c : Z) : list byte :=
  [to_char 0x5C;
   to_char (0x30 + Z.shiftr c 6);
   to_char (0x30 + Z.land (Z.shiftr c 3) 7);
   to_char (0x30 + Z.land c 7)].

(** One iteration of the scan of [ToSafeUTF8] at the cursor [cp]: the octal
    code that replaces the character at the cursor, if it is replaced, and
    the cursor after the iteration. *)
Definition ToSafeUTF8_step (cp : list byte)
    : option (list byte) * list byte :=
  match cp with
  | [] => (None, cp)
  | a0 :: cp1 =>
    let a := uchar a0 in
    if (a <? 0x20) || (a =? 0x7f) || (a =? 0x5C) then
      (Some (OctalCharCode a), cp1)
    else if Z.land a 0xC0 =? 0xC0 then
      match cp1 with
      | [] => (None, cp1)
      | b0 :: cp2 =>
        let b := uchar b0 in
        if (a =? 0xC2) && (b <? 0xA0) then (Some (OctalCharCode b), cp2)
        else if Z.land a 0xE0 =? 0xE0 then
          match cp2 with
          | [] => (None, cp2)
          | c0 :: cp3 =>
            let c := uchar c0 in
            if (a =? 0xED) && (Z.land b 0xF0 =? 0xB0) then
              let d := u16 (Z.lor (Z.shiftl (Z.land b 0x0F) 6)
                                  (Z.land c 0x3F)) in
              if d <=? 0xFF then (Some (OctalCharCode (u8 d)), cp3)
              else (None, cp3)
            else if Z.land a 0xF0 =? 0xF0 then
              match cp3 with
              | [] => (None, cp3)
              | _ :: cp4 => (None, cp4)
              end
            else (None, cp3)
          end
        else (None, cp2)
      end
    else (None, cp1)
  end.

(** The loop of [ToSafeUTF8]: [t] is the string [t], [pend] the bytes
    between [lp] and the cursor, and [changed] tells that [lp] has left
    [s.data()].  Every iteration consumes a byte. *)
Fixpoint ToSafeUTF8_loop (fuel : nat) (cp t pend : list byte)
    (changed : bool) : list byte * list byte * bool :=
  match fuel, cp with
  | S fuel', _ :: _ =>
    let (code, rest) := ToSafeUTF8_step cp in
    match code with
    | Some octal => ToSafeUTF8_loop fuel' rest (t ++ pend ++ octal) [] true
    | None =>
      ToSafeUTF8_loop fuel' rest t (pend ++ consumed cp rest) changed
    end
  | _, _ => (t, pend, changed)
  end.

(** The scan of [ToSafeUTF8] over the string [s]. *)
Definition ToSafeUTF8_scan (s : list byte) : list byte :=
  let '(t, pend, changed) := ToSafeUTF8_loop (length s) s [] [] false in
  if changed then t ++ pend else s.

Section SafeText.
Context {hdr : Header}.

(** [ConvertToUTF8(text, l)], the obsolete name of [ToUTF8]. *)
Definition ConvertToUTF8 (key : Z) (text : list byte) : list byte * nat :=
  ToUTF8 key text.

(** [ToSafeUTF8(text, l)] *)
Definition ToSafeUTF8 (key : Z) (text : list byte) : list byte :=
  ToSafeUTF8_scan (fst (AnyToUTF8 nesting key text UTF8_ESCAPE)).

End SafeText.

(** What the scan of [ToSafeUTF8] writes for the characters of [cp], one
    after the other. *)
Fixpoint safe_text (fuel : nat) (cp : list byte) : list byte :=
  match fuel, cp with
  | S fuel', _ :: _ =>
    let (code, rest) := ToSafeUTF8_step cp in
    match code with
    | Some octal => octal
    | None => consumed cp rest
    end ++ safe_text fuel' rest
  | _, _ => []
  end.

(** A byte that is no C0 control code and not DEL. *)
Definition no_control (c : byte) : Prop := 0x20 <= uchar c /\ uchar c <> 0x7F.

(** The lower case of an ASCII letter. *)
Definition ascii_lower (c : byte) : byte :=
  if within 0x41 0x5A (uchar c) then to_char (uchar c + 0x20) else c.

(** The four bytes of GB18030 for a code point from 0x10000 on. *)
Definition GB18030_supplementary (code : Z) : list byte :=
  let t := code - 0x10000 + 150 * 1260 in
  [to_char (0x81 + t / 1260 / 10); to_char (0x30 + (t / 1260) mod 10);
   to_char (0x81 + t mod 1260 / 10); to_char (0x30 + (t mod 1260) mod 10)].

(** A loop body that consumes a byte of every cursor that is not at the
    end. *)
Definition progresses (body : list byte -> Step) : Prop :=
  forall (c : byte) (cp : list byte),
    (length (st_rest (body (c :: cp))) <= length cp)%nat.

(** What [ASCIIToUTF8] writes for a byte in the mode [UTF8_ESCAPE]. *)
Definition escaped_byte (c : byte) : list byte :=
  if uchar c <=? 0x7F then [c] else UnicodeToUTF8 (0xDC00 + uchar c).

(** A printable ASCII byte other than the backslash as it is, any other
    byte as its octal code. *)
Definition safe_byte (c : byte) : list byte :=
  if within 0x20 0x7E (uchar c) && negb (uchar c =? 0x5C) then [c]
  else OctalCharCode (uchar c).

(** The offset [n] into [text] is the end of the text or the offset of a
    backslash or of a null byte. *)
Definition stops_at (text : list byte) (n : nat) : Prop :=
  (n <= length text)%nat
  /\ match skipn n text with
     | [] => n = length text
     | c :: _ => uchar c = 0x5C \/ uchar c = 0
     end.

(** The number of backslash bytes of a text. *)
Definition backslash_bytes (text : list byte) : Z :=
  Z.of_nat (length (filter (fun c => uchar c =? 0x5C) text)).

(** A byte of JIS X 0201: ASCII or a half-width katakana A1..DF. *)
Definition is_jisx0201 (c : byte) : Prop :=
  uchar c <= 0x7F \/ 0xA1 <= uchar c <= 0xDF.

(** The code point of a byte of JIS X 0201 as Shift-JIS and EUC-JP have
    it (0x5C and 0x7E stay what they are in ASCII). *)
Definition jisx0201_code (c : byte) : Z :=
  if uchar c <=? 0x7F then uchar c else uchar c + 0xFEC0.

(** A byte of JIS X 0201 in EUC-JP: a katakana is prefixed with 8E. *)
Definition eucjp_jisx0201 (c : byte) : list byte :=
  if uchar c <=? 0x7F then [c] else [x8e; c].

(** The UTF-8 of a text of JIS X 0201 bytes. *)
Definition jisx0201_utf8 (text : list byte) : list byte :=
  flat_map (fun c => UnicodeToUTF8 (jisx0201_code c)) text.


(** * Properties *)

(** ** Bytes *)

Lemma uchar_range (c : byte) : 0 <= uchar c < 256.
Proof.
  unfold uchar. pose proof (Byte.to_N_bounded c). lia.
Qed.

Lemma uchar_to_char (z : Z) : 0 <= z < 256 -> uchar (to_char z) = z.
Proof.
  intros Hz. unfold uchar, to_char.
  rewrite Z.mod_small by lia.
  destruct (Byte.of_N (Z.to_N z)) as [c|] eqn:E.
  - apply Byte.to_of_N in E. rewrite E. lia.
  - apply Byte.of_N_None_iff in E. lia.
Qed.

Lemma to_char_uchar (c : byte) : to_char (uchar c) = c.
Proof.
  unfold to_char, uchar. pose proof (Byte.to_N_bounded c).
  rewrite Z.mod_small by lia. rewrite N2Z.id, Byte.of_to_N. reflexivity.
Qed.

Lemma uchar_inj (a b : byte) : uchar a = uchar b -> a = b.
Proof.
  intros H. rewrite <- (to_char_uchar a), <- (to_char_uchar b), H.
  reflexivity.
Qed.

(** ** The conversion loop *)

(** One iteration of the conversion loop. *)
Lemma convert_loop_step (body : list byte -> Step) (fuel : nat) (c : byte)
    (cp : list byte) (off : nat) (errpos : option nat) :
  convert_loop body (S fuel) (c :: cp) off errpos
  = (if st_break (body (c :: cp))
     then (st_out (body (c :: cp)),
           loop_result (if st_err (body (c :: cp))
                        then first_error errpos off else errpos)
                       (off + (length (c :: cp)
                               - length (st_rest (body (c :: cp))))))
     else
       (st_out (body (c :: cp))
        ++ fst (convert_loop body fuel (st_rest (body (c :: cp)))
                  (off + (length (c :: cp)
                          - length (st_rest (body (c :: cp)))))
                  (if st_err (body (c :: cp))
                   then first_error errpos off else errpos)),
        snd (convert_loop body fuel (st_rest (body (c :: cp)))
                  (off + (length (c :: cp)
                          - length (st_rest (body (c :: cp)))))
                  (if st_err (body (c :: cp))
                   then first_error errpos off else errpos)))).
Proof.
  cbn [convert_loop]. destruct (st_break (body (c :: cp))); [reflexivity|].
  destruct (convert_loop body fuel _ _ _). reflexivity.
Qed.

Lemma convert_loop_nil (body : list byte -> Step) (fuel : nat) (off : nat)
    (errpos : option nat) :
  convert_loop body fuel [] off errpos = ([], loop_result errpos off).
Proof. destruct fuel; reflexivity. Qed.

(** A text that one iteration converts as a whole. *)
Lemma convert_single (body : list byte -> Step) (c : byte) (cp out : list byte) :
  body (c :: cp) = step out [] false ->
  convert body (c :: cp) = (out, length (c :: cp)).
Proof.
  intros H. unfold convert. cbn [length]. rewrite convert_loop_step, H.
  cbn [step st_break st_out st_rest st_err length].
  rewrite convert_loop_nil. cbn [fst snd loop_result].
  rewrite app_nil_r. f_equal.
Qed.

(** ** The escape code that designates G3 *)

Section EscapeFacts.
Context {hdr : Header}.

Lemma land_clear_self (st a b : Z) :
  Z.land (clear_bits st (Z.lor a b)) a = 0 /\
  Z.land (clear_bits st (Z.lor a b)) b = 0.
Proof.
  unfold clear_bits. split; apply Z.bits_inj'; intros n Hn;
    rewrite !Z.land_spec, Z.lnot_spec, Z.lor_spec, Z.bits_0 by lia;
    destruct (Z.testbit st n), (Z.testbit a n), (Z.testbit b n); reflexivity.
Qed.

Lemma land_clear_other (st m g : Z) :
  Z.land g m = 0 -> Z.land (clear_bits st m) g = Z.land st g.
Proof.
  intros H. unfold clear_bits. apply Z.bits_inj'; intros n Hn.
  assert (Hb : Z.testbit (Z.land g m) n = false) by (rewrite H; apply Z.bits_0).
  rewrite Z.land_spec in Hb.
  rewrite !Z.land_spec, Z.lnot_spec by lia.
  destruct (Z.testbit st n), (Z.testbit g n), (Z.testbit m n);
    simpl in *; congruence.
Qed.

(** C10.  Whatever the state word was, the escape code of length two that
    starts with a plus sign is classified as [CODE_G3D], and the state word
    after the call is the one before with the bits [MULTIBYTE_G2] and
    [CHARSET96_G2] cleared: the G2 bits are zero, and the bits
    [MULTIBYTE_G3] and [CHARSET96_G3], which the header keeps apart from
    the G2 bits, are what they were. *)
Theorem EscapeCode_plus_clears_G2 (state : Z) (final : byte)
    (HG3 : Z.land MULTIBYTE_G3 (Z.lor MULTIBYTE_G2 CHARSET96_G2) = 0)
    (HG3' : Z.land CHARSET96_G3 (Z.lor MULTIBYTE_G2 CHARSET96_G2) = 0) :
  fst (EscapeCode [x2b; final] 2 state) = CODE_G3D /\
  snd (EscapeCode [x2b; final] 2 state)
    = Z.land state (Z.lnot (Z.lor MULTIBYTE_G2 CHARSET96_G2)) /\
  Z.land (snd (EscapeCode [x2b; final] 2 state)) MULTIBYTE_G2 = 0 /\
  Z.land (snd (EscapeCode [x2b; final] 2 state)) CHARSET96_G2 = 0 /\
  Z.land (snd (EscapeCode [x2b; final] 2 state)) MULTIBYTE_G3
    = Z.land state MULTIBYTE_G3 /\
  Z.land (snd (EscapeCode [x2b; final] 2 state)) CHARSET96_G3
    = Z.land state CHARSET96_G3.
Proof.
  assert (E : EscapeCode [x2b; final] 2 state
              = (CODE_G3D,
                 clear_bits state (Z.lor MULTIBYTE_G2 CHARSET96_G2)))
    by reflexivity.
  rewrite E; cbn [fst snd].
  destruct (land_clear_self state MULTIBYTE_G2 CHARSET96_G2) as [H2 H2'].
  repeat split; auto using land_clear_other.
Qed.

End EscapeFacts.

Lemma EscapeCode_plus_witness :
  fst (@EscapeCode sample_header [x2b; x41] 2 0xFFFF) = CODE_G3D /\
  snd (@EscapeCode sample_header [x2b; x41] 2 0xFFFF)
    = Z.land 0xFFFF (Z.lnot (Z.lor 0x0400 0x4000)) /\
  Z.land (snd (@EscapeCode sample_header [x2b; x41] 2 0xFFFF)) 0x0400 = 0 /\
  Z.land (snd (@EscapeCode sample_header [x2b; x41] 2 0xFFFF)) 0x4000 = 0 /\
  Z.land (snd (@EscapeCode sample_header [x2b; x41] 2 0xFFFF)) 0x0800
    = Z.land 0xFFFF 0x0800 /\
  Z.land (snd (@EscapeCode sample_header [x2b; x41] 2 0xFFFF)) 0x8000
    = Z.land 0xFFFF 0x8000.
Proof.
  apply (@EscapeCode_plus_clears_G2 sample_header 0xFFFF x41); reflexivity.
Defined.

(** ** Concrete conversions *)

Section Scenarios.
Context {hdr : Header}.

(** C5.  With a table that gives 0xFFFD for the linear index 63357 of the
    four bytes 84 31 A4 37 (their canonical code, or no entry at all), the
    GB18030 decoder in replace mode writes U+FFFD once and reports no
    error: the returned offset is the length of the input. *)
Theorem GB18030_canonical_replacement
    (Htable : lookup (table_of (Table GB18030)) 63357 = 0xFFFD) :
  GB18030ToUTF8 [x84; x31; xa4; x37] UTF8_REPLACE
    = ([xef; xbf; xbd], length [x84; x31; xa4; x37]).
Proof.
  unfold GB18030ToUTF8, convert.
  cbn [length convert_loop GB18030ToUTF8_body].
  change (GB18030_four (table_of (Table GB18030)) (uchar x84) (uchar x31)
                       [xa4; x37])
    with (lookup (table_of (Table GB18030)) 63357, @nil byte).
  rewrite Htable. reflexivity.
Qed.

End Scenarios.

Lemma GB18030_canonical_replacement_witness :
  @GB18030ToUTF8 sample_header [x84; x31; xa4; x37] UTF8_REPLACE
    = ([xef; xbf; xbd], 4%nat).
Proof.
  apply (@GB18030_canonical_replacement sample_header). reflexivity.
Defined.

Section Hangul.
Context {hdr : Header}.

(** What [UTF8ToEUCKR] writes for U+D55C, by the index [t] that the
    reverse table gives. *)
Lemma UTF8ToEUCKR_D55C :
  UTF8ToEUCKR [xed; x95; x9c]
    = (if lookupR (table_of (Reverse X_EUCKR)) 0xD55C <? 8836
       then [to_char (0xA1 + lookupR (table_of (Reverse X_EUCKR)) 0xD55C / 94);
             to_char (0xA1 + lookupR (table_of (Reverse X_EUCKR)) 0xD55C
                               mod 94)]
       else [xa4; xd4; xa4; xbe; xa4; xbf; xa4; xa4],
       3%nat).
Proof.
  assert (Hbody : UTF8ToEUCKR_body [xed; x95; x9c]
            = step (if lookupR (table_of (Reverse X_EUCKR)) 0xD55C <? 8836
                    then [to_char (0xA1 + lookupR (table_of (Reverse X_EUCKR))
                                              0xD55C / 94);
                          to_char (0xA1 + lookupR (table_of (Reverse X_EUCKR))
                                              0xD55C mod 94)]
                    else [xa4; xd4; xa4; xbe; xa4; xbf; xa4; xa4]) [] false).
  { unfold UTF8ToEUCKR_body.
    change (UTF8ToUnicode [xed; x95; x9c]) with (0xD55C, @nil byte).
    cbv iota beta.
    change (0xD55C <? 0x80) with false. cbv iota.
    destruct (lookupR (table_of (Reverse X_EUCKR)) 0xD55C <? 8836);
      reflexivity. }
  unfold UTF8ToEUCKR. rewrite (convert_single _ _ _ _ Hbody). reflexivity.
Qed.

(** What [EUCKRToUTF8] writes for the jamo sequence of U+D55C, by the
    search of the hangul block of the table. *)
Lemma EUCKRToUTF8_body_jamo_D55C (mode : Mode) :
  EUCKRToUTF8_body mode [xa4; xd4; xa4; xbe; xa4; xbf; xa4; xa4]
    = step (if binary_search (table_of (Table X_EUCKR))
                             (GetBlock (table_of (Table X_EUCKR)) 1410)
                             2350 0xD55C
            then UnicodeToUTF8 0x3164 ++ UnicodeToUTF8 0x314E
                 ++ UnicodeToUTF8 0x314F ++ UnicodeToUTF8 0x3134
            else [xed; x95; x9c]) [] false.
Proof.
  unfold EUCKRToUTF8_body.
  cbn [uchar Byte.to_N Z.of_N Z.leb Z.compare Pos.compare Pos.compare_cont
       Z.eqb Pos.eqb andb negb].
  unfold EUCKR_jamo.
  cbn [uchar Byte.to_N Z.of_N Z.leb Z.compare Pos.compare Pos.compare_cont
       Z.eqb Pos.eqb andb negb].
  change (within 161 212 190 && negb (at16 EUCKR_tableL (190 - 161) =? 0)
          && within 191 212 191 && within 161 212 164
          && negb (at16 EUCKR_tableT (164 - 161) =? 0)) with true.
  cbv iota.
  change ((u16 (at16 EUCKR_tableL (190 - 161) - 1) <? 19)
          && (u16 (191 - 191) <? 21)) with true.
  cbv iota.
  change (44032 + (u16 (at16 EUCKR_tableL (190 - 161) - 1) * 21
                   + u16 (191 - 191)) * 28
          + u16 (at16 EUCKR_tableT (164 - 161) - 1)) with 0xD55C.
  destruct (binary_search _ _ _ _); reflexivity.
Qed.

Lemma EUCKRToUTF8_jamo_D55C (mode : Mode) :
  EUCKRToUTF8 [xa4; xd4; xa4; xbe; xa4; xbf; xa4; xa4] mode
    = (if binary_search (table_of (Table X_EUCKR))
                        (GetBlock (table_of (Table X_EUCKR)) 1410)
                        2350 0xD55C
       then UnicodeToUTF8 0x3164 ++ UnicodeToUTF8 0x314E
            ++ UnicodeToUTF8 0x314F ++ UnicodeToUTF8 0x3134
       else [xed; x95; x9c],
       8%nat).
Proof.
  unfold EUCKRToUTF8.
  rewrite (convert_single _ _ _ _ (EUCKRToUTF8_body_jamo_D55C mode)).
  reflexivity.
Qed.

(** C7, as the code has it.  Encoding U+D55C with the EUC-KR key gives the
    two bytes of its KS X 1001 code when the reverse table has an index
    below 8836 for it, and otherwise the jamo sequence
    A4 D4 A4 BE A4 BF A4 A4; decoding that sequence gives U+D55C back when
    the syllable is absent from the hangul block of the table, and the
    compatibility jamo U+3164 U+314E U+314F U+3134 when it is present. *)
Theorem EUCKR_D55C_jamo_sequence :
  UTF8ToEUCKR [xed; x95; x9c]
    = (if lookupR (table_of (Reverse X_EUCKR)) 0xD55C <? 8836
       then [to_char (0xA1 + lookupR (table_of (Reverse X_EUCKR)) 0xD55C / 94);
             to_char (0xA1 + lookupR (table_of (Reverse X_EUCKR)) 0xD55C
                               mod 94)]
       else [xa4; xd4; xa4; xbe; xa4; xbf; xa4; xa4],
       3%nat)
  /\ EUCKRToUTF8 [xa4; xd4; xa4; xbe; xa4; xbf; xa4; xa4] UTF8_REPLACE
    = (if binary_search (table_of (Table X_EUCKR))
                        (GetBlock (table_of (Table X_EUCKR)) 1410)
                        2350 0xD55C
       then UnicodeToUTF8 0x3164 ++ UnicodeToUTF8 0x314E
            ++ UnicodeToUTF8 0x314F ++ UnicodeToUTF8 0x3134
       else [xed; x95; x9c],
       8%nat).
Proof.
  split; [apply UTF8ToEUCKR_D55C | apply EUCKRToUTF8_jamo_D55C].
Qed.

(** [EUCJPToUTF8] on a 0x8F prefix with one byte behind it: nothing is
    written and the returned offset is 1. *)
Lemma EUCJPToUTF8_8F_A1 (mode : Mode) :
  EUCJPToUTF8 [x8f; xa1] mode = ([], 1%nat).
Proof. reflexivity. Qed.

(** The same two bytes followed by a byte that is no trail byte: the
    error is at offset 0, the place of the prefix. *)
Lemma EUCJPToUTF8_8F_A1_20 :
  snd (EUCJPToUTF8 [x8f; xa1; x20] UTF8_REPLACE) = 0%nat.
Proof. reflexivity. Qed.

(** [GB18030ToUTF8] on a lead byte at the end: the error is at its place. *)
Lemma GB18030ToUTF8_lead_at_end (mode : Mode) :
  GB18030ToUTF8 [x41; x81] mode = ([x41], 1%nat).
Proof. reflexivity. Qed.

(** The scan of C4 5C 41 with the GB18030 key ends behind the text. *)
Lemma NextBackslash_C4_5C_41 :
  NextBackslash GB18030 [xc4; x5c; x41] = 3%nat.
Proof.
  unfold NextBackslash. rewrite Z.eqb_refl. reflexivity.
Qed.

End Hangul.

(** C7 as stated fails for every header: the encoder never writes the
    bytes A4 D4 A4 BB A4 C5 A4 A1 for U+D55C. *)
Lemma EUCKR_D55C_counterexample :
  ~ (exists hdr : Header,
       fst (@UTF8ToEUCKR hdr [xed; x95; x9c])
         = [xa4; xd4; xa4; xbb; xa4; xc5; xa4; xa1]
       /\ fst (@EUCKRToUTF8 hdr [xa4; xd4; xa4; xbb; xa4; xc5; xa4; xa1]
                            UTF8_REPLACE)
         = [xed; x95; x9c]).
Proof.
  intros [hdr [H _]]. rewrite UTF8ToEUCKR_D55C in H. cbn [fst] in H.
  destruct (_ <? 8836); discriminate H.
Qed.


(** ** Facts by enumeration of bytes *)

Lemma all_bytes_complete (c : byte) : In c all_bytes.
Proof.
  unfold all_bytes. rewrite <- (to_char_uchar c).
  pose proof (uchar_range c) as H.
  replace (uchar c) with (Z.of_nat (Z.to_nat (uchar c))) by lia.
  apply (in_map (fun n => to_char (Z.of_nat n))).
  apply in_seq. lia.
Qed.

Lemma forall_byte (P : byte -> bool) :
  forallb P all_bytes = true -> forall c, P c = true.
Proof.
  intros H c. rewrite forallb_forall in H. apply H, all_bytes_complete.
Qed.

Lemma forall_byte2 (P : byte -> byte -> bool) :
  forallb (fun a => forallb (P a) all_bytes) all_bytes = true ->
  forall a b, P a b = true.
Proof.
  intros H a b.
  apply (forall_byte (P a)). revert a. apply forall_byte. exact H.
Qed.

Lemma count_from_In (n : nat) (a z : Z) :
  a <= z < a + Z.of_nat n -> In z (count_from a n).
Proof.
  revert a. induction n as [|n IH]; intros a Hz; [lia|].
  cbn [count_from]. destruct (Z.eq_dec a z) as [-> | Hne].
  - left. reflexivity.
  - right. apply IH. lia.
Qed.

Lemma forall_below (n : nat) (P : Z -> bool) :
  forallb P (below n) = true ->
  forall z, 0 <= z < Z.of_nat n -> P z = true.
Proof.
  intros H z Hz. rewrite forallb_forall in H. apply H.
  unfold below. apply count_from_In. lia.
Qed.

Lemma forall_belowZ (n : Z) (P : Z -> bool) :
  forallb P (below (Z.to_nat n)) = true ->
  forall z, 0 <= z < n -> P z = true.
Proof.
  intros H z Hz. apply (forall_below (Z.to_nat n)); [exact H|].
  rewrite Z2Nat.id; lia.
Qed.

Ltac by_byte :=
  match goal with
  | |- forall c : byte, @?P c = true =>
    apply (forall_byte P); vm_compute; reflexivity
  end.

Ltac by_byte2 :=
  match goal with
  | |- forall a b : byte, @?P a b = true =>
    apply (forall_byte2 P); vm_compute; reflexivity
  end.

(** The masks of [UTF8ToUnicode] as ranges. *)
Lemma mask_ascii : forall c,
  Bool.eqb (negb (Z.land (uchar c) 0x80 =? 0)) (negb (uchar c <=? 0x7F))
  = true.
Proof. by_byte. Qed.

Lemma mask_lead2 : forall c,
  Bool.eqb (Z.land (uchar c) 0xE0 =? 0xC0) (within 0xC0 0xDF (uchar c))
  = true.
Proof. by_byte. Qed.

Lemma mask_lead3 : forall c,
  Bool.eqb (Z.land (uchar c) 0xF0 =? 0xE0) (within 0xE0 0xEF (uchar c))
  = true.
Proof. by_byte. Qed.

Lemma mask_lead4 : forall c,
  Bool.eqb (Z.land (uchar c) 0xF8 =? 0xF0) (within 0xF0 0xF7 (uchar c))
  = true.
Proof. by_byte. Qed.

Lemma mask_cont : forall c,
  Bool.eqb (Z.land (uchar c) 0xC0 =? 0x80) (is_cont c) = true.
Proof. by_byte. Qed.

Lemma mask_low : forall c,
  Bool.eqb (Z.land (uchar c) 0xF0 =? 0xB0) (within 0xB0 0xBF (uchar c))
  = true.
Proof. by_byte. Qed.

Lemma mask_overlong2 : forall c,
  implb (within 0xC0 0xDF (uchar c))
        (Bool.eqb (Z.land (Z.shiftl (Z.land (uchar c) 0x1F) 6) 0x0780 =? 0)
                  (uchar c <=? 0xC1))
  = true.
Proof. by_byte. Qed.

Lemma value_cont : forall c,
  implb (is_cont c) (Z.land (uchar c) 0x3F =? uchar c - 0x80) = true.
Proof. by_byte. Qed.

Lemma value_low : forall c,
  implb (within 0xB0 0xBF (uchar c))
        (Z.land (uchar c) 0x0F =? uchar c - 0xB0) = true.
Proof. by_byte. Qed.

Lemma value_lead2 : forall c,
  implb (within 0xC0 0xDF (uchar c))
        (Z.shiftl (Z.land (uchar c) 0x1F) 6 =? (uchar c - 0xC0) * 64)
  = true.
Proof. by_byte. Qed.

Lemma value_lead3 : forall c,
  implb (within 0xE0 0xEF (uchar c))
        (Z.shiftl (Z.land (uchar c) 0x0F) 6 =? (uchar c - 0xE0) * 64)
  = true.
Proof. by_byte. Qed.

Lemma value_lead4 : forall c,
  implb (within 0xF0 0xF7 (uchar c))
        (Z.shiftl (Z.land (uchar c) 0x07) 6 =? (uchar c - 0xF0) * 64)
  = true.
Proof. by_byte. Qed.

Lemma mask_overlong3 : forall c0 c1,
  implb (within 0xE0 0xEF (uchar c0))
        (Bool.eqb
           (negb (Z.lor (Z.shiftl (Z.land (uchar c0) 0x0F) 6)
                        (Z.land (uchar c1) 0x20) =? 0)
            && (Z.land (uchar c1) 0xC0 =? 0x80))
           (within (if uchar c0 =? 0xE0 then 0xA0 else 0x80) 0xBF
                   (uchar c1)))
  = true.
Proof. by_byte2. Qed.

Lemma mask_overlong4 : forall c0 c1,
  implb (within 0xF0 0xF7 (uchar c0))
        (Bool.eqb
           (negb (Z.lor (Z.shiftl (Z.land (uchar c0) 0x07) 6)
                        (Z.land (uchar c1) 0x30) =? 0)
            && (Z.land (uchar c1) 0xC0 =? 0x80))
           (within (if uchar c0 =? 0xF0 then 0x90 else 0x80) 0xBF
                   (uchar c1)))
  = true.
Proof. by_byte2. Qed.

(** [x << n | y] is a sum when [y] is below [2^n]. *)
Lemma lor_shiftl_add (x y n : Z) :
  0 <= n -> 0 <= y < 2 ^ n -> Z.lor (Z.shiftl x n) y = x * 2 ^ n + y.
Proof.
  intros Hn Hy.
  assert (Hland : Z.land (Z.shiftl x n) y = 0).
  { apply Z.bits_inj'. intros m Hm.
    rewrite Z.land_spec, Z.bits_0.
    destruct (Z.lt_ge_cases m n) as [Hlt | Hge].
    - rewrite Z.shiftl_spec_low by lia. reflexivity.
    - rewrite <- (Z.mod_small y (2 ^ n)) by lia.
      rewrite Z.mod_pow2_bits_high by lia. apply andb_false_r. }
  rewrite <- Z.lxor_lor by exact Hland.
  rewrite <- Z.add_nocarry_lxor by exact Hland.
  rewrite Z.shiftl_mul_pow2 by lia. reflexivity.
Qed.

Lemma shiftl6 (x : Z) : Z.shiftl x 6 = x * 64.
Proof. rewrite Z.shiftl_mul_pow2 by lia. reflexivity. Qed.

Lemma lor_mul64 (x y : Z) : 0 <= y < 64 -> Z.lor (x * 64) y = x * 64 + y.
Proof.
  intros Hy. rewrite <- shiftl6. rewrite lor_shiftl_add.
  - rewrite shiftl6. reflexivity.
  - lia.
  - change (2 ^ 6) with 64. lia.
Qed.

Lemma lor_mul16 (x y : Z) : 0 <= y < 16 -> Z.lor (x * 16) y = x * 16 + y.
Proof.
  intros Hy. replace (x * 16) with (Z.shiftl x 4)
    by (rewrite Z.shiftl_mul_pow2 by lia; reflexivity).
  rewrite lor_shiftl_add.
  - rewrite Z.shiftl_mul_pow2 by lia. reflexivity.
  - lia.
  - change (2 ^ 4) with 16. lia.
Qed.

(** ** The UTF-8 decoder by ranges *)

Lemma implb_eqb (a x y : bool) :
  implb a (Bool.eqb x y) = true -> a = true -> x = y.
Proof. intros H Ha. rewrite Ha in H. apply eqb_prop, H. Qed.

Lemma implb_zeqb (a : bool) (x y : Z) :
  implb a (x =? y) = true -> a = true -> x = y.
Proof. intros H Ha. rewrite Ha in H. apply Z.eqb_eq, H. Qed.

(** Boolean tests on integers as propositions. *)
Ltac bool_props :=
  repeat match goal with
  | H : (_ && _) = true |- _ => apply andb_prop in H; destruct H
  | H : (_ || _) = false |- _ => apply orb_false_elim in H; destruct H
  | H : (_ && _) = false |- _ => apply andb_false_iff in H; destruct H
  | H : (_ || _) = true |- _ => apply orb_prop in H; destruct H
  | H : negb _ = true |- _ => apply negb_true_iff in H
  | H : negb _ = false |- _ => apply negb_false_iff in H
  | H : (_ <=? _) = true |- _ => apply Z.leb_le in H
  | H : (_ <=? _) = false |- _ => apply Z.leb_gt in H
  | H : (_ <? _) = true |- _ => apply Z.ltb_lt in H
  | H : (_ <? _) = false |- _ => apply Z.ltb_ge in H
  | H : (_ =? _) = true |- _ => apply Z.eqb_eq in H
  | H : (_ =? _) = false |- _ => apply Z.eqb_neq in H
  | H : within _ _ _ = _ |- _ => unfold within in H
  | H : is_cont _ = _ |- _ => unfold is_cont in H
  end.

(** The value of a three-byte sequence is that of a high surrogate. *)
Lemma land_FC00 (v : Z) :
  0 <= v < 65536 -> Z.land v 0xFC00 = v / 1024 * 1024.
Proof.
  intros Hv.
  change 0xFC00 with (Z.land (Z.ones 16) (Z.lnot (Z.ones 10))).
  rewrite Z.land_assoc, Z.land_ones by lia.
  change (2 ^ 16) with 65536. rewrite Z.mod_small by lia.
  change (Z.land v (Z.lnot (Z.ones 10))) with (Z.ldiff v (Z.ones 10)).
  rewrite Z.ldiff_ones_r by lia.
  rewrite Z.shiftl_mul_pow2, Z.shiftr_div_pow2 by lia. reflexivity.
Qed.

Lemma mask_high_surrogate (v : Z) :
  0 <= v < 65536 ->
  (Z.land v 0xFC00 =? 0xD800) = within 0xD800 0xDBFF v.
Proof.
  intros Hv. rewrite land_FC00 by exact Hv.
  destruct (v / 1024 * 1024 =? 0xD800) eqn:E1;
    destruct (within 0xD800 0xDBFF v) eqn:E2; try reflexivity;
    exfalso; bool_props; Z.div_mod_to_equations; lia.
Qed.

Lemma value_high_surrogate (v : Z) :
  0xD800 <= v <= 0xDBFF -> Z.land v 0x03FF = v - 0xD800.
Proof.
  intros Hv. change 0x03FF with (Z.ones 10).
  rewrite Z.land_ones by lia. change (2 ^ 10) with 1024.
  Z.div_mod_to_equations. lia.
Qed.

Lemma UTF8ToUnicode_2_read (c0 : byte) (cp1 : list byte) :
  within 0xC0 0xDF (uchar c0) = true ->
  (let '(good, code, cp') := UTF8ToUnicode_2 (uchar c0) cp1 in
   if good =? 0 then (0xFFFF, cp')
   else if good <? 0 then (0xFFFE, cp')
   else (code, cp'))
  = utf8_read (c0 :: cp1).
Proof.
  intros H0. unfold UTF8ToUnicode_2, utf8_read. cbv zeta.
  rewrite (implb_eqb _ _ _ (mask_overlong2 c0) H0).
  pose proof (implb_zeqb _ _ _ (value_lead2 c0) H0) as Hv. rewrite Hv.
  pose proof (uchar_range c0) as R0.
  destruct (uchar c0 <=? 0xC1) eqn:E1.
  - destruct (uchar c0 <=? 0x7F) eqn:E2; [bool_props; lia|].
    destruct (within 0xC2 0xDF (uchar c0)) eqn:E3; [bool_props; lia|].
    destruct (within 0xE0 0xEF (uchar c0)) eqn:E4; [bool_props; lia|].
    destruct (within 0xF0 0xF7 (uchar c0)) eqn:E5; [bool_props; lia|].
    reflexivity.
  - destruct (uchar c0 <=? 0x7F) eqn:E2; [bool_props; lia|].
    destruct (within 0xC2 0xDF (uchar c0)) eqn:E3; [|bool_props; lia].
    destruct cp1 as [|c1 cp2]; [reflexivity|].
    pose proof (eqb_prop _ _ (mask_cont c1)) as Hc. rewrite Hc.
    destruct (is_cont c1) eqn:E6; [|reflexivity].
    cbn [b2z Z.eqb Z.ltb Z.compare].
    rewrite (implb_zeqb _ _ _ (value_cont c1) E6).
    rewrite lor_mul64; [reflexivity|]. bool_props; lia.
Qed.

Ltac sentinel_branch :=
  cbn [b2z Z.eqb Z.ltb Z.compare Pos.compare Pos.compare_cont Z.opp].

Lemma UTF8ToUnicode_low_read (v : Z) (cp3 : list byte) :
  0xD800 <= v <= 0xDBFF ->
  (let '(good, code, cp') := UTF8ToUnicode_low v cp3 in
   if good =? 0 then (0xFFFF, cp')
   else if good <? 0 then (0xFFFE, cp')
   else (code, cp'))
  = match low_surrogate_shape cp3, cp3 with
    | Whole, _ :: d1 :: d2 :: cp6 =>
      (0x10000 + (v - 0xD800) * 1024
       + (uchar d1 - 0xB0) * 64 + (uchar d2 - 0x80), cp6)
    | Truncated, _ => (0xFFFE, cp3)
    | _, _ => (0xFFFF, cp3)
    end.
Proof.
  intros Hv. unfold UTF8ToUnicode_low, low_surrogate_shape.
  destruct cp3 as [|d0 cp4]; [reflexivity|].
  destruct (uchar d0 =? 0xED); [|reflexivity].
  destruct cp4 as [|d1 cp5]; [reflexivity|].
  rewrite (eqb_prop _ _ (mask_low d1)).
  destruct (within 0xB0 0xBF (uchar d1)) eqn:E1; [|reflexivity].
  destruct cp5 as [|d2 cp6]; [reflexivity|].
  rewrite (eqb_prop _ _ (mask_cont d2)).
  destruct (is_cont d2) eqn:E2; [|reflexivity].
  cbv zeta. sentinel_branch.
  rewrite (value_high_surrogate v Hv).
  rewrite (implb_zeqb _ _ _ (value_low d1) E1).
  rewrite (implb_zeqb _ _ _ (value_cont d2) E2).
  rewrite (Z.shiftl_mul_pow2 _ 4) by lia. change (2 ^ 4) with 16.
  rewrite lor_mul16 by (bool_props; lia).
  rewrite shiftl6.
  rewrite lor_mul64 by (bool_props; lia).
  f_equal. lia.
Qed.

Lemma UTF8ToUnicode_3_read (c0 : byte) (cp1 : list byte) :
  within 0xE0 0xEF (uchar c0) = true ->
  (let '(good, code, cp') := UTF8ToUnicode_3 (uchar c0) cp1 in
   if good =? 0 then (0xFFFF, cp')
   else if good <? 0 then (0xFFFE, cp')
   else (code, cp'))
  = utf8_read (c0 :: cp1).
Proof.
  intros H0. unfold utf8_read. cbv zeta.
  destruct (uchar c0 <=? 0x7F) eqn:E2; [bool_props; lia|].
  destruct (within 0xC2 0xDF (uchar c0)) eqn:E3; [bool_props; lia|].
  rewrite H0. clear E2 E3.
  unfold UTF8ToUnicode_3.
  destruct cp1 as [|c1 cp2]; [reflexivity|].
  cbv zeta.
  rewrite (implb_eqb _ _ _ (mask_overlong3 c0 c1) H0).
  pose proof (implb_zeqb _ _ _ (value_lead3 c0) H0) as Hv. rewrite Hv.
  destruct (within (if uchar c0 =? 0xE0 then 0xA0 else 0x80) 0xBF (uchar c1))
    eqn:E1; [|reflexivity].
  assert (Hc1 : is_cont c1 = true).
  { unfold is_cont, within. destruct (uchar c0 =? 0xE0); bool_props;
      apply andb_true_intro; split; apply Z.leb_le; lia. }
  rewrite (implb_zeqb _ _ _ (value_cont c1) Hc1).
  rewrite lor_mul64 by (bool_props; lia).
  rewrite shiftl6.
  destruct cp2 as [|c2 cp3]; [reflexivity|].
  rewrite (eqb_prop _ _ (mask_cont c2)).
  destruct (is_cont c2) eqn:E2.
  - rewrite (implb_zeqb _ _ _ (value_cont c2) E2).
    rewrite lor_mul64 by (bool_props; lia).
    rewrite mask_high_surrogate by (bool_props; lia).
    rewrite andb_true_r.
    replace (((uchar c0 - 224) * 64 + (uchar c1 - 128)) * 64
             + (uchar c2 - 128))
      with ((uchar c0 - 224) * 4096 + (uchar c1 - 128) * 64
            + (uchar c2 - 128)) by lia.
    set (v := (uchar c0 - 224) * 4096 + (uchar c1 - 128) * 64
              + (uchar c2 - 128)).
    assert (Hs : within 0xD800 0xDBFF v
                 = (uchar c0 =? 0xED) && within 0xA0 0xAF (uchar c1)).
    { subst v. clear E1.
      destruct (within 0xD800 0xDBFF _) eqn:Ea;
        destruct ((uchar c0 =? 0xED) && within 0xA0 0xAF (uchar c1)) eqn:Eb;
        try reflexivity; exfalso; bool_props; lia. }
    rewrite <- Hs.
    destruct (within 0xD800 0xDBFF v) eqn:Ev.
    + apply UTF8ToUnicode_low_read. bool_props; lia.
    + reflexivity.
  - rewrite andb_false_r. reflexivity.
Qed.

Lemma UTF8ToUnicode_4_read (c0 : byte) (cp1 : list byte) :
  within 0xF0 0xF7 (uchar c0) = true ->
  (let '(good, code, cp') := UTF8ToUnicode_4 (uchar c0) cp1 in
   if good =? 0 then (0xFFFF, cp')
   else if good <? 0 then (0xFFFE, cp')
   else (code, cp'))
  = utf8_read (c0 :: cp1).
Proof.
  intros H0. unfold utf8_read. cbv zeta.
  destruct (uchar c0 <=? 0x7F) eqn:E2; [bool_props; lia|].
  destruct (within 0xC2 0xDF (uchar c0)) eqn:E3; [bool_props; lia|].
  destruct (within 0xE0 0xEF (uchar c0)) eqn:E4; [bool_props; lia|].
  rewrite H0. clear E2 E3 E4.
  unfold UTF8ToUnicode_4.
  destruct cp1 as [|c1 cp2]; [reflexivity|].
  cbv zeta.
  rewrite (implb_eqb _ _ _ (mask_overlong4 c0 c1) H0).
  pose proof (implb_zeqb _ _ _ (value_lead4 c0) H0) as Hv. rewrite Hv.
  destruct (within (if uchar c0 =? 0xF0 then 0x90 else 0x80) 0xBF (uchar c1))
    eqn:E1; [|reflexivity].
  assert (Hc1 : is_cont c1 = true).
  { unfold is_cont, within. destruct (uchar c0 =? 0xF0); bool_props;
      apply andb_true_intro; split; apply Z.leb_le; lia. }
  destruct cp2 as [|c2 cp3]; [reflexivity|].
  rewrite (implb_zeqb _ _ _ (value_cont c1) Hc1).
  rewrite lor_mul64 by (bool_props; lia).
  rewrite shiftl6.
  rewrite (eqb_prop _ _ (mask_cont c2)).
  destruct (is_cont c2) eqn:E2; [|reflexivity].
  destruct cp3 as [|c3 cp4]; [reflexivity|].
  rewrite (implb_zeqb _ _ _ (value_cont c2) E2).
  rewrite lor_mul64 by (bool_props; lia).
  rewrite shiftl6.
  rewrite (eqb_prop _ _ (mask_cont c3)).
  destruct (is_cont c3) eqn:E3; [|reflexivity].
  rewrite (implb_zeqb _ _ _ (value_cont c3) E3).
  rewrite lor_mul64 by (bool_props; lia).
  cbn [andb].
  set (v := (((uchar c0 - 240) * 64 + (uchar c1 - 128)) * 64
             + (uchar c2 - 128)) * 64 + (uchar c3 - 128)).
  assert (Hs : (v <=? 0x10FFFF)
               = (uchar c0 <? 0xF4)
                 || ((uchar c0 =? 0xF4) && (uchar c1 <=? 0x8F))).
  { subst v. clear E1.
    destruct (_ <=? 0x10FFFF) eqn:Ea;
      destruct ((uchar c0 <? 0xF4)
                || ((uchar c0 =? 0xF4) && (uchar c1 <=? 0x8F))) eqn:Eb;
      try reflexivity; exfalso; bool_props; lia. }
  rewrite <- Hs.
  destruct (v <=? 0x10FFFF); [|reflexivity].
  sentinel_branch. f_equal. subst v. lia.
Qed.

(** [UTF8ToUnicode] reads what [utf8_read] describes. *)
Lemma UTF8ToUnicode_read (cp : list byte) : UTF8ToUnicode cp = utf8_read cp.
Proof.
  destruct cp as [|c0 cp1]; [reflexivity|].
  unfold UTF8ToUnicode. cbv zeta.
  pose proof (eqb_prop _ _ (mask_ascii c0)) as Ha.
  rewrite Ha.
  destruct (uchar c0 <=? 0x7F) eqn:E0.
  - unfold utf8_read. cbv zeta. rewrite E0. reflexivity.
  - cbn [negb].
    rewrite (eqb_prop _ _ (mask_lead2 c0)).
    destruct (within 0xC0 0xDF (uchar c0)) eqn:E2.
    { apply UTF8ToUnicode_2_read, E2. }
    rewrite (eqb_prop _ _ (mask_lead3 c0)).
    destruct (within 0xE0 0xEF (uchar c0)) eqn:E3.
    { apply UTF8ToUnicode_3_read, E3. }
    rewrite (eqb_prop _ _ (mask_lead4 c0)).
    destruct (within 0xF0 0xF7 (uchar c0)) eqn:E4.
    { apply UTF8ToUnicode_4_read, E4. }
    unfold utf8_read. cbv zeta. rewrite E0, E3, E4.
    destruct (within 0xC2 0xDF (uchar c0)) eqn:E5; [bool_props; lia|].
    reflexivity.
Qed.

(** ** The UTF-8 encoder by arithmetic *)

Lemma land_3F (x : Z) : Z.land x 0x3F = x mod 64.
Proof. change 0x3F with (Z.ones 6). rewrite Z.land_ones by lia. reflexivity. Qed.

Lemma shiftr_div (x n : Z) : 0 <= n -> Z.shiftr x n = x / 2 ^ n.
Proof. intros Hn. apply Z.shiftr_div_pow2, Hn. Qed.

Lemma lor_80 (y : Z) : 0 <= y < 64 -> Z.lor 0x80 y = 0x80 + y.
Proof. intros Hy. apply (lor_mul64 2 y Hy). Qed.

Lemma lor_C0 (y : Z) : 0 <= y < 64 -> Z.lor 0xC0 y = 0xC0 + y.
Proof. intros Hy. apply (lor_mul64 3 y Hy). Qed.

Lemma lor_E0 (y : Z) : 0 <= y < 16 -> Z.lor 0xE0 y = 0xE0 + y.
Proof. intros Hy. apply (lor_mul16 14 y Hy). Qed.

Lemma lor_F0 (y : Z) : 0 <= y < 16 -> Z.lor 0xF0 y = 0xF0 + y.
Proof. intros Hy. apply (lor_mul16 15 y Hy). Qed.

Ltac divmod := Z.div_mod_to_equations; lia.

Lemma UnicodeToUTF8_1 (code : Z) :
  code <= 0x7F -> UnicodeToUTF8 code = [to_char code].
Proof.
  intros H. unfold UnicodeToUTF8.
  destruct (code <=? 0x7F) eqn:E; [reflexivity | bool_props; lia].
Qed.

Lemma UnicodeToUTF8_2 (code : Z) :
  0x80 <= code <= 0x7FF ->
  UnicodeToUTF8 code
  = [to_char (0xC0 + code / 64); to_char (0x80 + code mod 64)].
Proof.
  intros H. unfold UnicodeToUTF8.
  destruct (code <=? 0x7F) eqn:E1; [bool_props; lia|].
  destruct (code <=? 0x7FF) eqn:E2; [|bool_props; lia].
  rewrite land_3F, shiftr_div by lia. change (2 ^ 6) with 64.
  rewrite lor_C0, lor_80 by divmod. reflexivity.
Qed.

Lemma UnicodeToUTF8_3 (code : Z) :
  0x800 <= code <= 0xFFFF ->
  UnicodeToUTF8 code
  = [to_char (0xE0 + code / 4096); to_char (0x80 + (code / 64) mod 64);
     to_char (0x80 + code mod 64)].
Proof.
  intros H. unfold UnicodeToUTF8.
  destruct (code <=? 0x7F) eqn:E1; [bool_props; lia|].
  destruct (code <=? 0x7FF) eqn:E2; [bool_props; lia|].
  destruct (code <=? 0xFFFF) eqn:E3; [|bool_props; lia].
  rewrite !land_3F, !shiftr_div by lia.
  change (2 ^ 6) with 64. change (2 ^ 12) with 4096.
  rewrite lor_E0, !lor_80 by divmod. reflexivity.
Qed.

Lemma UnicodeToUTF8_4 (code : Z) :
  0x10000 <= code <= 0x10FFFF ->
  UnicodeToUTF8 code
  = [to_char (0xF0 + code / 262144); to_char (0x80 + (code / 4096) mod 64);
     to_char (0x80 + (code / 64) mod 64); to_char (0x80 + code mod 64)].
Proof.
  intros H. unfold UnicodeToUTF8.
  destruct (code <=? 0x7F) eqn:E1; [bool_props; lia|].
  destruct (code <=? 0x7FF) eqn:E2; [bool_props; lia|].
  destruct (code <=? 0xFFFF) eqn:E3; [bool_props; lia|].
  destruct (code <=? 0x10FFFF) eqn:E4; [|bool_props; lia].
  rewrite !land_3F, !shiftr_div by lia.
  change (2 ^ 6) with 64. change (2 ^ 12) with 4096.
  change (2 ^ 18) with 262144.
  rewrite lor_F0, !lor_80 by divmod. reflexivity.
Qed.

Lemma UnicodeToUTF8_big (code : Z) :
  0x10FFFF < code -> UnicodeToUTF8 code = [xef; xbf; xbd].
Proof.
  intros H. unfold UnicodeToUTF8.
  destruct (code <=? 0x7F) eqn:E1; [bool_props; lia|].
  destruct (code <=? 0x7FF) eqn:E2; [bool_props; lia|].
  destruct (code <=? 0xFFFF) eqn:E3; [bool_props; lia|].
  destruct (code <=? 0x10FFFF) eqn:E4; [bool_props; lia|].
  reflexivity.
Qed.

(** ** Reading what was written *)

(** Decide the tests of a conditional by arithmetic. *)
Ltac decide_ifs :=
  repeat match goal with
  | |- context [if ?b then _ else _] =>
    let E := fresh "E" in
    destruct b eqn:E; bool_props; try lia
  end.

Lemma utf8_read_1 (a : Z) (rest : list byte) :
  0 <= a <= 0x7F -> utf8_read (to_char a :: rest) = (a, rest).
Proof.
  intros Ha. unfold utf8_read. cbv zeta.
  rewrite uchar_to_char by lia.
  destruct (a <=? 0x7F) eqn:E; [reflexivity | bool_props; lia].
Qed.

Lemma utf8_read_2 (a b : Z) (rest : list byte) :
  0xC2 <= a <= 0xDF -> 0x80 <= b <= 0xBF ->
  utf8_read (to_char a :: to_char b :: rest)
  = ((a - 0xC0) * 64 + (b - 0x80), rest).
Proof.
  intros Ha Hb. unfold utf8_read, is_cont. cbv zeta.
  rewrite !uchar_to_char by lia.
  destruct (a <=? 0x7F) eqn:E1; [bool_props; lia|].
  destruct (within 0xC2 0xDF a) eqn:E2; [|bool_props; lia].
  destruct (within 0x80 0xBF b) eqn:E3; [|bool_props; lia].
  reflexivity.
Qed.

Lemma utf8_read_3 (a b c : Z) (rest : list byte) :
  0xE0 <= a <= 0xEF -> 0x80 <= b <= 0xBF -> 0x80 <= c <= 0xBF ->
  (a = 0xE0 -> 0xA0 <= b) -> (a = 0xED -> b < 0xA0 \/ 0xB0 <= b) ->
  utf8_read (to_char a :: to_char b :: to_char c :: rest)
  = ((a - 0xE0) * 4096 + (b - 0x80) * 64 + (c - 0x80), rest).
Proof.
  intros Ha Hb Hc H0 HD. unfold utf8_read, is_cont. cbv zeta.
  rewrite !uchar_to_char by lia.
  destruct (a <=? 0x7F) eqn:E1; [bool_props; lia|].
  destruct (within 0xC2 0xDF a) eqn:E2; [bool_props; lia|].
  destruct (within 0xE0 0xEF a) eqn:E3; [|bool_props; lia].
  destruct (within (if a =? 224 then 160 else 128) 0xBF b) eqn:E4;
    [|destruct (a =? 224) eqn:E5; bool_props; lia].
  destruct (within 0x80 0xBF c) eqn:E5; [|bool_props; lia].
  destruct ((a =? 0xED) && within 0xA0 0xAF b) eqn:E6; [|reflexivity].
  clear E4. bool_props; lia.
Qed.

Lemma utf8_read_4 (a b c d : Z) (rest : list byte) :
  0xF0 <= a <= 0xF4 -> 0x80 <= b <= 0xBF -> 0x80 <= c <= 0xBF ->
  0x80 <= d <= 0xBF ->
  (a = 0xF0 -> 0x90 <= b) -> (a = 0xF4 -> b <= 0x8F) ->
  utf8_read (to_char a :: to_char b :: to_char c :: to_char d :: rest)
  = ((a - 0xF0) * 262144 + (b - 0x80) * 4096 + (c - 0x80) * 64
     + (d - 0x80), rest).
Proof.
  intros Ha Hb Hc Hd H0 H4. unfold utf8_read, is_cont. cbv zeta.
  rewrite !uchar_to_char by lia.
  destruct (a <=? 0x7F) eqn:E1; [bool_props; lia|].
  destruct (within 0xC2 0xDF a) eqn:E2; [bool_props; lia|].
  destruct (within 0xE0 0xEF a) eqn:E3; [bool_props; lia|].
  destruct (within 0xF0 0xF7 a) eqn:E3'; [|bool_props; lia].
  destruct (within (if a =? 240 then 144 else 128) 0xBF b) eqn:E4;
    [|destruct (a =? 240) eqn:E5; bool_props; lia].
  destruct (within 0x80 0xBF c) eqn:E5; [|bool_props; lia].
  destruct (within 0x80 0xBF d) eqn:E6; [|bool_props; lia].
  destruct ((a <? 0xF4) || ((a =? 0xF4) && (b <=? 0x8F))) eqn:E7;
    [reflexivity|].
  clear E4. bool_props; lia.
Qed.

(** A code point that is written and read again is read whole, unless it is
    a high surrogate: what is read then depends on the bytes that follow. *)
Lemma UTF8ToUnicode_UnicodeToUTF8 (code : Z) (rest : list byte) :
  0 <= code <= 0x10FFFF -> ~ (0xD800 <= code <= 0xDBFF) ->
  UTF8ToUnicode (UnicodeToUTF8 code ++ rest) = (code, rest).
Proof.
  intros Hc Hs. rewrite UTF8ToUnicode_read.
  destruct (Z.le_gt_cases code 0x7F) as [H1 | H1].
  { rewrite UnicodeToUTF8_1 by lia. cbn [app]. apply utf8_read_1. lia. }
  destruct (Z.le_gt_cases code 0x7FF) as [H2 | H2].
  { rewrite UnicodeToUTF8_2 by lia. cbn [app].
    rewrite utf8_read_2 by divmod. f_equal. divmod. }
  destruct (Z.le_gt_cases code 0xFFFF) as [H3 | H3].
  { rewrite UnicodeToUTF8_3 by lia. cbn [app].
    rewrite utf8_read_3 by divmod. f_equal. divmod. }
  rewrite UnicodeToUTF8_4 by lia. cbn [app].
  rewrite utf8_read_4 by divmod. f_equal. divmod.
Qed.

(** ** The sentinels of the UTF-8 decoder *)

Lemma byte_eqb_uchar (a b : byte) : Byte.eqb a b = (uchar a =? uchar b).
Proof.
  destruct (Byte.eqb a b) eqn:E.
  - apply Byte.byte_dec_bl in E. subst b. symmetry. apply Z.eqb_refl.
  - symmetry. apply Z.eqb_neq. intros H. apply uchar_inj in H. subst b.
    rewrite (Byte.byte_dec_lb eq_refl) in E. discriminate.
Qed.

Lemma starts_with_head (a : byte) (p : list byte) (c0 : byte)
    (cp : list byte) :
  starts_with (a :: p) (c0 :: cp) = true -> uchar c0 = uchar a.
Proof.
  cbn [starts_with]. rewrite byte_eqb_uchar. intros H.
  apply andb_prop in H. destruct H as [H _]. apply Z.eqb_eq in H. lia.
Qed.

Lemma starts_with_3 (a b c c0 c1 c2 : byte) (rest : list byte) :
  starts_with [a; b; c] (c0 :: c1 :: c2 :: rest) = true <->
  uchar c0 = uchar a /\ uchar c1 = uchar b /\ uchar c2 = uchar c.
Proof.
  cbn [starts_with]. rewrite !byte_eqb_uchar, andb_true_r. split.
  - intros H. apply andb_prop in H. destruct H as [H0 H].
    apply andb_prop in H. destruct H as [H1 H2].
    apply Z.eqb_eq in H0, H1, H2. lia.
  - intros (H0 & H1 & H2). rewrite H0, H1, H2, !Z.eqb_refl. reflexivity.
Qed.

(** What is malformed or cut off reads as the sentinel of its kind. *)
Lemma utf8_read_bad (c0 : byte) (cp : list byte) :
  (utf8_shape (c0 :: cp) = Malformed ->
   fst (utf8_read (c0 :: cp)) = 0xFFFF)
  /\ (utf8_shape (c0 :: cp) = Truncated ->
      fst (utf8_read (c0 :: cp)) = 0xFFFE).
Proof.
  unfold utf8_read, utf8_shape, low_surrogate_shape. cbv zeta.
  repeat match goal with
  | |- context [if ?b then _ else _] => destruct b
  | |- context [match ?l with [] => _ | _ :: _ => _ end] => destruct l
  end; split; intros H; try discriminate H; reflexivity.
Qed.

(** A sequence that is [Whole] reads as the sentinel [s] only if its bytes
    are EF BF BE or EF BF BF, the UTF-8 form of that code point. *)
Lemma utf8_read_whole (c0 : byte) (cp : list byte) (s : Z) :
  0xFFFE <= s <= 0xFFFF ->
  utf8_shape (c0 :: cp) = Whole ->
  (fst (utf8_read (c0 :: cp)) = s <->
   starts_with [xef; xbf; to_char (s - 0xFF40)] (c0 :: cp) = true).
Proof.
  intros Hs.
  assert (Hx : uchar (to_char (s - 0xFF40)) = s - 0xFF40)
    by (apply uchar_to_char; lia).
  pose proof (uchar_range c0) as R0.
  unfold utf8_read, utf8_shape. cbv zeta.
  destruct (uchar c0 <=? 0x7F) eqn:E0.
  { intros _. cbn [fst]. bool_props. split; intros Hg.
    - lia.
    - apply starts_with_head in Hg. change (uchar xef) with 0xEF in Hg. lia. }
  destruct (within 0xC2 0xDF (uchar c0)) eqn:E2.
  { destruct cp as [|c1 cp2]; [discriminate|].
    destruct (is_cont c1) eqn:E1; [|discriminate].
    intros _. cbn [fst]. bool_props. split; intros Hg.
    - lia.
    - apply starts_with_head in Hg. change (uchar xef) with 0xEF in Hg. lia. }
  destruct (within 0xE0 0xEF (uchar c0)) eqn:E3.
  { destruct cp as [|c1 cp2]; [discriminate|].
    destruct (within (if uchar c0 =? 0xE0 then 0xA0 else 0x80) 0xBF
                     (uchar c1)) eqn:E1; [|discriminate].
    destruct cp2 as [|c2 cp3]; [discriminate|].
    destruct (is_cont c2) eqn:E4; [|discriminate].
    rewrite starts_with_3, Hx.
    change (uchar xef) with 0xEF. change (uchar xbf) with 0xBF.
    assert (R1 : 0x80 <= uchar c1 <= 0xBF)
      by (destruct (uchar c0 =? 0xE0); bool_props; lia).
    destruct ((uchar c0 =? 0xED) && within 0xA0 0xAF (uchar c1)) eqn:E5.
    - unfold low_surrogate_shape.
      destruct cp3 as [|d0 cp4]; [discriminate|].
      destruct (uchar d0 =? 0xED); [|discriminate].
      destruct cp4 as [|d1 cp5]; [discriminate|].
      destruct (within 0xB0 0xBF (uchar d1)) eqn:E6; [|discriminate].
      destruct cp5 as [|d2 cp6]; [discriminate|].
      destruct (is_cont d2) eqn:E7; [|discriminate].
      intros _. cbn [fst]. clear E1. bool_props; split; intros Hg; lia.
    - intros _. cbn [fst]. clear E1. bool_props; split; intros Hg; lia. }
  destruct (within 0xF0 0xF7 (uchar c0)) eqn:E4; [|discriminate].
  destruct cp as [|c1 cp2]; [discriminate|].
  destruct (within (if uchar c0 =? 0xF0 then 0x90 else 0x80) 0xBF
                   (uchar c1)) eqn:E1; [|discriminate].
  destruct cp2 as [|c2 cp3]; [discriminate|].
  destruct (is_cont c2) eqn:E5; [|discriminate].
  destruct cp3 as [|c3 cp4]; [discriminate|].
  destruct (is_cont c3) eqn:E6; [|discriminate].
  destruct ((uchar c0 <? 0xF4) || ((uchar c0 =? 0xF4) && (uchar c1 <=? 0x8F)))
    eqn:E7; [|discriminate].
  intros _. cbn [fst]. rewrite starts_with_3.
  change (uchar xef) with 0xEF.
  clear E7. destruct (uchar c0 =? 0xF0) eqn:E8; bool_props;
    split; intros Hg; lia.
Qed.

Lemma shape_cases (sh : Shape) :
  sh = Whole \/ sh = Truncated \/ sh = Malformed.
Proof. destruct sh; auto. Qed.

Lemma utf8_read_pair (b c e f : Z) (rest : list byte) :
  0xA0 <= b <= 0xAF -> 0x80 <= c <= 0xBF ->
  0xB0 <= e <= 0xBF -> 0x80 <= f <= 0xBF ->
  utf8_read (to_char 0xED :: to_char b :: to_char c
             :: to_char 0xED :: to_char e :: to_char f :: rest)
  = (0x10000 + ((b - 0x80) * 64 + (c - 0x80) - 0x800) * 1024
     + (e - 0xB0) * 64 + (f - 0x80), rest).
Proof.
  intros Hb Hc He Hf.
  unfold utf8_read, low_surrogate_shape, is_cont. cbv zeta.
  rewrite !uchar_to_char by lia.
  change (237 <=? 127) with false. change (within 194 223 237) with false.
  change (within 224 239 237) with true. change (237 =? 224) with false.
  change (237 =? 237) with true. cbv iota.
  destruct (within 128 191 b) eqn:E1; [|bool_props; lia].
  destruct (within 128 191 c) eqn:E2; [|bool_props; lia].
  destruct (within 160 175 b) eqn:E3; [|bool_props; lia].
  destruct (within 176 191 e) eqn:E4; [|bool_props; lia].
  destruct (within 128 191 f) eqn:E5; [|bool_props; lia].
  cbn [andb]. f_equal. lia.
Qed.

(** A sequence of well-formed UTF-8 is [Whole] at its start. *)
Lemma wf_utf8_shape (c0 : byte) (cp : list byte) :
  wf_utf8 (c0 :: cp) = true -> utf8_shape (c0 :: cp) = Whole.
Proof.
  unfold wf_utf8. cbn [utf8_shape utf8_ok]. cbv zeta.
  pose proof (uchar_range c0) as R0.
  destruct (uchar c0 <=? 0x7F) eqn:E0; [reflexivity|].
  destruct (within 0xC2 0xDF (uchar c0)) eqn:E2.
  { destruct cp as [|c1 cp2]; [discriminate|].
    destruct (is_cont c1); [reflexivity | discriminate]. }
  destruct (within 0xE0 0xEF (uchar c0)) eqn:E3.
  { destruct cp as [|c1 [|c2 cp3]]; try discriminate.
    intros H. apply andb_prop in H. destruct H as [H Hr].
    apply andb_prop in H. destruct H as [H1 H2]. rewrite H2.
    assert (H1' : within (if uchar c0 =? 0xE0 then 0xA0 else 0x80) 0xBF
                         (uchar c1) = true).
    { cbn [negb andb] in H1. rewrite andb_true_r in H1.
      destruct (uchar c0 =? 0xE0), (uchar c0 =? 0xED);
        unfold within in *; bool_props;
        apply andb_true_intro; split; apply Z.leb_le; lia. }
    rewrite H1'.
    destruct ((uchar c0 =? 0xED) && within 0xA0 0xAF (uchar c1)) eqn:E5;
      [|reflexivity].
    exfalso. apply andb_prop in E5. destruct E5 as [E5 E6].
    rewrite E5 in H1. cbn [negb andb] in H1.
    destruct (uchar c0 =? 0xE0); bool_props; lia. }
  destruct (within 0xF0 0xF4 (uchar c0)) eqn:E4; [|discriminate].
  destruct cp as [|c1 [|c2 [|c3 cp4]]]; try discriminate.
  intros H. apply andb_prop in H. destruct H as [H Hr].
  apply andb_prop in H. destruct H as [H H3].
  apply andb_prop in H. destruct H as [H1 H2]. rewrite H2, H3.
  assert (E5 : within 0xF0 0xF7 (uchar c0) = true)
    by (bool_props; apply andb_true_intro; split; apply Z.leb_le; lia).
  rewrite E5.
  assert (H1' : within (if uchar c0 =? 0xF0 then 0x90 else 0x80) 0xBF
                       (uchar c1) = true).
  { destruct (uchar c0 =? 0xF0), (uchar c0 =? 0xF4);
      unfold within in *; bool_props;
      apply andb_true_intro; split; apply Z.leb_le; lia. }
  rewrite H1'.
  assert (H4 : (uchar c0 <? 0xF4)
               || ((uchar c0 =? 0xF4) && (uchar c1 <=? 0x8F)) = true).
  { destruct (uchar c0 =? 0xF4) eqn:E6.
    - rewrite orb_true_iff. right. cbn [andb]. apply Z.leb_le.
      clear H1'. destruct (uchar c0 =? 0xF0); bool_props; lia.
    - rewrite orb_true_iff. left. apply Z.ltb_lt. clear H1' H1.
      bool_props; lia. }
  rewrite H4. reflexivity.
Qed.

(** The three bytes EF BF xx are [Whole]. *)
Lemma starts_with_EF_BF_shape (x c0 : byte) (cp : list byte) :
  is_cont x = true ->
  starts_with [xef; xbf; x] (c0 :: cp) = true ->
  utf8_shape (c0 :: cp) = Whole.
Proof.
  intros Hx H.
  destruct cp as [|c1 [|c2 rest]].
  - cbn [starts_with] in H. rewrite andb_false_r in H. discriminate.
  - cbn [starts_with] in H. rewrite !andb_false_r in H. discriminate.
  - apply starts_with_3 in H. destruct H as (H0 & H1 & H2).
    change (uchar xef) with 0xEF in H0. change (uchar xbf) with 0xBF in H1.
    unfold utf8_shape. cbv zeta. rewrite H0, H1.
    unfold is_cont in *. rewrite H2, Hx. reflexivity.
Qed.

(** C4, as the code has it.  At a cursor that is not at the end,
    [UTF8ToUnicode] returns 0xFFFF exactly when the sequence there is
    malformed or is EF BF BF, the well-formed UTF-8 of U+FFFF; it returns
    0xFFFE exactly when the sequence is cut off by the end of the input or
    is EF BF BE, the well-formed UTF-8 of U+FFFE.  What counts as malformed
    and as cut off is [utf8_shape].  A high surrogate D800+hi in three
    bytes followed by a low surrogate DC00+lo in three bytes is read as the
    one code point 0x10000 + hi * 1024 + lo, and the cursor is behind the six
    bytes. *)
Theorem UTF8ToUnicode_sentinels :
  (forall (c : byte) (cp : list byte),
     (fst (UTF8ToUnicode (c :: cp)) = 0xFFFF <->
      utf8_shape (c :: cp) = Malformed
      \/ starts_with [xef; xbf; xbf] (c :: cp) = true)
     /\ (fst (UTF8ToUnicode (c :: cp)) = 0xFFFE <->
         utf8_shape (c :: cp) = Truncated
         \/ starts_with [xef; xbf; xbe] (c :: cp) = true))
  /\ (forall (hi lo : Z) (rest : list byte),
        UTF8ToUnicode (UnicodeToUTF8 (0xD800 + hi mod 1024)
                       ++ UnicodeToUTF8 (0xDC00 + lo mod 1024) ++ rest)
        = (0x10000 + (hi mod 1024) * 1024 + lo mod 1024, rest)).
Proof.
  split.
  - intros c cp. rewrite UTF8ToUnicode_read.
    pose proof (utf8_read_bad c cp) as [Hm Ht].
    pose proof (utf8_read_whole c cp 0xFFFF) as Hw1.
    pose proof (utf8_read_whole c cp 0xFFFE) as Hw2.
    change (to_char (0xFFFF - 0xFF40)) with xbf in Hw1.
    change (to_char (0xFFFE - 0xFF40)) with xbe in Hw2.
    destruct (shape_cases (utf8_shape (c :: cp))) as [Hs | [Hs | Hs]].
    + specialize (Hw1 ltac:(lia) Hs). specialize (Hw2 ltac:(lia) Hs).
      rewrite Hs. split.
      * rewrite Hw1. split; [auto|]. intros [H | H]; [discriminate | auto].
      * rewrite Hw2. split; [auto|]. intros [H | H]; [discriminate | auto].
    + specialize (Ht Hs). rewrite Hs, Ht. split.
      * split; [discriminate|]. intros [H | H]; [discriminate|].
        apply starts_with_EF_BF_shape in H; [|reflexivity].
        rewrite H in Hs. discriminate.
      * split; auto.
    + specialize (Hm Hs). rewrite Hs, Hm. split.
      * split; auto.
      * split; [discriminate|]. intros [H | H]; [discriminate|].
        apply starts_with_EF_BF_shape in H; [|reflexivity].
        rewrite H in Hs. discriminate.
  - intros hi lo rest.
    rewrite !UnicodeToUTF8_3 by divmod.
    cbn [app]. rewrite UTF8ToUnicode_read.
    replace (0xE0 + (0xD800 + hi mod 1024) / 4096) with 0xED by divmod.
    replace (0xE0 + (0xDC00 + lo mod 1024) / 4096) with 0xED by divmod.
    rewrite utf8_read_pair by divmod.
    f_equal. divmod.
Qed.

(** C4, the claim as it is worded: the three bytes EF BF BF are well-formed
    UTF-8, and the decoder returns the sentinel of a malformed sequence. *)
Lemma UTF8ToUnicode_sentinel_counterexample :
  wf_utf8 [xef; xbf; xbf] = true
  /\ utf8_shape [xef; xbf; xbf] = Whole
  /\ UTF8ToUnicode [xef; xbf; xbf] = (0xFFFF, []).
Proof. repeat split. Qed.

(** ** What the UTF-8 decoder returns *)

Ltac byte_ranges :=
  repeat match goal with
  | c : byte |- _ =>
    lazymatch goal with
    | H : 0 <= uchar c < 256 |- _ => fail
    | _ => pose proof (uchar_range c)
    end
  end.

(** The tests that are left in the hypotheses. *)
Ltac hyp_ifs :=
  repeat match goal with
  | H : context [if ?b then _ else _] |- _ =>
    let E := fresh "E" in destruct b eqn:E
  end.

(** All the ways through [utf8_read]. *)
Ltac read_cases :=
  unfold utf8_read, low_surrogate_shape; cbv zeta;
  repeat match goal with
  | |- context [match ?l with [] => _ | _ :: _ => _ end] =>
    is_var l; destruct l
  | |- context [if ?b then _ else _] =>
    let E := fresh "E" in destruct b eqn:E
  end.

(** The decoder moves the cursor forward, and what it returns is a sentinel
    or a code point that is no high surrogate. *)
Lemma utf8_read_result (c : byte) (cp : list byte) :
  (length (snd (utf8_read (c :: cp))) <= length cp)%nat
  /\ 0 <= fst (utf8_read (c :: cp)) <= 0x10FFFF
  /\ ~ (0xD800 <= fst (utf8_read (c :: cp)) <= 0xDBFF).
Proof.
  read_cases; cbn [fst snd length]; byte_ranges; bool_props; hyp_ifs;
    bool_props; repeat split; lia.
Qed.

(** ** Case folding *)

(** Above the last range of [CaseFoldUnicode] a code point is kept. *)
Lemma CaseFoldCodes_high (code : Z) :
  0x118BF < code -> CaseFoldCodes code = (code, 0, 0).
Proof.
  intros H. unfold CaseFoldCodes.
  repeat match goal with
  | |- (if ?b then _ else _) = _ =>
    let E := fresh "E" in destruct b eqn:E; [exfalso; bool_props; lia|]
  end.
  reflexivity.
Qed.

Lemma fold_stable_low :
  forallb (fun x => implb (readable x) (fold_stable x)) (below (Z.to_nat 0x11900))
  = true.
Proof. vm_compute. reflexivity. Qed.

(** Folding a second time changes nothing, code point by code point. *)
Lemma fold_stable_readable (code : Z) :
  readable code = true -> fold_stable code = true.
Proof.
  intros H. destruct (Z.lt_ge_cases code 0x11900) as [Hlt | Hge].
  - pose proof (forall_belowZ 0x11900 _ fold_stable_low code) as Hb.
    cbv beta in Hb. rewrite H in Hb. apply Hb.
    unfold readable in H. bool_props; lia.
  - unfold fold_stable, fold_settled.
    rewrite CaseFoldCodes_high by lia. rewrite H.
    rewrite CaseFoldCodes_high by lia.
    rewrite !Z.eqb_refl. reflexivity.
Qed.

(** The loop of [CaseFoldedUTF8] with more fuel than bytes. *)
Lemma CaseFoldedUTF8_loop_fuels (fuel fuel' : nat) (cp : list byte) :
  (length cp <= fuel)%nat -> (length cp <= fuel')%nat ->
  CaseFoldedUTF8_loop fuel cp = CaseFoldedUTF8_loop fuel' cp.
Proof.
  revert fuel' cp. induction fuel as [|fuel IH]; intros fuel' cp Hlen Hlen'.
  - destruct cp; [destruct fuel'; reflexivity | cbn [length] in Hlen; lia].
  - destruct cp as [|c cp]; [destruct fuel'; reflexivity|].
    destruct fuel' as [|fuel']; [cbn [length] in Hlen'; lia|].
    cbn [CaseFoldedUTF8_loop].
    pose proof (utf8_read_result c cp) as [Hrest _].
    rewrite UTF8ToUnicode_read.
    destruct (utf8_read (c :: cp)) as [code cp'] eqn:E.
    cbn [snd] in Hrest. cbn [length] in Hlen, Hlen'.
    rewrite (IH fuel' cp') by lia.
    reflexivity.
Qed.

Lemma CaseFoldedUTF8_loop_fuel (fuel : nat) (cp : list byte) :
  (length cp <= fuel)%nat ->
  CaseFoldedUTF8_loop fuel cp = CaseFoldedUTF8_loop (length cp) cp.
Proof.
  intros H. apply CaseFoldedUTF8_loop_fuels; [exact H | apply le_n].
Qed.

(** One iteration of the loop. *)
Lemma CaseFoldedUTF8_loop_cons (c : byte) (cp : list byte) :
  CaseFoldedUTF8_loop (length (c :: cp)) (c :: cp)
  = (let code := fst (UTF8ToUnicode (c :: cp)) in
     let code := if code =? 0xFFFF then 0xFFFD else code in
     if negb (code =? 0xFFFE) then CaseFoldUnicode code else [])
    ++ CaseFoldedUTF8_loop (length (snd (UTF8ToUnicode (c :: cp))))
         (snd (UTF8ToUnicode (c :: cp))).
Proof.
  cbn [length CaseFoldedUTF8_loop].
  pose proof (utf8_read_result c cp) as [Hrest _].
  rewrite <- UTF8ToUnicode_read in Hrest.
  destruct (UTF8ToUnicode (c :: cp)) as [code cp'].
  cbn [fst snd] in *. cbv zeta.
  rewrite (CaseFoldedUTF8_loop_fuel (length cp) cp') by lia.
  reflexivity.
Qed.

(** A settled code point in front of a string is folded to itself. *)
Lemma CaseFoldedUTF8_loop_settled (x : Z) (rest : list byte) :
  fold_settled x = true ->
  CaseFoldedUTF8_loop (length (UnicodeToUTF8 x ++ rest))
                      (UnicodeToUTF8 x ++ rest)
  = UnicodeToUTF8 x ++ CaseFoldedUTF8_loop (length rest) rest.
Proof.
  intros H. unfold fold_settled, readable in H.
  apply andb_prop in H. destruct H as [Hr Hf].
  assert (Hdec : UTF8ToUnicode (UnicodeToUTF8 x ++ rest) = (x, rest)).
  { apply UTF8ToUnicode_UnicodeToUTF8; bool_props; lia. }
  assert (Hne : exists c cp, UnicodeToUTF8 x ++ rest = c :: cp).
  { unfold UnicodeToUTF8.
    destruct (x <=? 0x7F); [eexists; eexists; reflexivity|].
    destruct (x <=? 0x7FF); [eexists; eexists; reflexivity|].
    destruct (x <=? 0xFFFF); [eexists; eexists; reflexivity|].
    destruct (x <=? 0x10FFFF); eexists; eexists; reflexivity. }
  destruct Hne as (c & cp & Hcp). rewrite Hcp in *.
  rewrite CaseFoldedUTF8_loop_cons, Hdec. cbn [fst snd]. cbv zeta.
  assert (H1 : (x =? 0xFFFF) = false) by (apply Z.eqb_neq; bool_props; lia).
  assert (H2 : (x =? 0xFFFE) = false) by (apply Z.eqb_neq; bool_props; lia).
  rewrite H1, H2. cbn [negb]. f_equal.
  unfold CaseFoldUnicode.
  destruct (CaseFoldCodes x) as [[a b] c3].
  apply andb_prop in Hf. destruct Hf as [Ha Hb].
  apply Z.eqb_eq in Ha. subst a. rewrite Hb. cbn [negb].
  apply app_nil_r.
Qed.

(** What [CaseFoldUnicode] writes is folded to itself. *)
Lemma CaseFoldedUTF8_loop_folded (code : Z) (rest : list byte) :
  readable code = true ->
  CaseFoldedUTF8_loop (length (CaseFoldUnicode code ++ rest))
                      (CaseFoldUnicode code ++ rest)
  = CaseFoldUnicode code ++ CaseFoldedUTF8_loop (length rest) rest.
Proof.
  intros H. apply fold_stable_readable in H.
  unfold fold_stable in H. unfold CaseFoldUnicode.
  destruct (CaseFoldCodes code) as [[a b] c3].
  apply andb_prop in H. destruct H as [Ha H].
  destruct (b =? 0) eqn:Eb; cbn [negb].
  - rewrite app_nil_r. apply CaseFoldedUTF8_loop_settled, Ha.
  - cbn [orb] in H. apply andb_prop in H. destruct H as [Hb H].
    destruct (c3 =? 0) eqn:Ec; cbn [negb].
    + rewrite app_nil_r, <- !app_assoc.
      rewrite CaseFoldedUTF8_loop_settled by exact Ha.
      rewrite CaseFoldedUTF8_loop_settled by exact Hb.
      reflexivity.
    + cbn [orb] in H. rewrite <- !app_assoc.
      rewrite CaseFoldedUTF8_loop_settled by exact Ha.
      rewrite CaseFoldedUTF8_loop_settled by exact Hb.
      rewrite CaseFoldedUTF8_loop_settled by exact H.
      reflexivity.
Qed.

(** The loop of [CaseFoldedUTF8] is idempotent. *)
Lemma CaseFoldedUTF8_loop_idempotent (n : nat) (s : list byte) :
  (length s <= n)%nat ->
  CaseFoldedUTF8_loop
    (length (CaseFoldedUTF8_loop (length s) s))
    (CaseFoldedUTF8_loop (length s) s)
  = CaseFoldedUTF8_loop (length s) s.
Proof.
  revert s. induction n as [|n IH]; intros s Hn.
  - destruct s; [reflexivity | cbn [length] in Hn; lia].
  - destruct s as [|c cp]; [reflexivity|].
    rewrite CaseFoldedUTF8_loop_cons. cbv zeta.
    pose proof (utf8_read_result c cp) as (Hrest & Hrange & Hsur).
    rewrite <- UTF8ToUnicode_read in Hrest, Hrange, Hsur.
    destruct (UTF8ToUnicode (c :: cp)) as [code cp'].
    cbn [fst snd] in *. cbn [length] in Hn.
    destruct (code =? 0xFFFF) eqn:E1.
    + cbn [negb Z.eqb Pos.eqb].
      rewrite CaseFoldedUTF8_loop_folded by reflexivity.
      rewrite IH by lia. reflexivity.
    + destruct (code =? 0xFFFE) eqn:E2; cbn [negb app].
      * apply IH. lia.
      * rewrite CaseFoldedUTF8_loop_folded.
        -- rewrite IH by lia. reflexivity.
        -- unfold readable, within. bool_props.
           repeat (apply andb_true_intro; split);
             try apply negb_true_iff; try apply Z.leb_le;
             try (apply andb_false_iff;
                  rewrite !Z.leb_gt; lia); lia.
Qed.

(** ** Well-formed output *)

(** What [UnicodeToUTF8] writes is one well-formed sequence; a surrogate
    is written in three bytes. *)
Lemma utf8_ok_UnicodeToUTF8 (s : bool) (code : Z) (rest : list byte) :
  0 <= code -> s = true \/ ~ (0xD800 <= code <= 0xDFFF) ->
  utf8_ok s (UnicodeToUTF8 code ++ rest) = utf8_ok s rest.
Proof.
  intros Hc Hs.
  destruct (Z.le_gt_cases code 0x7F) as [H1 | H1].
  { rewrite UnicodeToUTF8_1 by lia. cbn [app utf8_ok]. cbv zeta.
    rewrite uchar_to_char by lia.
    destruct (code <=? 0x7F) eqn:E; [reflexivity | bool_props; lia]. }
  destruct (Z.le_gt_cases code 0x7FF) as [H2 | H2].
  { rewrite UnicodeToUTF8_2 by lia. cbn [app utf8_ok]. cbv zeta.
    unfold is_cont. rewrite !uchar_to_char by divmod.
    destruct (_ <=? 0x7F) eqn:E1; [bool_props; divmod|].
    destruct (within 0xC2 0xDF _) eqn:E2; [|bool_props; divmod].
    destruct (within 0x80 0xBF _) eqn:E3; [|bool_props; divmod].
    reflexivity. }
  destruct (Z.le_gt_cases code 0xFFFF) as [H3 | H3].
  { rewrite UnicodeToUTF8_3 by lia. cbn [app utf8_ok]. cbv zeta.
    unfold is_cont. rewrite !uchar_to_char by divmod.
    destruct (_ <=? 0x7F) eqn:E1; [bool_props; divmod|].
    destruct (within 0xC2 0xDF _) eqn:E2; [bool_props; divmod|].
    destruct (within 0xE0 0xEF _) eqn:E3; [|bool_props; divmod].
    destruct (within 0x80 0xBF (0x80 + code mod 64)) eqn:E4;
      [|bool_props; divmod].
    match goal with
    | |- ?b && true && _ = _ => destruct b eqn:E5; [reflexivity|]
    end.
    exfalso. clear E1 E2 E3 E4.
    destruct s.
    - rewrite andb_false_r in E5. cbv iota in E5.
      destruct (_ =? 0xE0) eqn:E6; bool_props; divmod.
    - destruct Hs as [Hs | Hs]; [discriminate|].
      rewrite andb_true_r in E5.
      destruct (_ =? 0xE0) eqn:E6; destruct (_ =? 0xED) eqn:E7;
        bool_props; divmod. }
  destruct (Z.le_gt_cases code 0x10FFFF) as [H4 | H4].
  { rewrite UnicodeToUTF8_4 by lia. cbn [app utf8_ok]. cbv zeta.
    unfold is_cont. rewrite !uchar_to_char by divmod.
    destruct (_ <=? 0x7F) eqn:E1; [bool_props; divmod|].
    destruct (within 0xC2 0xDF _) eqn:E2; [bool_props; divmod|].
    destruct (within 0xE0 0xEF _) eqn:E3; [bool_props; divmod|].
    destruct (within 0xF0 0xF4 _) eqn:E4; [|bool_props; divmod].
    destruct (within 0x80 0xBF (0x80 + code mod 64)) eqn:E5;
      [|bool_props; divmod].
    destruct (within 0x80 0xBF (0x80 + (code / 64) mod 64)) eqn:E6;
      [|bool_props; divmod].
    match goal with
    | |- ?b && true && true && _ = _ => destruct b eqn:E7; [reflexivity|]
    end.
    exfalso. clear E1 E2 E3 E4 E5 E6.
    destruct (_ =? 0xF0) eqn:E8; destruct (_ =? 0xF4) eqn:E9;
      bool_props; divmod. }
  rewrite UnicodeToUTF8_big by lia. destruct s; reflexivity.
Qed.

Lemma utf8_ok_app_le (s : bool) (n : nat) (a b : list byte) :
  (length a <= n)%nat -> utf8_ok s a = true ->
  utf8_ok s (a ++ b) = utf8_ok s b.
Proof.
  revert a. induction n as [|n IH]; intros a Hn Ha.
  - destruct a; [reflexivity | cbn [length] in Hn; lia].
  - destruct a as [|c0 a1]; [reflexivity|].
    cbn [app utf8_ok] in *. cbv zeta in *. cbn [length] in Hn.
    destruct (uchar c0 <=? 0x7F); [apply IH; [lia | exact Ha]|].
    destruct (within 0xC2 0xDF (uchar c0)).
    { destruct a1 as [|c1 a2]; [discriminate|]. cbn [app length] in *.
      apply andb_prop in Ha. destruct Ha as [H1 Hr]. rewrite H1.
      apply IH; [lia | exact Hr]. }
    destruct (within 0xE0 0xEF (uchar c0)).
    { destruct a1 as [|c1 [|c2 a3]]; try discriminate.
      cbn [app length] in *.
      apply andb_prop in Ha. destruct Ha as [H1 Hr]. rewrite H1.
      apply IH; [lia | exact Hr]. }
    destruct (within 0xF0 0xF4 (uchar c0)); [|discriminate].
    destruct a1 as [|c1 [|c2 [|c3 a4]]]; try discriminate.
    cbn [app length] in *.
    apply andb_prop in Ha. destruct Ha as [H1 Hr]. rewrite H1.
    apply IH; [lia | exact Hr].
Qed.

Lemma utf8_ok_app (s : bool) (a b : list byte) :
  utf8_ok s a = true -> utf8_ok s (a ++ b) = utf8_ok s b.
Proof. apply (utf8_ok_app_le s (length a)), le_n. Qed.

(** Well-formed but for surrogates: the closure that the decoders stay in. *)
Lemma wf_app (a b : list byte) :
  wf_utf8_or_surrogates a = true -> wf_utf8_or_surrogates b = true ->
  wf_utf8_or_surrogates (a ++ b) = true.
Proof.
  unfold wf_utf8_or_surrogates. intros Ha Hb.
  rewrite utf8_ok_app by exact Ha. exact Hb.
Qed.

Lemma wf_UnicodeToUTF8 (code : Z) :
  0 <= code -> wf_utf8_or_surrogates (UnicodeToUTF8 code) = true.
Proof.
  intros H. unfold wf_utf8_or_surrogates.
  rewrite <- (app_nil_r (UnicodeToUTF8 code)).
  rewrite utf8_ok_UnicodeToUTF8; auto.
Qed.

Lemma wf_ascii (c : byte) :
  uchar c <= 0x7F -> wf_utf8_or_surrogates [c] = true.
Proof.
  intros H. unfold wf_utf8_or_surrogates. cbn [utf8_ok]. cbv zeta.
  destruct (uchar c <=? 0x7F) eqn:E; [reflexivity | bool_props; lia].
Qed.

Lemma wf_flat_map (f : byte -> list byte) (l : list byte) :
  (forall c, wf_utf8_or_surrogates (f c) = true) ->
  wf_utf8_or_surrogates (flat_map f l) = true.
Proof.
  intros Hf. induction l as [|c l IH]; [reflexivity|].
  cbn [flat_map]. apply wf_app; [apply Hf | exact IH].
Qed.

Lemma wf_BadCharsToUTF8 (bad : list byte) (mode : Mode) :
  wf_utf8_or_surrogates (BadCharsToUTF8 bad mode) = true.
Proof.
  destruct mode; cbn [BadCharsToUTF8]; try reflexivity.
  apply wf_flat_map. intros c. apply wf_UnicodeToUTF8.
  pose proof (uchar_range c). lia.
Qed.

Lemma wf_emit (lastpos cp : list byte) (code : Z) (mode : Mode)
    (pre : list byte) :
  0 <= code -> wf_utf8_or_surrogates pre = true ->
  wf_utf8_or_surrogates (st_out (emit lastpos cp code mode pre)) = true.
Proof.
  intros Hc Hp. unfold emit.
  destruct (code =? 0xFFFD); cbn [st_out step]; apply wf_app; auto.
  - apply wf_BadCharsToUTF8.
  - apply wf_UnicodeToUTF8, Hc.
Qed.

(** The loop keeps what its body keeps. *)
Lemma convert_loop_wf (body : list byte -> Step) :
  (forall cp, wf_utf8_or_surrogates (st_out (body cp)) = true) ->
  forall fuel cp off errpos,
    wf_utf8_or_surrogates (fst (convert_loop body fuel cp off errpos))
    = true.
Proof.
  intros Hbody. induction fuel as [|fuel IH]; intros cp off errpos.
  - reflexivity.
  - destruct cp as [|c cp]; [reflexivity|].
    rewrite convert_loop_step.
    destruct (st_break (body (c :: cp))); cbn [fst].
    + apply Hbody.
    + apply wf_app; [apply Hbody | apply IH].
Qed.

Lemma convert_wf (body : list byte -> Step) (text : list byte) :
  (forall cp, wf_utf8_or_surrogates (st_out (body cp)) = true) ->
  wf_utf8_or_surrogates (fst (convert body text)) = true.
Proof. intros H. apply convert_loop_wf, H. Qed.

(** ** The decoders write well-formed sequences *)

Lemma u16_range (z : Z) : 0 <= u16 z < 65536.
Proof. unfold u16. apply Z.mod_pos_bound. lia. Qed.

Lemma at16_range (t : list Z) (i : Z) : 0 <= at16 t i < 65536.
Proof. apply u16_range. Qed.

Lemma LTable_range (t : CompressedTable) (i : Z) : 0 <= LTable t i < 65536.
Proof. apply at16_range. Qed.

Lemma lookup_range (t : CompressedTable) (x : Z) : 0 <= lookup t x < 65536.
Proof.
  unfold lookup. cbv zeta.
  repeat match goal with
  | |- context [if ?b then _ else _] => destruct b
  end; first [apply u16_range | apply LTable_range].
Qed.

Lemma land_80 (c : byte) :
  (Z.land (uchar c) 0x80 =? 0) = (uchar c <=? 0x7F).
Proof.
  pose proof (eqb_prop _ _ (mask_ascii c)) as H.
  destruct (Z.land (uchar c) 0x80 =? 0), (uchar c <=? 0x7F);
    cbn [negb] in H; congruence.
Qed.

(** Note a fact once. *)
Ltac note pf :=
  let T := type of pf in
  lazymatch goal with
  | _ : T |- _ => fail
  | _ => pose proof pf
  end.

(** The ranges of what a goal mentions. *)
Ltac ranges :=
  repeat match goal with
  | |- context [lookup ?t ?x] => note (lookup_range t x)
  | |- context [u16 ?z] => note (u16_range z)
  | |- context [at16 ?t ?i] => note (at16_range t i)
  | |- context [uchar ?c] => note (uchar_range c)
  end.

(** All the ways through a loop body. *)
Ltac body_cases :=
  cbv zeta;
  repeat (match goal with
          | |- context [match ?l with [] => _ | _ :: _ => _ end] =>
            is_var l; destruct l
          | |- context [if ?b then _ else _] =>
            let E := fresh "E" in destruct b eqn:E
          end; cbv beta iota zeta).

Lemma SJIS_cp932_range (y code : Z) :
  0 <= code -> 0 <= SJIS_cp932 y code.
Proof.
  intros H. unfold SJIS_cp932.
  repeat match goal with
  | |- context [if ?b then _ else _] => destruct b
  end; lia.
Qed.

(** What a leaf of a body writes. *)
Ltac wf_leaf :=
  cbn [st_out step];
  first [ reflexivity
        | apply wf_BadCharsToUTF8
        | apply wf_ascii; bool_props; lia
        | apply wf_emit;
          [first [ ranges; bool_props; lia
                 | apply SJIS_cp932_range; ranges; lia ]
          | reflexivity]
        | apply wf_UnicodeToUTF8; ranges; bool_props; lia ].

Section DecodersWellFormed.
Context {hdr : Header}.

Lemma SJISToUTF8_body_wf (mode : Mode) (cp : list byte) :
  wf_utf8_or_surrogates (st_out (SJISToUTF8_body mode cp)) = true.
Proof.
  unfold SJISToUTF8_body. destruct cp as [|c cp]; [reflexivity|].
  rewrite land_80. body_cases; wf_leaf.
Qed.

Lemma EUCJPToUTF8_body_wf (mode : Mode) (cp : list byte) :
  wf_utf8_or_surrogates (st_out (EUCJPToUTF8_body mode cp)) = true.
Proof.
  unfold EUCJPToUTF8_body. destruct cp as [|c cp]; [reflexivity|].
  rewrite land_80. body_cases; wf_leaf.
Qed.

Lemma Big5ToUTF8_body_wf (mode : Mode) (cp : list byte) :
  wf_utf8_or_surrogates (st_out (Big5ToUTF8_body mode cp)) = true.
Proof.
  unfold Big5ToUTF8_body. destruct cp as [|c cp]; [reflexivity|].
  rewrite land_80. body_cases; wf_leaf.
Qed.

Lemma GBKToUTF8_body_wf (mode : Mode) (cp : list byte) :
  wf_utf8_or_surrogates (st_out (GBKToUTF8_body mode cp)) = true.
Proof.
  unfold GBKToUTF8_body. destruct cp as [|c cp]; [reflexivity|].
  rewrite land_80. body_cases; wf_leaf.
Qed.

Lemma GB18030_four_range (table : CompressedTable) (a b : Z)
    (cp : list byte) :
  0 <= fst (GB18030_four table a b cp).
Proof.
  unfold GB18030_four. body_cases; cbn [fst]; ranges; lia.
Qed.

Lemma GB18030ToUTF8_body_wf (mode : Mode) (cp : list byte) :
  wf_utf8_or_surrogates (st_out (GB18030ToUTF8_body mode cp)) = true.
Proof.
  unfold GB18030ToUTF8_body. destruct cp as [|c cp]; [reflexivity|].
  rewrite land_80. cbv zeta.
  destruct (uchar c <=? 0x7F) eqn:E0; [wf_leaf|].
  destruct cp as [|c2 cp2]; [reflexivity|].
  match goal with
  | |- context [let '(code, cp) := ?p in _] =>
    assert (Hc : 0 <= fst p)
      by (body_cases; cbn [fst];
          first [apply GB18030_four_range | ranges; lia]);
    destruct p as [code cp']
  end.
  cbn [fst] in Hc.
  match goal with
  | |- context [if ?b then _ else _] => destruct b
  end; cbn [st_out step].
  - apply wf_BadCharsToUTF8.
  - apply wf_UnicodeToUTF8, Hc.
Qed.

Lemma GB2312ToUTF8_body_wf (mode : Mode) (cp : list byte) :
  wf_utf8_or_surrogates (st_out (GB2312ToUTF8_body mode cp)) = true.
Proof.
  unfold GB2312ToUTF8_body. destruct cp as [|c cp]; [reflexivity|].
  rewrite land_80. body_cases; wf_leaf.
Qed.

Lemma JISXToUTF8_body_wf (csGL csGR : Z) (mode : Mode) (cp : list byte) :
  wf_utf8_or_surrogates (st_out (JISXToUTF8_body csGL csGR mode cp)) = true.
Proof.
  unfold JISXToUTF8_body. destruct cp as [|c cp]; [reflexivity|].
  body_cases; wf_leaf.
Qed.

Lemma SingleByteToUTF8_body_wf (key : Z) (mode : Mode) (cp : list byte) :
  wf_utf8_or_surrogates (st_out (SingleByteToUTF8_body key mode cp)) = true.
Proof.
  unfold SingleByteToUTF8_body. destruct cp as [|c cp]; [reflexivity|].
  cbv zeta. wf_leaf.
Qed.

Lemma ISO8859ToUTF8_body_wf (key : Z) (mode : Mode) (cp : list byte) :
  wf_utf8_or_surrogates (st_out (ISO8859ToUTF8_body key mode cp)) = true.
Proof.
  unfold ISO8859ToUTF8_body. destruct cp as [|c cp]; [reflexivity|].
  rewrite land_80. body_cases; wf_leaf.
Qed.

Lemma ASCIIToUTF8_body_wf (mode : Mode) (cp : list byte) :
  wf_utf8_or_surrogates (st_out (ASCIIToUTF8_body mode cp)) = true.
Proof.
  unfold ASCIIToUTF8_body. destruct cp as [|c cp]; [reflexivity|].
  body_cases; wf_leaf.
Qed.

Lemma UTF8ToUTF8_body_wf (mode : Mode) (cp : list byte) :
  wf_utf8_or_surrogates (st_out (UTF8ToUTF8_body mode cp)) = true.
Proof.
  unfold UTF8ToUTF8_body.
  destruct cp as [|c cp].
  - reflexivity.
  - pose proof (utf8_read_result c cp) as (_ & Hr & _).
    rewrite <- UTF8ToUnicode_read in Hr.
    destruct (UTF8ToUnicode (c :: cp)) as [code cp']. cbn [fst] in Hr.
    cbv zeta.
    repeat match goal with
    | |- context [if ?b then _ else _] => destruct b
    end; cbn [st_out step];
      first [reflexivity | apply wf_BadCharsToUTF8
             | apply wf_UnicodeToUTF8; lia].
Qed.

Lemma EUCKR_jamo_wf (table : CompressedTable) (hangul code : Z)
    (cp : list byte) :
  0 <= code ->
  wf_utf8_or_surrogates (fst (fst (EUCKR_jamo table hangul code cp))) = true
  /\ 0 <= snd (fst (EUCKR_jamo table hangul code cp)).
Proof.
  intros Hc. unfold EUCKR_jamo.
  destruct cp as [|j0 [|j1 [|j2 [|j3 [|j4 [|j5 cp6]]]]]];
    try (split; [reflexivity | exact Hc]).
  body_cases; cbn [fst snd]; split;
    try reflexivity; try (ranges; lia);
    repeat (apply wf_app; [apply wf_UnicodeToUTF8; ranges; lia|]);
    try (apply wf_UnicodeToUTF8; ranges; lia).
Qed.

Lemma EUCKRToUTF8_body_wf (mode : Mode) (cp : list byte) :
  wf_utf8_or_surrogates (st_out (EUCKRToUTF8_body mode cp)) = true.
Proof.
  unfold EUCKRToUTF8_body. destruct cp as [|c cp]; [reflexivity|].
  cbv zeta.
  destruct (uchar c <=? 0x7F); [wf_leaf|].
  destruct cp as [|c2 cp2]; [wf_leaf|].
  destruct ((0x81 <=? uchar c) && (uchar c <? 0xFF)); [|wf_leaf].
  destruct ((0xA1 <=? uchar c) && (0xA1 <=? uchar c2) && (uchar c2 <? 0xFF)).
  - destruct ((uchar c =? 0xA4) && (uchar c2 =? 0xD4)); [|wf_leaf].
    match goal with
    | |- context [EUCKR_jamo ?t ?h ?code ?cp] =>
      pose proof (EUCKR_jamo_wf t h code cp) as Hj;
      destruct (EUCKR_jamo t h code cp) as [[pre code'] cp']
    end.
    cbn [fst snd] in Hj. destruct Hj as [Hp Hc]; [ranges; lia|].
    apply wf_emit; assumption.
  - body_cases; wf_leaf.
Qed.

Lemma wf_all_ascii (l : list byte) :
  Forall (fun c => uchar c <= 0x7F) l -> wf_utf8_or_surrogates l = true.
Proof.
  induction 1 as [|c l Hc Hl IH]; [reflexivity|].
  change (c :: l) with ([c] ++ l). apply wf_app; [apply wf_ascii, Hc | exact IH].
Qed.

(** The sum of the high bits in [ASCIIToUTF8] is zero when there is none. *)
Lemma high_bits_sum (text : list byte) (m : Z) :
  0 <= m ->
  fold_left (fun m c => m + Z.shiftr (uchar c) 7) text m = 0 ->
  m = 0 /\ Forall (fun c => uchar c <= 0x7F) text.
Proof.
  revert m. induction text as [|c text IH]; intros m Hm H.
  - cbn [fold_left] in H. split; [exact H | constructor].
  - cbn [fold_left] in H.
    pose proof (uchar_range c) as Hc.
    assert (Hs : Z.shiftr (uchar c) 7 = uchar c / 128)
      by (rewrite Z.shiftr_div_pow2 by lia; reflexivity).
    rewrite Hs in H.
    assert (Hd : 0 <= uchar c / 128) by (apply Z.div_pos; lia).
    apply IH in H; [|lia]. destruct H as [H0 Hall].
    split; [lia|]. constructor; [|exact Hall].
    assert (uchar c / 128 = 0) by lia.
    Z.div_mod_to_equations. lia.
Qed.

Lemma ASCIIToUTF8_wf (text : list byte) (mode : Mode) :
  wf_utf8_or_surrogates (fst (ASCIIToUTF8 text mode)) = true.
Proof.
  unfold ASCIIToUTF8. cbv zeta.
  destruct (_ =? 0) eqn:E.
  - cbn [fst]. apply Z.eqb_eq in E. apply high_bits_sum in E; [|lia].
    apply wf_all_ascii, E.
  - apply convert_wf. intros cp. apply ASCIIToUTF8_body_wf.
Qed.

Lemma UnknownToUTF8_wf (text after : list byte) (mode : Mode) :
  wf_utf8_or_surrogates (fst (UnknownToUTF8 text after mode)) = true.
Proof.
  unfold UnknownToUTF8. cbn [fst].
  induction text as [|c text IH]; [reflexivity|].
  cbn [UnknownToUTF8_loop]. cbv zeta. apply wf_app; [|exact IH].
  destruct (_ || _); [apply wf_BadCharsToUTF8|].
  apply wf_UnicodeToUTF8. pose proof (uchar_range c). lia.
Qed.

End DecodersWellFormed.

(** ** The ISO 2022 decoder writes well-formed sequences *)

Lemma run_length_range (lo hi : Z) (cp : list byte) :
  Forall (fun c => lo <= uchar c <= hi) (firstn (run_length lo hi cp) cp).
Proof.
  induction cp as [|c cp IH]; [constructor|].
  cbn [run_length]. destruct (within lo hi (uchar c)) eqn:E.
  - cbn [firstn]. constructor; [|exact IH]. bool_props. lia.
  - constructor.
Qed.

Lemma firstn_plus {A : Type} (a b : nat) (l : list A) :
  firstn (a + b) l = firstn a l ++ firstn b (skipn a l).
Proof.
  revert l. induction a as [|a IH]; intros l; [reflexivity|].
  destruct l as [|x l]; [destruct b; reflexivity|].
  cbn [Nat.add firstn skipn app]. rewrite IH. reflexivity.
Qed.

Lemma firstn_succ_nth {A : Type} (k : nat) (l : list A) (x : A) :
  nth_error l k = Some x -> firstn (S k) l = firstn k l ++ [x].
Proof.
  revert l. induction k as [|k IH]; intros l H.
  - destruct l as [|y l]; [discriminate|]. cbn in H. injection H as ->.
    reflexivity.
  - destruct l as [|y l]; [discriminate|]. cbn [nth_error] in H.
    cbn [firstn app]. cbn [firstn] in IH. rewrite (IH l H). reflexivity.
Qed.

(** The bytes of an escape code are printable ASCII. *)
Lemma EscapeCodeLength_printable (cp : list byte) :
  Forall (fun c => 0x20 <= uchar c <= 0x7E)
         (firstn (EscapeCodeLength cp) cp).
Proof.
  unfold EscapeCodeLength. cbv zeta.
  set (l0 := match cp with
             | c :: cp' =>
               if uchar c =? 0x5B then S (run_length 0x30 0x3F cp') else O
             | [] => O
             end).
  assert (H0 : Forall (fun c => 0x20 <= uchar c <= 0x7E) (firstn l0 cp)).
  { subst l0. destruct cp as [|c cp']; [constructor|].
    destruct (uchar c =? 0x5B) eqn:E; [|constructor].
    cbn [firstn]. constructor.
    - bool_props. lia.
    - eapply Forall_impl; [|apply run_length_range].
      cbv beta. intros a Ha. lia. }
  set (l1 := run_length 0x20 0x2F (skipn l0 cp)).
  assert (H1 : Forall (fun c => 0x20 <= uchar c <= 0x7E)
                      (firstn (l0 + l1) cp)).
  { rewrite firstn_plus. apply Forall_app. split; [exact H0|].
    eapply Forall_impl; [|apply run_length_range].
    cbv beta. intros a Ha. lia. }
  destruct (nth_error cp (l0 + l1)) as [c|] eqn:E; [|constructor].
  destruct (within 0x40 0x7E (uchar c)) eqn:Ec; [|constructor].
  rewrite (firstn_succ_nth _ _ _ E). apply Forall_app. split; [exact H1|].
  constructor; [|constructor]. bool_props. lia.
Qed.

Lemma EscapeCodeLength_ascii (cp : list byte) :
  Forall is_ascii (firstn (EscapeCodeLength cp) cp).
Proof.
  eapply Forall_impl; [|apply EscapeCodeLength_printable].
  cbv beta. unfold is_ascii. intros a Ha. lia.
Qed.

Section ISO2022WellFormed.
Context {hdr : Header}.

Lemma control_codes_consumed (key : Z) (cp : list byte) (prevchar : byte)
    (i n : nat) (iso : Iso) :
  (length (fst (fst (control_codes key cp prevchar i n iso)))
   <= length cp)%nat
  /\ Forall is_ascii
       (firstn (length cp
                - length (fst (fst (control_codes key cp prevchar i n iso))))
               cp).
Proof.
  revert prevchar i n iso.
  induction cp as [|c cp IH]; intros prevchar i n iso.
  - cbn. split; [lia | constructor].
  - cbn [control_codes]. destruct (is_control c) eqn:E.
    + cbv zeta.
      match goal with
      | |- context [control_codes key cp c (S i) ?n' ?iso'] =>
        specialize (IH c (S i) n' iso');
        destruct (control_codes key cp c (S i) n' iso') as [[rest2 n2] iso2]
      end.
      cbn [fst length] in *. destruct IH as [Hlen Hall]. split; [lia|].
      replace (S (length cp) - length rest2)%nat
        with (S (length cp - length rest2)) by lia.
      cbn [firstn]. constructor; [|exact Hall].
      unfold is_ascii, is_control in *. bool_props. lia.
    + cbn [fst length]. split; [lia|].
      rewrite Nat.sub_diag. constructor.
Qed.

Section Nested.
Variable nested : Nested.
Hypothesis nested_wf : forall key seg mode,
  wf_utf8_or_surrogates (fst (nested key seg mode)) = true.

Lemma decode_segment_wf (iso : Iso) (seg after : list byte) (mode : Mode) :
  wf_utf8_or_surrogates (fst (decode_segment nested iso seg after mode))
  = true.
Proof.
  unfold decode_segment. cbv zeta.
  repeat match goal with
  | |- context [if ?b then _ else _] => destruct b
  end.
  - apply nested_wf.
  - apply nested_wf.
  - apply convert_wf. intros cp. apply JISXToUTF8_body_wf.
  - apply UnknownToUTF8_wf.
  - apply ASCIIToUTF8_wf.
Qed.

Lemma escape_echo_wf (escapeCode : list byte) :
  wf_utf8_or_surrogates
    (to_char 0x1B :: firstn (EscapeCodeLength escapeCode) escapeCode) = true.
Proof.
  apply wf_all_ascii. constructor.
  - unfold is_ascii. rewrite uchar_to_char; lia.
  - apply EscapeCodeLength_ascii.
Qed.

Lemma escape_sequence_wf (mode : Mode) (lastpos : list byte)
    (savePos n : nat) (iso : Iso) :
  wf_utf8_or_surrogates
    (esc_out (escape_sequence nested mode lastpos savePos n iso)) = true.
Proof.
  unfold escape_sequence. cbv zeta.
  pose proof (escape_echo_wf (tl lastpos)) as Hecho.
  set (echo := to_char 0x1B :: _) in *.
  destruct (negb (Z.land (iso_state iso) ALTERNATE_CS =? 0));
    [exact Hecho|].
  destruct (EscapeCode _ _ _) as [type state].
  destruct type; cbv beta iota;
    repeat (match goal with
            | |- context [nested ?k ?s ?m] =>
              let H := fresh "Hn" in
              pose proof (nested_wf k s m) as H;
              destruct (nested k s m); cbn [fst] in H
            | |- context [if ?b then _ else _] => destruct b
            | |- context [match ?l with [] => _ | _ :: _ => _ end] =>
              destruct l
            end; cbv beta iota);
    cbn [esc_out];
    repeat (apply wf_app; [|try assumption; try reflexivity]);
    try assumption; try reflexivity.
Qed.

Lemma escape_codes_wf (mode : Mode) (fuel : nat) (cp : list byte)
    (l n : nat) (iso : Iso) :
  wf_utf8_or_surrogates
    (fst (fst (fst (escape_codes nested mode fuel cp l n iso)))) = true.
Proof.
  revert cp n iso. induction fuel as [|fuel IH]; intros cp n iso.
  - reflexivity.
  - destruct cp as [|c cp]; [reflexivity|].
    cbn [escape_codes]. destruct (is_escape c); [|reflexivity].
    cbv zeta.
    pose proof (escape_sequence_wf mode (c :: cp)
                  (l - length (c :: cp)) n iso) as He.
    destruct (escape_sequence _ _ _ _ _ _) as [eo er en ei eb].
    cbn [esc_out esc_rest esc_n esc_iso esc_break] in *.
    destruct eb; [exact He|].
    specialize (IH er en ei).
    destruct (escape_codes _ _ _ _ _ _ _) as [[[out rest] n'] iso'].
    cbn [fst] in *. apply wf_app; assumption.
Qed.

Lemma ISO2022_loop_wf (key : Z) (mode : Mode) (fuel : nat)
    (cp : list byte) (l n : nat) (iso : Iso) :
  wf_utf8_or_surrogates
    (run_out (ISO2022_loop nested key mode fuel cp l n iso)) = true.
Proof.
  revert cp n iso. induction fuel as [|fuel IH]; intros cp n iso.
  - reflexivity.
  - destruct cp as [|c cp]; [reflexivity|].
    cbn [ISO2022_loop]. cbv zeta.
    destruct (split_segment (c :: cp)) as [seg rest].
    match goal with
    | |- context [match seg with
                  | [] => ([], n)
                  | _ :: _ => ?X
                  end] =>
      set (p := match seg with [] => ([], n) | _ :: _ => X end)
    end.
    assert (H1 : wf_utf8_or_surrogates (fst p) = true).
    { subst p. destruct seg as [|s0 seg]; [reflexivity|].
      pose proof (decode_segment_wf iso (s0 :: seg) rest mode) as Hd.
      destruct (decode_segment _ _ _ _ _). exact Hd. }
    clearbody p. destruct p as [out1 n1]. cbn [fst] in H1.
    pose proof (control_codes_consumed key rest x00
                  (l - length rest) n1 iso) as [_ H2].
    destruct (control_codes _ _ _ _ _ _) as [[rest2 n2] iso2].
    cbn [fst] in H2.
    pose proof (escape_codes_wf mode (length rest2) rest2 l n2 iso2) as H3.
    destruct (escape_codes _ _ _ _ _ _ _) as [[[out3 rest3] n3] iso3].
    cbn [fst] in H3. cbn [run_out].
    apply wf_app; [exact H1|].
    apply wf_app; [apply wf_all_ascii, H2|].
    apply wf_app; [exact H3|]. apply IH.
Qed.

Lemma ISO2022ToUTF8_wf (key : Z) (text : list byte) (mode : Mode) :
  wf_utf8_or_surrogates (fst (ISO2022ToUTF8 nested key text mode)) = true.
Proof.
  unfold ISO2022ToUTF8, ISO2022_run. cbn [fst]. apply ISO2022_loop_wf.
Qed.

End Nested.

(** Every decoder, whatever the key, the mode and the nesting. *)
Lemma AnyToUTF8_wf (depth : nat) (key : Z) (text : list byte)
    (mode : Mode) :
  wf_utf8_or_surrogates (fst (AnyToUTF8 depth key text mode)) = true.
Proof.
  revert key text mode. induction depth as [|depth IH]; intros key text mode.
  - cbn [AnyToUTF8].
    repeat match goal with
    | |- context [if ?b then _ else _] => destruct b
    end;
    first [ reflexivity | apply ASCIIToUTF8_wf | apply convert_wf; intros cp ];
    first [ apply ISO8859ToUTF8_body_wf | apply EUCKRToUTF8_body_wf
          | apply GB2312ToUTF8_body_wf | apply UTF8ToUTF8_body_wf
          | apply GB18030ToUTF8_body_wf | apply GBKToUTF8_body_wf
          | apply Big5ToUTF8_body_wf | apply EUCJPToUTF8_body_wf
          | apply SJISToUTF8_body_wf | apply SingleByteToUTF8_body_wf ].
  - cbn [AnyToUTF8].
    repeat match goal with
    | |- context [if ?b then _ else _] => destruct b
    end;
    first [ apply ASCIIToUTF8_wf | apply (ISO2022ToUTF8_wf _ IH)
          | apply convert_wf; intros cp ];
    first [ apply ISO8859ToUTF8_body_wf | apply EUCKRToUTF8_body_wf
          | apply GB2312ToUTF8_body_wf | apply UTF8ToUTF8_body_wf
          | apply GB18030ToUTF8_body_wf | apply GBKToUTF8_body_wf
          | apply Big5ToUTF8_body_wf | apply EUCJPToUTF8_body_wf
          | apply SJISToUTF8_body_wf | apply SingleByteToUTF8_body_wf ].
Qed.

End ISO2022WellFormed.

(** ** Well-formed UTF-8 through the UTF-8 converter *)

(** Writing the code point that was read from well-formed UTF-8 gives the
    bytes that were read. *)
Lemma UnicodeToUTF8_utf8_read (c : byte) (cp : list byte) :
  wf_utf8 (c :: cp) = true ->
  UnicodeToUTF8 (fst (utf8_read (c :: cp))) ++ snd (utf8_read (c :: cp))
  = c :: cp
  /\ wf_utf8 (snd (utf8_read (c :: cp))) = true.
Proof.
  unfold wf_utf8. cbn [utf8_ok]. unfold utf8_read. cbv zeta.
  pose proof (uchar_range c) as R0.
  destruct (uchar c <=? 0x7F) eqn:E0.
  { intros H. cbn [fst snd]. bool_props.
    rewrite UnicodeToUTF8_1 by lia. rewrite to_char_uchar. auto. }
  destruct (within 0xC2 0xDF (uchar c)) eqn:E2.
  { destruct cp as [|c1 cp2]; [discriminate|].
    intros H. apply andb_prop in H. destruct H as [H1 Hr].
    rewrite H1. cbn [fst snd]. split; [|exact Hr].
    pose proof (uchar_range c1) as R1. clear E0. bool_props.
    rewrite UnicodeToUTF8_2 by lia. cbn [app].
    replace (0xC0 + _ / 64) with (uchar c) by divmod.
    replace (0x80 + _ mod 64) with (uchar c1) by divmod.
    rewrite !to_char_uchar. reflexivity. }
  destruct (within 0xE0 0xEF (uchar c)) eqn:E3.
  { destruct cp as [|c1 [|c2 cp3]]; try discriminate.
    intros H. apply andb_prop in H. destruct H as [H Hr].
    apply andb_prop in H. destruct H as [H1 H2].
    cbn [negb] in H1. rewrite andb_true_r in H1.
    pose proof (uchar_range c1) as R1. pose proof (uchar_range c2) as R2.
    assert (Hb1 : within (if uchar c =? 0xE0 then 0xA0 else 0x80) 0xBF
                         (uchar c1) = true).
    { destruct (uchar c =? 0xE0), (uchar c =? 0xED);
        unfold within in *; bool_props;
        apply andb_true_intro; split; apply Z.leb_le; lia. }
    assert (Hb2 : (uchar c =? 0xED) && within 0xA0 0xAF (uchar c1) = false).
    { destruct (uchar c =? 0xED) eqn:E5; [|reflexivity]. cbn [andb].
      destruct (within 0xA0 0xAF (uchar c1)) eqn:E6; [|reflexivity].
      exfalso. destruct (uchar c =? 0xE0); bool_props; lia. }
    rewrite Hb1, H2, Hb2. cbn [fst snd]. split; [|exact Hr].
    assert (Hlo : 0x80 <= uchar c1 <= 0xBF /\ (uchar c = 0xE0 -> 0xA0 <= uchar c1)).
    { clear H1. destruct (uchar c =? 0xE0) eqn:E6; bool_props; lia. }
    clear Hb1 Hb2 H1 E0 E2. bool_props.
    rewrite UnicodeToUTF8_3 by lia. cbn [app].
    replace (0xE0 + _ / 4096) with (uchar c) by divmod.
    replace (0x80 + (_ / 64) mod 64) with (uchar c1) by divmod.
    replace (0x80 + _ mod 64) with (uchar c2) by divmod.
    rewrite !to_char_uchar. reflexivity. }
  destruct (within 0xF0 0xF4 (uchar c)) eqn:E4; [|discriminate].
  destruct cp as [|c1 [|c2 [|c3 cp4]]]; try discriminate.
  intros H. apply andb_prop in H. destruct H as [H Hr].
  apply andb_prop in H. destruct H as [H H3].
  apply andb_prop in H. destruct H as [H1 H2].
  pose proof (uchar_range c1) as R1. pose proof (uchar_range c2) as R2.
  pose proof (uchar_range c3) as R3.
  assert (E5 : within 0xF0 0xF7 (uchar c) = true)
    by (bool_props; apply andb_true_intro; split; apply Z.leb_le; lia).
  assert (Hb1 : within (if uchar c =? 0xF0 then 0x90 else 0x80) 0xBF
                       (uchar c1) = true).
  { destruct (uchar c =? 0xF0), (uchar c =? 0xF4);
      unfold within in *; bool_props;
      apply andb_true_intro; split; apply Z.leb_le; lia. }
  assert (Hb2 : (uchar c <? 0xF4)
                || ((uchar c =? 0xF4) && (uchar c1 <=? 0x8F)) = true).
  { destruct (uchar c =? 0xF4) eqn:E6.
    - rewrite orb_true_iff. right. cbn [andb]. apply Z.leb_le.
      clear Hb1. destruct (uchar c =? 0xF0); bool_props; lia.
    - rewrite orb_true_iff. left. apply Z.ltb_lt. clear Hb1 H1.
      bool_props; lia. }
  rewrite E5, Hb1, H2, H3, Hb2. cbn [fst snd]. split; [|exact Hr].
  assert (Hlo : 0x80 <= uchar c1 <= 0xBF
                /\ (uchar c = 0xF0 -> 0x90 <= uchar c1)
                /\ (uchar c = 0xF4 -> uchar c1 <= 0x8F)).
  { clear Hb1 Hb2.
    destruct (uchar c =? 0xF0) eqn:E6; destruct (uchar c =? 0xF4) eqn:E7;
      bool_props; lia. }
  clear Hb1 Hb2 H1 E5 E0 E2 E3. bool_props.
  rewrite UnicodeToUTF8_4 by lia. cbn [app].
  replace (0xF0 + _ / 262144) with (uchar c) by divmod.
  replace (0x80 + (_ / 4096) mod 64) with (uchar c1) by divmod.
  replace (0x80 + (_ / 64) mod 64) with (uchar c2) by divmod.
  replace (0x80 + _ mod 64) with (uchar c3) by divmod.
  rewrite !to_char_uchar. reflexivity.
Qed.

(** The iteration of [UTF8ToUTF8] at well-formed UTF-8 copies one
    sequence. *)
Lemma UTF8ToUTF8_body_copies (mode : Mode) (c : byte) (cp : list byte) :
  wf_utf8 (c :: cp) = true ->
  st_out (UTF8ToUTF8_body mode (c :: cp))
    ++ st_rest (UTF8ToUTF8_body mode (c :: cp)) = c :: cp
  /\ wf_utf8 (st_rest (UTF8ToUTF8_body mode (c :: cp))) = true
  /\ st_break (UTF8ToUTF8_body mode (c :: cp)) = false.
Proof.
  intros Hwf. unfold UTF8ToUTF8_body. rewrite UTF8ToUnicode_read.
  pose proof (UnicodeToUTF8_utf8_read c cp Hwf) as [Heq Hrest].
  pose proof (wf_utf8_shape c cp Hwf) as Hshape.
  pose proof (fun s Hs => utf8_read_whole c cp s Hs Hshape) as Hwhole.
  destruct (utf8_read (c :: cp)) as [code cp'].
  cbn [fst snd] in *. cbv zeta.
  assert (Hgood :
    within 0xFFFE 0xFFFF code
    && negb ((length (c :: cp) - length cp' =? 3)%nat
             && (uchar (nth 0 (c :: cp) x00) =? 0xef)
             && (uchar (nth 1 (c :: cp) x00) =? 0xbf)
             && (uchar (nth 2 (c :: cp) x00) =? Z.lxor code 0xFF40))
    = false).
  { destruct (within 0xFFFE 0xFFFF code) eqn:E; [|reflexivity].
    cbn [andb]. apply negb_false_iff.
    assert (Hs : 0xFFFE <= code <= 0xFFFF) by (bool_props; lia).
    destruct (Hwhole code Hs) as [Hstart _].
    specialize (Hstart eq_refl).
    assert (Hlen : length (c :: cp) = (3 + length cp')%nat).
    { rewrite <- Heq, length_app. f_equal.
      rewrite UnicodeToUTF8_3 by lia. reflexivity. }
    rewrite Hlen.
    replace (3 + length cp' - length cp')%nat with 3%nat by lia.
    destruct cp as [|c1 [|c2 rest]];
      try (cbn [starts_with] in Hstart;
           rewrite ?andb_false_r in Hstart; discriminate).
    apply starts_with_3 in Hstart. destruct Hstart as (H0 & H1 & H2).
    cbn [nth]. rewrite H0, H1, H2.
    rewrite uchar_to_char by lia.
    assert (Hx : Z.lxor code 0xFF40 = code - 0xFF40).
    { assert (Hc : code = 0xFFFE \/ code = 0xFFFF) by lia.
      destruct Hc as [-> | ->]; reflexivity. }
    rewrite Hx, !Z.eqb_refl. reflexivity. }
  rewrite Hgood. cbn [st_out st_rest st_break step]. auto.
Qed.

(** The output of a conversion loop does not depend on where the loop
    stands and on what errors it has seen. *)
Lemma convert_loop_out (body : list byte -> Step) (fuel : nat)
    (cp : list byte) (off off' : nat) (e e' : option nat) :
  fst (convert_loop body fuel cp off e)
  = fst (convert_loop body fuel cp off' e').
Proof.
  revert cp off off' e e'. induction fuel as [|fuel IH];
    intros cp off off' e e'; [reflexivity|].
  destruct cp as [|c cp]; [reflexivity|].
  rewrite !convert_loop_step.
  destruct (st_break (body (c :: cp))); cbn [fst]; [reflexivity|].
  f_equal. apply IH.
Qed.

Lemma UTF8ToUTF8_body_rest (mode : Mode) (lastpos : list byte) :
  st_rest (UTF8ToUTF8_body mode lastpos) = snd (UTF8ToUnicode lastpos).
Proof.
  unfold UTF8ToUTF8_body. destruct (UTF8ToUnicode lastpos) as [code cp].
  cbv zeta. destruct (_ && _); reflexivity.
Qed.

(** [UTF8ToUTF8] copies well-formed UTF-8. *)
Lemma UTF8ToUTF8_loop_copies (mode : Mode) (fuel : nat) (text : list byte)
    (off : nat) (e : option nat) :
  (length text <= fuel)%nat -> wf_utf8 text = true ->
  fst (convert_loop (UTF8ToUTF8_body mode) fuel text off e) = text.
Proof.
  revert text off e. induction fuel as [|fuel IH]; intros text off e Hl Hwf.
  - destruct text; [reflexivity | cbn [length] in Hl; lia].
  - destruct text as [|c cp]; [reflexivity|].
    rewrite convert_loop_step.
    pose proof (UTF8ToUTF8_body_copies mode c cp Hwf) as (Heq & Hr & Hb).
    rewrite Hb. cbn [fst]. rewrite IH.
    + exact Heq.
    + rewrite UTF8ToUTF8_body_rest, UTF8ToUnicode_read.
      pose proof (utf8_read_result c cp) as [Hlen _].
      cbn [length] in Hl. lia.
    + exact Hr.
Qed.

Lemma UTF8ToUTF8_copies (mode : Mode) (text : list byte) :
  wf_utf8 text = true -> fst (UTF8ToUTF8 text mode) = text.
Proof.
  intros H. unfold UTF8ToUTF8, convert.
  apply UTF8ToUTF8_loop_copies; [apply le_n | exact H].
Qed.

(** ** Decoding and encoding again *)

Section RoundTrip.
Context {hdr : Header}.

(** The EUC-KR jamo sequence with a filler for the vowel, A4 D4 A4 A1 A4 D4
    A4 A1, is decoded without an error to U+1100 U+1160 U+11A8, whatever
    the table. *)
Lemma EUCKRToUTF8_filler_vowel (mode : Mode) :
  EUCKRToUTF8 [xa4; xd4; xa4; xa1; xa4; xd4; xa4; xa1] mode
  = ([xe1; x84; x80; xe1; x85; xa0; xe1; x86; xa8], 8%nat).
Proof.
  unfold EUCKRToUTF8.
  rewrite (convert_single _ _ _
             [xe1; x84; x80; xe1; x85; xa0; xe1; x86; xa8]); reflexivity.
Qed.

(** One iteration of [UTF8ToEUCKR] at a code point that is no hangul
    syllable and that the last chance turns into a question mark. *)
Lemma UTF8ToEUCKR_body_other (lastpos rest : list byte) (code : Z) :
  UTF8ToUnicode lastpos = (code, rest) ->
  (code <? 0x80) = false -> within 0xAC00 0xD7A3 code = false ->
  LastChanceConversion lastpos = (cstr "?", false) ->
  (length (st_out (UTF8ToEUCKR_body lastpos)) <= 2)%nat
  /\ st_rest (UTF8ToEUCKR_body lastpos) = rest
  /\ st_break (UTF8ToEUCKR_body lastpos) = false.
Proof.
  intros Hdec Hlow Hsyl Hlast. unfold UTF8ToEUCKR_body, last_chance.
  rewrite Hdec, Hlast. cbv zeta. rewrite Hlow, Hsyl.
  destruct (_ <? 8836); cbn; repeat split; lia.
Qed.

(** ... and is encoded in six bytes at most. *)
Lemma UTF8ToEUCKR_filler_vowel :
  (length (fst (UTF8ToEUCKR [xe1; x84; x80; xe1; x85; xa0; xe1; x86; xa8]))
   <= 6)%nat.
Proof.
  unfold UTF8ToEUCKR, convert. cbn [length].
  destruct (UTF8ToEUCKR_body_other
              [xe1; x84; x80; xe1; x85; xa0; xe1; x86; xa8]
              [xe1; x85; xa0; xe1; x86; xa8] 0x1100)
    as (L1 & R1 & B1); try reflexivity.
  destruct (UTF8ToEUCKR_body_other
              [xe1; x85; xa0; xe1; x86; xa8] [xe1; x86; xa8] 0x1160)
    as (L2 & R2 & B2); try reflexivity.
  destruct (UTF8ToEUCKR_body_other [xe1; x86; xa8] [] 0x11A8)
    as (L3 & R3 & B3); try reflexivity.
  rewrite convert_loop_step, B1, R1. cbn [fst].
  rewrite convert_loop_step, B2, R2. cbn [fst].
  rewrite convert_loop_step, B3, R3. cbn [fst].
  rewrite convert_loop_nil. cbn [fst].
  rewrite !length_app. cbn [length]. lia.
Qed.


(** C2, as the code has it.  Whatever the key, the tables and the input,
    what [ToUTF8] returns is a sequence of complete UTF-8 forms of one to
    four bytes, in shortest form and of a value up to 0x10FFFF; three-byte
    forms of surrogate code points may be among them. *)
Theorem ToUTF8_well_formed_or_surrogates (key : Z) (text : list byte) :
  wf_utf8_or_surrogates (fst (ToUTF8 key text)) = true.
Proof. apply AnyToUTF8_wf. Qed.

(** C9.  [CaseFoldedUTF8] with the UTF-8 key is idempotent, on valid UTF-8
    and on every other byte string. *)
Theorem CaseFoldedUTF8_idempotent (S : list byte) :
  CaseFoldedUTF8 ISO_IR_192 (CaseFoldedUTF8 ISO_IR_192 S)
  = CaseFoldedUTF8 ISO_IR_192 S.
Proof.
  unfold CaseFoldedUTF8. rewrite Z.eqb_refl. cbn [negb].
  apply (CaseFoldedUTF8_loop_idempotent (length S)), le_n.
Qed.

End RoundTrip.



(** C2, the claim as it is worded: the low surrogate U+DC00 in three bytes
    passes through the UTF-8 converter. *)
Lemma ToUTF8_surrogate_counterexample :
  @ToUTF8 sample_header (@ISO_IR_192 sample_header) [xed; xb0; x80]
  = ([xed; xb0; x80], 0%nat)
  /\ UTF8ToUTF8 [xed; xb0; x80] UTF8_REPLACE = ([xed; xb0; x80], 0%nat)
  /\ wf_utf8 [xed; xb0; x80] = false.
Proof. repeat split. Qed.

(** ** The ISO 2022 state at the end of a line

    What the decoder does with a text and with the same text followed by
    one more control byte [d]. *)

Section EndOfLine.
Context {hdr : Header}.
Variable nested : Nested.
Variable key : Z.
Variable mode : Mode.
Variable d : byte.
Hypothesis d_control : is_control d = true.

Lemma d_delimiter : is_delimiter d = true.
Proof. unfold is_delimiter. rewrite d_control. apply orb_true_r. Qed.

Lemma d_not_escape : is_escape d = false.
Proof.
  unfold is_escape, is_control in *. apply Z.eqb_neq.
  pose proof d_control as H. bool_props. lia.
Qed.

Lemma split_segment_app (cp : list byte) :
  split_segment (cp ++ [d])
  = (fst (split_segment cp), snd (split_segment cp) ++ [d]).
Proof.
  induction cp as [|c cp IH].
  - cbn [app split_segment]. rewrite d_delimiter. reflexivity.
  - cbn [app split_segment]. destruct (is_delimiter c); [reflexivity|].
    rewrite IH. destruct (split_segment cp). reflexivity.
Qed.

Lemma split_segment_eq (cp : list byte) :
  cp = fst (split_segment cp) ++ snd (split_segment cp).
Proof.
  induction cp as [|c cp IH]; [reflexivity|].
  cbn [split_segment]. destruct (is_delimiter c); [reflexivity|].
  destruct (split_segment cp). cbn [fst snd app] in *. f_equal. exact IH.
Qed.

Lemma split_segment_not_CR (cp : list byte) :
  Forall (fun c => uchar c <> 0x0D) (fst (split_segment cp)).
Proof.
  induction cp as [|c cp IH]; [constructor|].
  cbn [split_segment]. destruct (is_delimiter c) eqn:E; [constructor|].
  destruct (split_segment cp). cbn [fst] in *. constructor; [|exact IH].
  unfold is_delimiter, is_control, is_escape in E. bool_props; lia.
Qed.

Lemma last_default {A : Type} (x : A) (l : list A) (a b : A) :
  last (x :: l) a = last (x :: l) b.
Proof.
  revert x. induction l as [|y l IH]; intros x; [reflexivity|].
  change (last (y :: l) a = last (y :: l) b). apply IH.
Qed.

Lemma last_cons {A : Type} (c : A) (l : list A) (a : A) :
  last (c :: l) a = last l c.
Proof.
  destruct l as [|x l]; [reflexivity|].
  change (last (x :: l) a = last (x :: l) c). apply last_default.
Qed.

Lemma control_step (prev : byte) (iso : Iso) :
  (if negb ((uchar d =? 0x0E) || (uchar d =? 0x0F))
      && (uchar prev =? 0x0D) && (uchar d =? 0x0A)
   then InitISO2022 key else iso) = after_control key d prev iso.
Proof.
  unfold after_control.
  destruct (uchar d =? 0x0A) eqn:E.
  - apply Z.eqb_eq in E. rewrite E. cbn [Z.eqb Pos.eqb orb negb andb].
    reflexivity.
  - rewrite !andb_false_r. reflexivity.
Qed.

(** The control codes of [rest ++ [d]]. *)
Lemma control_codes_app (rest : list byte) (prev : byte) (i n i' n' : nat)
    (iso : Iso) :
  let r := control_codes key rest prev i n iso in
  let r' := control_codes key (rest ++ [d]) prev i' n' iso in
  match fst (fst r) with
  | [] => fst (fst r') = []
          /\ snd r' = after_control key d (last rest prev) (snd r)
  | _ :: _ => fst (fst r') = fst (fst r) ++ [d] /\ snd r' = snd r
  end.
Proof.
  revert prev i n i' n' iso.
  induction rest as [|c rest IH]; intros prev i n i' n' iso.
  - cbn [app control_codes last]. rewrite d_control. cbv zeta.
    cbn [control_codes fst snd]. rewrite control_step. auto.
  - cbn [app control_codes]. destruct (is_control c) eqn:E.
    + cbv zeta.
      match goal with
      | |- context [control_codes key rest c (S i) ?a ?b] =>
        match goal with
        | |- context [control_codes key (rest ++ [d]) c (S i') ?a' _] =>
          specialize (IH c (S i) a (S i') a' b)
        end
      end.
      cbv zeta in IH.
      destruct (control_codes key rest c (S i) _ _) as [[rest2 n2] iso2].
      cbn [fst snd] in *.
      rewrite last_cons. exact IH.
    + cbn [fst snd]. auto.
Qed.

(** *** An escape sequence in front of [d] *)

Lemma d_range : 0x0A <= uchar d <= 0x0F.
Proof.
  pose proof d_control as H. unfold is_control in H. bool_props. lia.
Qed.

Lemma run_length_app (lo hi : Z) (x : list byte) :
  0x0F < lo -> run_length lo hi (x ++ [d]) = run_length lo hi x.
Proof.
  intros Hlo. induction x as [|c x IH].
  - cbn [app run_length]. pose proof d_range.
    destruct (within lo hi (uchar d)) eqn:E; [bool_props; lia | reflexivity].
  - cbn [app run_length]. rewrite IH. reflexivity.
Qed.

Lemma run_length_le (lo hi : Z) (x : list byte) :
  (run_length lo hi x <= length x)%nat.
Proof.
  induction x as [|c x IH]; [apply le_n|].
  cbn [run_length length]. destruct (within lo hi (uchar c)); lia.
Qed.

Lemma skipn_app_le {A : Type} (k : nat) (x y : list A) :
  (k <= length x)%nat -> skipn k (x ++ y) = skipn k x ++ y.
Proof.
  intros H. rewrite skipn_app.
  replace (k - length x)%nat with 0%nat by lia. reflexivity.
Qed.

Lemma firstn_app_le {A : Type} (k : nat) (x y : list A) :
  (k <= length x)%nat -> firstn k (x ++ y) = firstn k x.
Proof.
  intros H. rewrite firstn_app.
  replace (k - length x)%nat with 0%nat by lia. apply app_nil_r.
Qed.

Lemma EscapeCodeLength_le (x : list byte) :
  (EscapeCodeLength x <= length x)%nat.
Proof.
  unfold EscapeCodeLength. cbv zeta.
  match goal with
  | |- context [nth_error x ?l] => destruct (nth_error x l) eqn:E
  end; [|lia].
  destruct (within 0x40 0x7E (uchar b)); [|lia].
  assert (Hsome : nth_error x _ <> None) by (rewrite E; discriminate).
  apply nth_error_Some in Hsome. lia.
Qed.

Lemma EscapeCodeLength_app (x : list byte) :
  EscapeCodeLength (x ++ [d]) = EscapeCodeLength x.
Proof.
  unfold EscapeCodeLength. cbv zeta.
  set (l0 := match x with
             | c :: cp' =>
               if uchar c =? 0x5B then S (run_length 0x30 0x3F cp') else O
             | [] => O
             end).
  assert (H0 : match x ++ [d] with
               | c :: cp' =>
                 if uchar c =? 0x5B then S (run_length 0x30 0x3F cp') else O
               | [] => O
               end = l0).
  { subst l0. destruct x as [|c x].
    - cbn [app]. pose proof d_range.
      destruct (uchar d =? 0x5B) eqn:E; [bool_props; lia | reflexivity].
    - cbn [app]. rewrite run_length_app by lia. reflexivity. }
  rewrite H0.
  assert (Hl0 : (l0 <= length x)%nat).
  { subst l0. destruct x as [|c x]; [apply le_n|].
    destruct (uchar c =? 0x5B); cbn [length]; [|lia].
    pose proof (run_length_le 0x30 0x3F x). lia. }
  rewrite skipn_app_le by exact Hl0.
  rewrite run_length_app by lia.
  set (l := (l0 + run_length 0x20 0x2F (skipn l0 x))%nat).
  assert (Hl : (l <= length x)%nat).
  { subst l. pose proof (run_length_le 0x20 0x2F (skipn l0 x)) as H.
    rewrite length_skipn in H. lia. }
  destruct (Nat.eq_dec l (length x)) as [Heq | Hne].
  - rewrite Heq, nth_error_app2 by apply le_n.
    rewrite Nat.sub_diag. cbn [nth_error].
    pose proof d_range.
    destruct (within 0x40 0x7E (uchar d)) eqn:E; [bool_props; lia|].
    destruct (nth_error x (length x)) eqn:E2; [|reflexivity].
    assert (Hsome : nth_error x (length x) <> None)
      by (rewrite E2; discriminate).
    apply nth_error_Some in Hsome. lia.
  - rewrite nth_error_app1 by lia. reflexivity.
Qed.

Lemma EscapeCode_app (x : list byte) (l : nat) (state : Z) :
  (l <= length x)%nat -> EscapeCode (x ++ [d]) l state = EscapeCode x l state.
Proof.
  intros Hl. destruct x as [|a [|b x]].
  - cbn [length] in Hl. assert (l = 0%nat) by lia. subst l. reflexivity.
  - cbn [length] in Hl. destruct l as [|[|l]]; [reflexivity | reflexivity | lia].
  - reflexivity.
Qed.

Lemma strncmp_eq_app (x e : list byte) (l : nat) :
  (l <= length x)%nat -> strncmp_eq (x ++ [d]) e l = strncmp_eq x e l.
Proof.
  revert x e. induction l as [|l IH]; intros x e Hl; [reflexivity|].
  destruct x as [|a x]; [cbn [length] in Hl; lia|].
  cbn [app strncmp_eq hd tl]. cbn [length] in Hl.
  rewrite IH by lia. reflexivity.
Qed.

Lemma CharacterSetFromEscapeCode_app (x : list byte) (l : nat) :
  (l <= length x)%nat ->
  CharacterSetFromEscapeCode (x ++ [d]) l = CharacterSetFromEscapeCode x l.
Proof.
  intros Hl. unfold CharacterSetFromEscapeCode.
  generalize Charsets. intros cs.
  induction cs as [|c cs IH]; [reflexivity|].
  rewrite strncmp_eq_app by exact Hl. rewrite IH. reflexivity.
Qed.

Lemma shift_chars_app (charset96 : bool) (k : nat) (cp : list byte) :
  shift_chars charset96 k (cp ++ [d]) = shift_chars charset96 k cp.
Proof.
  revert cp. induction k as [|k IH]; intros cp; [reflexivity|].
  destruct cp as [|c cp].
  - cbn [app shift_chars]. cbv zeta.
    assert (Hd : u8 (Z.lor (uchar d) 0x80) = uchar d + 0x80).
    { pose proof d_range as H.
      rewrite Z.lor_comm. rewrite lor_80 by lia.
      unfold u8. rewrite Z.mod_small; lia. }
    rewrite Hd. pose proof d_range.
    destruct (within 0xA1 0xAE _) eqn:E1; [bool_props; lia|].
    destruct (0xA0 <=? _) eqn:E2; [bool_props; lia|].
    rewrite andb_false_r. reflexivity.
  - cbn [app shift_chars]. cbv zeta. rewrite IH. reflexivity.
Qed.

Lemma shift_chars_le (charset96 : bool) (k : nat) (cp : list byte) :
  (length (shift_chars charset96 k cp) <= length cp)%nat.
Proof.
  revert cp. induction k as [|k IH]; intros cp; [cbn; lia|].
  destruct cp as [|c cp]; [cbn; lia|].
  cbn [shift_chars]. cbv zeta.
  destruct (_ || _); cbn [length]; [|lia].
  specialize (IH cp). lia.
Qed.

Lemma escape_sequence_app (c : byte) (x : list byte)
    (savePos n savePos' n' : nat) (iso : Iso) :
  let e := escape_sequence nested mode (c :: x) savePos n iso in
  let e' := escape_sequence nested mode ((c :: x) ++ [d]) savePos' n' iso in
  esc_rest e' = esc_rest e ++ [d]
  /\ esc_iso e' = esc_iso e
  /\ esc_break e' = esc_break e.
Proof.
  cbv zeta. unfold escape_sequence. cbn [app tl]. cbv zeta.
  pose proof (EscapeCodeLength_le x) as Hl.
  rewrite EscapeCodeLength_app.
  rewrite (EscapeCode_app x _ _ Hl).
  rewrite (CharacterSetFromEscapeCode_app x _ Hl).
  rewrite (skipn_app_le _ x [d] Hl).
  rewrite (firstn_app_le _ x [d] Hl).
  set (l := EscapeCodeLength x) in *.
  set (cp := skipn l x).
  destruct (negb (Z.land (iso_state iso) ALTERNATE_CS =? 0));
    [cbn [esc_rest esc_iso esc_break]; auto|].
  destruct (EscapeCode x l (iso_state iso)) as [type state].
  assert (Hshift : forall iso1 escapeFail escapeFail' shift out sp1 n1 sp2 n2,
    shift = 0 \/ escapeFail' = escapeFail ->
    let r1 :=
      let '(out, cp, n, escapeFail) :=
        if negb escapeFail && negb (shift =? 0) then
          match cp with
          | _ :: _ =>
            if Z.land (iso_state iso1) ALTERNATE_CS =? 0 then
              let multibyte :=
                negb (Z.land (iso_state iso1) (Z.shiftl MULTIBYTE_G0 shift)
                      =? 0) in
              let charset96 :=
                negb (Z.land (iso_state iso1) (Z.shiftl CHARSET96_GX shift)
                      =? 0) in
              let bytecount := if multibyte then 2%nat else 1%nat in
              let shiftchars := shift_chars charset96 bytecount cp in
              let k := length shiftchars in
              if (0 <? k)%nat then
                let (o, m) := nested (charsetG iso1 shift) shiftchars mode in
                (out ++ o, skipn k cp,
                 if negb (m =? bytecount)%nat
                 then SetErrorPosition n1 (sp1 + k - k + m) else n1,
                 false)
              else (out, cp, n1, true)
            else (out, cp, n1, true)
          | [] => (out, cp, n1, true)
          end
        else (out, cp, n1, escapeFail) in
      cp in
    let r2 :=
      let '(out, cp, n, escapeFail) :=
        if negb escapeFail' && negb (shift =? 0) then
          match cp ++ [d] with
          | _ :: _ =>
            if Z.land (iso_state iso1) ALTERNATE_CS =? 0 then
              let multibyte :=
                negb (Z.land (iso_state iso1) (Z.shiftl MULTIBYTE_G0 shift)
                      =? 0) in
              let charset96 :=
                negb (Z.land (iso_state iso1) (Z.shiftl CHARSET96_GX shift)
                      =? 0) in
              let bytecount := if multibyte then 2%nat else 1%nat in
              let shiftchars := shift_chars charset96 bytecount (cp ++ [d]) in
              let k := length shiftchars in
              if (0 <? k)%nat then
                let (o, m) := nested (charsetG iso1 shift) shiftchars mode in
                (out ++ o, skipn k (cp ++ [d]),
                 if negb (m =? bytecount)%nat
                 then SetErrorPosition n2 (sp2 + k - k + m) else n2,
                 false)
              else (out, cp ++ [d], n2, true)
            else (out, cp ++ [d], n2, true)
          | [] => (out, cp ++ [d], n2, true)
          end
        else (out, cp ++ [d], n2, escapeFail') in
      cp in
    r2 = r1 ++ [d]).
  { intros iso1 escapeFail escapeFail' shift out sp1 n1 sp2 n2 Hs. cbv zeta.
    destruct Hs as [-> | ->];
      [cbn [Z.eqb negb]; rewrite !andb_false_r; reflexivity|].
    destruct (negb escapeFail && negb (shift =? 0)); [|reflexivity].
    rewrite !shift_chars_app.
    destruct cp as [|c0 cp0].
    - cbn [app].
      destruct (Z.land (iso_state iso1) ALTERNATE_CS =? 0); [|reflexivity].
      destruct (negb (Z.land (iso_state iso1) (Z.shiftl MULTIBYTE_G0 shift)
                      =? 0)); reflexivity.
    - cbn [app].
      destruct (Z.land (iso_state iso1) ALTERNATE_CS =? 0); [|reflexivity].
      match goal with
      | |- context [shift_chars ?b ?k (c0 :: cp0)] =>
        pose proof (shift_chars_le b k (c0 :: cp0)) as Hk;
        set (sc := shift_chars b k (c0 :: cp0)) in *
      end.
      destruct (0 <? length sc)%nat; [|reflexivity].
      destruct (nested _ sc mode) as [o m].
      change (c0 :: cp0 ++ [d]) with ((c0 :: cp0) ++ [d]).
      apply skipn_app_le, Hk. }
  destruct type; cbv beta iota;
    lazymatch goal with
    | |- esc_rest (match ?X2 with pair _ _ => _ end)
         = esc_rest (match ?X1 with pair _ _ => _ end) ++ [d] /\ _ =>
      assert (HH : (let '(_, cp, _, _) := X2 in cp)
                   = (let '(_, cp, _, _) := X1 in cp) ++ [d])
        by (apply Hshift; first [left; reflexivity | right; reflexivity]);
      destruct X1 as [[[o1 c1] m1] e1]; destruct X2 as [[[o2 c2] m2] e2];
      subst c2; destruct e1, e2; cbn [esc_rest esc_iso esc_break]; auto
    end.
Qed.

(** *** What an escape sequence consumes *)

Lemma shift_chars_not_CR (charset96 : bool) (k : nat) (cp : list byte) :
  Forall (fun c => uchar c <> 0x0D)
         (firstn (length (shift_chars charset96 k cp)) cp).
Proof.
  revert cp. induction k as [|k IH]; intros cp; [constructor|].
  destruct cp as [|c cp]; [constructor|].
  cbn [shift_chars]. cbv zeta.
  destruct (_ || _) eqn:E; [|constructor].
  cbn [length firstn]. constructor; [|apply IH].
  intros Hc. rewrite Hc in E. vm_compute in E.
  destruct charset96; discriminate E.
Qed.

Lemma escape_sequence_rest (c : byte) (x : list byte) (savePos n : nat)
    (iso : Iso) :
  exists k,
    esc_rest (escape_sequence nested mode (c :: x) savePos n iso)
    = skipn k x
    /\ (k <= length x)%nat
    /\ Forall (fun c => uchar c <> 0x0D) (firstn k x).
Proof.
  unfold escape_sequence. cbn [tl]. cbv zeta.
  pose proof (EscapeCodeLength_le x) as Hl.
  assert (Hp : Forall (fun c => uchar c <> 0x0D)
                      (firstn (EscapeCodeLength x) x)).
  { eapply Forall_impl; [|apply EscapeCodeLength_printable].
    cbv beta. intros a Ha. lia. }
  set (l := EscapeCodeLength x) in *.
  assert (Hbase : exists k, skipn l x = skipn k x /\ (k <= length x)%nat
                    /\ Forall (fun c => uchar c <> 0x0D) (firstn k x))
    by (exists l; auto).
  destruct (negb (Z.land (iso_state iso) ALTERNATE_CS =? 0));
    [exact Hbase|].
  destruct (EscapeCode x l (iso_state iso)) as [type state].
  assert (Hshift : forall iso1 escapeFail shift out sp1 n1,
    exists k,
      (let '(_, cp, _, _) :=
         if negb escapeFail && negb (shift =? 0) then
           match skipn l x with
           | _ :: _ =>
             if Z.land (iso_state iso1) ALTERNATE_CS =? 0 then
               let multibyte :=
                 negb (Z.land (iso_state iso1) (Z.shiftl MULTIBYTE_G0 shift)
                       =? 0) in
               let charset96 :=
                 negb (Z.land (iso_state iso1) (Z.shiftl CHARSET96_GX shift)
                       =? 0) in
               let bytecount := if multibyte then 2%nat else 1%nat in
               let shiftchars := shift_chars charset96 bytecount (skipn l x) in
               let k := length shiftchars in
               if (0 <? k)%nat then
                 let (o, m) := nested (charsetG iso1 shift) shiftchars mode in
                 (out ++ o, skipn k (skipn l x),
                  if negb (m =? bytecount)%nat
                  then SetErrorPosition n1 (sp1 + k - k + m) else n1,
                  false)
               else (out, skipn l x, n1, true)
             else (out, skipn l x, n1, true)
           | [] => (out, skipn l x, n1, true)
           end
         else (out, skipn l x, n1, escapeFail) in
       cp) = skipn k x
      /\ (k <= length x)%nat
      /\ Forall (fun c => uchar c <> 0x0D) (firstn k x)).
  { intros iso1 escapeFail shift out sp1 n1.
    destruct (negb escapeFail && negb (shift =? 0)); [|exact Hbase].
    destruct (skipn l x) as [|c0 cp0] eqn:Ecp; [exact Hbase|].
    destruct (Z.land (iso_state iso1) ALTERNATE_CS =? 0); [|exact Hbase].
    cbv zeta.
    match goal with
    | |- context [shift_chars ?b ?k (c0 :: cp0)] =>
      pose proof (shift_chars_le b k (c0 :: cp0)) as Hk;
      pose proof (shift_chars_not_CR b k (c0 :: cp0)) as Hn;
      set (sc := shift_chars b k (c0 :: cp0)) in *
    end.
    destruct (0 <? length sc)%nat; [|exact Hbase].
    destruct (nested _ sc mode) as [o m].
    exists (length sc + l)%nat. clearbody sc.
    rewrite <- Ecp in Hk, Hn. rewrite <- Ecp.
    rewrite skipn_skipn. split; [reflexivity|].
    rewrite length_skipn in Hk. split; [lia|].
    rewrite Nat.add_comm, firstn_plus. apply Forall_app. auto. }
  destruct type; cbv beta iota;
    lazymatch goal with
    | |- exists k, esc_rest (match ?X1 with pair _ _ => _ end) = _ /\ _ =>
      let HH := fresh "HH" in
      assert (HH : exists k, (let '(_, cp, _, _) := X1 in cp) = skipn k x
                     /\ (k <= length x)%nat
                     /\ Forall (fun c => uchar c <> 0x0D) (firstn k x))
        by apply Hshift;
      destruct X1 as [[[o1 c1] m1] e1];
      destruct e1; cbn [esc_rest]; exact HH
    end.
Qed.

Lemma escape_codes_rest (fuel : nat) (cp : list byte) (l n : nat)
    (iso : Iso) :
  exists k,
    snd (fst (fst (escape_codes nested mode fuel cp l n iso))) = skipn k cp
    /\ (k <= length cp)%nat
    /\ Forall (fun c => uchar c <> 0x0D) (firstn k cp)
    /\ (forall c x, cp = c :: x -> is_escape c = true -> (0 < fuel)%nat ->
        (0 < k)%nat).
Proof.
  revert cp n iso. induction fuel as [|fuel IH]; intros cp n iso.
  - exists 0%nat. cbn. repeat split; try lia. constructor.
  - destruct cp as [|c x].
    { exists 0%nat. cbn. repeat split; try lia; try constructor.
      intros; discriminate. }
    cbn [escape_codes]. destruct (is_escape c) eqn:Ec.
    + cbv zeta.
      destruct (escape_sequence_rest c x (l - length (c :: x)) n iso)
        as (k1 & Hr1 & Hk1 & Hf1).
      destruct (escape_sequence nested mode (c :: x) _ n iso)
        as [eo er en ei eb].
      cbn [esc_out esc_rest esc_n esc_iso esc_break] in *. subst er.
      assert (HcCR : uchar c <> 0x0D)
        by (unfold is_escape in Ec; bool_props; lia).
      destruct eb.
      * exists (S k1). cbn [fst snd skipn firstn length].
        repeat split; [lia | constructor; assumption | lia].
      * destruct (IH (skipn k1 x) en ei) as (k2 & Hr2 & Hk2 & Hf2 & _).
        destruct (escape_codes nested mode fuel (skipn k1 x) l en ei)
          as [[[out rest] n'] iso'].
        cbn [fst snd] in *. subst rest.
        exists (S (k1 + k2)). cbn [skipn firstn length].
        rewrite length_skipn in Hk2.
        repeat split; [|lia | |lia].
        -- rewrite skipn_skipn. f_equal. lia.
        -- constructor; [assumption|]. rewrite firstn_plus.
           apply Forall_app. auto.
    + exists 0%nat. cbn [fst snd skipn firstn].
      repeat split; [lia | constructor|].
      intros c' x' Heq Hesc. injection Heq as -> ->. congruence.
Qed.

Lemma escape_codes_app (fuel fuel' : nat) (cp : list byte)
    (l l' n n' : nat) (iso : Iso) :
  (length cp <= fuel)%nat -> (S (length cp) <= fuel')%nat ->
  let r := escape_codes nested mode fuel cp l n iso in
  let r' := escape_codes nested mode fuel' (cp ++ [d]) l' n' iso in
  snd (fst (fst r')) = snd (fst (fst r)) ++ [d] /\ snd r' = snd r.
Proof.
  revert fuel' cp n n' iso.
  induction fuel as [|fuel IH]; intros fuel' cp n n' iso Hf Hf'.
  - destruct cp; [|cbn [length] in Hf; lia].
    destruct fuel'; [cbn [length] in Hf'; lia|].
    cbn [app escape_codes]. rewrite d_not_escape. cbn. auto.
  - destruct fuel'; [lia|].
    destruct cp as [|c x].
    { cbn [app escape_codes]. rewrite d_not_escape. cbn. auto. }
    cbn [app escape_codes]. destruct (is_escape c); [|cbn; auto].
    cbv zeta.
    pose proof (escape_sequence_app c x (l - length (c :: x)) n
                  (l' - length (c :: x ++ [d])) n' iso) as Happ.
    cbv zeta in Happ. cbn [app] in Happ.
    destruct (escape_sequence_rest c x (l - length (c :: x)) n iso)
      as (k1 & Hr1 & Hk1 & _).
    destruct (escape_sequence nested mode (c :: x) _ n iso)
      as [eo er en ei eb].
    destruct (escape_sequence nested mode (c :: x ++ [d]) _ n' iso)
      as [eo' er' en' ei' eb'].
    cbn [esc_out esc_rest esc_n esc_iso esc_break] in *.
    destruct Happ as (-> & -> & ->).
    destruct eb; [cbn; auto|].
    assert (Hlen : (length er <= length x)%nat).
    { subst er. rewrite length_skipn. lia. }
    cbn [length] in Hf, Hf'.
    specialize (IH fuel' er en en' ei ltac:(lia) ltac:(lia)).
    cbv zeta in IH.
    destruct (escape_codes nested mode fuel er l en ei)
      as [[[out rest] n1] iso1].
    destruct (escape_codes nested mode fuel' (er ++ [d]) l' en' ei)
      as [[[out' rest'] n1'] iso1'].
    cbn [fst snd] in *. exact IH.
Qed.

(** *** The loop *)

(** The state after one iteration of the loop. *)
Lemma ISO2022_loop_iso (fuel : nat) (cp : list byte) (l n : nat)
    (iso : Iso) :
  cp <> [] ->
  exists n1,
    let rest := snd (split_segment cp) in
    let cc := control_codes key rest x00 (l - length rest) n1 iso in
    let ec := escape_codes nested mode (length (fst (fst cc)))
                (fst (fst cc)) l (snd (fst cc)) (snd cc) in
    run_iso (ISO2022_loop nested key mode (S fuel) cp l n iso)
    = run_iso (ISO2022_loop nested key mode fuel (snd (fst (fst ec))) l
                 (snd (fst ec)) (snd ec)).
Proof.
  intros Hne. destruct cp as [|c cp0]; [congruence|].
  cbn [ISO2022_loop]. cbv zeta.
  destruct (split_segment (c :: cp0)) as [seg rest]. cbn [snd].
  match goal with
  | |- context [match seg with
                | [] => ([], n)
                | _ :: _ => ?X
                end] =>
    destruct (match seg with [] => ([], n) | _ :: _ => X end) as [out1 n1]
  end.
  exists n1.
  destruct (control_codes key rest x00 (l - length rest) n1 iso)
    as [[rest2 n2] iso2].
  cbn [fst snd].
  destruct (escape_codes nested mode (length rest2) rest2 l n2 iso2)
    as [[[out3 rest3] n3] iso3].
  reflexivity.
Qed.

Lemma ISO2022_loop_nil (fuel : nat) (l n : nat) (iso : Iso) :
  run_iso (ISO2022_loop nested key mode fuel [] l n iso) = iso.
Proof. destruct fuel; reflexivity. Qed.

(** What the control codes consume. *)
Lemma control_codes_skip (rest : list byte) (prev : byte) (i n : nat)
    (iso : Iso) :
  exists k,
    fst (fst (control_codes key rest prev i n iso)) = skipn k rest
    /\ (k <= length rest)%nat
    /\ (forall c x, rest = c :: x -> is_control c = true -> (0 < k)%nat)
    /\ (forall c x, rest = c :: x -> is_control c = false -> k = 0%nat).
Proof.
  revert prev i n iso. induction rest as [|c rest IH]; intros prev i n iso.
  - exists 0%nat. cbn. repeat split; try lia; intros; discriminate.
  - cbn [control_codes]. destruct (is_control c) eqn:E.
    + cbv zeta.
      match goal with
      | |- context [control_codes key rest c (S i) ?a ?b] =>
        destruct (IH c (S i) a b) as (k & Hk & Hle & _)
      end.
      exists (S k). cbn [skipn length].
      split; [exact Hk|]. split; [lia|]. split; [lia|].
      intros c' x' Heq Hc. injection Heq as -> ->. congruence.
    + exists 0%nat. cbn [fst skipn].
      split; [reflexivity|]. split; [lia|]. split; [|reflexivity].
      intros c' x' Heq Hc. injection Heq as -> ->. congruence.
Qed.

Lemma after_control_not_CR (prev : byte) (iso : Iso) :
  uchar prev <> 0x0D -> after_control key d prev iso = iso.
Proof.
  intros H. unfold after_control. apply Z.eqb_neq in H. rewrite H.
  reflexivity.
Qed.

Lemma last_not_CR (l : list byte) (a : byte) :
  Forall (fun c => uchar c <> 0x0D) l -> uchar a <> 0x0D ->
  uchar (last l a) <> 0x0D.
Proof.
  intros Hl Ha. induction Hl as [|c l Hc Hl IH]; [exact Ha|].
  rewrite last_cons. clear IH. revert c Hc.
  induction Hl as [|c' l Hc' Hl IH]; intros c Hc; [exact Hc|].
  rewrite last_cons. apply IH, Hc'.
Qed.

Lemma last_app_nonempty {A : Type} (pre suf : list A) (a : A) :
  suf <> [] -> last (pre ++ suf) a = last suf a.
Proof.
  intros H. induction pre as [|x pre IH]; [reflexivity|].
  cbn [app]. destruct (pre ++ suf) eqn:E.
  - destruct pre, suf; try discriminate. congruence.
  - exact IH.
Qed.

Ltac nonempty :=
  let H := fresh in
  intros H;
  repeat (apply app_eq_nil in H; destruct H as [_ H]);
  discriminate H.

Lemma x00_not_CR : uchar x00 <> 0x0D.
Proof. intros H. vm_compute in H. discriminate H. Qed.

Lemma split_segment_head (c : byte) (cp0 : list byte) :
  fst (split_segment (c :: cp0)) = [] ->
  is_delimiter c = true /\ snd (split_segment (c :: cp0)) = c :: cp0.
Proof.
  cbn [split_segment]. destruct (is_delimiter c); [auto|].
  destruct (split_segment cp0). cbn [fst]. discriminate.
Qed.

(** The text followed by [d] leaves the state that [d] makes of the state
    that the text leaves. *)
Lemma ISO2022_loop_app (N : nat) (cp : list byte) :
  (length cp <= N)%nat ->
  forall fuel fuel' l l' n n' iso,
    (length cp <= fuel)%nat -> (S (length cp) <= fuel')%nat ->
    run_iso (ISO2022_loop nested key mode fuel' (cp ++ [d]) l' n' iso)
    = after_control key d (last cp x00)
        (run_iso (ISO2022_loop nested key mode fuel cp l n iso)).
Proof.
  revert cp. induction N as [|N IH]; intros cp HN fuel fuel' l l' n n' iso
    Hf Hf'.
  - destruct cp; [|cbn [length] in HN; lia].
    destruct fuel' as [|f']; [lia|].
    destruct (ISO2022_loop_iso f' ([] ++ [d]) l' n' iso) as [n1 H1];
      [discriminate|].
    cbv zeta in H1. rewrite H1. clear H1.
    rewrite ISO2022_loop_nil. cbn [app split_segment last].
    rewrite d_delimiter. cbn [snd control_codes]. rewrite d_control.
    cbv zeta. rewrite control_step. cbn [control_codes fst snd length].
    cbn [escape_codes fst snd]. apply ISO2022_loop_nil.
  - destruct cp as [|c cp0].
    { apply (IH [] (Nat.le_0_l N)); assumption. }
    destruct fuel as [|f]; [cbn [length] in Hf; lia|].
    destruct fuel' as [|f']; [lia|].
    cbn [length] in HN, Hf, Hf'.
    destruct (ISO2022_loop_iso f' ((c :: cp0) ++ [d]) l' n' iso)
      as [n1' H1']; [discriminate|].
    destruct (ISO2022_loop_iso f (c :: cp0) l n iso) as [n1 H1];
      [discriminate|].
    cbv zeta in H1, H1'. rewrite H1, H1'. clear H1 H1'.
    rewrite split_segment_app. cbn [snd].
    pose proof (split_segment_eq (c :: cp0)) as Hsplit.
    pose proof (split_segment_not_CR (c :: cp0)) as Hseg.
    pose proof (split_segment_head c cp0) as Hhead.
    destruct (split_segment (c :: cp0)) as [seg rest].
    cbn [fst snd] in *.
    assert (Hlen : length (c :: cp0) = (length seg + length rest)%nat)
      by (rewrite Hsplit at 1; apply length_app).
    cbn [length] in Hlen.
    pose proof (control_codes_app rest x00 (l - length rest) n1
                  (l' - length (rest ++ [d])) n1' iso) as Hcc.
    cbv zeta in Hcc.
    destruct (control_codes_skip rest x00 (l - length rest) n1 iso)
      as (k1 & Hk1 & Hk1le & Hk1pos & Hk1zero).
    destruct (control_codes key rest x00 (l - length rest) n1 iso)
      as [[rest2 n2] iso2].
    destruct (control_codes key (rest ++ [d]) x00
                (l' - length (rest ++ [d])) n1' iso)
      as [[rest2' n2'] iso2'].
    cbn [fst snd] in *.
    destruct rest2 as [|c2 rest2].
    + (* the text ends in its run of control codes *)
      destruct Hcc as [-> ->].
      cbn [length escape_codes fst snd]. rewrite !ISO2022_loop_nil.
      destruct rest as [|r0 rest0].
      * rewrite app_nil_r in Hsplit. subst seg.
        rewrite (after_control_not_CR (last [] x00))
          by apply x00_not_CR.
        rewrite after_control_not_CR; [reflexivity|].
        apply last_not_CR; [exact Hseg | apply x00_not_CR].
      * rewrite Hsplit.
        rewrite last_app_nonempty by nonempty. reflexivity.
    + (* there is more behind the control codes *)
      destruct Hcc as [-> ->].
      assert (Hl2 : length ((c2 :: rest2) ++ [d]) = S (S (length rest2)))
        by (rewrite length_app; cbn [length]; lia).
      rewrite Hl2. cbn [length].
      pose proof (escape_codes_app (S (length rest2)) (S (S (length rest2)))
                    (c2 :: rest2) l l' n2 n2' iso2 (le_n _) (le_n _)) as Hec.
      cbv zeta in Hec.
      destruct (escape_codes_rest (S (length rest2)) (c2 :: rest2) l n2 iso2)
        as (k2 & Hk2 & Hk2le & Hk2CR & Hk2pos).
      destruct (escape_codes nested mode (S (length rest2)) (c2 :: rest2)
                  l n2 iso2) as [[[out3 rest3] n3] iso3].
      destruct (escape_codes nested mode (S (S (length rest2)))
                  ((c2 :: rest2) ++ [d]) l' n2' iso2)
        as [[[out3' rest3'] n3'] iso3'].
      cbn [fst snd] in *. destruct Hec as [-> ->].
      assert (Hrest2 : length (c2 :: rest2) = (length rest - k1)%nat)
        by (rewrite Hk1; apply length_skipn).
      assert (Hrest3 : length rest3 = (length (c2 :: rest2) - k2)%nat)
        by (rewrite Hk2; apply length_skipn).
      cbn [length] in Hrest2, Hrest3, Hk2le.
      assert (Hprog : (length rest3 <= length cp0)%nat).
      { destruct seg as [|s0 seg]; [|cbn [length] in Hlen; lia].
        destruct (Hhead eq_refl) as [Hdel Hrest]. subst rest.
        cbn [length] in *.
        destruct (is_control c) eqn:Ectl.
        - specialize (Hk1pos c cp0 eq_refl Ectl). lia.
        - assert (Hesc : is_escape c = true)
            by (unfold is_delimiter in Hdel; rewrite Ectl in Hdel;
                rewrite orb_false_r in Hdel; exact Hdel).
          assert (Hk10 : c2 :: rest2 = c :: cp0).
          { rewrite (Hk1zero c cp0 eq_refl Ectl) in Hk1. exact Hk1. }
          injection Hk10 as -> ->.
          specialize (Hk2pos c cp0 eq_refl Hesc ltac:(lia)). lia. }
      rewrite (IH rest3 ltac:(lia) f f' l l' n3 n3' iso3)
        by lia.
      destruct rest3 as [|r3 rest3].
      * rewrite (after_control_not_CR (last [] x00))
          by apply x00_not_CR.
        rewrite after_control_not_CR; [reflexivity|].
        symmetry in Hk2.
        assert (Hall : firstn k2 (c2 :: rest2) = c2 :: rest2).
        { rewrite <- (firstn_skipn k2 (c2 :: rest2)) at 2.
          rewrite Hk2. symmetry. apply app_nil_r. }
        rewrite Hall in Hk2CR.
        rewrite Hsplit, <- (firstn_skipn k1 rest), <- Hk1.
        rewrite !last_app_nonempty by nonempty.
        apply last_not_CR; [exact Hk2CR | apply x00_not_CR].
      * rewrite Hsplit, <- (firstn_skipn k1 rest), <- Hk1.
        rewrite <- (firstn_skipn k2 (c2 :: rest2)), <- Hk2.
        rewrite !last_app_nonempty by nonempty. reflexivity.
Qed.

Lemma ISO2022_run_app (text : list byte) :
  run_iso (ISO2022_run nested key (text ++ [d]) mode)
  = after_control key d (last text x00)
      (run_iso (ISO2022_run nested key text mode)).
Proof.
  unfold ISO2022_run.
  apply (ISO2022_loop_app (length text)); [apply le_n | apply le_n|].
  rewrite length_app. cbn [length]. lia.
Qed.

End EndOfLine.

Section LineEnds.
Context {hdr : Header}.

(** C6.  The ISO 2022 state of the decoder (the state word with its
    multibyte and 96-character flags, and the designations G0 to G3) behind
    a text that ends in CR LF is the initial state of the key.  Behind a
    text followed by CR it is the state behind the text.  Behind a text
    followed by LF it is the state behind the text, unless the text ends in
    CR: then CR LF is complete and the state is the initial one. *)
Theorem ISO2022_CR_LF_resets (nested : Nested) (key : Z) (mode : Mode)
    (pre : list byte) :
  run_iso (ISO2022_run nested key (pre ++ [x0d; x0a]) mode)
  = InitISO2022 key
  /\ run_iso (ISO2022_run nested key (pre ++ [x0d]) mode)
     = run_iso (ISO2022_run nested key pre mode)
  /\ run_iso (ISO2022_run nested key (pre ++ [x0a]) mode)
     = if uchar (last pre x00) =? 0x0D then InitISO2022 key
       else run_iso (ISO2022_run nested key pre mode).
Proof.
  assert (Hlf : forall text,
    run_iso (ISO2022_run nested key (text ++ [x0a]) mode)
    = if uchar (last text x00) =? 0x0D then InitISO2022 key
      else run_iso (ISO2022_run nested key text mode)).
  { intros text. rewrite (ISO2022_run_app nested key mode x0a eq_refl).
    unfold after_control. rewrite andb_true_r. reflexivity. }
  split; [|split].
  - change (pre ++ [x0d; x0a]) with (pre ++ [x0d] ++ [x0a]).
    rewrite app_assoc, Hlf.
    rewrite last_app_nonempty by discriminate. reflexivity.
  - rewrite (ISO2022_run_app nested key mode x0d eq_refl).
    unfold after_control. rewrite andb_false_r. reflexivity.
  - apply Hlf.
Qed.

End LineEnds.

(** ** The backslash scan and the character starts of the decoder *)

Lemma reaches_trans (body : list byte -> Step) (a b c : list byte) :
  reaches body a b -> reaches body b c -> reaches body a c.
Proof.
  intros Hab Hbc. induction Hab as [cp | c0 cp cp' H IH]; [exact Hbc|].
  apply reaches_step, IH, Hbc.
Qed.

Lemma reaches_one (body : list byte -> Step) (c : byte) (cp : list byte) :
  reaches body (c :: cp) (st_rest (body (c :: cp))).
Proof. apply reaches_step, reaches_here. Qed.

Lemma Forall_skipn {A : Type} (Q : A -> Prop) (k : nat) (l : list A) :
  Forall Q l -> Forall Q (skipn k l).
Proof.
  revert l. induction k as [|k IH]; intros l H; [exact H|].
  destruct l as [|x l]; [constructor|].
  cbn [skipn]. apply IH. inversion H. assumption.
Qed.

Section Alignment.
Variable sb : list byte -> option (list byte).
Variable db : list byte -> Step.
Variable P : list byte -> Prop.
Hypothesis P_skipn : forall k cp, P cp -> P (skipn k cp).

Hypothesis sb_aligned : forall c cp1 cp',
  P (c :: cp1) -> uchar c <> 0 -> sb (c :: cp1) = Some cp' ->
  aligned_step sb db (c :: cp1) cp'.

Lemma scan_loop_aligned (N : nat) (cp : list byte) :
  (length cp <= N)%nat -> P cp ->
  forall fuel off, (length cp <= fuel)%nat ->
  exists m, scan_loop sb fuel cp off = (off + m)%nat
            /\ (m <= length cp)%nat
            /\ reaches db cp (skipn m cp).
Proof.
  revert cp. induction N as [|N IH]; intros cp HN HP fuel off Hf.
  - destruct cp; [|cbn [length] in HN; lia].
    exists 0%nat. destruct fuel; cbn; repeat split; try lia; constructor.
  - destruct cp as [|c cp1].
    { exists 0%nat. destruct fuel; cbn; repeat split; try lia; constructor. }
    destruct fuel as [|f]; [cbn [length] in Hf; lia|].
    cbn [scan_loop]. cbn [length] in HN, Hf.
    destruct (uchar c =? 0) eqn:E0.
    { exists 0%nat. cbn [skipn]. repeat split; try lia. constructor. }
    apply Z.eqb_neq in E0.
    destruct (sb (c :: cp1)) as [cp'|] eqn:Esb.
    2:{ exists 0%nat. cbn [skipn]. repeat split; try lia. constructor. }
    destruct (sb_aligned c cp1 cp' HP E0 Esb) as [(k & Hk & Hcp') Hal].
    assert (Hlen' : length cp' = (length (c :: cp1) - k)%nat)
      by (rewrite Hcp'; apply length_skipn).
    cbn [length] in Hlen', Hk.
    assert (HP' : P cp') by (rewrite Hcp'; apply P_skipn, HP).
    destruct Hal as [Hreach | (c3 & cp3 & cp'' & k' & Hc3 & Hnz & Esb' & Hk'
                                & Hcp'' & Hreach)].
    + match goal with
      | |- context [scan_loop sb f cp' ?o] =>
        destruct (IH cp' ltac:(lia) HP' f o ltac:(lia))
          as (m & Hm & Hmle & Hr)
      end.
      exists (k + m)%nat. cbn [length] in *. rewrite Hm.
      split; [lia|]. split; [lia|].
      apply (reaches_trans _ _ cp'); [exact Hreach|].
      rewrite Nat.add_comm, <- skipn_skipn, <- Hcp'. exact Hr.
    + destruct cp' as [|c3' cp3']; [discriminate Hc3|].
      injection Hc3 as -> ->. cbn [length] in *.
      destruct f as [|f]; [lia|].
      cbn [scan_loop]. apply Z.eqb_neq in Hnz. rewrite Hnz, Esb'.
      assert (Hlen'' : length cp'' = (length (c3 :: cp3) - k')%nat)
        by (rewrite Hcp''; apply length_skipn).
      cbn [length] in Hlen''.
      assert (HP'' : P cp'') by (rewrite Hcp''; apply P_skipn, HP').
      match goal with
      | |- context [scan_loop sb f cp'' ?o] =>
        destruct (IH cp'' ltac:(lia) HP'' f o ltac:(lia))
          as (m & Hm & Hmle & Hr)
      end.
      exists (k + k' + m)%nat. rewrite Hm. cbn [length].
      split; [lia|]. split; [lia|].
      apply (reaches_trans _ _ cp''); [exact Hreach|].
      replace (k + k' + m)%nat with (m + k' + k)%nat by lia.
      rewrite <- !skipn_skipn, <- Hcp', <- Hcp''. exact Hr.
Qed.

End Alignment.

(** The cursor after an iteration of a decoder, by cases. *)
Ltac rest_cases :=
  unfold emit; cbv zeta; rewrite ?land_80;
  repeat (match goal with
          | |- context [match ?l with [] => _ | _ :: _ => _ end] =>
            is_var l; destruct l
          | |- context [if ?b then _ else _] =>
            let E := fresh "E" in destruct b eqn:E
          end; cbv beta iota zeta);
  cbn [st_rest step];
  first [ reflexivity | exfalso; bool_props; lia ].

(** One move of the scan is one iteration of the decoder. *)
Ltac one_step k :=
  split;
  [ exists k; split; [cbn [length]; lia | reflexivity]
  | left; apply reaches_step;
    match goal with
    | |- reaches _ ?r ?cp' =>
      replace r with cp'; only 1: apply reaches_here
    end ].

(** The same with the cursor given by [Hr]. *)
Ltac one_step_by Hr k :=
  split;
  [ exists k; split; [cbn [length]; lia | reflexivity]
  | left; apply reaches_step; rewrite Hr; apply reaches_here ].

Section ScanAligned.
Context {hdr : Header}.

Lemma SJIS_aligned (mode : Mode) (c : byte) (cp1 cp' : list byte) :
  uchar c <> 0 -> NextBackslash_SJIS (c :: cp1) = Some cp' ->
  aligned_step NextBackslash_SJIS (SJISToUTF8_body mode) (c :: cp1) cp'.
Proof.
  intros Hnz. unfold NextBackslash_SJIS. cbv zeta.
  pose proof (uchar_range c) as R0.
  destruct (within 0x81 0x9F (uchar c) || within 0xE0 0xFC (uchar c)) eqn:E1.
  - destruct cp1 as [|c2 cp2].
    + intros H. injection H as <-. one_step 1%nat.
      unfold SJISToUTF8_body. rest_cases.
    + destruct ((0x40 <=? uchar c2) && (uchar c2 <=? 0xFC)
                && negb (uchar c2 =? 0x7F)) eqn:E2;
        intros H; injection H as <-.
      * one_step 2%nat. unfold SJISToUTF8_body. rest_cases.
      * one_step 1%nat. unfold SJISToUTF8_body. rest_cases.
  - destruct (negb (uchar c =? 0x5C)) eqn:E2; [|discriminate].
    intros H. injection H as <-. one_step 1%nat.
    unfold SJISToUTF8_body. rest_cases.
Qed.

Lemma BIG5_aligned (mode : Mode) (c : byte) (cp1 cp' : list byte) :
  uchar c <> 0 -> NextBackslash_BIG5 (c :: cp1) = Some cp' ->
  aligned_step NextBackslash_BIG5 (Big5ToUTF8_body mode) (c :: cp1) cp'.
Proof.
  intros Hnz. unfold NextBackslash_BIG5. cbv zeta.
  pose proof (uchar_range c) as R0.
  destruct (within 0x81 0xFE (uchar c)) eqn:E1.
  - destruct cp1 as [|c2 cp2].
    + intros H. injection H as <-. one_step 1%nat.
      unfold Big5ToUTF8_body. rest_cases.
    + destruct (within 0x40 0x7E (uchar c2) || within 0xA1 0xFE (uchar c2))
        eqn:E2; intros H; injection H as <-.
      * one_step 2%nat. unfold Big5ToUTF8_body. rewrite land_80, E1, E2.
        cbv zeta.
        destruct (uchar c <=? 0x7F) eqn:E3; [exfalso; bool_props; lia|].
        unfold emit. destruct (_ =? 0xFFFD); reflexivity.
      * one_step 1%nat. unfold Big5ToUTF8_body. rewrite land_80, E1, E2.
        cbv zeta.
        destruct (uchar c <=? 0x7F) eqn:E3; [exfalso; bool_props; lia|].
        reflexivity.
  - destruct (negb (uchar c =? 0x5C)) eqn:E2; [|discriminate].
    intros H. injection H as <-. one_step 1%nat.
    unfold Big5ToUTF8_body. rewrite land_80, E1. cbv zeta.
    destruct (uchar c <=? 0x7F); reflexivity.
Qed.

Lemma GBKToUTF8_body_rest (mode : Mode) (c : byte) (cp1 : list byte) :
  uchar c <> 0xFF ->
  st_rest (GBKToUTF8_body mode (c :: cp1))
  = if 0x81 <=? uchar c then
      match cp1 with
      | c2 :: cp2 =>
        if (0x40 <=? uchar c2) && (uchar c2 <? 0xFF)
           && negb (uchar c2 =? 0x7F)
        then cp2 else cp1
      | [] => cp1
      end
    else cp1.
Proof.
  intros Hff. pose proof (uchar_range c) as R0.
  unfold GBKToUTF8_body. rewrite land_80. cbv zeta.
  destruct (uchar c <=? 0x7F) eqn:E0.
  { destruct (0x81 <=? uchar c) eqn:E1; [exfalso; bool_props; lia|].
    reflexivity. }
  destruct (0x81 <=? uchar c) eqn:E1.
  - destruct ((0x80 <? uchar c) && (uchar c <? 0xFF)) eqn:E2;
      [|exfalso; bool_props; lia].
    destruct cp1 as [|c2 cp2]; [unfold emit; reflexivity|].
    destruct (_ && _ && _); unfold emit;
      match goal with
      | |- context [if ?b then _ else _] => destruct b
      end; reflexivity.
  - destruct ((0x80 <? uchar c) && (uchar c <? 0xFF)) eqn:E2;
      [exfalso; bool_props; lia|].
    reflexivity.
Qed.

Lemma GBK_aligned (mode : Mode) (c : byte) (cp1 cp' : list byte) :
  Forall (fun c => uchar c <> 0xFF) (c :: cp1) ->
  uchar c <> 0 -> NextBackslash_GBK (c :: cp1) = Some cp' ->
  aligned_step NextBackslash_GBK (GBKToUTF8_body mode) (c :: cp1) cp'.
Proof.
  intros Hff Hnz. unfold NextBackslash_GBK.
  inversion Hff as [|? ? Hc Hcp1]; subst.
  pose proof (GBKToUTF8_body_rest mode c cp1 Hc) as Hr.
  destruct (0x81 <=? uchar c) eqn:E1.
  - destruct cp1 as [|c2 cp2].
    + intros H. injection H as <-. one_step 1%nat.
    + inversion Hcp1 as [|? ? Hc2 Hcp2]; subst.
      pose proof (uchar_range c2) as R2.
      destruct (0x21 <=? uchar c2) eqn:E2; intros H; injection H as <-.
      * destruct ((0x40 <=? uchar c2) && (uchar c2 <? 0xFF)
                  && negb (uchar c2 =? 0x7F)) eqn:E3.
        -- one_step 2%nat.
        -- split; [exists 2%nat; split; [cbn [length]; lia | reflexivity]|].
           left. apply reaches_step. rewrite Hr.
           apply reaches_step.
           rewrite (GBKToUTF8_body_rest mode c2 cp2 Hc2).
           destruct (0x81 <=? uchar c2) eqn:E4;
             [exfalso; bool_props; lia|].
           apply reaches_here.
      * destruct ((0x40 <=? uchar c2) && (uchar c2 <? 0xFF)
                  && negb (uchar c2 =? 0x7F)) eqn:E3;
          [exfalso; bool_props; lia|].
        one_step 1%nat.
  - destruct (negb (uchar c =? 0x5C)) eqn:E2; [|discriminate].
    intros H. injection H as <-. one_step 1%nat.
Qed.

Lemma GB18030_four_rest (table : CompressedTable) (a b : Z)
    (cp2 : list byte) :
  snd (GB18030_four table a b cp2)
  = match cp2 with
    | c3 :: c4 :: cp4 =>
      if (0x80 <? uchar c3) && (uchar c3 <? 0xFF)
         && within 0x30 0x39 (uchar c4)
      then cp4 else cp2
    | _ => cp2
    end.
Proof.
  unfold GB18030_four. destruct cp2 as [|c3 [|c4 cp4]]; try reflexivity.
  cbv zeta. destruct (_ && _ && _); [|reflexivity].
  repeat match goal with
  | |- context [if ?b then _ else _] => destruct b
  end; reflexivity.
Qed.

Lemma GB18030ToUTF8_body_rest (mode : Mode) (c : byte) (cp1 : list byte) :
  uchar c <> 0xFF ->
  st_rest (GB18030ToUTF8_body mode (c :: cp1))
  = if 0x81 <=? uchar c then
      match cp1 with
      | c2 :: cp2 =>
        if (0x30 <=? uchar c2) && (uchar c2 <? 0xFF)
           && negb (uchar c2 =? 0x7F)
        then
          if 0x40 <=? uchar c2 then cp2
          else snd (GB18030_four (table_of (Table GB18030)) (uchar c)
                      (uchar c2) cp2)
        else cp1
      | [] => cp1
      end
    else cp1.
Proof.
  intros Hff. pose proof (uchar_range c) as R0.
  unfold GB18030ToUTF8_body. rewrite land_80. cbv zeta.
  destruct (uchar c <=? 0x7F) eqn:E0.
  { destruct (0x81 <=? uchar c) eqn:E1; [exfalso; bool_props; lia|].
    reflexivity. }
  destruct cp1 as [|c2 cp2].
  { destruct (0x81 <=? uchar c); reflexivity. }
  destruct (0x81 <=? uchar c) eqn:E1.
  - assert (E2 : (0x80 <? uchar c) && (uchar c <? 0xFF) = true).
    { apply andb_true_intro. split; [apply Z.ltb_lt | apply Z.ltb_lt];
        bool_props; lia. }
    rewrite E2. cbn [andb].
    destruct ((0x30 <=? uchar c2) && (uchar c2 <? 0xFF)
              && negb (uchar c2 =? 0x7F)).
    + destruct (0x40 <=? uchar c2).
      * match goal with
        | |- context [if ?b then _ else _] => destruct b
        end; reflexivity.
      * destruct (GB18030_four _ _ _ _) as [code cp].
        match goal with
        | |- context [if ?b then _ else _] => destruct b
        end; reflexivity.
    + match goal with
      | |- context [if ?b then _ else _] => destruct b
      end; reflexivity.
  - assert (E2 : (0x80 <? uchar c) && (uchar c <? 0xFF) = false).
    { apply andb_false_iff. left. apply Z.ltb_ge. bool_props. lia. }
    rewrite E2. cbn [andb].
    match goal with
    | |- context [if ?b then _ else _] => destruct b
    end; reflexivity.
Qed.

Lemma GB18030_aligned (mode : Mode) (c : byte) (cp1 cp' : list byte) :
  Forall (fun c => uchar c <> 0xFF) (c :: cp1) ->
  uchar c <> 0 -> NextBackslash_GBK (c :: cp1) = Some cp' ->
  aligned_step NextBackslash_GBK (GB18030ToUTF8_body mode) (c :: cp1) cp'.
Proof.
  intros Hff Hnz Hscan.
  inversion Hff as [|? ? Hc Hcp1]; subst.
  pose proof (GB18030ToUTF8_body_rest mode c cp1 Hc) as Hr.
  unfold NextBackslash_GBK in Hscan.
  destruct (0x81 <=? uchar c) eqn:E1.
  - destruct cp1 as [|c2 cp2].
    + injection Hscan as <-. one_step_by Hr 1%nat.
    + inversion Hcp1 as [|? ? Hc2 Hcp2]; subst.
      pose proof (uchar_range c2) as R2.
      destruct (0x21 <=? uchar c2) eqn:E2; injection Hscan as <-.
      * destruct ((0x30 <=? uchar c2) && (uchar c2 <? 0xFF)
                  && negb (uchar c2 =? 0x7F)) eqn:E3.
        -- destruct (0x40 <=? uchar c2) eqn:E4; [one_step_by Hr 2%nat|].
           rewrite GB18030_four_rest in Hr.
           destruct cp2 as [|c3 [|c4 cp4]]; try (one_step_by Hr 2%nat).
           destruct ((0x80 <? uchar c3) && (uchar c3 <? 0xFF)
                     && within 0x30 0x39 (uchar c4)) eqn:E5;
             [|one_step_by Hr 2%nat].
           split; [exists 2%nat; split; [cbn [length]; lia | reflexivity]|].
           right. exists c3, (c4 :: cp4), cp4, 2%nat.
           split; [reflexivity|].
           split; [bool_props; lia|].
           split.
           { unfold NextBackslash_GBK.
             destruct (0x81 <=? uchar c3) eqn:E6;
               [|exfalso; bool_props; lia].
             destruct (0x21 <=? uchar c4) eqn:E7;
               [reflexivity | exfalso; bool_props; lia]. }
           split; [cbn [length]; lia|].
           split; [reflexivity|].
           apply reaches_step. rewrite Hr. apply reaches_here.
        -- split; [exists 2%nat; split; [cbn [length]; lia | reflexivity]|].
           left. apply reaches_step. rewrite Hr.
           apply reaches_step.
           rewrite (GB18030ToUTF8_body_rest mode c2 cp2 Hc2).
           destruct (0x81 <=? uchar c2) eqn:E4;
             [exfalso; bool_props; lia|].
           apply reaches_here.
      * destruct ((0x30 <=? uchar c2) && (uchar c2 <? 0xFF)
                  && negb (uchar c2 =? 0x7F)) eqn:E3;
          [exfalso; bool_props; lia|].
        one_step_by Hr 1%nat.
  - destruct (negb (uchar c =? 0x5C)) eqn:E2; [|discriminate].
    injection Hscan as <-. one_step_by Hr 1%nat.
Qed.

End ScanAligned.

Section ScanStarts.
Context {hdr : Header}.

Lemma scan_loop_reaches (sb : list byte -> option (list byte))
    (db : list byte -> Step) (P : list byte -> Prop) (text : list byte) :
  (forall k cp, P cp -> P (skipn k cp)) ->
  (forall c cp1 cp', P (c :: cp1) -> uchar c <> 0 ->
                     sb (c :: cp1) = Some cp' ->
                     aligned_step sb db (c :: cp1) cp') ->
  P text ->
  reaches db text (skipn (scan_loop sb (length text) text 0%nat) text).
Proof.
  intros Hskip Hal HP.
  destruct (scan_loop_aligned sb db P Hskip Hal (length text) text
              (le_n _) HP (length text) 0%nat (le_n _)) as (m & Hm & _ & Hr).
  rewrite Hm. exact Hr.
Qed.


(** With the byte FF in the text the scan and the GB18030 decoder part:
    the scan of FF 81 5C stops at the 5C, which the decoder reads as the
    second byte of 81 5C. *)
Lemma NextBackslash_FF_misaligned (mode : Mode) :
  NextBackslash GB18030 [xff; x81; x5c] = 2%nat
  /\ ~ reaches (GB18030ToUTF8_body mode) [xff; x81; x5c] [x5c].
Proof.
  split.
  - unfold NextBackslash. rewrite Z.eqb_refl. reflexivity.
  - intros H. inversion H as [|? ? ? H1]; subst.
    assert (E1 : st_rest (GB18030ToUTF8_body mode [xff; x81; x5c])
                 = [x81; x5c]) by reflexivity.
    rewrite E1 in H1. inversion H1 as [|? ? ? H2]; subst.
    rewrite GB18030ToUTF8_body_rest in H2
      by (intros Hx; vm_compute in Hx; discriminate Hx).
    cbn in H2. inversion H2.
Qed.

End ScanStarts.


Section ErrorOffsets.
Context {hdr : Header}.

(** C3, where the code departs from it.  [EUCJPToUTF8] on the two bytes
    8F A1, a three-byte code that the end of the input cuts off, writes
    nothing and returns 1: neither the length of the input nor the offset 0
    of the byte that could not be decoded.  With one more byte behind, the
    same prefix is reported at offset 0, and [GB18030ToUTF8] reports a lead
    byte at the end at its own offset. *)
Theorem EUCJPToUTF8_truncated_offset (mode : Mode) :
  EUCJPToUTF8 [x8f; xa1] mode = ([], 1%nat)
  /\ snd (EUCJPToUTF8 [x8f; xa1; x20] mode) = 0%nat
  /\ GB18030ToUTF8 [x81] mode = ([], 0%nat)
  /\ GB18030ToUTF8 [x41; x81] mode = ([x41], 1%nat).
Proof.
  repeat split; destruct mode; reflexivity.
Qed.

End ErrorOffsets.

(** * The UTF-8 codec *)

(** X1. Decoding what [UnicodeToUTF8] wrote gives the code point back and
    leaves the cursor behind its bytes, for every code point up to 0x10FFFF
    that is no high surrogate. *)
Theorem UTF8_encode_decode (code : Z) (rest : list byte) :
  0 <= code <= 0x10FFFF -> ~ (0xD800 <= code <= 0xDBFF) ->
  UTF8ToUnicode (UnicodeToUTF8 code ++ rest) = (code, rest).
Proof. apply UTF8ToUnicode_UnicodeToUTF8. Qed.

Lemma UTF8_encode_decode_witness :
  UTF8ToUnicode (UnicodeToUTF8 0x20AC ++ [x41]) = (0x20AC, [x41]).
Proof. apply (UTF8_encode_decode 0x20AC [x41]); lia. Defined.

(** X2. On a well-formed text, encoding the code point that
    [UTF8ToUnicode] read, followed by the bytes it left, is the text. *)
Theorem UTF8_decode_encode (c : byte) (cp : list byte) :
  wf_utf8 (c :: cp) = true ->
  UnicodeToUTF8 (fst (UTF8ToUnicode (c :: cp)))
    ++ snd (UTF8ToUnicode (c :: cp)) = c :: cp.
Proof.
  intros Hwf. rewrite UTF8ToUnicode_read.
  apply (UnicodeToUTF8_utf8_read c cp Hwf).
Qed.

Lemma UTF8_decode_encode_witness :
  UnicodeToUTF8 (fst (UTF8ToUnicode [xe2; x82; xac; x41]))
    ++ snd (UTF8ToUnicode [xe2; x82; xac; x41]) = [xe2; x82; xac; x41].
Proof. apply (UTF8_decode_encode xe2 [x82; xac; x41]). reflexivity. Defined.

Lemma utf8_read_suffix (c : byte) (cp : list byte) :
  exists k : nat, (1 <= k <= 6)%nat
    /\ snd (utf8_read (c :: cp)) = skipn k (c :: cp).
Proof.
  read_cases; cbn [snd];
    first [ exists 1%nat; split; [lia | reflexivity]
          | exists 2%nat; split; [lia | reflexivity]
          | exists 3%nat; split; [lia | reflexivity]
          | exists 4%nat; split; [lia | reflexivity]
          | exists 5%nat; split; [lia | reflexivity]
          | exists 6%nat; split; [lia | reflexivity] ].
Qed.

(** X3. At a cursor that is not at the end [UTF8ToUnicode] consumes between
    one and six bytes, and what it returns is at most 0x10FFFF and never a
    high surrogate. *)
Theorem UTF8ToUnicode_advances (c : byte) (cp : list byte) :
  (exists k : nat, (1 <= k <= 6)%nat
     /\ snd (UTF8ToUnicode (c :: cp)) = skipn k (c :: cp))
  /\ 0 <= fst (UTF8ToUnicode (c :: cp)) <= 0x10FFFF
  /\ ~ (0xD800 <= fst (UTF8ToUnicode (c :: cp)) <= 0xDBFF).
Proof.
  rewrite UTF8ToUnicode_read. split.
  - apply utf8_read_suffix.
  - apply (utf8_read_result c cp).
Qed.

Lemma UnicodeToUTF8_length (code : Z) :
  (1 <= length (UnicodeToUTF8 code) <= 4)%nat.
Proof.
  destruct (Z_le_gt_dec code 0x7F) as [H1 | H1].
  { rewrite UnicodeToUTF8_1 by lia. cbn. lia. }
  destruct (Z_le_gt_dec code 0x7FF) as [H2 | H2].
  { rewrite UnicodeToUTF8_2 by lia. cbn. lia. }
  destruct (Z_le_gt_dec code 0xFFFF) as [H3 | H3].
  { rewrite UnicodeToUTF8_3 by lia. cbn. lia. }
  destruct (Z_le_gt_dec code 0x10FFFF) as [H4 | H4].
  { rewrite UnicodeToUTF8_4 by lia. cbn. lia. }
  rewrite UnicodeToUTF8_big by lia. cbn. lia.
Qed.

(** X4. [UnicodeToUTF8] writes one to four bytes; for a code point that is
    no surrogate they are well-formed UTF-8, and a value above 0x10FFFF is
    written as U+FFFD. *)
Theorem UnicodeToUTF8_well_formed (code : Z) :
  (1 <= length (UnicodeToUTF8 code) <= 4)%nat
  /\ (0 <= code -> ~ (0xD800 <= code <= 0xDFFF) ->
      wf_utf8 (UnicodeToUTF8 code) = true)
  /\ (0x10FFFF < code -> UnicodeToUTF8 code = [xef; xbf; xbd]).
Proof.
  split; [apply UnicodeToUTF8_length | split].
  - intros H0 Hs.
    pose proof (utf8_ok_UnicodeToUTF8 false code [] H0 (or_intror Hs)) as H.
    rewrite app_nil_r in H. exact H.
  - apply UnicodeToUTF8_big.
Qed.

(** * [UTF8ToUTF8] *)

Lemma convert_loop_flagged (body : list byte -> Step) (fuel : nat) :
  forall (cp : list byte) (off e : nat),
    snd (convert_loop body fuel cp off (Some e)) = e.
Proof.
  induction fuel as [|fuel IH]; intros cp off e; [reflexivity|].
  destruct cp as [|c cp]; [reflexivity|].
  rewrite convert_loop_step.
  assert (He : (if st_err (body (c :: cp))
                then first_error (Some e) off else Some e) = Some e)
    by (destruct (st_err (body (c :: cp))); reflexivity).
  rewrite He.
  destruct (st_break (body (c :: cp))); cbn [snd]; [reflexivity|].
  apply IH.
Qed.

Section Progress.
Variable body : list byte -> Step.
Hypothesis body_progresses : progresses body.

Lemma convert_loop_fuel (f1 f2 : nat) :
  forall (cp : list byte) (off : nat) (e : option nat),
    (length cp <= f1)%nat -> (length cp <= f2)%nat ->
    convert_loop body f1 cp off e = convert_loop body f2 cp off e.
Proof.
  revert f2. induction f1 as [|f1 IH]; intros f2 cp off e H1 H2.
  - destruct cp; [|cbn [length] in H1; lia].
    rewrite !convert_loop_nil. reflexivity.
  - destruct cp as [|c cp]; [rewrite !convert_loop_nil; reflexivity|].
    destruct f2 as [|f2]; [cbn [length] in H2; lia|].
    cbn [convert_loop]. cbv zeta.
    pose proof (body_progresses c cp) as Hp. cbn [length] in H1, H2.
    rewrite (IH f2) by lia. reflexivity.
Qed.

Lemma convert_loop_bound (fuel : nat) :
  forall (cp : list byte) (off : nat) (e : option nat),
    (forall e', e = Some e' -> (e' <= off)%nat) ->
    (snd (convert_loop body fuel cp off e) <= off + length cp)%nat.
Proof.
  induction fuel as [|fuel IH]; intros cp off e He.
  - cbn [convert_loop snd]. destruct e as [e'|]; cbn [loop_result];
      [specialize (He e' eq_refl)|]; lia.
  - destruct cp as [|c cp].
    { cbn [convert_loop snd]. destruct e as [e'|]; cbn [loop_result];
        [specialize (He e' eq_refl)|]; lia. }
    rewrite convert_loop_step.
    pose proof (body_progresses c cp) as Hp.
    set (e2 := if st_err (body (c :: cp)) then first_error e off else e).
    assert (He2 : forall e', e2 = Some e' -> (e' <= off)%nat).
    { intros e'. subst e2.
      destruct (st_err (body (c :: cp))); [|apply He].
      destruct e as [e0|]; cbn [first_error]; intros H; injection H as <-;
        [apply He; reflexivity | lia]. }
    cbn [length] in *.
    destruct (st_break (body (c :: cp))); cbn [snd].
    + destruct e2 as [e'|]; cbn [loop_result];
        [specialize (He2 e' eq_refl)|]; lia.
    + match goal with
      | |- (snd (convert_loop body fuel ?r ?o e2) <= _)%nat =>
        pose proof (IH r o e2) as Hi
      end.
      assert (Hi' : forall e', e2 = Some e' ->
                (e' <= off + (S (length cp)
                              - length (st_rest (body (c :: cp)))))%nat).
      { intros e' H. specialize (He2 e' H). lia. }
      specialize (Hi Hi'). lia.
Qed.

Lemma convert_bound (text : list byte) :
  (snd (convert body text) <= length text)%nat.
Proof.
  unfold convert.
  pose proof (convert_loop_bound (length text) text 0 None) as H.
  cbn [Nat.add] in H. apply H. intros e' He. discriminate He.
Qed.

End Progress.

Lemma utf8_read_progress (c : byte) (cp : list byte) :
  (length (snd (UTF8ToUnicode (c :: cp))) <= length cp)%nat.
Proof. rewrite UTF8ToUnicode_read. apply (utf8_read_result c cp). Qed.

(** A body that only moves the cursor as far as it read. *)
Ltac progress_leaf :=
  cbn [st_rest step length] in *; first [lia | assumption].

Ltac decoder_progress :=
  intros c cp; unfold emit; cbv zeta;
  repeat (match goal with
          | |- context [match ?l with [] => _ | _ :: _ => _ end] =>
            is_var l; destruct l
          | |- context [if ?b then _ else _] => destruct b
          end; cbv beta iota zeta);
  progress_leaf.

Ltac encoder_progress :=
  intros c cp; pose proof (utf8_read_progress c cp) as Hp;
  destruct (UTF8ToUnicode (c :: cp)) as [code r]; cbn [snd] in Hp;
  unfold last_chance; cbv zeta;
  repeat (match goal with
          | |- context [let (_, _) := ?p in _] => destruct p
          | |- context [if ?b then _ else _] => destruct b
          end; cbv beta iota zeta);
  progress_leaf.

Section BodiesProgress.
Context {hdr : Header}.

Lemma UTF8ToUTF8_progresses (mode : Mode) :
  progresses (UTF8ToUTF8_body mode).
Proof.
  intros c cp. rewrite UTF8ToUTF8_body_rest. apply utf8_read_progress.
Qed.

Lemma ASCIIToUTF8_progresses (mode : Mode) :
  progresses (ASCIIToUTF8_body mode).
Proof. unfold ASCIIToUTF8_body. decoder_progress. Qed.

Lemma SJISToUTF8_progresses (mode : Mode) :
  progresses (SJISToUTF8_body mode).
Proof. unfold SJISToUTF8_body. decoder_progress. Qed.

Lemma EUCJPToUTF8_progresses (mode : Mode) :
  progresses (EUCJPToUTF8_body mode).
Proof. unfold EUCJPToUTF8_body. decoder_progress. Qed.

Lemma Big5ToUTF8_progresses (mode : Mode) :
  progresses (Big5ToUTF8_body mode).
Proof. unfold Big5ToUTF8_body. decoder_progress. Qed.

Lemma GBKToUTF8_progresses (mode : Mode) :
  progresses (GBKToUTF8_body mode).
Proof. unfold GBKToUTF8_body. decoder_progress. Qed.

Lemma GB2312ToUTF8_progresses (mode : Mode) :
  progresses (GB2312ToUTF8_body mode).
Proof. unfold GB2312ToUTF8_body. decoder_progress. Qed.

Lemma JISXToUTF8_progresses (csGL csGR : Z) (mode : Mode) :
  progresses (JISXToUTF8_body csGL csGR mode).
Proof. unfold JISXToUTF8_body. decoder_progress. Qed.

Lemma SingleByteToUTF8_progresses (key : Z) (mode : Mode) :
  progresses (SingleByteToUTF8_body key mode).
Proof. unfold SingleByteToUTF8_body. decoder_progress. Qed.

Lemma ISO8859ToUTF8_progresses (key : Z) (mode : Mode) :
  progresses (ISO8859ToUTF8_body key mode).
Proof. unfold ISO8859ToUTF8_body. decoder_progress. Qed.

Lemma GB18030ToUTF8_progresses (mode : Mode) :
  progresses (GB18030ToUTF8_body mode).
Proof.
  intros c cp. unfold GB18030ToUTF8_body. cbv zeta.
  destruct (Z.land (uchar c) 0x80 =? 0); [progress_leaf|].
  destruct cp as [|c2 cp2]; [progress_leaf|].
  match goal with
  | |- context [let '(_, _) := ?p in _] => set (q := p)
  end.
  assert (Hq : (length (snd q) <= length (c2 :: cp2))%nat).
  { subst q.
    match goal with
    | |- context [if ?b then _ else _] => destruct b
    end; [|cbn [snd]; lia].
    destruct (0x40 <=? uchar c2); [cbn [snd length]; lia|].
    rewrite GB18030_four_rest.
    destruct cp2 as [|c3 [|c4 cp4]]; cbn [length]; try lia.
    destruct (_ && _ && _); cbn [length]; lia. }
  clearbody q. destruct q as [code r]. cbn [snd] in Hq.
  destruct (_ && _); progress_leaf.
Qed.

Lemma EUCKR_jamo_progress (table : CompressedTable) (hangul code : Z)
    (cp : list byte) :
  (length (snd (EUCKR_jamo table hangul code cp)) <= length cp)%nat.
Proof.
  unfold EUCKR_jamo.
  repeat (match goal with
          | |- context [match ?l with [] => _ | _ :: _ => _ end] =>
            is_var l; destruct l
          | |- context [if ?b then _ else _] => destruct b
          end; cbv beta iota zeta);
  cbn [snd length]; lia.
Qed.

Lemma EUCKRToUTF8_progresses (mode : Mode) :
  progresses (EUCKRToUTF8_body mode).
Proof.
  intros c cp. unfold EUCKRToUTF8_body. cbv zeta.
  destruct (uchar c <=? 0x7F); [unfold emit; destruct (_ =? _); progress_leaf|].
  destruct cp as [|c2 cp2];
    [unfold emit; destruct (_ =? _); progress_leaf|].
  destruct ((0x81 <=? uchar c) && (uchar c <? 0xFF));
    [|unfold emit; destruct (_ =? _); progress_leaf].
  destruct ((0xA1 <=? uchar c) && (0xA1 <=? uchar c2) && (uchar c2 <? 0xFF)).
  - destruct ((uchar c =? 0xA4) && (uchar c2 =? 0xD4)).
    + match goal with
      | |- context [EUCKR_jamo ?t ?h ?k ?l] =>
        pose proof (EUCKR_jamo_progress t h k l) as Hj;
        destruct (EUCKR_jamo t h k l) as [[pre code] r]
      end.
      cbn [snd] in Hj. unfold emit. destruct (_ =? _); progress_leaf.
    + unfold emit. destruct (_ =? _); progress_leaf.
  - unfold emit.
    repeat match goal with
           | |- context [if ?b then _ else _] => destruct b
           end; progress_leaf.
Qed.

Lemma UTF8ToSJIS_progresses : progresses UTF8ToSJIS_body.
Proof. unfold UTF8ToSJIS_body. encoder_progress. Qed.

Lemma UTF8ToEUCJP_progresses : progresses UTF8ToEUCJP_body.
Proof. unfold UTF8ToEUCJP_body. encoder_progress. Qed.

Lemma UTF8ToBig5_progresses : progresses UTF8ToBig5_body.
Proof. unfold UTF8ToBig5_body. encoder_progress. Qed.

Lemma UTF8ToGBK_progresses : progresses UTF8ToGBK_body.
Proof. unfold UTF8ToGBK_body. encoder_progress. Qed.

Lemma UTF8ToGB18030_progresses : progresses UTF8ToGB18030_body.
Proof. unfold UTF8ToGB18030_body. encoder_progress. Qed.

Lemma UTF8ToGB2312_progresses : progresses UTF8ToGB2312_body.
Proof. unfold UTF8ToGB2312_body. encoder_progress. Qed.

Lemma UTF8ToEUCKR_progresses : progresses UTF8ToEUCKR_body.
Proof. unfold UTF8ToEUCKR_body. encoder_progress. Qed.

Lemma UTF8ToSingleByte_progresses (key : Z) :
  progresses (UTF8ToSingleByte_body key).
Proof. unfold UTF8ToSingleByte_body. encoder_progress. Qed.

End BodiesProgress.

(** X5. A well-formed four-byte character whose code point has the bits
    0xD800 under the mask 0xF800 (U+1D800 is one) is copied by [UTF8ToUTF8],
    and the returned offset is the offset of that character: the test for
    surrogates looks at the low sixteen bits only. *)
Theorem UTF8ToUTF8_supplementary_error_offset (code : Z) (rest : list byte)
    (mode : Mode) :
  0x10000 <= code <= 0x10FFFF -> Z.land code 0xF800 = 0xD800 ->
  wf_utf8 (UnicodeToUTF8 code) = true
  /\ UTF8ToUTF8 (UnicodeToUTF8 code ++ rest) mode
     = (UnicodeToUTF8 code ++ fst (UTF8ToUTF8 rest mode), 0%nat).
Proof.
  intros Hc Hl. split.
  { pose proof (utf8_ok_UnicodeToUTF8 false code []) as H.
    rewrite app_nil_r in H. apply H; [lia | right; lia]. }
  assert (Hb : UTF8ToUTF8_body mode (UnicodeToUTF8 code ++ rest)
               = step (UnicodeToUTF8 code) rest true).
  { unfold UTF8ToUTF8_body.
    rewrite UTF8ToUnicode_UnicodeToUTF8 by lia.
    assert (Hw : within 0xFFFE 0xFFFF code = false).
    { unfold within. apply andb_false_intro2. apply Z.leb_gt. lia. }
    rewrite Hw. cbn [andb]. rewrite Hl. rewrite Z.eqb_refl, orb_true_r.
    reflexivity. }
  unfold UTF8ToUTF8, convert.
  pose proof (UnicodeToUTF8_length code) as Hlen.
  destruct (UnicodeToUTF8 code) as [|u0 u] eqn:Eu;
    [cbn [length] in Hlen; lia|].
  cbn [app length]. rewrite convert_loop_step.
  change (u0 :: u ++ rest) with ((u0 :: u) ++ rest). rewrite Hb.
  cbn [st_break st_out st_rest st_err step first_error]. f_equal.
  - cbn [app]. f_equal. f_equal.
    rewrite (convert_loop_out _ _ _ _ 0%nat _ None).
    f_equal. apply (convert_loop_fuel _ (UTF8ToUTF8_progresses mode)).
    + rewrite length_app. lia.
    + lia.
  - apply convert_loop_flagged.
Qed.

Lemma UTF8ToUTF8_supplementary_error_offset_witness :
  wf_utf8 [xf0; x9d; xa0; x80] = true
  /\ UTF8ToUTF8 [xf0; x9d; xa0; x80; x41] UTF8_REPLACE
     = ([xf0; x9d; xa0; x80; x41], 0%nat).
Proof.
  apply (UTF8ToUTF8_supplementary_error_offset 0x1D800 [x41] UTF8_REPLACE);
    [lia | reflexivity].
Defined.

(** * The error offset never lies beyond the text *)

Lemma SetErrorPosition_le (n i : nat) : (SetErrorPosition n i <= n)%nat.
Proof.
  unfold SetErrorPosition. destruct (i <? n)%nat eqn:E; [|lia].
  apply Nat.ltb_lt in E. lia.
Qed.

Section OffsetBound.
Context {hdr : Header}.

Lemma control_codes_n (key : Z) (cp : list byte) :
  forall (prev : byte) (i n : nat) (iso : Iso),
    (snd (fst (control_codes key cp prev i n iso)) <= n)%nat.
Proof.
  induction cp as [|c cp IH]; intros prev i n iso; [cbn; lia|].
  cbn [control_codes]. destruct (is_control c); [|cbn; lia].
  cbv zeta.
  match goal with
  | |- (snd (fst (control_codes key cp c (S i) ?n' ?iso')) <= n)%nat =>
    pose proof (IH c (S i) n' iso') as H;
    assert (Hn : (n' <= n)%nat)
      by (destruct (_ || _); [apply SetErrorPosition_le | lia])
  end.
  lia.
Qed.

Lemma escape_sequence_n (nested : Nested) (mode : Mode) (lastpos : list byte)
    (savePos n : nat) (iso : Iso) :
  (esc_n (escape_sequence nested mode lastpos savePos n iso) <= n)%nat.
Proof.
  unfold escape_sequence. cbv zeta.
  destruct (negb (Z.land (iso_state iso) ALTERNATE_CS =? 0));
    [cbn [esc_n]; lia|].
  destruct (EscapeCode _ _ _) as [type state].
  destruct type; cbv beta iota;
    repeat (match goal with
            | |- context [nested ?k ?s ?m] => destruct (nested k s m)
            | |- context [if ?b then _ else _] => destruct b
            | |- context [match ?l with [] => _ | _ :: _ => _ end] =>
              destruct l
            end; cbv beta iota);
    cbn [esc_n];
    repeat match goal with
           | |- context [SetErrorPosition ?a ?b] =>
             lazymatch goal with
             | _ : (SetErrorPosition a b <= a)%nat |- _ => fail
             | _ => pose proof (SetErrorPosition_le a b)
             end
           end; lia.
Qed.

Lemma escape_codes_n (nested : Nested) (mode : Mode) (fuel : nat) :
  forall (cp : list byte) (l n : nat) (iso : Iso),
    (snd (fst (escape_codes nested mode fuel cp l n iso)) <= n)%nat.
Proof.
  induction fuel as [|fuel IH]; intros cp l n iso; [cbn; lia|].
  destruct cp as [|c cp]; [cbn; lia|].
  cbn [escape_codes]. destruct (is_escape c); [|cbn; lia].
  cbv zeta.
  pose proof (escape_sequence_n nested mode (c :: cp)
                (l - length (c :: cp)) n iso) as He.
  destruct (escape_sequence _ _ _ _ _ _) as [eo er en ei eb].
  cbn [esc_out esc_rest esc_n esc_iso esc_break] in *.
  destruct eb; [cbn; lia|].
  specialize (IH er l en ei).
  destruct (escape_codes _ _ _ _ _ _ _) as [[[out rest] n'] iso'].
  cbn [fst snd] in *. lia.
Qed.

Lemma ISO2022_loop_n (nested : Nested) (key : Z) (mode : Mode)
    (fuel : nat) :
  forall (cp : list byte) (l n : nat) (iso : Iso),
    (run_n (ISO2022_loop nested key mode fuel cp l n iso) <= n)%nat.
Proof.
  induction fuel as [|fuel IH]; intros cp l n iso; [cbn; lia|].
  destruct cp as [|c cp]; [cbn; lia|].
  cbn [ISO2022_loop]. cbv zeta.
  destruct (split_segment (c :: cp)) as [seg rest].
  match goal with
  | |- context [match seg with
                | [] => ([], n)
                | _ :: _ => ?X
                end] =>
    set (p := match seg with [] => ([], n) | _ :: _ => X end)
  end.
  assert (H1 : (snd p <= n)%nat).
  { subst p. destruct seg as [|s0 seg]; [cbn; lia|].
    destruct (decode_segment _ _ _ _ _) as [o m]. cbn [snd].
    destruct (negb _); [apply SetErrorPosition_le | lia]. }
  clearbody p. destruct p as [out1 n1]. cbn [snd] in H1.
  pose proof (control_codes_n key rest x00 (l - length rest) n1 iso) as H2.
  destruct (control_codes _ _ _ _ _ _) as [[rest2 n2] iso2].
  cbn [fst snd] in H2.
  pose proof (escape_codes_n nested mode (length rest2) rest2 l n2 iso2)
    as H3.
  destruct (escape_codes _ _ _ _ _ _ _) as [[[out3 rest3] n3] iso3].
  cbn [fst snd] in H3. cbn [run_n].
  specialize (IH rest3 l n3 iso3). lia.
Qed.

Lemma ASCIIToUTF8_bound (text : list byte) (mode : Mode) :
  (snd (ASCIIToUTF8 text mode) <= length text)%nat.
Proof.
  unfold ASCIIToUTF8. destruct (_ =? 0); [cbn; lia|].
  apply convert_bound, ASCIIToUTF8_progresses.
Qed.

End OffsetBound.

(** X6. Whatever the character set, the text and the mode, the offset that
    [AnyToUTF8] returns (that of the first error, or the length) is at most
    the length of the text. *)
Theorem AnyToUTF8_offset_within_text {hdr : Header} (depth : nat) (key : Z)
    (text : list byte) (mode : Mode) :
  (snd (AnyToUTF8 depth key text mode) <= length text)%nat.
Proof.
  destruct depth as [|depth]; cbn [AnyToUTF8];
    repeat match goal with
    | |- context [if ?b then _ else _] => destruct b
    end;
    first [ apply ASCIIToUTF8_bound
          | cbn; lia
          | unfold ISO2022ToUTF8, ISO2022_run; cbn [snd];
            apply ISO2022_loop_n
          | apply convert_bound ];
    first [ apply ISO8859ToUTF8_progresses | apply EUCKRToUTF8_progresses
          | apply GB2312ToUTF8_progresses | apply UTF8ToUTF8_progresses
          | apply GB18030ToUTF8_progresses | apply GBKToUTF8_progresses
          | apply Big5ToUTF8_progresses | apply EUCJPToUTF8_progresses
          | apply SJISToUTF8_progresses | apply SingleByteToUTF8_progresses ].
Qed.

Section EncoderOffset.
Context {hdr : Header}.

Lemma UTF8ToJISX_body_progress (charset state : Z) (c : byte)
    (cp : list byte) :
  (length (st_rest (fst (UTF8ToJISX_body charset state (c :: cp))))
   <= length cp)%nat.
Proof.
  pose proof (utf8_read_progress c cp) as Hp.
  unfold UTF8ToJISX_body.
  destruct (UTF8ToUnicode (c :: cp)) as [code r]. cbn [snd] in Hp.
  cbv zeta.
  repeat (match goal with
          | |- context [LastChanceConversion ?l] =>
            destruct (LastChanceConversion l) as [[|? ?] ?]
          | |- context [if ?b then _ else _] => destruct b
          end; cbv beta iota zeta);
  cbn [fst st_rest step]; exact Hp.
Qed.

Lemma UTF8ToJISX_loop_bound (charset : Z) (fuel : nat) :
  forall (cp : list byte) (off : nat) (e : option nat) (state : Z),
    (forall e', e = Some e' -> (e' <= off)%nat) ->
    (snd (UTF8ToJISX_loop charset fuel cp off e state)
     <= off + length cp)%nat.
Proof.
  induction fuel as [|fuel IH]; intros cp off e state He.
  - cbn [UTF8ToJISX_loop snd]. destruct e as [e'|]; cbn [loop_result];
      [specialize (He e' eq_refl)|]; lia.
  - destruct cp as [|c cp].
    { cbn [UTF8ToJISX_loop snd]. destruct e as [e'|]; cbn [loop_result];
        [specialize (He e' eq_refl)|]; lia. }
    cbn [UTF8ToJISX_loop].
    pose proof (UTF8ToJISX_body_progress charset state c cp) as Hp.
    destruct (UTF8ToJISX_body charset state (c :: cp)) as [st state'].
    cbn [fst] in Hp. cbv zeta.
    set (e2 := if st_err st then first_error e off else e).
    assert (He2 : forall e', e2 = Some e' -> (e' <= off)%nat).
    { intros e'. subst e2. destruct (st_err st); [|apply He].
      destruct e as [e0|]; cbn [first_error]; intros H; injection H as <-;
        [apply He; reflexivity | lia]. }
    cbn [length] in *.
    match goal with
    | |- context [UTF8ToJISX_loop charset fuel ?r ?o e2 state'] =>
      pose proof (IH r o e2 state') as Hi;
      destruct (UTF8ToJISX_loop charset fuel r o e2 state') as [out n]
    end.
    cbn [snd] in *.
    assert (Hi' : forall e', e2 = Some e' ->
              (e' <= off + (S (length cp) - length (st_rest st)))%nat).
    { intros e' H. specialize (He2 e' H). lia. }
    specialize (Hi Hi'). lia.
Qed.

Lemma UTF8ToISO2022_lines_bound (key : Z) (fuel : nat) :
  forall (cp : list byte) (off l : nat),
    (snd (UTF8ToISO2022_lines key fuel cp off l) <= l)%nat.
Proof.
  induction fuel as [|fuel IH]; intros cp off l; [cbn; lia|].
  destruct cp as [|c cp]; [cbn; lia|].
  cbn [UTF8ToISO2022_lines].
  destruct (line_body (c :: cp)) as [[body rest] check].
  destruct (line_end rest) as [ends dp]. cbv zeta.
  match goal with
  | |- context [if Z.land check 0x80 =? 0 then ?A else ?B] =>
    set (p := if Z.land check 0x80 =? 0 then A else B)
  end.
  assert (Hl : (snd p <= l)%nat).
  { subst p. destruct (Z.land check 0x80 =? 0); [cbn; lia|].
    destruct (if key =? ISO_2022_IR_58 then _ else _) as [o n].
    cbn [snd]. destruct (n <? _)%nat; [apply SetErrorPosition_le | lia]. }
  clearbody p. destruct p as [out l1]. cbn [snd] in Hl.
  specialize (IH dp (off + length (body ++ ends))%nat l1).
  destruct (UTF8ToISO2022_lines _ _ _ _ _) as [out' l2].
  cbn [snd] in *. lia.
Qed.

End EncoderOffset.

(** X7. Whatever the character set and the text, the offset that [FromUTF8]
    returns is at most the length of the text. *)
Theorem FromUTF8_offset_within_text {hdr : Header} (key : Z)
    (text : list byte) :
  (snd (FromUTF8 key text) <= length text)%nat.
Proof.
  unfold FromUTF8, UTF8ToISO2022.
  repeat match goal with
  | |- context [if ?b then _ else _] => destruct b
  end;
  first [ apply (UTF8ToJISX_loop_bound key (length text) text 0 None 0);
          intros e' He; discriminate He
        | apply UTF8ToISO2022_lines_bound
        | apply convert_bound ];
  first [ apply UTF8ToSingleByte_progresses | apply UTF8ToEUCKR_progresses
        | apply UTF8ToGB2312_progresses | apply UTF8ToUTF8_progresses
        | apply UTF8ToGB18030_progresses | apply UTF8ToGBK_progresses
        | apply UTF8ToBig5_progresses | apply UTF8ToEUCJP_progresses
        | apply UTF8ToSJIS_progresses ].
Qed.

(** * ASCII text *)

Lemma convert_loop_ascii (body : list byte -> Step) :
  (forall c cp, is_ascii c -> body (c :: cp) = step [c] cp false) ->
  forall (text : list byte) (fuel off : nat),
    Forall is_ascii text -> (length text <= fuel)%nat ->
    convert_loop body fuel text off None = (text, (off + length text)%nat).
Proof.
  intros Hb text. induction text as [|c text IH]; intros fuel off Ha Hf.
  - rewrite convert_loop_nil. cbn. f_equal. lia.
  - destruct fuel as [|fuel]; [cbn [length] in Hf; lia|].
    inversion Ha as [|? ? Hc Ht]; subst.
    rewrite convert_loop_step, (Hb c text Hc).
    cbn [st_break st_out st_rest st_err step].
    cbn [length] in Hf. rewrite (IH fuel _ Ht) by lia.
    cbn [fst snd app length]. f_equal. lia.
Qed.

Lemma convert_ascii (body : list byte -> Step) (text : list byte) :
  (forall c cp, is_ascii c -> body (c :: cp) = step [c] cp false) ->
  Forall is_ascii text -> convert body text = (text, length text).
Proof.
  intros Hb Ha. unfold convert.
  rewrite (convert_loop_ascii body Hb text (length text) 0 Ha) by lia.
  reflexivity.
Qed.

Lemma UTF8ToUnicode_ascii (c : byte) (cp : list byte) :
  is_ascii c -> UTF8ToUnicode (c :: cp) = (uchar c, cp).
Proof.
  intros Hc. unfold is_ascii in Hc. pose proof (uchar_range c) as R.
  rewrite UTF8ToUnicode_read.
  rewrite <- (to_char_uchar c) at 1. apply utf8_read_1. lia.
Qed.

Lemma UnicodeToUTF8_ascii (c : byte) :
  is_ascii c -> UnicodeToUTF8 (uchar c) = [c].
Proof.
  intros Hc. unfold is_ascii in Hc.
  rewrite UnicodeToUTF8_1 by lia. rewrite to_char_uchar. reflexivity.
Qed.

Lemma ascii_low (c : byte) : is_ascii c -> (uchar c <=? 0x7F) = true.
Proof. intros Hc. apply Z.leb_le. exact Hc. Qed.

Lemma ascii_below_80 (c : byte) : is_ascii c -> (uchar c <? 0x80) = true.
Proof. intros Hc. apply Z.ltb_lt. unfold is_ascii in Hc. lia. Qed.

Lemma ascii_no_surrogate_bits (c : byte) :
  is_ascii c -> (Z.land (uchar c) 0xF800 =? 0xD800) = false.
Proof.
  intros Hc. unfold is_ascii in Hc. pose proof (uchar_range c) as R.
  assert (H : Z.land (uchar c) 0xF800 = 0).
  { change 0xF800 with (Z.shiftl 31 11).
    apply Z.bits_inj'. intros n Hn. rewrite Z.land_spec, Z.bits_0.
    destruct (Z_lt_ge_dec n 11) as [Hlt | Hge].
    - rewrite (Z.shiftl_spec_low 31 11 n Hlt). apply andb_false_r.
    - rewrite (Z.bits_above_log2 (uchar c) n); [reflexivity | lia |].
      destruct (Z.eq_dec (uchar c) 0) as [E | E];
        [rewrite E; cbn; lia|].
      apply Z.log2_lt_pow2; [lia|].
      apply Z.lt_le_trans with (2 ^ 11); [lia|].
      apply Z.pow_le_mono_r; lia. }
  rewrite H. reflexivity.
Qed.

Section ASCII.
Context {hdr : Header}.

Lemma EUCKRToUTF8_body_ascii (mode : Mode) (c : byte) (cp : list byte) :
  is_ascii c -> EUCKRToUTF8_body mode (c :: cp) = step [c] cp false.
Proof.
  intros Hc. unfold EUCKRToUTF8_body. cbv zeta.
  rewrite (ascii_low c Hc). unfold emit.
  assert (E : (uchar c =? 0xFFFD) = false)
    by (apply Z.eqb_neq; unfold is_ascii in Hc; lia).
  rewrite E, (UnicodeToUTF8_ascii c Hc). reflexivity.
Qed.

Lemma UTF8ToUTF8_body_ascii (mode : Mode) (c : byte) (cp : list byte) :
  is_ascii c -> UTF8ToUTF8_body mode (c :: cp) = step [c] cp false.
Proof.
  intros Hc. unfold UTF8ToUTF8_body.
  rewrite (UTF8ToUnicode_ascii c cp Hc).
  assert (E : within 0xFFFE 0xFFFF (uchar c) = false).
  { unfold within. apply andb_false_intro1. apply Z.leb_gt.
    unfold is_ascii in Hc. lia. }
  rewrite E. cbn [andb].
  rewrite (ascii_no_surrogate_bits c Hc), (UnicodeToUTF8_ascii c Hc).
  replace (length (c :: cp) - length cp)%nat with 1%nat
    by (cbn [length]; lia).
  reflexivity.
Qed.

End ASCII.

(** A decoder's iteration at an ASCII byte. *)
Ltac decoder_ascii :=
  intros c cp Hc; cbv zeta; rewrite land_80, (ascii_low c Hc); reflexivity.

(** An encoder's iteration at an ASCII byte. *)
Ltac encoder_ascii :=
  intros c cp Hc; rewrite (UTF8ToUnicode_ascii c cp Hc); cbv zeta;
  rewrite (ascii_below_80 c Hc), to_char_uchar; reflexivity.



(** X9. A text of ASCII bytes is what the encoders of Shift-JIS, EUC-JP,
    Big5, GBK, GB18030, GB2312 and EUC-KR return for it, with the length of
    the text as the offset: no error. *)
Theorem encoders_keep_ASCII {hdr : Header} (text : list byte) :
  Forall is_ascii text ->
  UTF8ToSJIS text = (text, length text)
  /\ UTF8ToEUCJP text = (text, length text)
  /\ UTF8ToBig5 text = (text, length text)
  /\ UTF8ToGBK text = (text, length text)
  /\ UTF8ToGB18030 text = (text, length text)
  /\ UTF8ToGB2312 text = (text, length text)
  /\ UTF8ToEUCKR text = (text, length text).
Proof.
  intros Ha. repeat split; apply convert_ascii; try exact Ha.
  - unfold UTF8ToSJIS_body. encoder_ascii.
  - unfold UTF8ToEUCJP_body. encoder_ascii.
  - unfold UTF8ToBig5_body. encoder_ascii.
  - unfold UTF8ToGBK_body. encoder_ascii.
  - unfold UTF8ToGB18030_body. encoder_ascii.
  - unfold UTF8ToGB2312_body. encoder_ascii.
  - unfold UTF8ToEUCKR_body. encoder_ascii.
Qed.

Lemma encoders_keep_ASCII_witness :
  @UTF8ToSJIS sample_header [x41; x5c; x7e] = ([x41; x5c; x7e], 3%nat)
  /\ @UTF8ToEUCJP sample_header [x41; x5c; x7e] = ([x41; x5c; x7e], 3%nat)
  /\ @UTF8ToBig5 sample_header [x41; x5c; x7e] = ([x41; x5c; x7e], 3%nat)
  /\ @UTF8ToGBK sample_header [x41; x5c; x7e] = ([x41; x5c; x7e], 3%nat)
  /\ @UTF8ToGB18030 sample_header [x41; x5c; x7e] = ([x41; x5c; x7e], 3%nat)
  /\ @UTF8ToGB2312 sample_header [x41; x5c; x7e] = ([x41; x5c; x7e], 3%nat)
  /\ @UTF8ToEUCKR sample_header [x41; x5c; x7e] = ([x41; x5c; x7e], 3%nat).
Proof.
  apply (@encoders_keep_ASCII sample_header [x41; x5c; x7e]).
  repeat constructor; unfold is_ascii; cbn; lia.
Defined.

(** * The four-byte codes of GB18030 above the basic plane *)

Section Supplementary.
Context {hdr : Header}.

Lemma GB18030ToUTF8_body_linear (mode : Mode) (q1 r1 q2 r2 : Z) :
  0 <= r1 <= 9 -> 0 <= r2 <= 9 -> 0 <= q2 <= 125 -> 15 <= q1 <= 98 ->
  ((q1 * 10 + r1) - 150) * 1260 + (q2 * 10 + r2) <= 0xFFFFF ->
  GB18030ToUTF8_body mode
    [to_char (0x81 + q1); to_char (0x30 + r1);
     to_char (0x81 + q2); to_char (0x30 + r2)]
  = step (UnicodeToUTF8 (((q1 * 10 + r1) - 150) * 1260 + (q2 * 10 + r2)
                         + 0x10000)) [] false.
Proof.
  intros R1 R2 Q2 Q1 Hg.
  unfold GB18030ToUTF8_body, GB18030_four. cbv zeta.
  rewrite land_80. rewrite !uchar_to_char by lia.
  replace (0x81 + q1 - 0x81) with q1 by lia.
  replace (0x81 + q2 - 0x81) with q2 by lia.
  replace (0x30 + r1 - 0x30) with r1 by lia.
  replace (0x30 + r2 - 0x30) with r2 by lia.
  unfold u16, within.
  rewrite (Z.mod_small (q1 * 10 + r1)) by lia.
  rewrite (Z.mod_small (q2 * 10 + r2)) by lia.
  rewrite (Z.mod_small (q1 * 10 + r1 - 150)) by lia.
  assert (Hle : ((q1 * 10 + r1 - 150) * 1260 + (q2 * 10 + r2) <=? 0xFFFFF)
                = true) by (apply Z.leb_le; lia).
  assert (Hne : ((q1 * 10 + r1 - 150) * 1260 + (q2 * 10 + r2) + 0x10000
                 =? 0xFFFD) = false) by (apply Z.eqb_neq; lia).
  repeat match goal with
  | |- context [if ?b then _ else _] =>
    let E := fresh "E" in
    destruct b eqn:E;
    try (exfalso; bool_props; lia);
    try (rewrite Hle in E; cbv iota in E; rewrite Hne in E;
         discriminate E);
    try discriminate
  end.
  reflexivity.
Qed.

Lemma supplementary_digits (code : Z) :
  0x10000 <= code <= 0x10FFFF ->
  let t := code - 0x10000 + 150 * 1260 in
  0 <= (t / 1260) mod 10 <= 9 /\ 0 <= (t mod 1260) mod 10 <= 9
  /\ 0 <= t mod 1260 / 10 <= 125 /\ 15 <= t / 1260 / 10 <= 98
  /\ ((t / 1260 / 10 * 10 + (t / 1260) mod 10) - 150) * 1260
     + (t mod 1260 / 10 * 10 + (t mod 1260) mod 10) = code - 0x10000.
Proof. intros Hc t. subst t. divmod. Qed.

(** X10. For a code point from 0x10000 to 0x10FFFF [UTF8ToGB18030] writes
    the four bytes computed from its value, no table is consulted, and
    [GB18030ToUTF8] reads these four bytes back as the UTF-8 of the code
    point; neither reports an error. *)
Theorem GB18030_supplementary_round_trip (code : Z) (mode : Mode) :
  0x10000 <= code <= 0x10FFFF ->
  UTF8ToGB18030 (UnicodeToUTF8 code) = (GB18030_supplementary code, 4%nat)
  /\ GB18030ToUTF8 (GB18030_supplementary code) mode
     = (UnicodeToUTF8 code, 4%nat).
Proof.
  intros Hc. split.
  - assert (Hb : UTF8ToGB18030_body (UnicodeToUTF8 code)
                 = step (GB18030_supplementary code) [] false).
    { unfold UTF8ToGB18030_body.
      rewrite <- (app_nil_r (UnicodeToUTF8 code)) at 1.
      rewrite UTF8ToUnicode_UnicodeToUTF8 by lia. cbv zeta.
      assert (E1 : (code <? 0x80) = false) by (apply Z.ltb_ge; lia).
      assert (E2 : (code <=? 0xFFFD) = false) by (apply Z.leb_gt; lia).
      assert (E3 : (0x10000 <=? code) = true) by (apply Z.leb_le; lia).
      rewrite E1, E2, E3. reflexivity. }
    unfold UTF8ToGB18030. rewrite (UnicodeToUTF8_4 code Hc) in Hb |- *.
    rewrite (convert_single _ _ _ _ Hb). reflexivity.
  - destruct (supplementary_digits code Hc) as (R1 & R2 & Q2 & Q1 & Hg).
    cbv zeta in R1, R2, Q2, Q1, Hg.
    unfold GB18030_supplementary. cbv zeta.
    pose proof (GB18030ToUTF8_body_linear mode _ _ _ _ R1 R2 Q2 Q1) as Hb.
    rewrite Hg in Hb.
    replace (code - 0x10000 + 0x10000) with code in Hb by lia.
    unfold GB18030ToUTF8.
    rewrite (convert_single _ _ _ _ (Hb ltac:(lia))). reflexivity.
Qed.

End Supplementary.

Lemma GB18030_supplementary_round_trip_witness :
  @UTF8ToGB18030 sample_header [xf0; x9f; x98; x80]
    = ([x94; x39; xfc; x36], 4%nat)
  /\ @GB18030ToUTF8 sample_header [x94; x39; xfc; x36] UTF8_REPLACE
     = ([xf0; x9f; x98; x80], 4%nat).
Proof.
  apply (@GB18030_supplementary_round_trip sample_header 0x1F600
           UTF8_REPLACE).
  lia.
Defined.

(** * [ToSafeUTF8] *)

Lemma land_7 (x : Z) : Z.land x 7 = x mod 8.
Proof. change 7 with (Z.ones 3). rewrite Z.land_ones by lia. reflexivity. Qed.

Lemma OctalCharCode_digits (c : Z) :
  OctalCharCode c
  = [x5c; to_char (0x30 + c / 64); to_char (0x30 + (c / 8) mod 8);
     to_char (0x30 + c mod 8)].
Proof.
  unfold OctalCharCode. rewrite !land_7, !shiftr_div by lia. reflexivity.
Qed.

(** X11. [OctalCharCode] writes a backslash and three octal digits, the
    first at most 3, whose value is the byte. *)
Theorem OctalCharCode_value (c : byte) :
  exists d2 d1 d0 : Z,
    0 <= d2 <= 3 /\ 0 <= d1 <= 7 /\ 0 <= d0 <= 7
    /\ OctalCharCode (uchar c)
       = [x5c; to_char (0x30 + d2); to_char (0x30 + d1); to_char (0x30 + d0)]
    /\ uchar c = 64 * d2 + 8 * d1 + d0.
Proof.
  pose proof (uchar_range c) as R.
  exists (uchar c / 64), ((uchar c / 8) mod 8), (uchar c mod 8).
  rewrite OctalCharCode_digits.
  repeat split; try reflexivity; divmod.
Qed.

Lemma OctalCharCode_no_control (c : Z) :
  0 <= c < 256 -> Forall no_control (OctalCharCode c).
Proof.
  intros R. rewrite OctalCharCode_digits.
  assert (H2 : 0 <= c / 64 <= 3) by divmod.
  assert (H1 : 0 <= (c / 8) mod 8 <= 7) by divmod.
  assert (H0 : 0 <= c mod 8 <= 7) by divmod.
  repeat constructor; unfold no_control;
    try (rewrite uchar_to_char by lia; lia); cbn; lia.
Qed.

(** The masks of the scan as ranges. *)
Lemma mask_C0 : forall c,
  Bool.eqb (Z.land (uchar c) 0xC0 =? 0xC0) (0xC0 <=? uchar c) = true.
Proof. by_byte. Qed.

Lemma mask_E0 : forall c,
  Bool.eqb (Z.land (uchar c) 0xE0 =? 0xE0) (0xE0 <=? uchar c) = true.
Proof. by_byte. Qed.

Lemma mask_F0 : forall c,
  Bool.eqb (Z.land (uchar c) 0xF0 =? 0xF0) (0xF0 <=? uchar c) = true.
Proof. by_byte. Qed.

Lemma land_C0 (c : byte) :
  (Z.land (uchar c) 0xC0 =? 0xC0) = (0xC0 <=? uchar c).
Proof. apply eqb_prop, mask_C0. Qed.

Lemma land_E0 (c : byte) :
  (Z.land (uchar c) 0xE0 =? 0xE0) = (0xE0 <=? uchar c).
Proof. apply eqb_prop, mask_E0. Qed.

Lemma land_F0 (c : byte) :
  (Z.land (uchar c) 0xF0 =? 0xF0) = (0xF0 <=? uchar c).
Proof. apply eqb_prop, mask_F0. Qed.

Lemma land_F0_B0 (c : byte) :
  (Z.land (uchar c) 0xF0 =? 0xB0) = within 0xB0 0xBF (uchar c).
Proof. apply eqb_prop, mask_low. Qed.

(** The value [d] that the scan computes from the last two bytes of a low
    surrogate. *)
Lemma low_surrogate_value : forall b c,
  implb (within 0xB0 0xBF (uchar b))
        (u16 (Z.lor (Z.shiftl (Z.land (uchar b) 0x0F) 6)
                    (Z.land (uchar c) 0x3F))
         =? (uchar b - 0xB0) * 64 + uchar c mod 64) = true.
Proof. by_byte2. Qed.

Lemma ToSafeUTF8_step_suffix (c : byte) (cp : list byte) :
  exists k : nat, (1 <= k <= length (c :: cp))%nat
    /\ snd (ToSafeUTF8_step (c :: cp)) = skipn k (c :: cp).
Proof.
  unfold ToSafeUTF8_step. cbv zeta.
  repeat (match goal with
          | |- context [match ?l with [] => _ | _ :: _ => _ end] =>
            is_var l; destruct l
          | |- context [if ?b then _ else _] => destruct b
          end; cbv beta iota zeta);
  cbn [snd length];
  first [ exists 1%nat; split; [lia | reflexivity]
        | exists 2%nat; split; [lia | reflexivity]
        | exists 3%nat; split; [lia | reflexivity]
        | exists 4%nat; split; [lia | reflexivity] ].
Qed.

Lemma consumed_skipn (cp : list byte) (k : nat) :
  (k <= length cp)%nat -> consumed cp (skipn k cp) ++ skipn k cp = cp.
Proof.
  intros Hk. unfold consumed. rewrite length_skipn.
  replace (length cp - (length cp - k))%nat with k by lia.
  apply firstn_skipn.
Qed.

(** The loop writes, character by character, what [safe_text] collects;
    when nothing was replaced the pending bytes are the whole string. *)
Lemma ToSafeUTF8_loop_text (fuel : nat) :
  forall (cp t pend : list byte) (changed : bool),
    (length cp <= fuel)%nat ->
    let '(t', pend', changed') := ToSafeUTF8_loop fuel cp t pend changed in
    t' ++ pend' = t ++ pend ++ safe_text fuel cp
    /\ (changed' = false ->
        changed = false /\ t' = t /\ pend' = pend ++ cp).
Proof.
  induction fuel as [|fuel IH]; intros cp t pend changed Hf.
  - destruct cp; [|cbn [length] in Hf; lia].
    cbn. rewrite !app_nil_r. auto.
  - destruct cp as [|c cp].
    { cbn. rewrite !app_nil_r. auto. }
    cbn [ToSafeUTF8_loop safe_text].
    destruct (ToSafeUTF8_step_suffix c cp) as (k & Hk & Hs).
    destruct (ToSafeUTF8_step (c :: cp)) as [code rest]. cbn [snd] in Hs.
    assert (Hl : (length rest <= fuel)%nat).
    { subst rest. rewrite length_skipn. cbn [length] in *. lia. }
    destruct code as [octal|].
    + specialize (IH rest (t ++ pend ++ octal) [] true Hl).
      destruct (ToSafeUTF8_loop fuel rest _ _ _) as [[t' pend'] ch'].
      destruct IH as [IH1 IH2]. split.
      * rewrite IH1. cbn [app]. rewrite <- !app_assoc. reflexivity.
      * intros Hc. destruct (IH2 Hc) as [Hx _]. discriminate Hx.
    + specialize (IH rest t (pend ++ consumed (c :: cp) rest) changed Hl).
      destruct (ToSafeUTF8_loop fuel rest _ _ _) as [[t' pend'] ch'].
      destruct IH as [IH1 IH2]. split.
      * rewrite IH1. rewrite <- !app_assoc. reflexivity.
      * intros Hc. destruct (IH2 Hc) as (Hx & Ht & Hp).
        repeat split; try assumption.
        rewrite Hp, <- app_assoc. f_equal. subst rest.
        apply consumed_skipn. lia.
Qed.

Lemma ToSafeUTF8_scan_text (s : list byte) :
  ToSafeUTF8_scan s = safe_text (length s) s.
Proof.
  unfold ToSafeUTF8_scan.
  pose proof (ToSafeUTF8_loop_text (length s) s [] [] false (le_n _)) as H.
  destruct (ToSafeUTF8_loop (length s) s [] [] false) as [[t pend] ch].
  destruct H as [H1 H2]. cbn [app] in H1.
  destruct ch; [exact H1|].
  destruct (H2 eq_refl) as (_ & Ht & Hp). cbn [app] in Hp.
  rewrite <- H1, Ht, Hp. reflexivity.
Qed.

Lemma consumed_app (p l : list byte) : consumed (p ++ l) l = p.
Proof.
  unfold consumed. rewrite length_app.
  replace (length p + length l - length l)%nat with (length p) by lia.
  rewrite firstn_app, firstn_all, Nat.sub_diag. cbn [firstn].
  apply app_nil_r.
Qed.

(** The bytes between the cursor before and after an iteration. *)
Ltac consumed_bytes :=
  match goal with
  | |- context [consumed (?a :: ?b :: ?c :: ?d :: ?l) ?l] =>
    change (a :: b :: c :: d :: l) with ([a; b; c; d] ++ l);
    rewrite consumed_app
  | |- context [consumed (?a :: ?b :: ?c :: ?l) ?l] =>
    change (a :: b :: c :: l) with ([a; b; c] ++ l); rewrite consumed_app
  | |- context [consumed (?a :: ?b :: ?l) ?l] =>
    change (a :: b :: l) with ([a; b] ++ l); rewrite consumed_app
  | |- context [consumed (?a :: ?l) ?l] =>
    change (a :: l) with ([a] ++ l); rewrite consumed_app
  end.

Lemma u8_range (z : Z) : 0 <= u8 z < 256.
Proof. unfold u8. apply Z.mod_pos_bound. lia. Qed.

Lemma ToSafeUTF8_step_wf (c : byte) (cp : list byte) :
  utf8_ok true (c :: cp) = true ->
  utf8_ok true (snd (ToSafeUTF8_step (c :: cp))) = true
  /\ Forall no_control
       (match fst (ToSafeUTF8_step (c :: cp)) with
        | Some octal => octal
        | None => consumed (c :: cp) (snd (ToSafeUTF8_step (c :: cp)))
        end).
Proof.
  intros H. cbn [utf8_ok] in H. cbv zeta in H.
  unfold ToSafeUTF8_step. cbv zeta.
  rewrite land_C0, land_E0, land_F0.
  repeat (match goal with
          | |- context [match ?l with [] => _ | _ :: _ => _ end] =>
            is_var l; destruct l
          | |- context [if ?b then _ else _] =>
            let E := fresh "E" in destruct b eqn:E
          end; cbv beta iota zeta);
  cbn [fst snd];
  hyp_ifs; try discriminate H; bool_props; byte_ranges;
  try (exfalso; lia);
  (split;
   [ first [assumption | reflexivity]
   | first [ apply OctalCharCode_no_control;
             first [apply uchar_range | apply u8_range]
           | consumed_bytes; repeat constructor; unfold no_control; lia ] ]).
Qed.

Lemma safe_text_no_control (fuel : nat) :
  forall s : list byte,
    utf8_ok true s = true -> Forall no_control (safe_text fuel s).
Proof.
  induction fuel as [|fuel IH]; intros s Hs; [constructor|].
  destruct s as [|c cp]; [constructor|].
  cbn [safe_text].
  destruct (ToSafeUTF8_step_wf c cp Hs) as [Hr Ho].
  destruct (ToSafeUTF8_step (c :: cp)) as [code rest].
  cbn [fst snd] in Hr, Ho.
  apply Forall_app. split; [exact Ho | apply IH, Hr].
Qed.

(** X12. Whatever the character set and the text, [ToSafeUTF8] returns no
    byte below 0x20 and no byte 0x7F: no C0 control code and no DEL. *)
Theorem ToSafeUTF8_no_control_codes {hdr : Header} (key : Z)
    (text : list byte) :
  Forall no_control (ToSafeUTF8 key text).
Proof.
  unfold ToSafeUTF8. rewrite ToSafeUTF8_scan_text.
  apply safe_text_no_control. apply AnyToUTF8_wf.
Qed.

(** ** The text of an ASCII converter *)

Lemma convert_loop_map (body : list byte -> Step) (f : byte -> list byte) :
  (forall c cp, st_out (body (c :: cp)) = f c
                /\ st_rest (body (c :: cp)) = cp
                /\ st_break (body (c :: cp)) = false) ->
  forall (text : list byte) (fuel off : nat) (e : option nat),
    (length text <= fuel)%nat ->
    fst (convert_loop body fuel text off e) = flat_map f text.
Proof.
  intros Hb text. induction text as [|c text IH]; intros fuel off e Hf.
  - rewrite convert_loop_nil. reflexivity.
  - destruct fuel as [|fuel]; [cbn [length] in Hf; lia|].
    rewrite convert_loop_step.
    destruct (Hb c text) as (Ho & Hr & Hk). rewrite Ho, Hr, Hk.
    cbn [fst flat_map]. f_equal. apply IH. cbn [length] in Hf. lia.
Qed.

Lemma flat_map_escaped_ascii (text : list byte) :
  Forall (fun c => uchar c <= 0x7F) text ->
  flat_map escaped_byte text = text.
Proof.
  induction 1 as [|c text Hc Ht IH]; [reflexivity|].
  cbn [flat_map]. rewrite IH. unfold escaped_byte.
  apply Z.leb_le in Hc. rewrite Hc. reflexivity.
Qed.

Lemma ASCIIToUTF8_escaped (text : list byte) :
  fst (ASCIIToUTF8 text UTF8_ESCAPE) = flat_map escaped_byte text.
Proof.
  unfold ASCIIToUTF8.
  destruct (fold_left _ text 0 =? 0) eqn:E.
  - apply Z.eqb_eq in E.
    destruct (high_bits_sum text 0 (Z.le_refl 0) E) as [_ Ha].
    cbn [fst]. symmetry. apply flat_map_escaped_ascii, Ha.
  - unfold convert. apply convert_loop_map; [|lia].
    intros c cp. unfold ASCIIToUTF8_body, escaped_byte.
    destruct (uchar c <=? 0x7F); cbn [st_out st_rest st_break step];
      repeat split.
    cbn [BadCharsToUTF8 flat_map]. apply app_nil_r.
Qed.

Lemma ToSafeUTF8_step_escaped (c : byte) (s : list byte) :
  snd (ToSafeUTF8_step (escaped_byte c ++ s)) = s
  /\ match fst (ToSafeUTF8_step (escaped_byte c ++ s)) with
     | Some octal => octal = safe_byte c
     | None => escaped_byte c = safe_byte c
     end.
Proof. destruct c; vm_compute; split; reflexivity. Qed.

Lemma escaped_byte_nonempty (c : byte) (s : list byte) :
  exists x xs, escaped_byte c ++ s = x :: xs
    /\ (length s <= length xs)%nat.
Proof.
  unfold escaped_byte. destruct (uchar c <=? 0x7F).
  - exists c, s. split; [reflexivity | lia].
  - pose proof (UnicodeToUTF8_length (0xDC00 + uchar c)) as Hl.
    destruct (UnicodeToUTF8 (0xDC00 + uchar c)) as [|x xs];
      [cbn [length] in Hl; lia|].
    exists x, (xs ++ s). split; [reflexivity|].
    rewrite length_app. lia.
Qed.

Lemma safe_text_escaped (text : list byte) :
  forall fuel : nat,
    (length (flat_map escaped_byte text) <= fuel)%nat ->
    safe_text fuel (flat_map escaped_byte text) = flat_map safe_byte text.
Proof.
  induction text as [|c text IH]; intros fuel Hf.
  - destruct fuel; reflexivity.
  - cbn [flat_map] in *.
    destruct (ToSafeUTF8_step_escaped c (flat_map escaped_byte text))
      as [Hr Ho].
    pose proof (consumed_app (escaped_byte c) (flat_map escaped_byte text))
      as Hc.
    destruct (escaped_byte_nonempty c (flat_map escaped_byte text))
      as (x & xs & Ex & Hl).
    rewrite Ex in *.
    destruct fuel as [|fuel]; [cbn [length] in Hf; lia|].
    cbn [safe_text].
    destruct (ToSafeUTF8_step (x :: xs)) as [code rest].
    cbn [fst snd] in Hr, Ho. subst rest.
    rewrite IH by (cbn [length] in Hf; lia).
    f_equal. destruct code as [octal|]; [exact Ho|].
    rewrite Hc. exact Ho.
Qed.

(** X13. For the ASCII character set [ToSafeUTF8] keeps each printable
    byte 0x20..0x7E other than the backslash and writes every other byte,
    the control codes, the backslash, DEL and the bytes from 0x80 on, as
    the octal code of that byte. *)
Theorem ToSafeUTF8_ASCII_octal {hdr : Header} (text : list byte) :
  ToSafeUTF8 ISO_IR_6 text = flat_map safe_byte text.
Proof.
  unfold ToSafeUTF8. rewrite ToSafeUTF8_scan_text.
  cbn [nesting AnyToUTF8]. rewrite Z.eqb_refl.
  rewrite ASCIIToUTF8_escaped. apply safe_text_escaped. lia.
Qed.

(** * [UTF8ToUTF8] on text that is well-formed up to some point *)

Lemma UTF8ToUTF8_body_prefix (mode : Mode) (c : byte) (cp tail : list byte) :
  wf_utf8 (c :: cp) = true ->
  exists u r : list byte,
    c :: cp = u ++ r /\ (1 <= length u)%nat /\ wf_utf8 r = true
    /\ st_out (UTF8ToUTF8_body mode ((c :: cp) ++ tail)) = u
    /\ st_rest (UTF8ToUTF8_body mode ((c :: cp) ++ tail)) = r ++ tail
    /\ st_break (UTF8ToUTF8_body mode ((c :: cp) ++ tail)) = false.
Proof.
  intros Hwf.
  pose proof (UnicodeToUTF8_utf8_read c cp Hwf) as [Heq Hrest].
  pose proof (wf_utf8_shape c cp Hwf) as Hshape.
  pose proof (fun s Hs => utf8_read_whole c cp s Hs Hshape) as Hwhole.
  pose proof (utf8_read_result c cp) as (_ & Hrange & Hhigh).
  destruct (utf8_read (c :: cp)) as [code cp'].
  cbn [fst snd] in *.
  exists (UnicodeToUTF8 code), cp'.
  pose proof (UnicodeToUTF8_length code) as Hlen.
  assert (Hdec : UTF8ToUnicode ((c :: cp) ++ tail) = (code, cp' ++ tail)).
  { rewrite <- Heq, <- app_assoc.
    apply UTF8ToUnicode_UnicodeToUTF8; assumption. }
  unfold UTF8ToUTF8_body. rewrite Hdec. cbv zeta.
  assert (Hgood :
    within 0xFFFE 0xFFFF code
    && negb ((length ((c :: cp) ++ tail) - length (cp' ++ tail) =? 3)%nat
             && (uchar (nth 0 ((c :: cp) ++ tail) x00) =? 0xef)
             && (uchar (nth 1 ((c :: cp) ++ tail) x00) =? 0xbf)
             && (uchar (nth 2 ((c :: cp) ++ tail) x00) =? Z.lxor code 0xFF40))
    = false).
  { destruct (within 0xFFFE 0xFFFF code) eqn:E; [|reflexivity].
    cbn [andb]. apply negb_false_iff.
    assert (Hs : 0xFFFE <= code <= 0xFFFF) by (bool_props; lia).
    destruct (Hwhole code Hs) as [Hstart _].
    specialize (Hstart eq_refl).
    assert (Hl : length ((c :: cp) ++ tail)
                 = (3 + length (cp' ++ tail))%nat).
    { rewrite <- Heq, !length_app.
      rewrite UnicodeToUTF8_3 by lia. cbn [length]. lia. }
    rewrite Hl.
    replace (3 + length (cp' ++ tail) - length (cp' ++ tail))%nat
      with 3%nat by lia.
    destruct cp as [|c1 [|c2 rest]];
      try (cbn [starts_with] in Hstart;
           rewrite ?andb_false_r in Hstart; discriminate).
    apply starts_with_3 in Hstart. destruct Hstart as (H0 & H1 & H2).
    cbn [nth app]. rewrite H0, H1, H2.
    rewrite uchar_to_char by lia.
    assert (Hx : Z.lxor code 0xFF40 = code - 0xFF40).
    { assert (Hc : code = 0xFFFE \/ code = 0xFFFF) by lia.
      destruct Hc as [-> | ->]; reflexivity. }
    rewrite Hx, !Z.eqb_refl. reflexivity. }
  rewrite Hgood. cbn [st_out st_rest st_break step].
  repeat split; try assumption; try reflexivity; try lia.
  symmetry. exact Heq.
Qed.

Lemma UTF8ToUTF8_loop_prefix (mode : Mode) (fuel : nat) :
  forall (p tail : list byte) (off : nat) (e : option nat),
    wf_utf8 p = true -> (length (p ++ tail) <= fuel)%nat ->
    (forall k, e = Some k -> (k <= off)%nat) ->
    exists e' : option nat,
      (forall k, e' = Some k -> (k <= off + length p)%nat)
      /\ convert_loop (UTF8ToUTF8_body mode) fuel (p ++ tail) off e
         = (p ++ fst (convert_loop (UTF8ToUTF8_body mode) fuel tail
                        (off + length p) e'),
            snd (convert_loop (UTF8ToUTF8_body mode) fuel tail
                   (off + length p) e')).
Proof.
  induction fuel as [|fuel IH]; intros p tail off e Hwf Hf He.
  - destruct p; [|cbn [length app] in Hf; lia].
    exists e. split; [intros k Hk; specialize (He k Hk); lia|].
    cbn [app length]. rewrite Nat.add_0_r.
    destruct (convert_loop _ 0 tail off e); reflexivity.
  - destruct p as [|c cp].
    { exists e. split; [intros k Hk; specialize (He k Hk); lia|].
      cbn [app length]. rewrite Nat.add_0_r.
      destruct (convert_loop _ (S fuel) tail off e); reflexivity. }
    destruct (UTF8ToUTF8_body_prefix mode c cp tail Hwf)
      as (u & r & Hur & Hu & Hr & Ho & Hs & Hk).
    change ((c :: cp) ++ tail) with (c :: cp ++ tail) in *.
    rewrite convert_loop_step, Ho, Hs, Hk.
    set (e1 := if st_err (UTF8ToUTF8_body mode (c :: cp ++ tail))
               then first_error e off else e).
    assert (Hlen : length (c :: cp ++ tail)
                   = (length u + length (r ++ tail))%nat).
    { change (c :: cp ++ tail) with ((c :: cp) ++ tail).
      rewrite Hur, !length_app. lia. }
    rewrite Hlen.
    replace (length u + length (r ++ tail) - length (r ++ tail))%nat
      with (length u) by lia.
    assert (He1 : forall k, e1 = Some k -> (k <= off + length u)%nat).
    { intros k. subst e1. destruct (st_err _).
      - destruct e as [e0|]; cbn [first_error]; intros H;
          injection H as <-; [specialize (He e0 eq_refl)|]; lia.
      - intros H. specialize (He k H). lia. }
    assert (Hf' : (length (r ++ tail) <= fuel)%nat)
      by (cbn [length] in Hf, Hlen; lia).
    destruct (IH r tail (off + length u)%nat e1 Hr Hf' He1)
      as (e' & He' & Heq).
    exists e'.
    assert (Hoff : (off + length u + length r
                    = off + length (c :: cp))%nat).
    { rewrite Hur, length_app. lia. }
    rewrite Hoff in *. split; [exact He'|].
    rewrite Heq. cbn [fst snd].
    assert (Hfuel : convert_loop (UTF8ToUTF8_body mode) fuel tail
                      (off + length (c :: cp)) e'
                    = convert_loop (UTF8ToUTF8_body mode) (S fuel) tail
                        (off + length (c :: cp)) e').
    { apply (convert_loop_fuel _ (UTF8ToUTF8_progresses mode));
        rewrite length_app in Hf'; lia. }
    rewrite Hfuel, Hur, <- app_assoc. reflexivity.
Qed.

(** X14. [UTF8ToUTF8] copies a well-formed beginning of the text and goes
    on behind it as it would on the rest alone: the output is the beginning
    followed by the output for the rest. *)
Theorem UTF8ToUTF8_well_formed_prefix (p tail : list byte) (mode : Mode) :
  wf_utf8 p = true ->
  fst (UTF8ToUTF8 (p ++ tail) mode) = p ++ fst (UTF8ToUTF8 tail mode).
Proof.
  intros Hwf. unfold UTF8ToUTF8, convert.
  destruct (UTF8ToUTF8_loop_prefix mode (length (p ++ tail)) p tail 0 None
              Hwf (le_n _))
    as (e' & _ & Heq); [intros k Hk; discriminate Hk|].
  rewrite Heq. cbn [fst]. f_equal.
  rewrite (convert_loop_out _ _ _ _ 0%nat _ None). f_equal.
  apply (convert_loop_fuel _ (UTF8ToUTF8_progresses mode));
    rewrite ?length_app; lia.
Qed.

Lemma UTF8ToUTF8_well_formed_prefix_witness :
  fst (UTF8ToUTF8 ([xe2; x82; xac] ++ [x80; x41]) UTF8_REPLACE)
  = [xe2; x82; xac] ++ fst (UTF8ToUTF8 [x80; x41] UTF8_REPLACE).
Proof.
  apply (UTF8ToUTF8_well_formed_prefix [xe2; x82; xac] [x80; x41]
           UTF8_REPLACE).
  reflexivity.
Defined.

Lemma convert_loop_error_here (body : list byte -> Step) (fuel : nat)
    (c : byte) (cp : list byte) (off : nat) (e : option nat) :
  st_err (body (c :: cp)) = true ->
  (forall k, e = Some k -> (k <= off)%nat) ->
  (snd (convert_loop body (S fuel) (c :: cp) off e) <= off)%nat.
Proof.
  intros Herr He. rewrite convert_loop_step, Herr.
  assert (Hf : exists k, first_error e off = Some k /\ (k <= off)%nat).
  { destruct e as [e0|]; cbn [first_error];
      [exists e0; split; [reflexivity | apply He; reflexivity]
      | exists off; split; [reflexivity | lia]]. }
  destruct Hf as (k & -> & Hk).
  destruct (st_break (body (c :: cp))); cbn [snd loop_result]; [exact Hk|].
  rewrite convert_loop_flagged. exact Hk.
Qed.

(** A sequence that the end of the input cuts off leaves nothing, or again
    a sequence that the end of the input cuts off. *)
Lemma truncated_rest (c : byte) (cp : list byte) :
  utf8_shape (c :: cp) = Truncated ->
  snd (utf8_read (c :: cp)) = []
  \/ utf8_shape (snd (utf8_read (c :: cp))) = Truncated.
Proof.
  unfold utf8_shape, utf8_read, low_surrogate_shape. cbv zeta.
  repeat (match goal with
          | |- context [match ?l with [] => _ | _ :: _ => _ end] =>
            is_var l; destruct l
          | |- context [if ?b then _ else _] =>
            let E := fresh "E" in destruct b eqn:E
          end; cbv beta iota zeta);
  intros H; try discriminate H; cbn [snd]; try (left; reflexivity);
  right; bool_props; byte_ranges;
  repeat match goal with
  | |- context [if ?b then _ else _] =>
    let E := fresh "E" in
    destruct b eqn:E; try reflexivity;
    try (exfalso; hyp_ifs; bool_props; lia)
  end.
Qed.

Lemma truncated_body (mode : Mode) (c : byte) (cp : list byte) :
  utf8_shape (c :: cp) = Truncated ->
  UTF8ToUTF8_body mode (c :: cp)
  = step [] (snd (utf8_read (c :: cp))) true.
Proof.
  intros Hs. unfold UTF8ToUTF8_body. rewrite UTF8ToUnicode_read.
  destruct (utf8_read_bad c cp) as [_ Hcode]. specialize (Hcode Hs).
  destruct (utf8_read (c :: cp)) as [code r]. cbn [fst snd] in *.
  subst code. cbv zeta.
  assert (Hbad :
    (length (c :: cp) - length r =? 3)%nat
    && (uchar (nth 0 (c :: cp) x00) =? 0xef)
    && (uchar (nth 1 (c :: cp) x00) =? 0xbf)
    && (uchar (nth 2 (c :: cp) x00) =? Z.lxor 0xFFFE 0xFF40) = false).
  { destruct (_ && _ && _ && _) eqn:E; [exfalso | reflexivity].
    bool_props.
    assert (Hw : utf8_shape (c :: cp) = Whole).
    { apply (starts_with_EF_BF_shape xbe); [reflexivity|].
      destruct cp as [|c1 [|c2 rest]]; cbn [nth] in *;
        try (cbn in *; lia).
      apply starts_with_3. cbn in *. repeat split; lia. }
    rewrite Hw in Hs. discriminate Hs. }
  rewrite Hbad. reflexivity.
Qed.

Lemma truncated_dropped (mode : Mode) (fuel : nat) :
  forall (tail : list byte) (off : nat) (e : option nat),
    utf8_shape tail = Truncated ->
    fst (convert_loop (UTF8ToUTF8_body mode) fuel tail off e) = [].
Proof.
  induction fuel as [|fuel IH]; intros tail off e Hs; [reflexivity|].
  destruct tail as [|c cp]; [reflexivity|].
  rewrite convert_loop_step, (truncated_body mode c cp Hs).
  cbn [st_break st_out st_rest st_err step fst app].
  destruct (truncated_rest c cp Hs) as [-> | Hr].
  - rewrite convert_loop_nil. reflexivity.
  - apply IH, Hr.
Qed.

(** X15. When the text is well-formed UTF-8 followed by the beginning of a
    character that the end of the text cuts off, [UTF8ToUTF8] returns the
    well-formed part, without the partial character, in every mode, and
    the offset it returns is not beyond the end of that part. *)
Theorem UTF8ToUTF8_truncated_tail (p tail : list byte) (mode : Mode) :
  wf_utf8 p = true -> utf8_shape tail = Truncated ->
  fst (UTF8ToUTF8 (p ++ tail) mode) = p
  /\ (snd (UTF8ToUTF8 (p ++ tail) mode) <= length p)%nat.
Proof.
  intros Hwf Hs. unfold UTF8ToUTF8, convert.
  destruct (UTF8ToUTF8_loop_prefix mode (length (p ++ tail)) p tail 0 None
              Hwf (le_n _))
    as (e' & He' & Heq); [intros k Hk; discriminate Hk|].
  rewrite Heq. cbn [fst snd Nat.add] in *. split.
  - rewrite truncated_dropped by exact Hs. apply app_nil_r.
  - destruct tail as [|c cp]; [discriminate Hs|].
    rewrite length_app. cbn [length]. rewrite Nat.add_succ_r.
    apply convert_loop_error_here; [|exact He'].
    rewrite (truncated_body mode c cp Hs). reflexivity.
Qed.

Lemma UTF8ToUTF8_truncated_tail_witness :
  fst (UTF8ToUTF8 ([x41; xc3; xa9] ++ [xe2; x82]) UTF8_REPLACE)
    = [x41; xc3; xa9]
  /\ (snd (UTF8ToUTF8 ([x41; xc3; xa9] ++ [xe2; x82]) UTF8_REPLACE)
      <= 3)%nat.
Proof.
  apply (UTF8ToUTF8_truncated_tail [x41; xc3; xa9] [xe2; x82] UTF8_REPLACE);
    reflexivity.
Defined.

Lemma invalid_lead_body (mode : Mode) (c : byte) (q : list byte) :
  0x80 <= uchar c <= 0xC1 \/ 0xF8 <= uchar c ->
  UTF8ToUTF8_body mode (c :: q) = step (BadCharsToUTF8 [c] mode) q true.
Proof.
  intros Hc. unfold UTF8ToUTF8_body. rewrite UTF8ToUnicode_read.
  assert (Hr : utf8_read (c :: q) = (0xFFFF, q)).
  { unfold utf8_read. cbv zeta.
    repeat match goal with
    | |- context [if ?b then _ else _] =>
      let E := fresh "E" in
      destruct b eqn:E; try (exfalso; bool_props; lia)
    end.
    reflexivity. }
  rewrite Hr. cbv zeta.
  replace (length (c :: q) - length q)%nat with 1%nat
    by (cbn [length]; lia).
  cbn [Nat.eqb andb negb within]. 
  change (c :: q) with ([c] ++ q). rewrite consumed_app. reflexivity.
Qed.

(** X16. A byte 80..C1 or F8..FF where a character should begin, between
    two stretches of well-formed UTF-8, becomes what [BadCharsToUTF8] makes
    of that one byte (U+FFFD in the mode [UTF8_REPLACE]); the text before
    and behind it is copied, and the offset returned is not beyond the bad
    byte. *)
Theorem UTF8ToUTF8_invalid_byte (p q : list byte) (c : byte) (mode : Mode) :
  wf_utf8 p = true -> wf_utf8 q = true ->
  0x80 <= uchar c <= 0xC1 \/ 0xF8 <= uchar c ->
  fst (UTF8ToUTF8 (p ++ c :: q) mode) = p ++ BadCharsToUTF8 [c] mode ++ q
  /\ (snd (UTF8ToUTF8 (p ++ c :: q) mode) <= length p)%nat.
Proof.
  intros Hp Hq Hc. unfold UTF8ToUTF8, convert.
  destruct (UTF8ToUTF8_loop_prefix mode (length (p ++ c :: q)) p (c :: q)
              0 None Hp (le_n _))
    as (e' & He' & Heq); [intros k Hk; discriminate Hk|].
  rewrite Heq. cbn [fst snd Nat.add] in *.
  rewrite length_app. cbn [length]. rewrite Nat.add_succ_r. split.
  - f_equal. rewrite convert_loop_step, (invalid_lead_body mode c q Hc).
    cbn [st_break st_out st_rest st_err step fst]. f_equal.
    apply UTF8ToUTF8_loop_copies; [lia | exact Hq].
  - apply convert_loop_error_here; [|exact He'].
    rewrite (invalid_lead_body mode c q Hc). reflexivity.
Qed.

Lemma UTF8ToUTF8_invalid_byte_witness :
  fst (UTF8ToUTF8 ([x41] ++ xff :: [xc3; xa9]) UTF8_REPLACE)
    = [x41] ++ BadCharsToUTF8 [xff] UTF8_REPLACE ++ [xc3; xa9]
  /\ (snd (UTF8ToUTF8 ([x41] ++ xff :: [xc3; xa9]) UTF8_REPLACE) <= 1)%nat.
Proof.
  apply (UTF8ToUTF8_invalid_byte [x41] [xc3; xa9] xff UTF8_REPLACE);
    [reflexivity | reflexivity | right; cbn; lia].
Defined.

(** * Where [NextBackslash] stops *)

Lemma stops_at_end (text : list byte) (off : nat) :
  (off <= length text)%nat -> skipn off text = [] -> stops_at text off.
Proof.
  intros Ho E. split; [exact Ho|]. rewrite E.
  pose proof (length_skipn off text) as Hl. rewrite E in Hl.
  cbn [length] in Hl. lia.
Qed.

Lemma stops_at_byte (text : list byte) (off : nat) (c : byte)
    (cp : list byte) :
  (off <= length text)%nat -> skipn off text = c :: cp ->
  uchar c = 0x5C \/ uchar c = 0 -> stops_at text off.
Proof. intros Ho E Hc. split; [exact Ho|]. rewrite E. exact Hc. Qed.

Section Scan.
Variable sb : list byte -> option (list byte).
Hypothesis sb_moves : forall c cp cp',
  sb (c :: cp) = Some cp' ->
  exists k : nat, (1 <= k <= length (c :: cp))%nat /\ cp' = skipn k (c :: cp).
Hypothesis sb_breaks : forall c cp, sb (c :: cp) = None -> uchar c = 0x5C.

Lemma scan_loop_stops (text : list byte) (fuel : nat) :
  forall off : nat,
    (off <= length text)%nat -> (length (skipn off text) <= fuel)%nat ->
    stops_at text (scan_loop sb fuel (skipn off text) off).
Proof.
  induction fuel as [|fuel IH]; intros off Ho Hf.
  - cbn [scan_loop]. apply stops_at_end; [exact Ho|].
    destruct (skipn off text); [reflexivity | cbn [length] in Hf; lia].
  - destruct (skipn off text) as [|c cp] eqn:E.
    { cbn [scan_loop]. apply stops_at_end; assumption. }
    cbn [scan_loop].
    destruct (uchar c =? 0) eqn:E0.
    { apply Z.eqb_eq in E0. eapply stops_at_byte; eauto. }
    destruct (sb (c :: cp)) as [cp'|] eqn:Es.
    + destruct (sb_moves c cp cp' Es) as (k & Hk & ->).
      pose proof (length_skipn off text) as Hl. rewrite E in Hl.
      rewrite length_skipn.
      replace (off + (length (c :: cp) - (length (c :: cp) - k)))%nat
        with (k + off)%nat by lia.
      rewrite <- E, skipn_skipn.
      apply IH; [lia|].
      rewrite length_skipn. cbn [length] in *. lia.
    + eapply stops_at_byte; eauto.
Qed.

End Scan.

(** The cursor after a move of the scan. *)
Ltac scan_moves :=
  intros c cp cp'; cbv zeta;
  repeat (match goal with
          | |- context [match ?l with [] => _ | _ :: _ => _ end] =>
            is_var l; destruct l
          | |- context [if ?b then _ else _] => destruct b
          end; cbv beta iota zeta);
  intros H; try discriminate H; injection H as <-;
  first [ exists 1%nat; split; [cbn [length]; lia | reflexivity]
        | exists 2%nat; split; [cbn [length]; lia | reflexivity] ].

Ltac scan_breaks :=
  intros c cp; cbv zeta;
  repeat (match goal with
          | |- context [match ?l with [] => _ | _ :: _ => _ end] =>
            is_var l; destruct l
          | |- context [if ?b then _ else _] =>
            let E := fresh "E" in destruct b eqn:E
          end; cbv beta iota zeta);
  intros H; try discriminate H; bool_props; assumption.

Section ScanISO2022.
Context {hdr : Header}.

Lemma skip_escape_suffix (l : nat) :
  forall cp : list byte,
    exists j : nat, (j <= length cp)%nat /\ skip_escape l cp = skipn j cp.
Proof.
  induction l as [|l IH]; intros cp.
  - exists 0%nat. split; [lia | destruct cp; reflexivity].
  - destruct cp as [|c cp].
    + exists 0%nat. split; [lia | reflexivity].
    + cbn [skip_escape]. destruct (uchar c =? 0x5C).
      * exists 0%nat. split; [lia | reflexivity].
      * destruct (IH cp) as (j & Hj & ->).
        exists (S j). split; [cbn [length]; lia | reflexivity].
Qed.

Lemma skip_endlines_suffix (cp : list byte) :
  forall (prev : byte) (s : ScanState),
    exists j : nat, (j <= length cp)%nat
      /\ fst (skip_endlines prev cp s) = skipn j cp.
Proof.
  induction cp as [|c cp IH]; intros prev s.
  - exists 0%nat. split; [lia | reflexivity].
  - cbn [skip_endlines]. destruct (IsEndLine c).
    + match goal with
      | |- context [skip_endlines c cp ?s'] =>
        destruct (IH c s') as (j & Hj & ->)
      end.
      exists (S j). split; [cbn [length]; lia | reflexivity].
    + exists 0%nat. split; [lia | reflexivity].
Qed.

Lemma NextBackslash_ISO2022_moves (c : byte) (cp cp' : list byte)
    (s s' : ScanState) :
  NextBackslash_ISO2022 (c :: cp) s = Some (cp', s') ->
  exists k : nat, (k <= length (c :: cp))%nat /\ cp' = skipn k (c :: cp)
    /\ (k = 0%nat -> shiftcount s <> 0 /\ shiftcount s' = 0).
Proof.
  unfold NextBackslash_ISO2022.
  destruct (uchar c =? 0x1B).
  { cbv zeta. destruct (EscapeCode _ _ _) as [type state].
    intros H. injection H as <- _.
    destruct (skip_escape_suffix (EscapeCodeLength cp) cp) as (j & Hj & ->).
    exists (S j). split; [cbn [length]; lia|].
    split; [reflexivity | intros Hk; discriminate Hk]. }
  destruct (IsEndLine c).
  { intros H.
    destruct (skip_endlines_suffix cp c s) as (j & Hj & Hs).
    destruct (skip_endlines c cp s) as [r s2]. cbn [fst] in Hs.
    injection H as <- _. subst r.
    exists (S j). split; [cbn [length]; lia|].
    split; [reflexivity | intros Hk; discriminate Hk]. }
  destruct (negb (shiftcount s =? 0)) eqn:E.
  { cbv zeta. destruct (_ || _); intros H; injection H as <- <-.
    - exists 1%nat. split; [cbn [length]; lia|].
      split; [reflexivity | intros Hk; discriminate Hk].
    - exists 0%nat. split; [lia|]. split; [reflexivity|].
      intros _. bool_props. split; [assumption | reflexivity]. }
  destruct (negb (Z.land (scan_state s) MULTIBYTE_G0 =? 0)).
  { intros H; injection H as <- <-.
    exists 1%nat. split; [cbn [length]; lia|].
    split; [reflexivity | intros Hk; discriminate Hk]. }
  destruct (negb (uchar c =? 0x5C)); intros H; [|discriminate H].
  injection H as <- <-.
  exists 1%nat. split; [cbn [length]; lia|].
  split; [reflexivity | intros Hk; discriminate Hk].
Qed.

Lemma NextBackslash_ISO2022_breaks (c : byte) (cp : list byte)
    (s : ScanState) :
  NextBackslash_ISO2022 (c :: cp) s = None -> uchar c = 0x5C.
Proof.
  unfold NextBackslash_ISO2022. cbv zeta.
  destruct (uchar c =? 0x1B).
  { destruct (EscapeCode _ _ _); intros H; discriminate H. }
  destruct (IsEndLine c); [intros H; discriminate H|].
  destruct (negb (shiftcount s =? 0)).
  { destruct (_ || _); intros H; discriminate H. }
  destruct (negb (Z.land (scan_state s) MULTIBYTE_G0 =? 0));
    [intros H; discriminate H|].
  destruct (negb (uchar c =? 0x5C)) eqn:E; intros H; [discriminate H|].
  bool_props. assumption.
Qed.

Lemma scan_ISO2022_stops (text : list byte) (fuel : nat) :
  forall (off : nat) (s : ScanState),
    (off <= length text)%nat ->
    (2 * length (skipn off text)
     + (if (shiftcount s =? 0)%Z then 0 else 1) <= fuel)%nat ->
    stops_at text (scan_ISO2022 fuel (skipn off text) s off).
Proof.
  induction fuel as [|fuel IH]; intros off s Ho Hf.
  - cbn [scan_ISO2022]. apply stops_at_end; [exact Ho|].
    destruct (skipn off text); [reflexivity | cbn [length] in Hf; lia].
  - destruct (skipn off text) as [|c cp] eqn:E.
    { cbn [scan_ISO2022]. apply stops_at_end; assumption. }
    cbn [scan_ISO2022].
    destruct (uchar c =? 0) eqn:E0.
    { apply Z.eqb_eq in E0. eapply stops_at_byte; eauto. }
    destruct (NextBackslash_ISO2022 (c :: cp) s) as [[cp' s']|] eqn:Es.
    + destruct (NextBackslash_ISO2022_moves c cp cp' s s' Es)
        as (k & Hk & -> & Hz).
      pose proof (length_skipn off text) as Hl. rewrite E in Hl.
      rewrite length_skipn.
      replace (off + (length (c :: cp) - (length (c :: cp) - k)))%nat
        with (k + off)%nat by lia.
      rewrite <- E, skipn_skipn.
      apply IH; [lia|].
      rewrite length_skipn. cbn [length] in *.
      destruct k as [|k].
      * destruct (Hz eq_refl) as [Hs Hs']. rewrite Hs'. cbn [Z.eqb].
        apply Z.eqb_neq in Hs. rewrite Hs in Hf. lia.
      * destruct (shiftcount s' =? 0), (shiftcount s =? 0); lia.
    + apply NextBackslash_ISO2022_breaks in Es.
      eapply stops_at_byte; eauto.
Qed.

End ScanISO2022.

(** X17. Whatever the character set and the text, the offset that
    [NextBackslash] returns is within the text, and it is the length of the
    text or the offset of a backslash byte or of a null byte. *)
Theorem NextBackslash_stops_at_backslash {hdr : Header} (key : Z)
    (text : list byte) :
  stops_at text (NextBackslash key text).
Proof.
  unfold NextBackslash.
  repeat match goal with
  | |- context [if ?b then _ else _] => destruct b
  end.
  - apply (scan_loop_stops NextBackslash_GBK) with (off := 0%nat);
      [unfold NextBackslash_GBK; scan_moves
      | unfold NextBackslash_GBK; scan_breaks | lia | cbn [skipn]; lia].
  - apply (scan_loop_stops NextBackslash_SJIS) with (off := 0%nat);
      [unfold NextBackslash_SJIS; scan_moves
      | unfold NextBackslash_SJIS; scan_breaks | lia | cbn [skipn]; lia].
  - apply (scan_loop_stops NextBackslash_BIG5) with (off := 0%nat);
      [unfold NextBackslash_BIG5; scan_moves
      | unfold NextBackslash_BIG5; scan_breaks | lia | cbn [skipn]; lia].
  - apply (scan_ISO2022_stops text (2 * length text) 0%nat);
      [lia | cbn [skipn shiftcount Z.eqb]; lia].
  - apply (scan_loop_stops NextBackslash_plain) with (off := 0%nat);
      [unfold NextBackslash_plain; scan_moves
      | unfold NextBackslash_plain; scan_breaks | lia | cbn [skipn]; lia].
Qed.

(** * [CountBackslashes] *)

Lemma backslash_bytes_cons (c : byte) (cp : list byte) :
  backslash_bytes (c :: cp)
  = (if uchar c =? 0x5C then 1 else 0) + backslash_bytes cp.
Proof.
  unfold backslash_bytes. cbn [filter].
  destruct (uchar c =? 0x5C); cbn [length]; lia.
Qed.

Lemma backslash_bytes_nonneg (cp : list byte) : 0 <= backslash_bytes cp.
Proof. unfold backslash_bytes. lia. Qed.

Lemma backslash_bytes_skipn (n : nat) :
  forall cp : list byte,
    backslash_bytes (skipn n cp) <= backslash_bytes cp.
Proof.
  induction n as [|n IH]; intros cp; [cbn [skipn]; lia|].
  destruct cp as [|c cp]; [cbn [skipn]; lia|].
  cbn [skipn]. rewrite backslash_bytes_cons. specialize (IH cp).
  destruct (uchar c =? 0x5C); lia.
Qed.

(** X18. Whatever the character set and the text, [CountBackslashes]
    counts no more backslashes than the text has backslash bytes. *)
Theorem CountBackslashes_at_most_bytes {hdr : Header} (key : Z)
    (text : list byte) :
  0 <= CountBackslashes key text <= backslash_bytes text.
Proof.
  unfold CountBackslashes. generalize (S (length text)) as fuel.
  intros fuel. revert text.
  induction fuel as [|fuel IH]; intros text.
  - cbn [CountBackslashes_loop]. pose proof (backslash_bytes_nonneg text).
    lia.
  - pose proof (backslash_bytes_nonneg text) as H0.
    destruct text as [|c cp]; [cbn [CountBackslashes_loop]; lia|].
    cbn [CountBackslashes_loop].
    destruct (uchar c =? 0); [lia|]. cbv zeta.
    pose proof (backslash_bytes_skipn (NextBackslash key (c :: cp))
                  (c :: cp)) as Hs.
    destruct (skipn (NextBackslash key (c :: cp)) (c :: cp))
      as [|c' cp'] eqn:E; [lia|].
    rewrite backslash_bytes_cons in Hs.
    destruct (uchar c' =? 0x5C) eqn:E5.
    + specialize (IH cp'). lia.
    + specialize (IH (c' :: cp')).
      rewrite backslash_bytes_cons, E5 in IH. lia.
Qed.

(** * [EscapeCodeLength] *)

(** X19. The length that [EscapeCodeLength] returns is at most the number
    of bytes at the cursor; the bytes it counts are all in 0x20..0x7E; and
    when the length is not zero the last of them is a final byte
    0x40..0x7E. *)
Theorem EscapeCodeLength_within_text (cp : list byte) :
  (EscapeCodeLength cp <= length cp)%nat
  /\ Forall (fun c => 0x20 <= uchar c <= 0x7E)
            (firstn (EscapeCodeLength cp) cp)
  /\ ((0 < EscapeCodeLength cp)%nat ->
      exists final : byte,
        nth_error cp (EscapeCodeLength cp - 1) = Some final
        /\ 0x40 <= uchar final <= 0x7E).
Proof.
  split; [apply EscapeCodeLength_le|].
  split; [apply EscapeCodeLength_printable|].
  unfold EscapeCodeLength. cbv zeta.
  match goal with
  | |- context [nth_error cp ?l] =>
    generalize l; intros n; destruct (nth_error cp n) as [b|] eqn:E
  end; [|intros H; lia].
  destruct (within 0x40 0x7E (uchar b)) eqn:Ew; [|intros H; lia].
  intros _. exists b. cbn [Nat.sub]. rewrite Nat.sub_0_r.
  split; [exact E | bool_props; lia].
Qed.

(** * Case folding of ASCII *)

Lemma CaseFoldUnicode_ascii (c : byte) :
  CaseFoldUnicode (uchar c mod 128)
  = [ascii_lower (to_char (uchar c mod 128))].
Proof. destruct c; vm_compute; reflexivity. Qed.

Lemma CaseFoldedUTF8_loop_ascii (text : list byte) :
  forall fuel : nat,
    Forall is_ascii text -> (length text <= fuel)%nat ->
    CaseFoldedUTF8_loop fuel text = map ascii_lower text.
Proof.
  induction text as [|c text IH]; intros fuel Ha Hf.
  - destruct fuel; reflexivity.
  - destruct fuel as [|fuel]; [cbn [length] in Hf; lia|].
    inversion Ha as [|? ? Hc Ht]; subst.
    cbn [CaseFoldedUTF8_loop map].
    rewrite (UTF8ToUnicode_ascii c text Hc).
    unfold is_ascii in Hc. pose proof (uchar_range c) as R.
    assert (E1 : (uchar c =? 0xFFFF) = false) by (apply Z.eqb_neq; lia).
    assert (E2 : (uchar c =? 0xFFFE) = false) by (apply Z.eqb_neq; lia).
    rewrite E1, E2. cbn [negb].
    pose proof (CaseFoldUnicode_ascii c) as Hfold.
    rewrite (Z.mod_small (uchar c) 128) in Hfold by lia.
    rewrite to_char_uchar in Hfold. rewrite Hfold.
    cbn [app]. f_equal. apply IH; [exact Ht | cbn [length] in Hf; lia].
Qed.

(** X20. For UTF-8 the case folding of a text of ASCII bytes is the text
    with each of the letters A..Z replaced by its lower case. *)
Theorem CaseFoldedUTF8_ASCII_lower_case {hdr : Header} (text : list byte) :
  Forall is_ascii text ->
  CaseFoldedUTF8 ISO_IR_192 text = map ascii_lower text.
Proof.
  intros Ha. unfold CaseFoldedUTF8. rewrite Z.eqb_refl. cbn [negb].
  apply CaseFoldedUTF8_loop_ascii; [exact Ha | lia].
Qed.

Lemma CaseFoldedUTF8_ASCII_lower_case_witness :
  @CaseFoldedUTF8 sample_header (@ISO_IR_192 sample_header)
    [x41; x7a; x5a; x30; x5b]
  = [x61; x7a; x7a; x30; x5b].
Proof.
  apply (@CaseFoldedUTF8_ASCII_lower_case sample_header
           [x41; x7a; x5a; x30; x5b]).
  repeat constructor; unfold is_ascii; cbn; lia.
Defined.

(** * JIS X 0201 in Shift-JIS and EUC-JP *)

(** A loop whose iteration takes the bytes [g c] of a character and writes
    [h c], without error. *)
Lemma convert_loop_chars (body : list byte -> Step)
    (g h : byte -> list byte) (P : byte -> Prop) :
  (forall c rest, P c ->
     (1 <= length (g c))%nat /\ body (g c ++ rest) = step (h c) rest false) ->
  forall (text : list byte) (fuel off : nat),
    Forall P text -> (length (flat_map g text) <= fuel)%nat ->
    convert_loop body fuel (flat_map g text) off None
    = (flat_map h text, (off + length (flat_map g text))%nat).
Proof.
  intros Hb text. induction text as [|c text IH]; intros fuel off Ha Hf.
  - cbn [flat_map]. rewrite convert_loop_nil. cbn. f_equal. lia.
  - inversion Ha as [|? ? Hc Ht]; subst.
    cbn [flat_map] in *.
    destruct (Hb c (flat_map g text) Hc) as [Hl Hs].
    rewrite length_app in *.
    destruct (g c) as [|x xs] eqn:Eg; [cbn [length] in Hl; lia|].
    destruct fuel as [|fuel]; [cbn [length] in Hf; lia|].
    cbn [app] in *. rewrite convert_loop_step, Hs.
    cbn [st_break st_out st_rest st_err step].
    cbn [length] in Hf.
    rewrite (IH fuel _ Ht) by lia.
    cbn [fst snd]. f_equal. cbn [length]. rewrite length_app. lia.
Qed.

Lemma convert_chars (body : list byte -> Step)
    (g h : byte -> list byte) (P : byte -> Prop) (text : list byte) :
  (forall c rest, P c ->
     (1 <= length (g c))%nat /\ body (g c ++ rest) = step (h c) rest false) ->
  Forall P text ->
  convert body (flat_map g text)
  = (flat_map h text, length (flat_map g text)).
Proof.
  intros Hb Ha. unfold convert.
  rewrite (convert_loop_chars body g h P Hb text _ 0 Ha) by lia.
  reflexivity.
Qed.

Lemma flat_map_single (text : list byte) :
  flat_map (fun c => [c]) text = text.
Proof. induction text as [|c text IH]; [reflexivity|]. cbn. f_equal. exact IH. Qed.

Lemma jisx0201_code_range (c : byte) :
  is_jisx0201 c ->
  (uchar c <= 0x7F /\ jisx0201_code c = uchar c)
  \/ (0xA1 <= uchar c <= 0xDF /\ jisx0201_code c = uchar c + 0xFEC0).
Proof.
  intros [H | H]; unfold jisx0201_code.
  - left. apply Z.leb_le in H as E. rewrite E. auto.
  - right. assert (E : (uchar c <=? 0x7F) = false) by (apply Z.leb_gt; lia).
    rewrite E. auto.
Qed.

Section JISX0201.
Context {hdr : Header}.

Lemma SJISToUTF8_body_jisx0201 (mode : Mode) (c : byte) (rest : list byte) :
  is_jisx0201 c ->
  SJISToUTF8_body mode (c :: rest)
  = step (UnicodeToUTF8 (jisx0201_code c)) rest false.
Proof.
  intros Hc. pose proof (uchar_range c) as R.
  unfold SJISToUTF8_body. cbv zeta. rewrite land_80.
  destruct (jisx0201_code_range c Hc) as [[H ->] | [H ->]].
  - apply Z.leb_le in H as E. rewrite E.
    rewrite (UnicodeToUTF8_ascii c H). reflexivity.
  - assert (E : (uchar c <=? 0x7F) = false) by (apply Z.leb_gt; lia).
    assert (Ew : within 0xA1 0xDF (uchar c) = true).
    { unfold within. apply andb_true_intro.
      split; apply Z.leb_le; lia. }
    rewrite E, Ew. unfold emit.
    assert (En : (uchar c + 0xFEC0 =? 0xFFFD) = false)
      by (apply Z.eqb_neq; lia).
    rewrite En. reflexivity.
Qed.

Lemma EUCJPToUTF8_body_jisx0201 (mode : Mode) (c : byte)
    (rest : list byte) :
  is_jisx0201 c ->
  EUCJPToUTF8_body mode (eucjp_jisx0201 c ++ rest)
  = step (UnicodeToUTF8 (jisx0201_code c)) rest false.
Proof.
  intros Hc. pose proof (uchar_range c) as R.
  unfold eucjp_jisx0201.
  destruct (jisx0201_code_range c Hc) as [[H ->] | [H ->]].
  - apply Z.leb_le in H as E. rewrite E. cbn [app].
    unfold EUCJPToUTF8_body. cbv zeta. rewrite land_80, E.
    rewrite (UnicodeToUTF8_ascii c H). reflexivity.
  - assert (E : (uchar c <=? 0x7F) = false) by (apply Z.leb_gt; lia).
    rewrite E. cbn [app].
    unfold EUCJPToUTF8_body. cbv zeta. rewrite land_80.
    change (uchar x8e) with 0x8E. cbn [Z.leb Z.compare Pos.compare
      Pos.compare_cont Z.ltb Z.eqb Pos.eqb andb].
    assert (E1 : (0xA1 <=? uchar c) && (uchar c <? 0xFF) = true).
    { apply andb_true_intro. split; [apply Z.leb_le | apply Z.ltb_lt]; lia. }
    assert (E2 : (uchar c <=? 0xDF) = true) by (apply Z.leb_le; lia).
    rewrite E1, E2. unfold emit.
    assert (En : (uchar c + 0xFEC0 =? 0xFFFD) = false)
      by (apply Z.eqb_neq; lia).
    rewrite En. reflexivity.
Qed.

Lemma jisx0201_decoded (c : byte) (rest : list byte) :
  is_jisx0201 c ->
  (1 <= length (UnicodeToUTF8 (jisx0201_code c)))%nat
  /\ UTF8ToUnicode (UnicodeToUTF8 (jisx0201_code c) ++ rest)
     = (jisx0201_code c, rest).
Proof.
  intros Hc. pose proof (uchar_range c) as R. split.
  - apply UnicodeToUTF8_length.
  - apply UTF8ToUnicode_UnicodeToUTF8;
      destruct (jisx0201_code_range c Hc) as [[H ->] | [H ->]]; lia.
Qed.

Lemma UTF8ToSJIS_body_jisx0201 (c : byte) (rest : list byte) :
  is_jisx0201 c ->
  UTF8ToSJIS_body (UnicodeToUTF8 (jisx0201_code c) ++ rest)
  = step [c] rest false.
Proof.
  intros Hc. pose proof (uchar_range c) as R.
  unfold UTF8ToSJIS_body.
  destruct (jisx0201_decoded c rest Hc) as [_ ->]. cbv zeta.
  destruct (jisx0201_code_range c Hc) as [[H ->] | [H ->]].
  - assert (E : (uchar c <? 0x80) = true) by (apply Z.ltb_lt; lia).
    rewrite E, to_char_uchar. reflexivity.
  - assert (E : (uchar c + 0xFEC0 <? 0x80) = false)
      by (apply Z.ltb_ge; lia).
    assert (Ew : within 0xFF61 0xFF9F (uchar c + 0xFEC0) = true).
    { unfold within. apply andb_true_intro. split; apply Z.leb_le; lia. }
    rewrite E, Ew.
    replace (uchar c + 0xFEC0 - 0xFEC0) with (uchar c) by lia.
    rewrite to_char_uchar. reflexivity.
Qed.

Lemma UTF8ToEUCJP_body_jisx0201 (c : byte) (rest : list byte) :
  is_jisx0201 c ->
  UTF8ToEUCJP_body (UnicodeToUTF8 (jisx0201_code c) ++ rest)
  = step (eucjp_jisx0201 c) rest false.
Proof.
  intros Hc. pose proof (uchar_range c) as R.
  unfold UTF8ToEUCJP_body, eucjp_jisx0201.
  destruct (jisx0201_decoded c rest Hc) as [_ ->]. cbv zeta.
  destruct (jisx0201_code_range c Hc) as [[H ->] | [H ->]].
  - assert (E : (uchar c <? 0x80) = true) by (apply Z.ltb_lt; lia).
    apply Z.leb_le in H as E'.
    rewrite E, E', to_char_uchar. reflexivity.
  - assert (E : (uchar c + 0xFEC0 <? 0x80) = false)
      by (apply Z.ltb_ge; lia).
    assert (E' : (uchar c <=? 0x7F) = false) by (apply Z.leb_gt; lia).
    assert (Ew : within 0xFF61 0xFF9F (uchar c + 0xFEC0) = true).
    { unfold within. apply andb_true_intro. split; apply Z.leb_le; lia. }
    rewrite E, E', Ew.
    replace (uchar c + 0xFEC0 - 0xFEC0) with (uchar c) by lia.
    rewrite to_char_uchar. reflexivity.
Qed.

(** X21. A text of JIS X 0201 bytes, ASCII and the half-width katakana
    A1..DF, is decoded by [SJISToUTF8] to the UTF-8 of its code points and
    encoded back by [UTF8ToSJIS] to the same bytes; in EUC-JP, where a
    katakana byte follows the prefix 8E, [EUCJPToUTF8] and [UTF8ToEUCJP] do
    the same.  No table is consulted and no error is reported. *)
Theorem JISX0201_round_trip (text : list byte) (mode : Mode) :
  Forall is_jisx0201 text ->
  SJISToUTF8 text mode = (jisx0201_utf8 text, length text)
  /\ UTF8ToSJIS (jisx0201_utf8 text) = (text, length (jisx0201_utf8 text))
  /\ EUCJPToUTF8 (flat_map eucjp_jisx0201 text) mode
     = (jisx0201_utf8 text, length (flat_map eucjp_jisx0201 text))
  /\ UTF8ToEUCJP (jisx0201_utf8 text)
     = (flat_map eucjp_jisx0201 text, length (jisx0201_utf8 text)).
Proof.
  intros Ha. unfold jisx0201_utf8. repeat split.
  - unfold SJISToUTF8.
    pose proof (convert_chars (SJISToUTF8_body mode) (fun c => [c])
                  (fun c => UnicodeToUTF8 (jisx0201_code c))
                  is_jisx0201 text) as H.
    rewrite flat_map_single in H. apply H; [|exact Ha].
    intros c rest Hc. split; [cbn; lia|].
    apply SJISToUTF8_body_jisx0201, Hc.
  - unfold UTF8ToSJIS.
    pose proof (convert_chars UTF8ToSJIS_body
                  (fun c => UnicodeToUTF8 (jisx0201_code c))
                  (fun c => [c]) is_jisx0201 text) as H.
    rewrite flat_map_single in H. apply H; [|exact Ha].
    intros c rest Hc. split; [apply UnicodeToUTF8_length|].
    apply UTF8ToSJIS_body_jisx0201, Hc.
  - unfold EUCJPToUTF8.
    apply (convert_chars _ _ _ is_jisx0201); [|exact Ha].
    intros c rest Hc. split;
      [unfold eucjp_jisx0201; destruct (_ <=? _); cbn; lia|].
    apply EUCJPToUTF8_body_jisx0201, Hc.
  - unfold UTF8ToEUCJP.
    apply (convert_chars _ _ _ is_jisx0201); [|exact Ha].
    intros c rest Hc. split; [apply UnicodeToUTF8_length|].
    apply UTF8ToEUCJP_body_jisx0201, Hc.
Qed.

End JISX0201.

Lemma JISX0201_round_trip_witness :
  @SJISToUTF8 sample_header [x41; xb1; x5c] UTF8_REPLACE
    = ([x41; xef; xbd; xb1; x5c], 3%nat)
  /\ @UTF8ToSJIS sample_header [x41; xef; xbd; xb1; x5c]
     = ([x41; xb1; x5c], 5%nat)
  /\ @EUCJPToUTF8 sample_header [x41; x8e; xb1; x5c] UTF8_REPLACE
     = ([x41; xef; xbd; xb1; x5c], 4%nat)
  /\ @UTF8ToEUCJP sample_header [x41; xef; xbd; xb1; x5c]
     = ([x41; x8e; xb1; x5c], 5%nat).
Proof.
  apply (@JISX0201_round_trip sample_header [x41; xb1; x5c] UTF8_REPLACE).
  repeat constructor; unfold is_jisx0201; cbn; lia.
Defined.

(** * The state word of ISO 2022 *)

Lemma land_lor_other (st g mask : Z) :
  Z.land mask g = 0 -> Z.land (Z.lor st g) mask = Z.land st mask.
Proof.
  intros H. rewrite Z.land_lor_distr_l, (Z.land_comm g mask), H.
  apply Z.lor_0_r.
Qed.

Lemma land_lor_disjoint (mask a b : Z) :
  Z.land mask a = 0 -> Z.land mask b = 0 -> Z.land mask (Z.lor a b) = 0.
Proof. intros Ha Hb. rewrite Z.land_lor_distr_r, Ha, Hb. reflexivity. Qed.

(** X22. [EscapeCode] changes no bit of the state word other than the
    seven flags [MULTIBYTE_G0..G3] and [CHARSET96_G1..G3]: under a mask
    that has none of them the state word is after the call what it was
    before, whatever the escape code. *)
Theorem EscapeCode_keeps_other_bits {hdr : Header} (cp : list byte)
    (l : nat) (state mask : Z) :
  Z.land mask MULTIBYTE_G0 = 0 -> Z.land mask MULTIBYTE_G1 = 0 ->
  Z.land mask MULTIBYTE_G2 = 0 -> Z.land mask MULTIBYTE_G3 = 0 ->
  Z.land mask CHARSET96_G1 = 0 -> Z.land mask CHARSET96_G2 = 0 ->
  Z.land mask CHARSET96_G3 = 0 ->
  Z.land (snd (EscapeCode cp l state)) mask = Z.land state mask.
Proof.
  intros M0 M1 M2 M3 C1 C2 C3. unfold EscapeCode. cbv zeta.
  repeat match goal with
         | |- context [if ?b then _ else _] => destruct b
         end;
  cbn [snd];
  repeat first
    [ rewrite land_lor_other by auto using land_lor_disjoint
    | rewrite land_clear_other by auto using land_lor_disjoint ];
  reflexivity.
Qed.

Lemma EscapeCode_keeps_other_bits_witness :
  Z.land (snd (@EscapeCode sample_header [x24; x2a; x41] 3 0x20FF)) 0x00FF
  = Z.land 0x20FF 0x00FF.
Proof.
  apply (@EscapeCode_keeps_other_bits sample_header [x24; x2a; x41] 3
           0x20FF 0x00FF); reflexivity.
Defined.

(** * [UnknownToUTF8] *)

Lemma UnknownToUTF8_loop_next (mode : Mode) (text : list byte) :
  forall (a : byte) (after : list byte),
    Forall (fun c => 0x21 <= uchar c /\ uchar c <> 0x7F) text ->
    UnknownToUTF8_loop text (a :: after) mode
    = flat_map (fun c => BadCharsToUTF8 [c] mode) (tl (text ++ [a])).
Proof.
  induction text as [|c text IH]; intros a after Ha; [reflexivity|].
  inversion Ha as [|? ? [Hc1 Hc2] Ht]; subst.
  cbn [UnknownToUTF8_loop]. cbv zeta.
  assert (E : within 0x21 0x7E (uchar c) || (0x7F <? uchar c) = true).
  { unfold within. destruct (Z_le_gt_dec (uchar c) 0x7E) as [H | H].
    - apply orb_true_iff. left. apply andb_true_intro.
      split; apply Z.leb_le; lia.
    - apply orb_true_iff. right. apply Z.ltb_lt. lia. }
  rewrite E, (IH a after Ht). cbn [app tl].
  destruct text as [|c2 text]; reflexivity.
Qed.

(** X23. For a segment of bytes from 0x21 on other than 0x7F, each byte a
    bad character, [UnknownToUTF8] hands to [BadCharsToUTF8] not the byte
    at hand but the byte that follows it, the last time the byte behind
    the segment: in the mode [UTF8_ESCAPE] the escapes written are those of
    the segment shifted by one byte.  The offset returned is 0. *)
Theorem UnknownToUTF8_escapes_next_byte (text after : list byte) (a : byte)
    (mode : Mode) :
  Forall (fun c => 0x21 <= uchar c /\ uchar c <> 0x7F) text ->
  UnknownToUTF8 text (a :: after) mode
  = (flat_map (fun c => BadCharsToUTF8 [c] mode) (tl (text ++ [a])),
     0%nat).
Proof.
  intros Ha. unfold UnknownToUTF8.
  rewrite (UnknownToUTF8_loop_next mode text a after Ha). reflexivity.
Qed.

Lemma UnknownToUTF8_escapes_next_byte_witness :
  UnknownToUTF8 [x41; x42] [x1b] UTF8_ESCAPE
  = (BadCharsToUTF8 [x42] UTF8_ESCAPE ++ BadCharsToUTF8 [x1b] UTF8_ESCAPE,
     0%nat).
Proof.
  apply (UnknownToUTF8_escapes_next_byte [x41; x42] [] x1b UTF8_ESCAPE).
  repeat constructor; cbn; lia.
Defined.

(** * [ISO2022ToUTF8] on a text with no escape and no control code *)

Section SingleSegment.
Context {hdr : Header}.

Lemma split_segment_all (text : list byte) :
  Forall (fun b => is_delimiter b = false) text ->
  split_segment text = (text, []).
Proof.
  induction 1 as [|c text Hc Ht IH]; [reflexivity|].
  cbn [split_segment]. rewrite Hc, IH. reflexivity.
Qed.

Lemma ISO2022_loop_end (nested : Nested) (key : Z) (mode : Mode)
    (fuel l n : nat) (iso : Iso) :
  ISO2022_loop nested key mode fuel [] l n iso
  = {| run_out := []; run_n := n; run_iso := iso |}.
Proof. destruct fuel; reflexivity. Qed.

(** X24. A text that is not empty and has no ESC and none of the control
    codes 0x0A..0x0F is one segment for [ISO2022ToUTF8]: the output is what
    the decoder of the initial designation of the key makes of the whole
    text, and the offset is the one that decoder returns, or the length of
    the text if that is less. *)
Theorem ISO2022ToUTF8_single_segment (nested : Nested) (key : Z) (c : byte)
    (text : list byte) (mode : Mode) :
  Forall (fun b => is_delimiter b = false) (c :: text) ->
  fst (ISO2022ToUTF8 nested key (c :: text) mode)
    = fst (decode_segment nested (InitISO2022 key) (c :: text) [] mode)
  /\ snd (ISO2022ToUTF8 nested key (c :: text) mode)
     = Nat.min (length (c :: text))
               (snd (decode_segment nested (InitISO2022 key) (c :: text) []
                       mode)).
Proof.
  intros Ha. unfold ISO2022ToUTF8, ISO2022_run. cbv zeta. cbn [fst snd].
  change (length (c :: text)) with (S (length text)).
  cbn [ISO2022_loop]. rewrite (split_segment_all (c :: text) Ha).
  destruct (decode_segment nested (InitISO2022 key) (c :: text) [] mode)
    as [o m].
  cbn [control_codes length Nat.sub firstn escape_codes].
  rewrite (ISO2022_loop_end nested key mode). cbn [run_out run_n fst snd].
  rewrite !app_nil_r. split; [reflexivity|].
  rewrite Nat.sub_diag. cbn [Nat.add]. unfold SetErrorPosition.
  destruct (m =? S (length text))%nat eqn:Em; cbn [negb].
  - apply Nat.eqb_eq in Em. lia.
  - apply Nat.eqb_neq in Em.
    destruct (m <? S (length text))%nat eqn:Elt;
      [apply Nat.ltb_lt in Elt | apply Nat.ltb_ge in Elt]; lia.
Qed.

End SingleSegment.

Lemma ISO2022ToUTF8_single_segment_witness :
  fst (@ISO2022ToUTF8 sample_header (@AnyToUTF8 sample_header 1) 32
         [x41; x42] UTF8_REPLACE)
    = fst (@decode_segment sample_header (@AnyToUTF8 sample_header 1)
             (@InitISO2022 sample_header 32) [x41; x42] [] UTF8_REPLACE)
  /\ snd (@ISO2022ToUTF8 sample_header (@AnyToUTF8 sample_header 1) 32
            [x41; x42] UTF8_REPLACE)
     = Nat.min 2
         (snd (@decode_segment sample_header (@AnyToUTF8 sample_header 1)
                 (@InitISO2022 sample_header 32) [x41; x42] []
                 UTF8_REPLACE)).
Proof.
  apply (@ISO2022ToUTF8_single_segment sample_header
           (@AnyToUTF8 sample_header 1) 32 x41 [x42] UTF8_REPLACE).
  repeat constructor.
Defined.

(** * The escape codes of the table of character sets *)

(** X25. Every escape code that the table [Charsets] registers is found by
    [CharacterSetFromEscapeCode], and the key returned is the key of the
    entry that registers it: no entry is shadowed by an earlier one.  The
    entries without an escape code are not looked up by one. *)
Theorem CharacterSetFromEscapeCode_finds_registered {hdr : Header} :
  Forall (fun c => EscapeCode_of c = []
                   \/ CharacterSetFromEscapeCode (EscapeCode_of c)
                        (length (EscapeCode_of c)) = Key c)
         Charsets.
Proof.
  unfold Charsets.
  repeat (apply Forall_cons;
          [first [left; reflexivity | right; reflexivity]|]).
  apply Forall_nil.
Qed.
